(** * A segregated-free-list allocator (mm.c), embedded and verified

    The allocator of the malloc lab keeps its whole state inside one growable
    byte region: fourteen list heads, a prologue block, the blocks with their
    boundary tags, and an epilogue header.  This development embeds the C code
    function by function over a byte-addressed memory and proves properties of
    the embedding.

    - [size_t] values are integers modulo [2^64]; header words are
      [unsigned int], i.e. integers modulo [2^32], stored little-endian.
    - Every function threads the heap explicitly and returns a [res]: either a
      value, a memory fault (an access outside the region), or divergence (a
      list walk that never reaches the end of its list). *)

From Stdlib Require Import ZArith Lia.
From Stdlib.Strings Require Import Byte Ascii.
From Stdlib.Strings Require String.
From stdpp Require Import base list.

Local Open Scope Z_scope.

(** ** Results of running C code *)

Inductive err : Type :=
| SegFault   (* access outside [mem_start_brk, mem_brk) *)
| Diverge.   (* a free-list loop that does not terminate *)

Inductive res (A : Type) : Type :=
| Ok (a : A)
| Err (e : err).
Arguments Ok {A} a.
Arguments Err {A} e.

#[global] Instance res_ret : MRet res := fun A a => Ok a.
#[global] Instance res_bind : MBind res := fun A B f m =>
  match m with
  | Ok a => f a
  | Err e => Err e
  end.

(** ** Machine integers *)

Definition size_t (x : Z) : Z := x mod 2 ^ 64.
Definition uint (x : Z) : Z := x mod 2 ^ 32.

Definition Z_of_byte (b : byte) : Z := Z.of_N (Byte.to_N b).
Definition byte_of_Z (z : Z) : byte :=
  match Byte.of_N (Z.to_N (z mod 256)) with
  | Some b => b
  | None => x00
  end.

(** Little-endian encoding of an [unsigned int]. *)
Definition word_bytes (v : Z) : list byte :=
  [byte_of_Z v; byte_of_Z (v / 256); byte_of_Z (v / 65536); byte_of_Z (v / 16777216)].
Definition bytes_word (b0 b1 b2 b3 : byte) : Z :=
  Z_of_byte b0 + 256 * Z_of_byte b1 + 65536 * Z_of_byte b2 + 16777216 * Z_of_byte b3.

(** ** The heap region and the allocator's global *)

Record heap : Type := Heap {
  mem_start_brk : Z;       (* address of the first heap byte *)
  mem_max_addr : Z;        (* one past the last byte the region may ever hold *)
  mem_heap : list byte;    (* the bytes of [mem_start_brk, mem_brk) *)
  mem_fresh : Z -> byte;   (* what a newly appended byte happens to contain *)
  sbrk_log : list Z;       (* the growth requests made so far, newest first *)
  heap_listp : Z           (* mm.c: static char *heap_listp *)
}.

Definition mem_brk (st : heap) : Z := mem_start_brk st + Z.of_nat (length (mem_heap st)).

Definition set_mem (st : heap) (l : list byte) : heap :=
  Heap (mem_start_brk st) (mem_max_addr st) l (mem_fresh st) (sbrk_log st) (heap_listp st).
Definition set_listp (st : heap) (p : Z) : heap :=
  Heap (mem_start_brk st) (mem_max_addr st) (mem_heap st) (mem_fresh st) (sbrk_log st) p.
Definition log_request (st : heap) (n : Z) : heap :=
  Heap (mem_start_brk st) (mem_max_addr st) (mem_heap st) (mem_fresh st) (n :: sbrk_log st)
       (heap_listp st).

Definition NULL : Z := 0.

(** [in_heap st p n]: the [n] bytes at [p] lie inside the region. *)
Definition in_heap (st : heap) (p n : Z) : bool :=
  (mem_start_brk st <=? p) && (p + n <=? mem_brk st).

Definition offset (st : heap) (p : Z) : nat := Z.to_nat (p - mem_start_brk st).

Definition load_byte (st : heap) (p : Z) : option byte :=
  if in_heap st p 1 then mem_heap st !! offset st p else None.

Definition load_bytes (st : heap) (p n : Z) : res (list byte) :=
  if n =? 0 then Ok []
  else if in_heap st p n then Ok (take (Z.to_nat n) (drop (offset st p) (mem_heap st)))
  else Err SegFault.

Definition store_bytes (st : heap) (p : Z) (bs : list byte) : res heap :=
  if Z.of_nat (length bs) =? 0 then Ok st
  else if in_heap st p (Z.of_nat (length bs))
  then Ok (set_mem st (list_inserts (offset st p) bs (mem_heap st)))
  else Err SegFault.

(** ** memlib: the backing region

    Modelled from the spec: [mem_sbrk] of memlib.c is not among the sources.
    Given a byte count it returns the old break and appends that many bytes of
    unspecified content, or signals exhaustion ([None], the C code's
    [(void * )-1]) and leaves the region as it was. *)
Module Memlib.

Definition mem_sbrk (st : heap) (incr : Z) : option Z * heap :=
  let st := log_request st incr in
  if (incr <? 0) || (mem_max_addr st <? mem_brk st + incr) then (None, st)
  else
    let old_brk := mem_brk st in
    let fresh := map (fun i => mem_fresh st (old_brk + Z.of_nat i)) (seq 0 (Z.to_nat incr)) in
    (Some old_brk, set_mem st (mem_heap st ++ fresh)).

End Memlib.

(** ** string.h *)

Definition memcpy (st : heap) (dst src n : Z) : res heap :=
  bs ← load_bytes st src n; store_bytes st dst bs.

Definition memset (st : heap) (dst : Z) (c : byte) (n : Z) : res heap :=
  if n =? 0 then Ok st
  else if in_heap st dst n then store_bytes st dst (replicate (Z.to_nat n) c)
  else Err SegFault.

(** ** mm.c: constants and macros *)
Module Mm.

Definition WSIZE : Z := 4.
Definition DSIZE : Z := 8.
Definition CLASS_CNT : Z := 14.
Definition CHUNKSIZE : Z := Z.shiftl 1 8.

Definition MAX (x y : Z) : Z := if y <? x then x else y.

(** [PACK(size, alloc)] *)
Definition PACK (size alloc : Z) : Z := Z.lor size alloc.

(** [GET(p)] and [PUT(p, val)]: an [unsigned int] at address [p]. *)
Definition GET (st : heap) (p : Z) : res Z :=
  bs ← load_bytes st p 4;
  match bs with
  | [b0; b1; b2; b3] => Ok (bytes_word b0 b1 b2 b3)
  | _ => Err SegFault
  end.

Definition PUT (st : heap) (p val : Z) : res heap :=
  store_bytes st p (word_bytes (uint val)).

(** [GET_SIZE(p)] is [GET(p) & ~0x7], [GET_ALLOC(p)] is [GET(p) & 0x1]. *)
Definition GET_SIZE (st : heap) (p : Z) : res Z :=
  w ← GET st p; Ok (Z.land w (uint (Z.lnot 7))).
Definition GET_ALLOC (st : heap) (p : Z) : res Z :=
  w ← GET st p; Ok (Z.land w 1).

Definition HDRP (bp : Z) : Z := bp - WSIZE.
Definition FTRP (st : heap) (bp : Z) : res Z :=
  s ← GET_SIZE st (HDRP bp); Ok (bp + s - DSIZE).

Definition NEXT_BLKP (st : heap) (bp : Z) : res Z :=
  s ← GET_SIZE st (bp - WSIZE); Ok (bp + s).
Definition PREV_BLKP (st : heap) (bp : Z) : res Z :=
  s ← GET_SIZE st (bp - DSIZE); Ok (bp - s).

(** Links are stored as offsets from [heap_listp]; offset 0 stands for NULL. *)
Definition ABS2REL (st : heap) (abs_bp : Z) : Z :=
  if abs_bp =? NULL then 0 else uint (abs_bp - heap_listp st).
Definition REL2ABS (st : heap) (rel_bp : Z) : Z :=
  if rel_bp =? 0 then NULL else heap_listp st + rel_bp.

Definition PREDP (bp : Z) : Z := bp.
Definition SUCCP (bp : Z) : Z := bp + WSIZE.

Definition GET_PRED (st : heap) (bp : Z) : res Z :=
  w ← GET st (PREDP bp); Ok (REL2ABS st w).
Definition GET_SUCC (st : heap) (bp : Z) : res Z :=
  w ← GET st (SUCCP bp); Ok (REL2ABS st w).

Definition GET_HEAD (st : heap) (headp : Z) : res Z :=
  w ← GET st headp; Ok (REL2ABS st w).
Definition SET_HEAD (st : heap) (headp next : Z) : res heap :=
  PUT st headp (ABS2REL st next).

Definition SET_PRED (st : heap) (bp pred : Z) : res heap :=
  PUT st (PREDP bp) (ABS2REL st pred).
Definition SET_SUCC (st : heap) (bp succ : Z) : res heap :=
  PUT st (SUCCP bp) (ABS2REL st succ).

(** A list in a region of [n] bytes has fewer than [n] nodes unless it is
    cyclic, so a walk that is still running after [n] steps never ends. *)
Definition walk_fuel (st : heap) : nat := S (length (mem_heap st)).

(** ** mm.c: the free-list index *)

(** [get_listp]: the head cell of the class that holds blocks of [size]. *)
Definition class_of (size : Z) : Z :=
  if size <=? 8 then 0
  else if size <=? 16 then 1
  else if size <=? 24 then 2
  else if size <=? 32 then 3
  else if size <=? 64 then 4
  else if size <=? 128 then 5
  else if size <=? 256 then 6
  else if size <=? 512 then 7
  else if size <=? 1024 then 8
  else if size <=? 2048 then 9
  else if size <=? 4096 then 10
  else if size <=? 8192 then 11
  else if size <=? 16384 then 12
  else 13.

Definition head_cell (st : heap) (class_id : Z) : Z :=
  heap_listp st + (class_id - CLASS_CNT - 2) * WSIZE.

Definition get_listp (st : heap) (size : Z) : Z := head_cell st (class_of size).

(** The [while] loop of [insert_to_free_list]. *)
Fixpoint insert_scan (fuel : nat) (st : heap) (size pred succ : Z) : res (Z * Z) :=
  if succ =? NULL then Ok (pred, succ)
  else
    s ← GET_SIZE st (HDRP succ);
    if s <? size then
      match fuel with
      | O => Err Diverge
      | S fuel => next ← GET_SUCC st succ; insert_scan fuel st size succ next
      end
    else Ok (pred, succ).

Definition insert_to_free_list (st : heap) (bp : Z) : res heap :=
  size ← GET_SIZE st (HDRP bp);
  let headp := get_listp st size in
  succ0 ← GET_HEAD st headp;
  '(pred, succ) ← insert_scan (walk_fuel st) st size headp succ0;
  if (pred =? headp) && (succ =? NULL) then
    (* Case 1: headp(pred) -> bp -> NULL(succ) *)
    st ← SET_HEAD st headp bp;
    st ← SET_PRED st bp NULL;
    SET_SUCC st bp NULL
  else if (pred =? headp) && negb (succ =? NULL) then
    (* Case 2: headp(pred) -> bp -> succ *)
    st ← SET_HEAD st headp bp;
    st ← SET_PRED st bp NULL;
    st ← SET_SUCC st bp succ;
    SET_PRED st succ bp
  else if negb (pred =? headp) && (succ =? NULL) then
    (* Case 3: pred -> bp -> NULL(succ) *)
    st ← SET_SUCC st pred bp;
    st ← SET_PRED st bp pred;
    SET_SUCC st bp succ
  else
    (* Case 4: pred -> bp -> succ *)
    st ← SET_SUCC st pred bp;
    st ← SET_PRED st bp pred;
    st ← SET_SUCC st bp succ;
    SET_PRED st succ bp.

Definition remove_from_free_list (st : heap) (bp : Z) : res heap :=
  size ← GET_SIZE st (HDRP bp);
  let headp := get_listp st size in
  pred ← GET_PRED st bp;
  succ ← GET_SUCC st bp;
  if (pred =? NULL) && (succ =? NULL) then
    SET_HEAD st headp NULL
  else if (pred =? NULL) && negb (succ =? NULL) then
    st ← SET_HEAD st headp succ;
    SET_PRED st succ NULL
  else if negb (pred =? NULL) && (succ =? NULL) then
    SET_SUCC st pred NULL
  else
    st ← SET_SUCC st pred succ;
    SET_PRED st succ pred.

(** ** mm.c: coalescing, search, placement, growth *)

Definition coalesce (st : heap) (bp : Z) : res (Z * heap) :=
  prev_bp ← PREV_BLKP st bp;
  prev_alloc ← GET_ALLOC st (HDRP prev_bp);
  next_bp ← NEXT_BLKP st bp;
  next_alloc ← GET_ALLOC st (HDRP next_bp);
  size ← GET_SIZE st (HDRP bp);
  if negb (prev_alloc =? 0) && negb (next_alloc =? 0) then
    (* Case 1 *)
    Ok (bp, st)
  else if negb (prev_alloc =? 0) && (next_alloc =? 0) then
    (* Case 2 *)
    st ← remove_from_free_list st bp;
    st ← remove_from_free_list st next_bp;
    nb ← NEXT_BLKP st bp;
    ns ← GET_SIZE st (HDRP nb);
    let size := size_t (size + ns) in
    st ← PUT st (HDRP bp) (PACK size 0);
    f ← FTRP st bp;
    st ← PUT st f (PACK size 0);
    st ← insert_to_free_list st bp;
    Ok (bp, st)
  else if (prev_alloc =? 0) && negb (next_alloc =? 0) then
    (* Case 3 *)
    st ← remove_from_free_list st bp;
    st ← remove_from_free_list st prev_bp;
    pb ← PREV_BLKP st bp;
    ps ← GET_SIZE st (HDRP pb);
    let size := size_t (size + ps) in
    pb ← PREV_BLKP st bp;
    st ← PUT st (HDRP pb) (PACK size 0);
    f ← FTRP st bp;
    st ← PUT st f (PACK size 0);
    bp ← PREV_BLKP st bp;
    st ← insert_to_free_list st bp;
    Ok (bp, st)
  else
    (* Case 4 *)
    st ← remove_from_free_list st prev_bp;
    st ← remove_from_free_list st bp;
    st ← remove_from_free_list st next_bp;
    pb ← PREV_BLKP st bp;
    ps ← GET_SIZE st (HDRP pb);
    nb ← NEXT_BLKP st bp;
    ns ← GET_SIZE st (HDRP nb);
    let size := size_t (size + uint (ps + ns)) in
    pb ← PREV_BLKP st bp;
    st ← PUT st (HDRP pb) (PACK size 0);
    nb ← NEXT_BLKP st bp;
    f ← FTRP st nb;
    st ← PUT st f (PACK size 0);
    bp ← PREV_BLKP st bp;
    st ← insert_to_free_list st bp;
    Ok (bp, st).

(** The inner [while (bp)] loop of [find_fit]. *)
Fixpoint find_in_list (fuel : nat) (st : heap) (bp asize : Z) : res Z :=
  if bp =? NULL then Ok NULL
  else
    s ← GET_SIZE st (HDRP bp);
    if asize <=? s then Ok bp
    else
      match fuel with
      | O => Err Diverge
      | S fuel => next ← GET_SUCC st bp; find_in_list fuel st next asize
      end.

(** The outer [while (headp != list_headp_end)] loop of [find_fit]. *)
Fixpoint find_fit_from (classes : nat) (st : heap) (headp list_headp_end asize : Z) : res Z :=
  if headp =? list_headp_end then Ok NULL
  else
    match classes with
    | O => Err Diverge
    | S classes =>
        bp ← GET_HEAD st headp;
        r ← find_in_list (walk_fuel st) st bp asize;
        if r =? NULL then find_fit_from classes st (headp + WSIZE) list_headp_end asize
        else Ok r
    end.

Definition find_fit (st : heap) (asize : Z) : res Z :=
  let headp := get_listp st asize in
  let list_headp_end := heap_listp st - 2 * WSIZE in
  find_fit_from (Z.to_nat CLASS_CNT) st headp list_headp_end asize.

Definition place (st : heap) (bp asize : Z) : res (Z * heap) :=
  csize ← GET_SIZE st (HDRP bp);
  st ← remove_from_free_list st bp;
  if 2 * DSIZE <=? size_t (csize - asize) then
    st ← PUT st (HDRP bp) (PACK asize 1);
    f ← FTRP st bp;
    st ← PUT st f (PACK asize 1);
    free_bp ← NEXT_BLKP st bp;
    st ← PUT st (HDRP free_bp) (PACK (size_t (csize - asize)) 0);
    f ← FTRP st free_bp;
    st ← PUT st f (PACK (size_t (csize - asize)) 0);
    st ← insert_to_free_list st free_bp;
    Ok (bp, st)
  else
    st ← PUT st (HDRP bp) (PACK csize 1);
    f ← FTRP st bp;
    st ← PUT st f (PACK csize 1);
    Ok (bp, st).

Definition extend_heap (st : heap) (words : Z) : res (Z * heap) :=
  let size :=
    if negb (words mod 2 =? 0) then size_t ((words + 1) * WSIZE) else size_t (words * WSIZE) in
  match Memlib.mem_sbrk st size with
  | (None, st) => Ok (NULL, st)
  | (Some bp, st) =>
      st ← PUT st (HDRP bp) (PACK size 0);
      f ← FTRP st bp;
      st ← PUT st f (PACK size 0);
      st ← SET_PRED st bp NULL;
      st ← SET_SUCC st bp NULL;
      nb ← NEXT_BLKP st bp;
      st ← PUT st (HDRP nb) (PACK 0 1);
      st ← insert_to_free_list st bp;
      coalesce st bp
  end.

(** ** mm.c: the public operations *)

Definition mm_init (st : heap) : res (Z * heap) :=
  match Memlib.mem_sbrk st ((CLASS_CNT + 4) * WSIZE) with
  | (None, st) => Ok (-1, set_listp st (size_t (-1)))
  | (Some p, st) =>
      let st := set_listp st p in
      (* the head cells of the 14 classes *)
      st ← foldl (fun acc class_id =>
                    st ← acc; SET_HEAD st (heap_listp st + Z.of_nat class_id * WSIZE) NULL)
                 (Ok st) (seq 0 (Z.to_nat CLASS_CNT));
      let st := set_listp st (heap_listp st + CLASS_CNT * WSIZE) in
      st ← PUT st (heap_listp st) 0;
      st ← PUT st (heap_listp st + 1 * WSIZE) (PACK DSIZE 1);
      st ← PUT st (heap_listp st + 2 * WSIZE) (PACK DSIZE 1);
      st ← PUT st (heap_listp st + 3 * WSIZE) (PACK 0 1);
      let st := set_listp st (heap_listp st + 2 * WSIZE) in
      '(bp, st) ← extend_heap st (CHUNKSIZE / WSIZE);
      if bp =? NULL then Ok (-1, st) else Ok (0, st)
  end.

(** The adjusted block size computed at the top of [malloc]. *)
Definition adjust (size : Z) : Z :=
  if size <=? DSIZE then 2 * DSIZE
  else size_t (DSIZE * (size_t (size + DSIZE + (DSIZE - 1)) / DSIZE)).

Definition malloc (st : heap) (size : Z) : res (Z * heap) :=
  if size =? 0 then Ok (NULL, st)
  else
    let asize := adjust size in
    bp ← find_fit st asize;
    if negb (bp =? NULL) then
      '(_, st) ← place st bp asize;
      Ok (bp, st)
    else
      let extendsize := MAX asize CHUNKSIZE in
      '(bp, st) ← extend_heap st (extendsize / WSIZE);
      if bp =? NULL then Ok (NULL, st)
      else
        '(_, st) ← place st bp asize;
        Ok (bp, st).

Definition free (st : heap) (bp : Z) : res heap :=
  if bp =? NULL then Ok st
  else
    size ← GET_SIZE st (HDRP bp);
    st ← (if heap_listp st =? NULL then '(_, st) ← mm_init st; Ok st else Ok st);
    st ← PUT st (HDRP bp) (PACK size 0);
    f ← FTRP st bp;
    st ← PUT st f (PACK size 0);
    st ← SET_PRED st bp NULL;
    st ← SET_SUCC st bp NULL;
    st ← insert_to_free_list st bp;
    '(_, st) ← coalesce st bp;
    Ok st.

(** The number of bytes [realloc] copies: [oldsize] after the clamp. *)
Definition realloc_copy_len (st : heap) (oldptr size : Z) : res Z :=
  oldsize ← GET_SIZE st (HDRP oldptr);
  Ok (if size <? oldsize then size else oldsize).

Definition realloc (st : heap) (oldptr size : Z) : res (Z * heap) :=
  if size =? 0 then
    st ← free st oldptr; Ok (0, st)
  else if oldptr =? NULL then malloc st size
  else
    '(newptr, st) ← malloc st size;
    if newptr =? NULL then Ok (0, st)
    else
      oldsize ← realloc_copy_len st oldptr size;
      st ← memcpy st newptr oldptr oldsize;
      st ← free st oldptr;
      Ok (newptr, st).

Definition calloc (st : heap) (nmemb size : Z) : res (Z * heap) :=
  let bytes := size_t (nmemb * size) in
  '(newptr, st) ← malloc st bytes;
  st ← memset st newptr x00 bytes;
  Ok (newptr, st).

End Mm.

(** ** Consistency checks

    The traversals of [mm_checkheap], turned into decision procedures: the
    block chain is walked from the prologue until a header of size 0, and
    each class list from its head along the successor fields. *)
Module Inv.
Import Mm.

(** The block pointers from [bp] up to and including the block whose header
    has size 0 (the epilogue, in a consistent heap). *)
Fixpoint blocks_from (fuel : nat) (st : heap) (bp : Z) : res (list Z) :=
  s ← GET_SIZE st (HDRP bp);
  if s =? 0 then Ok [bp]
  else
    match fuel with
    | O => Err Diverge
    | S fuel => l ← blocks_from fuel st (bp + s); Ok (bp :: l)
    end.

Definition blocks (st : heap) : res (list Z) :=
  blocks_from (walk_fuel st) st (heap_listp st).

Fixpoint all_res {A : Type} (f : A -> res bool) (l : list A) : res bool :=
  match l with
  | [] => Ok true
  | x :: l => b ← f x; c ← all_res f l; Ok (b && c)
  end.

(** Header and footer of the block at [bp] hold the same word. *)
Definition tag_agrees (st : heap) (bp : Z) : res bool :=
  h ← GET st (HDRP bp); f ← FTRP st bp; t ← GET st f; Ok (h =? t).

Definition tags_agree (st : heap) : res bool :=
  l ← blocks st; all_res (tag_agrees st) (removelast l).

Fixpoint adjacent_pairs (l : list Z) : list (Z * Z) :=
  match l with
  | x :: (y :: _) as l' => (x, y) :: adjacent_pairs l'
  | _ => []
  end.

Definition not_both_free (st : heap) (p : Z * Z) : res bool :=
  a ← GET_ALLOC st (HDRP p.1);
  b ← GET_ALLOC st (HDRP p.2);
  Ok (negb ((a =? 0) && (b =? 0))).

Definition no_adjacent_free (st : heap) : res bool :=
  l ← blocks st; all_res (not_both_free st) (adjacent_pairs l).

(** The nodes reached from [bp] along the successor fields. *)
Fixpoint list_from (fuel : nat) (st : heap) (bp : Z) : res (list Z) :=
  if bp =? NULL then Ok []
  else
    match fuel with
    | O => Err Diverge
    | S fuel => s ← GET_SUCC st bp; l ← list_from fuel st s; Ok (bp :: l)
    end.

Definition class_list (st : heap) (class_id : Z) : res (list Z) :=
  h ← GET_HEAD st (head_cell st class_id); list_from (walk_fuel st) st h.

(** The successor of [b] points back to [b], and so does its predecessor. *)
Definition node_linked (st : heap) (b : Z) : res bool :=
  s ← GET_SUCC st b;
  p ← GET_PRED st b;
  sp ← (if s =? NULL then Ok b else GET_PRED st s);
  ps ← (if p =? NULL then Ok b else GET_SUCC st p);
  Ok ((sp =? b) && (ps =? b)).

Definition head_unlinked (st : heap) (class_id : Z) : res bool :=
  h ← GET_HEAD st (head_cell st class_id);
  if h =? NULL then Ok true else p ← GET_PRED st h; Ok (p =? NULL).

Definition classes : list Z := map Z.of_nat (seq 0 (Z.to_nat CLASS_CNT)).

Definition class_linked (st : heap) (class_id : Z) : res bool :=
  h ← head_unlinked st class_id;
  l ← class_list st class_id;
  r ← all_res (node_linked st) l;
  Ok (h && r).

Definition links_consistent (st : heap) : res bool := all_res (class_linked st) classes.

(** The sizes of the blocks of a list, as their headers give them. *)
Fixpoint sizes (st : heap) (l : list Z) : res (list Z) :=
  match l with
  | [] => Ok []
  | x :: l => s ← GET_SIZE st (HDRP x); ss ← sizes st l; Ok (s :: ss)
  end.

(** The first member of [l] whose size is at least [asize], or NULL. *)
Fixpoint first_fit (st : heap) (l : list Z) (asize : Z) : res Z :=
  match l with
  | [] => Ok NULL
  | x :: l => s ← GET_SIZE st (HDRP x); if asize <=? s then Ok x else first_fit st l asize
  end.

(** The classes from [class_id] upward, in the order [find_fit] visits them. *)
Definition upward (class_id : Z) : list Z :=
  map (fun i => class_id + Z.of_nat i) (seq 0 (Z.to_nat (CLASS_CNT - class_id))).

(** Ascending order of a list of sizes. *)
Fixpoint ascending (ss : list Z) : Prop :=
  match ss with
  | [] => True
  | s :: ss' => Forall (fun t => s <= t) ss' /\ ascending ss'
  end.

(** The largest size a class holds, from the comparisons of [get_listp];
    class 13 has no bound. *)
Definition class_bound (class_id : Z) : Z :=
  match class_id with
  | 0 => 8 | 1 => 16 | 2 => 24 | 3 => 32 | 4 => 64 | 5 => 128 | 6 => 256
  | 7 => 512 | 8 => 1024 | 9 => 2048 | 10 => 4096 | 11 => 8192 | _ => 16384
  end.

(** Payload bytes of a block: its size less header and footer. *)
Definition payload_size (st : heap) (bp : Z) : res Z :=
  s ← GET_SIZE st (HDRP bp); Ok (s - DSIZE).

Definition roundUp8 (n : Z) : Z := 8 * ((n + 7) / 8).

End Inv.

(** ** Running the allocator on a concrete region *)
Module Run.
Import Mm Inv.

(** An empty region of [cap] bytes at address [base]; [fresh] is what newly
    appended bytes contain. *)
Definition region (base cap : Z) (fresh : Z -> byte) : heap :=
  Heap base (base + cap) [] fresh [] NULL.

(** [mm_init] on an empty region of [cap] bytes at address 4096. *)
Definition boot (cap : Z) (fresh : Z -> byte) : res heap :=
  '(_, st) ← mm_init (Run.region 4096 cap fresh); Ok st.

Definition MAX_HEAP : Z := 20 * 2 ^ 20.

(** [a = malloc(16); b = malloc(16); free(a); c = malloc(16)], with the
    growth requests logged before and after the last call. *)
Definition reuse (fresh : Z -> byte) : res (Z * Z * Z * list Z * list Z) :=
  st ← boot MAX_HEAP fresh;
  '(a, st) ← malloc st 16;
  '(b, st) ← malloc st 16;
  st ← free st a;
  '(c, st') ← malloc st 16;
  Ok (a, b, c, sbrk_log st, sbrk_log st').

(** [p = malloc(100)], a pattern written to its 100 bytes, then
    [q = realloc(p, 200)]: the number of bytes copied, the payload size of the
    old block, the first 100 bytes at [q] and the 12 bytes after them. *)
Definition copy (fresh : Z -> byte) (pattern : nat -> byte)
  : res (Z * Z * Z * Z * list byte * list byte) :=
  st ← boot MAX_HEAP fresh;
  '(p, st) ← malloc st 100;
  st ← store_bytes st p (map pattern (seq 0 100));
  n ← realloc_copy_len st p 200;
  payload ← payload_size st p;
  '(q, st) ← realloc st p 200;
  bs ← load_bytes st q 100;
  rest ← load_bytes st (q + 100) 12;
  Ok (p, q, n, payload, bs, rest).

(** [p = calloc(10, 8)] and the 80 bytes at [p]. *)
Definition zeroed (fresh : Z -> byte) : res (Z * list byte) :=
  st ← boot MAX_HEAP fresh;
  '(p, st) ← calloc st 10 8;
  bs ← load_bytes st p 80;
  Ok (p, bs).

(** A region with room for [mm_init] and nothing more: 72 bytes of heads,
    prologue and epilogue, and one chunk of 256 bytes. *)
Definition TIGHT_HEAP : Z := 72 + 256.

(** [calloc(100, 8)] when the region cannot grow. *)
Definition calloc_exhausted (fresh : Z -> byte) : res (Z * heap) :=
  st ← boot TIGHT_HEAP fresh; calloc st 100 8.

(** The three allocating calls when the region cannot grow: [malloc(1000)],
    [realloc(p, 1000)] for a live [p], and [calloc(125, 8)], each from the
    same heap [st]; the heap is returned for comparison. *)
Definition exhausted (fresh : Z -> byte)
  : res (heap * res (Z * heap) * res (Z * heap) * res (Z * heap)) :=
  st ← boot TIGHT_HEAP fresh;
  '(p, st) ← malloc st 16;
  Ok (st, malloc st 1000, realloc st p 1000, calloc st 125 8).

(** [p = malloc(SIZE_MAX); free(p)]. *)
Definition overflow_release (fresh : Z -> byte) : res (Z * heap * heap) :=
  st0 ← boot MAX_HEAP fresh;
  '(p, st) ← malloc st0 (2 ^ 64 - 1);
  st ← free st p;
  Ok (p, st0, st).

(** Four small blocks, two of them released and one handed out again, then
    [realloc(e, SIZE_MAX - 14)]. *)
Definition overflow_realloc (fresh : Z -> byte) : res (Z * Z * Z * heap * heap) :=
  st ← boot MAX_HEAP fresh;
  '(a, st) ← malloc st 16;
  '(b, st) ← malloc st 16;
  '(c, st) ← malloc st 16;
  '(d, st) ← malloc st 16;
  st ← free st a;
  st ← free st c;
  '(e, st0) ← malloc st 16;
  '(q, st) ← realloc st0 e (2 ^ 64 - 15);
  Ok (a, e, q, st0, st).


(** The value of a run that is known to succeed. *)
Definition value {A : Type} (r : res A) (default : A) : A :=
  match r with
  | Ok a => a
  | Err _ => default
  end.

(** The heap after [mm_init] and [p = malloc(100)] on a zero-filled region,
    and the heap and pointer after a further [malloc(200)]. *)
Definition grown_old : Z * heap :=
  Eval vm_compute in
    value (st ← boot MAX_HEAP (fun _ => x00); malloc st 100) (NULL, region 0 0 (fun _ => x00)).
Definition grown_new : Z * heap :=
  Eval vm_compute in value (malloc grown_old.2 200) (NULL, region 0 0 (fun _ => x00)).

(** A heap whose class 6 holds one free block of 144 bytes, at 4280, whose
    class 7 holds one of 440 bytes, at 4648, and whose other classes are empty;
    the block at 4440 is allocated and has 208 bytes. *)
Definition skipped : heap :=
  Eval vm_compute in
    value (st ← boot MAX_HEAP (fun _ => x00);
           '(a, st) ← malloc st 100;
           '(b, st) ← malloc st 136;
           '(c, st) ← malloc st 8;
           st ← free st b;
           '(d, st) ← malloc st 200;
           '(e, st) ← malloc st 400;
           free st e)
          (region 0 0 (fun _ => x00)).

(** The heap after [mm_init] on a zero-filled region that cannot grow. *)
Definition tight : heap :=
  Eval vm_compute in value (boot TIGHT_HEAP (fun _ => x00)) (region 0 0 (fun _ => x00)).

(** [free(bp)] up to, but not including, its call of [coalesce]. *)
Definition unmerged (st : heap) (bp : Z) : res heap :=
  size ← GET_SIZE st (HDRP bp);
  st ← PUT st (HDRP bp) (PACK size 0);
  f ← FTRP st bp;
  st ← PUT st f (PACK size 0);
  st ← SET_PRED st bp NULL;
  st ← SET_SUCC st bp NULL;
  insert_to_free_list st bp.

(** [skipped] with the block at 4440 released but not yet merged: its next
    block, at 4648, is free and its previous block, at 4424, is allocated. *)
Definition before_next : heap := Eval vm_compute in value (unmerged skipped 4440) skipped.

(** [skipped] with the block at 4424 released but not yet merged: its
    previous block, at 4280, is free and its next block, at 4440, is
    allocated. *)
Definition before_prev : heap := Eval vm_compute in value (unmerged skipped 4424) skipped.

(** [skipped] after [free(4440)], with the block at 4424 released but not
    yet merged: both its neighbours, at 4280 and at 4440, are free. *)
Definition before_both : heap :=
  Eval vm_compute in value (st ← free skipped 4440; unmerged st 4424) skipped.

(** The heap after [mm_init] and [malloc(248)] on a zero-filled region: its
    one block, of 256 bytes at 4168, is allocated; the break is 4424. *)
Definition filled : heap :=
  Eval vm_compute in
    value (st ← boot MAX_HEAP (fun _ => x00); '(_, st) ← malloc st 248; Ok st)
          (region 0 0 (fun _ => x00)).

(** The class lists of a heap, read off by the traversal. *)
Definition lists_of (st : heap) (class_id : Z) : list Z := value (class_list st class_id) [].

End Run.

(** ** Vocabulary for the frame properties *)
Module Frame.
Import Mm Inv.

(** [st'] differs from [st] in the contents of its bytes only. *)
Definition same_shape (st st' : heap) : Prop :=
  mem_start_brk st' = mem_start_brk st /\
  mem_max_addr st' = mem_max_addr st /\
  length (mem_heap st') = length (mem_heap st) /\
  mem_fresh st' = mem_fresh st /\
  sbrk_log st' = sbrk_log st /\
  heap_listp st' = heap_listp st.

(** [st'] has the same region as [st] or one grown by a single request:
    nothing moved, nothing shrank, and the old bytes count is a lower bound. *)
Definition grown (st st' : heap) : Prop :=
  mem_start_brk st' = mem_start_brk st /\
  mem_max_addr st' = mem_max_addr st /\
  (length (mem_heap st) <= length (mem_heap st'))%nat /\
  mem_fresh st' = mem_fresh st /\
  heap_listp st' = heap_listp st /\
  (sbrk_log st' = sbrk_log st \/ exists n, sbrk_log st' = n :: sbrk_log st).

(** The words at [p] and [q] do not overlap. *)
Definition sep (p q : Z) : Prop := p + 4 <= q \/ q + 4 <= p.

(** The header and the two link fields of the blocks at [x] and [y], three
    words from [x - 4] and from [y - 4], do not overlap. *)
Definition apart (x y : Z) : Prop := x + 12 <= y \/ y + 12 <= x.

Fixpoint spaced (l : list Z) : Prop :=
  match l with
  | [] => True
  | x :: l' => Forall (apart x) l' /\ spaced l'
  end.

(** A pointer that a link field can hold: it is not NULL and its offset from
    [heap_listp] is a nonzero [unsigned int]. *)
Definition linkable (st : heap) (x : Z) : Prop :=
  x <> NULL /\ heap_listp st < x < heap_listp st + 2 ^ 32.

(** A link read from memory: [GET_HEAD], [GET_PRED] and [GET_SUCC] are all
    [REL2ABS(GET(p))]. *)
Definition get_link (st : heap) (p : Z) : res Z := w ← GET st p; Ok (REL2ABS st w).

(** Storing a link: [SET_HEAD], [SET_PRED] and [SET_SUCC] are all
    [PUT(p, ABS2REL(x))]. *)
Definition set_link (st : heap) (p x : Z) : res heap := PUT st p (ABS2REL st x).

(** A run of link stores, as the branches of [insert_to_free_list] and
    [remove_from_free_list] perform them. *)
Fixpoint run_writes (st : heap) (ws : list (Z * Z)) : res heap :=
  match ws with
  | [] => Ok st
  | (p, x) :: ws' => st ← set_link st p x; run_writes st ws'
  end.

(** The stores of [insert_to_free_list] when [bp] goes between the nodes of
    [L1] and those of [L2] in the list headed at [hp]. *)
Definition insert_writes (hp bp : Z) (L1 L2 : list Z) : list (Z * Z) :=
  match L1 with
  | [] => [(hp, bp); (bp, NULL)]
  | _ :: _ => [(List.last L1 hp + 4, bp); (bp, List.last L1 hp)]
  end
  ++ (bp + 4, hd NULL L2)
  :: match L2 with
     | [] => []
     | s :: _ => [(s, bp)]
     end.

(** The stores of [remove_from_free_list] when [bp] sits between the nodes
    of [L1] and those of [L2] in the list headed at [hp]. *)
Definition remove_writes (hp : Z) (L1 L2 : list Z) : list (Z * Z) :=
  match L1, L2 with
  | [], [] => [(hp, NULL)]
  | [], s :: _ => [(hp, s); (s, NULL)]
  | _ :: _, [] => [(List.last L1 hp + 4, NULL)]
  | _ :: _, s :: _ => [(List.last L1 hp + 4, s); (s, List.last L1 hp)]
  end.

(** All the nodes of the fourteen class lists. *)
Definition all_nodes (lists : Z -> list Z) : list Z := concat (map lists (upward 0)).

(** The block at [x] has its header and link fields outside the block of
    [csize] bytes at [bp]. *)
Definition outside (bp csize x : Z) : Prop := x + 12 <= bp \/ bp + csize <= x.

(** The class lists once [bp] has left the list of class [c], where it sat
    between [L1] and [L2]. *)
Definition unlinked (lists : Z -> list Z) (c : Z) (L1 L2 : list Z) : Z -> list Z :=
  fun k => if k =? c then L1 ++ L2 else lists k.


(** The predecessor fields along a list: each node's holds the node before
    it, and the first one's holds [prev]. *)
Fixpoint preds (st : heap) (prev : Z) (l : list Z) : Prop :=
  match l with
  | [] => True
  | x :: l' => GET_PRED st x = Ok prev /\ preds st x l'
  end.

(** The class lists once [bp] has entered the list of class [c] between the
    nodes of [L1] and those of [L2]. *)
Definition linked (lists : Z -> list Z) (c : Z) (L1 : list Z) (bp : Z) (L2 : list Z)
  : Z -> list Z :=
  fun k => if k =? c then L1 ++ bp :: L2 else lists k.

(** The fourteen free lists are well formed: the traversal of class [k] from
    its head cell gives [lists k]; the predecessor fields mirror the
    successor fields, with NULL in the first node; the sizes of the listed
    blocks can be read, ascend along the list and belong to class [k]; and
    distinct listed blocks do not share a header or link word. *)
Definition well_linked (st : heap) (lists : Z -> list Z) : Prop :=
  (forall k, 0 <= k < CLASS_CNT ->
             class_list st k = Ok (lists k) /\ preds st NULL (lists k) /\
             (exists ss, sizes st (lists k) = Ok ss /\ ascending ss /\
                         Forall (fun s => class_of s = k) ss) /\
             spaced (lists k)) /\
  (forall k k' x y, 0 <= k < CLASS_CNT -> 0 <= k' < CLASS_CNT -> k <> k' ->
                    In x (lists k) -> In y (lists k') -> apart x y).

(** The word at [q] is no head cell and no link field of a listed block. *)
Definition off_links (st : heap) (lists : Z -> list Z) (q : Z) : Prop :=
  forall k, 0 <= k < CLASS_CNT ->
            sep (head_cell st k) q /\ Forall (fun x => sep x q /\ sep (x + 4) q) (lists k).

(** [st'] is [st] with bytes appended: what [mem_sbrk] does to the heap. *)
Definition extends (st st' : heap) : Prop :=
  mem_start_brk st' = mem_start_brk st /\ heap_listp st' = heap_listp st /\
  exists extra, mem_heap st' = mem_heap st ++ extra.

(** Every listed block lies inside the heap, ends where a link can still
    reach, and holds no header or link field of another listed block. *)
Definition clear_blocks (st : heap) (lists : Z -> list Z) : Prop :=
  forall k x c, 0 <= k < CLASS_CNT -> In x (lists k) -> GET_SIZE st (HDRP x) = Ok c ->
                in_heap st (x - 4) c = true /\ x + c <= heap_listp st + 2 ^ 32 /\
                forall k' y, 0 <= k' < CLASS_CNT -> In y (lists k') -> y = x \/ outside x c y.

(** Pairwise disjoint words. *)
Fixpoint cells_sep (ps : list Z) : Prop :=
  match ps with
  | [] => True
  | p :: ps' => Forall (sep p) ps' /\ cells_sep ps'
  end.

(** [seg st h l m]: following the successor fields from [h] one meets the
    nodes of [l] in order and arrives at [m]. *)
Fixpoint seg (st : heap) (h : Z) (l : list Z) (m : Z) : Prop :=
  match l with
  | [] => h = m
  | x :: l' => h = x /\ x <> NULL /\ exists s, GET_SUCC st x = Ok s /\ seg st s l' m
  end.

End Frame.

(** ** The blocks of the heap *)
Module Layout.
Import Mm Inv Frame.

(** A block: its address, its size and its allocated bit. *)
Definition block : Type := Z * Z * Z.

(** [tiles bp bs e]: the blocks of [bs] lie one behind the other from the
    address [bp] to the address [e]; each has a multiple of 8 bytes, at
    least 16, and a bit that is 0 or 1. *)
Fixpoint tiles (bp : Z) (bs : list block) (e : Z) : Prop :=
  match bs with
  | [] => bp = e
  | (x, s, a) :: bs' =>
      x = bp /\ 16 <= s /\ s mod 8 = 0 /\ (a = 0 \/ a = 1) /\ tiles (bp + s) bs' e
  end.

(** Header and footer of a block say its size and its bit. *)
Definition tagged (st : heap) (b : block) : Prop :=
  GET st (HDRP b.1.1) = Ok (PACK b.1.2 b.2) /\
  GET st (b.1.1 + b.1.2 - 8) = Ok (PACK b.1.2 b.2).

(** The heap as [mm_init] builds it and [malloc] and [free] keep it: the
    fourteen lists are well formed; behind the prologue the blocks of [bs]
    fill the heap up to the epilogue header, which is its last word; every
    block is tagged with its size and bit; the listed blocks are the free
    ones; and the region ends less than 4 GiB above [heap_listp]. *)
Definition heap_ok (st : heap) (lists : Z -> list Z) (bs : list block) : Prop :=
  well_linked st lists /\
  0 <= mem_start_brk st /\ mem_brk st <= mem_max_addr st /\
  mem_max_addr st < heap_listp st + 2 ^ 32 /\
  GET st (heap_listp st - 4) = Ok (PACK 8 1) /\ GET st (heap_listp st) = Ok (PACK 8 1) /\
  tiles (heap_listp st + 8) bs (mem_brk st) /\
  GET st (mem_brk st - 4) = Ok (PACK 0 1) /\
  Forall (tagged st) bs /\
  (forall k x, 0 <= k < CLASS_CNT -> In x (lists k) -> exists s, In (x, s, 0) bs) /\
  (forall x s, In (x, s, 0) bs -> In x (lists (class_of s))).

(** The words of the allocated blocks of [bs], tags and payload, are the
    same in [st'] as in [st]. *)
Definition kept (st st' : heap) (bs : list block) : Prop :=
  forall x s q, In (x, s, 1) bs -> x - 4 <= q -> q + 4 <= x + s - 4 ->
                GET st' q = GET st q.

End Layout.

(** ** csim.c: the cache simulator

    A cache set is the array of its [E] lines; a visit outside the array is
    undefined in C and gives [None] here. *)
Module Csim.

(** The value of an [int] after an increment, brought back into 32 bits. *)
Definition int (x : Z) : Z := (x + 2 ^ 31) mod 2 ^ 32 - 2 ^ 31.

Definition INT_MAX : Z := 2147483647.

Record cacheLine : Type := CacheLine { valid : Z; tag : Z; lastUsedTime : Z }.

(** [*pHit], [*pMiss] and [*pEviction]. *)
Record counters : Type := Counters { hits : Z; misses : Z; evictions : Z }.

(** The first loop of [cacheVisit], from line [i] for [n] lines: [inl] of the
    line that hits, or [inr] of [vacantLineIndex] when the loop runs out. *)
Fixpoint find_line (cacheSet : list cacheLine) (t : Z) (i n : nat) (vacantLineIndex : Z)
  : option (nat + Z) :=
  match n with
  | O => Some (inr vacantLineIndex)
  | S n =>
      line ← cacheSet !! i;
      if negb (valid line =? 0) then
        if tag line =? t then Some (inl i)
        else find_line cacheSet t (S i) n vacantLineIndex
      else find_line cacheSet t (S i) n (Z.of_nat i)
  end.

(** The second loop of [cacheVisit]: [minIndex] and [minTime] after lines [i]
    to [i + n - 1]. *)
Fixpoint min_line (cacheSet : list cacheLine) (i n : nat) (minIndex minTime : Z)
  : option (Z * Z) :=
  match n with
  | O => Some (minIndex, minTime)
  | S n =>
      line ← cacheSet !! i;
      if lastUsedTime line <? minTime
      then min_line cacheSet (S i) n (Z.of_nat i) (lastUsedTime line)
      else min_line cacheSet (S i) n minIndex minTime
  end.

(** A store to [cacheSet[index]]. *)
Definition store (cacheSet : list cacheLine) (index : Z) (f : cacheLine -> cacheLine)
  : option (list cacheLine) :=
  if (0 <=? index) && (index <? Z.of_nat (length cacheSet)) then
    line ← cacheSet !! Z.to_nat index;
    Some (<[Z.to_nat index := f line]> cacheSet)
  else None.

Definition cacheVisit (cacheSet : list cacheLine) (t E time : Z) (c : counters)
  : option (list cacheLine * counters) :=
  r ← find_line cacheSet t 0 (Z.to_nat E) (-1);
  match r with
  | inl i =>
      let c := Counters (int (hits c + 1)) (misses c) (evictions c) in
      cacheSet ← store cacheSet (Z.of_nat i) (fun l => CacheLine (valid l) (tag l) time);
      Some (cacheSet, c)
  | inr vacantLineIndex =>
      let c := Counters (hits c) (int (misses c + 1)) (evictions c) in
      if negb (vacantLineIndex =? -1) then
        cacheSet ← store cacheSet vacantLineIndex (fun _ => CacheLine 1 t time);
        Some (cacheSet, c)
      else
        let c := Counters (hits c) (misses c) (int (evictions c + 1)) in
        '(minIndex, _) ← min_line cacheSet 0 (Z.to_nat E) (-1) INT_MAX;
        cacheSet ← store cacheSet minIndex (fun l => CacheLine (valid l) t time);
        Some (cacheSet, c)
  end.

(** The simulator between two lines of the trace. *)
Record sim : Type := Sim { cache : list (list cacheLine); time : Z; count : counters }.

(** [tag] and [setIndex] of an address, for [s] index bits and [b] offset
    bits. *)
Definition tag_of (s b address : Z) : Z := Z.shiftr address (b + s).
Definition set_of (s b address : Z) : Z := Z.land (Z.shiftr address b) (Z.shiftl 1 s - 1).

(** The call [cacheVisit(cache[setIndex], tag, E, time, ...)]. *)
Definition visit (s E b : Z) (st : sim) (address : Z) : option sim :=
  let setIndex := set_of s b address in
  if (0 <=? setIndex) && (setIndex <? Z.of_nat (length (cache st))) then
    cacheSet ← cache st !! Z.to_nat setIndex;
    '(cacheSet, c) ← cacheVisit cacheSet (tag_of s b address) E (time st) (count st);
    Some (Sim (<[Z.to_nat setIndex := cacheSet]> (cache st)) (time st) c)
  else None.

(** One round of the [while] loop of [main]: the operation read from the
    trace, then [++time]. *)
Definition step (s E b : Z) (st : sim) (operation : ascii) (address : Z) : option sim :=
  st ← (if Ascii.eqb operation "I" then Some st
        else if Ascii.eqb operation "L" then visit s E b st address
        else if Ascii.eqb operation "S" then visit s E b st address
        else if Ascii.eqb operation "M" then
          st ← visit s E b st address;
          Some (Sim (cache st) (time st)
                    (Counters (int (hits (count st) + 1)) (misses (count st))
                              (evictions (count st))))
        else Some st);
  Some (Sim (cache st) (int (time st + 1)) (count st)).

(** The cache after its initialisation: [2^s] sets of [E] lines, all
    invalid; [junk] stands for the uninitialised tags and times. *)
Definition init (s E : Z) (junk : nat -> nat -> Z * Z) : list (list cacheLine) :=
  map (fun i => map (fun j => CacheLine 0 (junk i j).1 (junk i j).2) (seq 0 (Z.to_nat E)))
      (seq 0 (Z.to_nat (Z.shiftl 1 s))).

(** Running a trace. *)
Fixpoint run (s E b : Z) (st : sim) (trace : list (ascii * Z)) : option sim :=
  match trace with
  | [] => Some st
  | (operation, address) :: trace => st ← step s E b st operation address; run s E b st trace
  end.

End Csim.

(** ** trans.c: matrix transposition

    A matrix is the list of its rows, each the list of its [int]s.  The
    entries are only copied, never computed with.  An access outside the
    array is undefined in C; here a read gives 0 and a write does nothing. *)
Module Trans.

Definition matrix : Type := list (list Z).

Definition get (X : matrix) (r c : nat) : Z := nth c (nth r X []) 0.
Definition set (X : matrix) (r c : nat) (v : Z) : matrix := alter (fun row => <[c := v]> row) r X.

(** The matrix with [rows] rows and [cols] columns whose entries are given by
    [f]. *)
Definition tabulate (rows cols : nat) (f : nat -> nat -> Z) : matrix :=
  map (fun r => map (fun c => f r c) (seq 0 cols)) (seq 0 rows).

(** [X] is an array of [rows] rows of [cols] entries each. *)
Definition shaped (rows cols : nat) (X : matrix) : Prop :=
  length X = rows /\ Forall (fun row => length row = cols) X.

(** The values of [x] in [for (x = 0; x < stop; x += stride)]. *)
Definition strides (stop stride : nat) : list nat :=
  map (fun q => (q * stride)%nat) (seq 0 ((stop + stride - 1) / stride)).

Definition trans (M N : nat) (A B : matrix) : matrix :=
  foldl (fun B i =>
           foldl (fun B j => let tmp := get A i j in set B j i tmp) B (seq 0 M))
        B (seq 0 N).

Definition trans_32x32 (A B : matrix) : matrix :=
  let BLOCKSIZE := 8%nat in
  foldl (fun B i =>
    foldl (fun B j =>
      (* copy the block from A to B in row order: k = i + d, l = j + d *)
      let B :=
        foldl (fun B d =>
                 let k := (i + d)%nat in
                 let l := (j + d)%nat in
                 let a0 := get A k j in
                 let a1 := get A k (j + 1) in
                 let a2 := get A k (j + 2) in
                 let a3 := get A k (j + 3) in
                 let a4 := get A k (j + 4) in
                 let a5 := get A k (j + 5) in
                 let a6 := get A k (j + 6) in
                 let a7 := get A k (j + 7) in
                 let B := set B l i a0 in
                 let B := set B l (i + 1) a1 in
                 let B := set B l (i + 2) a2 in
                 let B := set B l (i + 3) a3 in
                 let B := set B l (i + 4) a4 in
                 let B := set B l (i + 5) a5 in
                 let B := set B l (i + 6) a6 in
                 set B l (i + 7) a7)
              B (seq 0 BLOCKSIZE) in
      (* transpose the block in matrix B *)
      foldl (fun B k =>
               foldl (fun B l =>
                        let a0 := get B (j + k) (i + l) in
                        let B := set B (j + k) (i + l) (get B (j + l) (i + k)) in
                        set B (j + l) (i + k) a0)
                     B (seq (k + 1) (BLOCKSIZE - (k + 1))))
            B (seq 0 BLOCKSIZE))
      B (strides 32 BLOCKSIZE))
    B (strides 32 BLOCKSIZE).

Definition trans_64x64 (A B : matrix) : matrix :=
  let BLOCKSIZE := 8%nat in
  foldl (fun B i =>
    foldl (fun B j =>
      (* copy the first 4 rows of A to B *)
      let B :=
        foldl (fun B k =>
                 let a0 := get A (i + k) j in
                 let a1 := get A (i + k) (j + 1) in
                 let a2 := get A (i + k) (j + 2) in
                 let a3 := get A (i + k) (j + 3) in
                 let a4 := get A (i + k) (j + 4) in
                 let a5 := get A (i + k) (j + 5) in
                 let a6 := get A (i + k) (j + 6) in
                 let a7 := get A (i + k) (j + 7) in
                 let B := set B j (i + k) a0 in
                 let B := set B (j + 1) (i + k) a1 in
                 let B := set B (j + 2) (i + k) a2 in
                 let B := set B (j + 3) (i + k) a3 in
                 let B := set B j (i + 4 + k) a4 in
                 let B := set B (j + 1) (i + 4 + k) a5 in
                 let B := set B (j + 2) (i + 4 + k) a6 in
                 set B (j + 3) (i + 4 + k) a7)
              B (seq 0 (BLOCKSIZE / 2)) in
      (* the buffer moves the top right corner of B to its bottom rows *)
      foldl (fun B k =>
               let a0 := get A (i + 4) (j + k) in
               let a1 := get A (i + 5) (j + k) in
               let a2 := get A (i + 6) (j + k) in
               let a3 := get A (i + 7) (j + k) in
               let a4 := get A (i + 4) (j + 4 + k) in
               let a5 := get A (i + 5) (j + 4 + k) in
               let a6 := get A (i + 6) (j + 4 + k) in
               let a7 := get A (i + 7) (j + 4 + k) in
               let tmp := get B (j + k) (i + 4) in
               let B := set B (j + k) (i + 4) a0 in
               let a0 := tmp in
               let tmp := get B (j + k) (i + 5) in
               let B := set B (j + k) (i + 5) a1 in
               let a1 := tmp in
               let tmp := get B (j + k) (i + 6) in
               let B := set B (j + k) (i + 6) a2 in
               let a2 := tmp in
               let tmp := get B (j + k) (i + 7) in
               let B := set B (j + k) (i + 7) a3 in
               let a3 := tmp in
               let B := set B (j + 4 + k) i a0 in
               let B := set B (j + 4 + k) (i + 1) a1 in
               let B := set B (j + 4 + k) (i + 2) a2 in
               let B := set B (j + 4 + k) (i + 3) a3 in
               let B := set B (j + 4 + k) (i + 4) a4 in
               let B := set B (j + 4 + k) (i + 5) a5 in
               let B := set B (j + 4 + k) (i + 6) a6 in
               set B (j + 4 + k) (i + 7) a7)
            B (seq 0 (BLOCKSIZE / 2)))
      B (strides 64 BLOCKSIZE))
    B (strides 64 BLOCKSIZE).

Definition min (num1 num2 : nat) : nat := if (num1 <? num2)%nat then num1 else num2.

Definition trans_67x61 (A B : matrix) : matrix :=
  let BLOCKSIZE := 16%nat in
  foldl (fun B i =>
    foldl (fun B j =>
      foldl (fun B k =>
        foldl (fun B l => set B l k (get A k l))
              B (seq j (Nat.min (j + BLOCKSIZE) 61 - j)))
        B (seq i (Nat.min (i + BLOCKSIZE) 67 - i)))
      B (strides 61 BLOCKSIZE))
    B (strides 67 BLOCKSIZE).

Definition transpose_submit (M N : nat) (A B : matrix) : matrix :=
  if (N =? 32)%nat && (M =? 32)%nat then trans_32x32 A B
  else if (N =? 64)%nat && (M =? 64)%nat then trans_64x64 A B
  else if (N =? 67)%nat && (M =? 61)%nat then trans_67x61 A B
  else trans M N A B.

(** [is_transpose]: 0 at the first entry that differs, 1 if none does. *)
Definition is_transpose (M N : nat) (A B : matrix) : Z :=
  if forallb (fun i => forallb (fun j => get A i j =? get B j i) (seq 0 M)) (seq 0 N)
  then 1 else 0.

End Trans.

(** ** cache.c: the proxy's object cache

    One thread at a time: a semaphore is its value, [P] on a semaphore at 0
    never returns when no other thread runs, and is [Blocked].  An index
    outside [cache_lines], and a [strcpy] longer than its buffer, are
    [Undefined].  A C string is the string of its characters before the
    terminator.  [MAXLINE] comes from csapp.h, which is not among the
    sources: [cache_insert] takes it as an argument. *)
Module Cache.

Definition MAX_OBJECT_SIZE : Z := 102400.
Definition MAX_OBJECT_CNT : nat := 10.

Inductive outcome (A : Type) : Type :=
| Done (a : A)
| Blocked
| Undefined.
Arguments Done {A} a.
Arguments Blocked {A}.
Arguments Undefined {A}.

#[global] Instance outcome_bind : MBind outcome := fun A B f m =>
  match m with
  | Done a => f a
  | Blocked => Blocked
  | Undefined => Undefined
  end.

Record cache_line_t : Type := Line {
  valid : Z;
  last_used_time : Z;
  readcnt : Z;
  mutex_access : Z;
  mutex_readcnt : Z;
  uri : String.string;
  content : String.string
}.

Record cache_t : Type := CacheT {
  time : Z;
  mutex_time : Z;
  cache_lines : list cache_line_t
}.

Definition P (s : Z) : outcome Z := if 0 <? s then Done (s - 1) else Blocked.
Definition V (s : Z) : Z := s + 1.

Definition strlen (s : String.string) : Z := Z.of_nat (String.length s).

(** [strcpy] into a buffer of [size] bytes. *)
Definition strcpy (size : Z) (src : String.string) : outcome String.string :=
  if strlen src <? size then Done src else Undefined.

(** [cachep->cache_lines[index]]. *)
Definition line (c : cache_t) (index : Z) : outcome cache_line_t :=
  if (0 <=? index) && (index <? Z.of_nat MAX_OBJECT_CNT) then
    match cache_lines c !! Z.to_nat index with
    | Some l => Done l
    | None => Undefined
    end
  else Undefined.

Definition set_line (c : cache_t) (index : Z) (l : cache_line_t) : cache_t :=
  CacheT (time c) (mutex_time c) (<[Z.to_nat index := l]> (cache_lines c)).

(** Statements on the fields of [cachep->cache_lines[index]]. *)
Definition on_line (c : cache_t) (index : Z) (f : cache_line_t -> outcome cache_line_t)
  : outcome cache_t :=
  l ← line c index;
  l ← f l;
  Done (set_line c index l).

Definition P_reader (c : cache_t) (index : Z) : outcome cache_t :=
  on_line c index (fun l =>
    m ← P (mutex_readcnt l);
    let n := Csim.int (readcnt l + 1) in
    a ← (if n =? 1 then P (mutex_access l) else Done (mutex_access l));
    Done (Line (valid l) (last_used_time l) n a (V m) (uri l) (content l))).

Definition V_reader (c : cache_t) (index : Z) : outcome cache_t :=
  on_line c index (fun l =>
    m ← P (mutex_readcnt l);
    let n := Csim.int (readcnt l - 1) in
    let a := if n =? 0 then V (mutex_access l) else mutex_access l in
    Done (Line (valid l) (last_used_time l) n a (V m) (uri l) (content l))).

Definition P_writer (c : cache_t) (index : Z) : outcome cache_t :=
  on_line c index (fun l =>
    a ← P (mutex_access l);
    Done (Line (valid l) (last_used_time l) (readcnt l) a (mutex_readcnt l)
               (uri l) (content l))).

Definition V_writer (c : cache_t) (index : Z) : outcome cache_t :=
  on_line c index (fun l =>
    Done (Line (valid l) (last_used_time l) (readcnt l) (V (mutex_access l))
               (mutex_readcnt l) (uri l) (content l))).

(** [P] and [V] on [mutex_time]. *)
Definition P_time (c : cache_t) : outcome cache_t :=
  t ← P (mutex_time c);
  Done (CacheT (time c) t (cache_lines c)).

Definition V_time (c : cache_t) : cache_t :=
  CacheT (time c) (V (mutex_time c)) (cache_lines c).

(** [cache_init] writes every field but the two buffers. *)
Definition cache_init (c : cache_t) : cache_t :=
  foldl (fun c i =>
           CacheT (time c) 1
                  (alter (fun l => Line 0 0 0 1 1 (uri l) (content l)) i (cache_lines c)))
        (CacheT 0 (mutex_time c) (cache_lines c)) (seq 0 MAX_OBJECT_CNT).

(** The loop of [cache_find], from line [i] for [n] lines. *)
Fixpoint find_from (c : cache_t) (uri0 : String.string) (i n : nat)
  : outcome (Z * cache_t) :=
  match n with
  | O => Done (-1, c)
  | S n =>
      let index := Z.of_nat i in
      c ← P_reader c index;
      l ← line c index;
      if negb (valid l =? 0) && String.eqb (uri l) uri0 then
        c ← V_reader c index;
        (* update last used time *)
        c ← P_writer c index;
        c ← P_time c;
        c ← on_line c index (fun l =>
               Done (Line (valid l) (time c) (readcnt l) (mutex_access l)
                          (mutex_readcnt l) (uri l) (content l)));
        let c := V_time c in
        c ← V_writer c index;
        Done (index, c)
      else
        c ← V_reader c index;
        find_from c uri0 (S i) n
  end.

Definition cache_find (c : cache_t) (uri0 : String.string) : outcome (Z * cache_t) :=
  c ← P_time c;
  let c := CacheT (Csim.int (time c + 1)) (mutex_time c) (cache_lines c) in
  let c := V_time c in
  find_from c uri0 0 MAX_OBJECT_CNT.

(** The loop of [cache_insert] that picks the line to evict, from line [i]
    for [n] lines. *)
Fixpoint evict_from (c : cache_t) (evict_id min_last_used_time : Z) (i n : nat)
  : outcome (Z * cache_t) :=
  match n with
  | O => Done (evict_id, c)
  | S n =>
      let index := Z.of_nat i in
      c ← P_reader c index;
      l ← line c index;
      (* find the empty cache line *)
      if valid l =? 0 then
        c ← V_reader c index;
        Done (index, c)
      else
        (* update the index with minimum last used time *)
        let '(min_last_used_time, evict_id) :=
          if last_used_time l <? min_last_used_time
          then (last_used_time l, index)
          else (min_last_used_time, evict_id) in
        c ← V_reader c index;
        evict_from c evict_id min_last_used_time (S i) n
  end.

Definition cache_insert (MAXLINE : Z) (c : cache_t) (uri0 content0 : String.string)
  : outcome cache_t :=
  if (MAXLINE <? strlen uri0) || (MAX_OBJECT_SIZE <? strlen content0) then Done c
  else
    '(evict_id, c) ← evict_from c (-1) 2147483647 0 MAX_OBJECT_CNT;
    (* write data into the cache line to be evicted *)
    c ← P_writer c evict_id;
    c ← on_line c evict_id (fun l =>
           Done (Line 1 (last_used_time l) (readcnt l) (mutex_access l)
                      (mutex_readcnt l) (uri l) (content l)));
    c ← P_time c;
    c ← on_line c evict_id (fun l =>
           Done (Line (valid l) (time c) (readcnt l) (mutex_access l)
                      (mutex_readcnt l) (uri l) (content l)));
    let c := V_time c in
    c ← on_line c evict_id (fun l =>
           Done (Line (valid l) (last_used_time l) 0 (mutex_access l)
                      (mutex_readcnt l) (uri l) (content l)));
    c ← on_line c evict_id (fun l =>
           u ← strcpy MAXLINE uri0;
           Done (Line (valid l) (last_used_time l) (readcnt l) (mutex_access l)
                      (mutex_readcnt l) u (content l)));
    c ← on_line c evict_id (fun l =>
           d ← strcpy MAX_OBJECT_SIZE content0;
           Done (Line (valid l) (last_used_time l) (readcnt l) (mutex_access l)
                      (mutex_readcnt l) (uri l) d));
    V_writer c evict_id.

(** No thread holds anything: every semaphore is at 1 and no line has a
    reader. *)
Definition calm (l : cache_line_t) : Prop :=
  readcnt l = 0 /\ mutex_access l = 1 /\ mutex_readcnt l = 1.

Definition settled (c : cache_t) : Prop :=
  length (cache_lines c) = MAX_OBJECT_CNT /\
  mutex_time c = 1 /\
  Forall calm (cache_lines c) /\
  Forall (fun l => last_used_time l <= time c) (cache_lines c).

End Cache.

(** * Properties *)

(** ** The adjusted size *)
Module Adjust.
Import Mm Inv.

Lemma size_t_small (x : Z) : 0 <= x < 2 ^ 64 -> size_t x = x.
Proof. intros H. unfold size_t. apply Z.mod_small; exact H. Qed.

(** Away from the top of the [size_t] range the two branches of [malloc]
    compute [max(16, roundUp8(size + 8))]. *)
Lemma adjust_in_range (size : Z) :
  0 < size <= 2 ^ 64 - 16 -> adjust size = Z.max 16 (roundUp8 (size + 8)).
Proof.
  intros [Hpos Hle]. unfold adjust, roundUp8, DSIZE.
  replace (size + 8 + (8 - 1)) with (size + 15) by lia.
  replace (size + 8 + 7) with (size + 15) by lia.
  destruct (Z.leb_spec size 8) as [Hs | Hs].
  - assert ((size + 15) / 8 = 2) as ->; [| reflexivity].
    symmetry. apply (Z.div_unique (size + 15) 8 2 (size - 1)); lia.
  - rewrite (size_t_small (size + 15)) by lia.
    pose proof (Z.div_mod (size + 15) 8 ltac:(lia)) as Hdm.
    pose proof (Z.mod_pos_bound (size + 15) 8 ltac:(lia)) as Hb.
    rewrite size_t_small by lia.
    lia.
Qed.

(** C5.  A request within 15 bytes of [SIZE_MAX] wraps around in
    [size + DSIZE + (DSIZE - 1)]: for [size = 2^64 - 1] the adjusted size is
    8, below the minimum block size and far from
    [max(16, roundUp8(size + 8))]. *)
Theorem adjust_wraps :
  adjust (2 ^ 64 - 1) = 8 /\
  Z.max 16 (roundUp8 (2 ^ 64 - 1 + 8)) = 2 ^ 64 + 8 /\
  adjust (2 ^ 64 - 1) <> Z.max 16 (roundUp8 (2 ^ 64 - 1 + 8)).
Proof. vm_compute. repeat split; discriminate. Qed.

End Adjust.

(** ** Scenarios on a 20 MiB region *)
Module Scenario.
Import Mm Inv Run.

(** C9.  The third allocation returns the address of the block just
    released, and the log of growth requests is the same before and after
    it: the two requests of [mm_init] and nothing else. *)
Theorem reuse_after_release (fresh : Z -> byte) :
  exists a b log,
    reuse fresh = Ok (a, b, a, log, log) /\ a <> NULL /\ a <> b /\ log = [256; 72].
Proof.
  exists 4168, 4192, [256; 72].
  split; [vm_compute; reflexivity |].
  split; [discriminate |]. split; [discriminate | reflexivity].
Qed.

(** The copy property of the spec: whatever the pattern, the first 100
    bytes of the new block are the pattern. *)
Lemma realloc_keeps_pattern (fresh : Z -> byte) (pattern : nat -> byte) :
  exists p q n payload rest,
    copy fresh pattern = Ok (p, q, n, payload, map pattern (seq 0 100), rest) /\
    p <> q /\ q <> NULL.
Proof.
  do 5 eexists. split; [vm_compute; reflexivity |]. split; discriminate.
Qed.

(** C1, as stated, fails: the old block has a payload of 104 bytes, and
    [realloc] copies [min(112, 200) = 112] bytes, the block size taken from the
    header.  The eight bytes past the payload are the old block's footer
    ([112 | 1] is 113, the byte ["q"]) and the header of the block after it;
    they land in the new payload at offsets 104 to 111. *)
Lemma realloc_copies_past_payload :
  exists p q bs,
    copy (fun _ => x00) (fun _ => x00)
    = Ok (p, q, 112, 104, bs,
          [x00; x00; x00; x00; x71; x00; x00; x00; xd1; x00; x00; x00]) /\
    112 <> Z.min 104 200.
Proof.
  do 3 eexists. split; [vm_compute; reflexivity | discriminate].
Qed.

(** The zero-fill property of the spec, whatever the region contained. *)
Lemma calloc_zero_filled (fresh : Z -> byte) :
  exists p, zeroed fresh = Ok (p, replicate 80 x00) /\ p <> NULL.
Proof. exists 4168. split; [vm_compute; reflexivity | discriminate]. Qed.

(** C2.  When the region cannot grow, [malloc] inside [calloc] returns NULL
    and [calloc] passes it to [memset] unchecked: the call does not return a
    failure result, it writes 800 bytes at address 0. *)
Theorem calloc_exhausted_faults (fresh : Z -> byte) :
  calloc_exhausted fresh = Err SegFault /\
  exists st st', boot TIGHT_HEAP fresh = Ok st /\ malloc st (size_t (100 * 8)) = Ok (NULL, st').
Proof.
  split; [vm_compute; reflexivity |].
  do 2 eexists. split; [vm_compute; reflexivity |]. vm_compute; reflexivity.
Qed.

(** C6.  With the region exhausted, [malloc] and [realloc] return NULL and
    leave the heap as it was (the region has logged the refused request and
    nothing else changed), but [calloc] does not return at all. *)
Theorem calloc_failure_not_reported (fresh : Z -> byte) :
  exists st by_malloc by_realloc by_calloc,
    exhausted fresh = Ok (st, by_malloc, by_realloc, by_calloc) /\
    by_malloc = Ok (NULL, log_request st 1008) /\
    by_realloc = Ok (NULL, log_request st 1008) /\
    by_calloc = Err SegFault.
Proof.
  do 4 eexists. split; [vm_compute; reflexivity |].
  split; [vm_compute; reflexivity |]. split; vm_compute; reflexivity.
Qed.

(** C3.  [malloc(SIZE_MAX)] succeeds with a block of 8 bytes, whose footer
    is the first word of its payload.  Releasing it writes the link fields
    over the footer and over the next block's header: the block's header says
    size 8 and its footer 0. *)
Theorem tags_disagree_after_overflow (fresh : Z -> byte) :
  exists p st0 st,
    overflow_release fresh = Ok (p, st0, st) /\ p <> NULL /\
    tags_agree st0 = Ok true /\ tags_agree st = Ok false /\
    GET st (HDRP p) = Ok (PACK 8 0) /\ FTRP st p = Ok p /\ GET st p = Ok 0.
Proof.
  do 3 eexists. split; [vm_compute; reflexivity |].
  split; [discriminate |]. repeat (split; [vm_compute; reflexivity |]).
  vm_compute; reflexivity.
Qed.

(** C4.  After the same release the freed block [p] and the free remainder
    right behind it, at [p + 8], are both free and both on a class list; they
    were not merged. *)
Theorem adjacent_free_after_overflow (fresh : Z -> byte) :
  exists p st0 st,
    overflow_release fresh = Ok (p, st0, st) /\
    no_adjacent_free st0 = Ok true /\ no_adjacent_free st = Ok false /\
    GET_ALLOC st (HDRP p) = Ok 0 /\ NEXT_BLKP st p = Ok (p + 8) /\
    GET_ALLOC st (HDRP (p + 8)) = Ok 0 /\
    class_list st 0 = Ok [p] /\ class_list st 6 = Ok [p + 8].
Proof.
  do 3 eexists. split; [vm_compute; reflexivity |].
  repeat (split; [vm_compute; reflexivity |]).
  vm_compute; reflexivity.
Qed.

(** C10.  [realloc(e, SIZE_MAX - 14)] gets a block of adjusted size 0: the
    free block [a], handed out while still on its list.  The copy of the old
    block then overwrites [a]'s link fields with what [e] held, and [a] ends
    up as its own successor with [e] as predecessor. *)
Theorem links_broken_after_overflow (fresh : Z -> byte) :
  exists a e q st0 st,
    overflow_realloc fresh = Ok (a, e, q, st0, st) /\ q = a /\ a <> NULL /\ e <> a /\
    links_consistent st0 = Ok true /\
    class_list st0 2 = Ok [a] /\
    GET_HEAD st (head_cell st 2) = Ok e /\
    GET_SUCC st e = Ok a /\ GET_SUCC st a = Ok a /\ GET_PRED st a = Ok e /\
    node_linked st a = Ok false /\
    links_consistent st = Err Diverge.
Proof.
  do 5 eexists. split; [vm_compute; reflexivity |].
  split; [reflexivity |]. split; [discriminate |]. split; [discriminate |].
  repeat (split; [vm_compute; reflexivity |]).
  vm_compute; reflexivity.
Qed.

End Scenario.

(** ** Bytes, words and the region *)
Module MemFacts.
Import Mm.

Lemma Z_of_byte_range (b : byte) : 0 <= Z_of_byte b < 256.
Proof.
  unfold Z_of_byte. pose proof (Byte.to_N_bounded b) as H. lia.
Qed.

Lemma Z_of_byte_of_Z (z : Z) : Z_of_byte (byte_of_Z z) = z mod 256.
Proof.
  unfold Z_of_byte, byte_of_Z.
  pose proof (Z.mod_pos_bound z 256 ltac:(lia)) as Hb.
  destruct (Byte.of_N (Z.to_N (z mod 256))) as [b |] eqn:E.
  - apply Byte.to_of_N in E. rewrite E. lia.
  - apply Byte.of_N_None_iff in E. lia.
Qed.

Lemma uint_range (v : Z) : 0 <= uint v < 2 ^ 32.
Proof. unfold uint. apply Z.mod_pos_bound. lia. Qed.

Lemma uint_small (v : Z) : 0 <= v < 2 ^ 32 -> uint v = v.
Proof. intros H. unfold uint. apply Z.mod_small. exact H. Qed.

Lemma bytes_word_bytes (v : Z) :
  0 <= v < 2 ^ 32 ->
  bytes_word (byte_of_Z v) (byte_of_Z (v / 256)) (byte_of_Z (v / 65536))
             (byte_of_Z (v / 16777216)) = v.
Proof.
  intros Hv. unfold bytes_word. rewrite !Z_of_byte_of_Z.
  change (2 ^ 32) with 4294967296 in Hv.
  Z.div_mod_to_equations. lia.
Qed.

Lemma bytes_word_range (b0 b1 b2 b3 : byte) : 0 <= bytes_word b0 b1 b2 b3 < 2 ^ 32.
Proof.
  unfold bytes_word.
  pose proof (Z_of_byte_range b0). pose proof (Z_of_byte_range b1).
  pose proof (Z_of_byte_range b2). pose proof (Z_of_byte_range b3).
  change (2 ^ 32) with 4294967296. lia.
Qed.

(** Slices of a byte list after an in-place update. *)
Lemma slice_inserts_same (l bs : list byte) (i : nat) :
  (i + length bs <= length l)%nat ->
  take (length bs) (drop i (list_inserts i bs l)) = bs.
Proof.
  intros Hlen. apply list_eq. intros k.
  rewrite lookup_take, lookup_drop.
  destruct (decide (k < length bs)%nat) as [Hk | Hk].
  - rewrite list_lookup_inserts by lia. f_equal. lia.
  - symmetry. apply lookup_ge_None. lia.
Qed.

Lemma slice_inserts_other (l bs : list byte) (i j n : nat) :
  (j + n <= i \/ i + length bs <= j)%nat ->
  take n (drop j (list_inserts i bs l)) = take n (drop j l).
Proof.
  intros Hsep. apply list_eq. intros k.
  rewrite !lookup_take, !lookup_drop.
  destruct (decide (k < n)%nat) as [Hk | Hk]; [| reflexivity].
  destruct Hsep as [Hsep | Hsep].
  - apply list_lookup_inserts_lt. lia.
  - apply list_lookup_inserts_ge. lia.
Qed.

Lemma set_mem_id (st : heap) : set_mem st (mem_heap st) = st.
Proof. destruct st; reflexivity. Qed.

Lemma in_heap_spec (st : heap) (p n : Z) :
  in_heap st p n = true <-> mem_start_brk st <= p /\ p + n <= mem_brk st.
Proof. unfold in_heap. rewrite andb_true_iff, !Z.leb_le. tauto. Qed.

(** What a successful store leaves behind. *)
Lemma store_bytes_inv (st st' : heap) (p : Z) (bs : list byte) :
  store_bytes st p bs = Ok st' ->
  st' = set_mem st (list_inserts (offset st p) bs (mem_heap st)) /\
  (bs = [] \/ in_heap st p (Z.of_nat (length bs)) = true).
Proof.
  unfold store_bytes. intros H.
  destruct (Z.eqb_spec (Z.of_nat (length bs)) 0) as [Hz | Hz].
  - destruct bs; [| simpl in Hz; lia]. injection H as <-. simpl.
    rewrite set_mem_id. auto.
  - destruct (in_heap st p (Z.of_nat (length bs))) eqn:Hin; [| discriminate].
    injection H as <-. auto.
Qed.

Lemma store_bytes_ok (st : heap) (p : Z) (bs : list byte) :
  in_heap st p (Z.of_nat (length bs)) = true ->
  store_bytes st p bs = Ok (set_mem st (list_inserts (offset st p) bs (mem_heap st))).
Proof.
  intros Hin. unfold store_bytes. rewrite Hin.
  destruct (Z.eqb_spec (Z.of_nat (length bs)) 0) as [Hz | Hz]; [| reflexivity].
  destruct bs; [| simpl in Hz; lia]. simpl. rewrite set_mem_id. reflexivity.
Qed.

End MemFacts.

(** ** Reading after writing *)
Module RW.
Import Mm Inv Frame MemFacts.

Lemma same_shape_refl (st : heap) : same_shape st st.
Proof. unfold same_shape. tauto. Qed.

Lemma same_shape_trans (st1 st2 st3 : heap) :
  same_shape st1 st2 -> same_shape st2 st3 -> same_shape st1 st3.
Proof.
  unfold same_shape. intros (-> & -> & -> & -> & -> & ->) (-> & -> & -> & -> & -> & ->).
  tauto.
Qed.

Lemma same_shape_brk (st st' : heap) : same_shape st st' -> mem_brk st' = mem_brk st.
Proof. unfold same_shape, mem_brk. intros (-> & _ & -> & _). reflexivity. Qed.

Lemma same_shape_in_heap (st st' : heap) (p n : Z) :
  same_shape st st' -> in_heap st' p n = in_heap st p n.
Proof.
  intros H. unfold in_heap. rewrite (same_shape_brk _ _ H).
  destruct H as (-> & _). reflexivity.
Qed.

Lemma same_shape_offset (st st' : heap) (p : Z) :
  same_shape st st' -> offset st' p = offset st p.
Proof. intros (H & _). unfold offset. rewrite H. reflexivity. Qed.

Lemma walk_fuel_eq (st : heap) : walk_fuel st = S (length (mem_heap st)).
Proof. reflexivity. Qed.

Lemma same_shape_fuel (st st' : heap) : same_shape st st' -> walk_fuel st' = walk_fuel st.
Proof. intros (_ & _ & H & _). unfold walk_fuel. rewrite H. reflexivity. Qed.

Lemma set_mem_shape (st : heap) (l : list byte) :
  length l = length (mem_heap st) -> same_shape st (set_mem st l).
Proof. intros H. unfold same_shape; simpl. tauto. Qed.

Lemma store_bytes_shape (st st' : heap) (p : Z) (bs : list byte) :
  store_bytes st p bs = Ok st' -> same_shape st st'.
Proof.
  intros H. apply store_bytes_inv in H as [-> _].
  apply set_mem_shape. apply length_inserts.
Qed.

Lemma load_store_same (st st' : heap) (p : Z) (bs : list byte) :
  store_bytes st p bs = Ok st' -> load_bytes st' p (Z.of_nat (length bs)) = Ok bs.
Proof.
  intros H. pose proof (store_bytes_shape _ _ _ _ H) as Hsh.
  apply store_bytes_inv in H as [-> [-> | Hin]]; [reflexivity |].
  unfold load_bytes.
  destruct (Z.eqb_spec (Z.of_nat (length bs)) 0) as [Hz | Hz].
  { destruct bs; [reflexivity | simpl in Hz; lia]. }
  rewrite (same_shape_in_heap _ _ _ _ Hsh), Hin, (same_shape_offset _ _ _ Hsh).
  simpl. rewrite Nat2Z.id. f_equal. apply slice_inserts_same.
  apply in_heap_spec in Hin. unfold mem_brk, offset in *. lia.
Qed.

Lemma load_store_other (st st' : heap) (p q n : Z) (bs : list byte) :
  store_bytes st p bs = Ok st' ->
  q + n <= p \/ p + Z.of_nat (length bs) <= q ->
  load_bytes st' q n = load_bytes st q n.
Proof.
  intros H Hsep. pose proof (store_bytes_shape _ _ _ _ H) as Hsh.
  apply store_bytes_inv in H as [-> [-> | Hin]].
  { simpl. rewrite set_mem_id. reflexivity. }
  unfold load_bytes.
  destruct (Z.eqb_spec n 0) as [Hz | Hz]; [reflexivity |].
  rewrite (same_shape_in_heap _ _ _ _ Hsh), (same_shape_offset _ _ _ Hsh).
  destruct (in_heap st q n) eqn:Hq; [| reflexivity].
  simpl. f_equal.
  destruct (Z_lt_le_dec n 0) as [Hneg | Hpos].
  { replace (Z.to_nat n) with 0%nat by lia. reflexivity. }
  apply slice_inserts_other.
  apply in_heap_spec in Hin, Hq. unfold mem_brk, offset in *. lia.
Qed.

(** [PUT] and [GET] *)
Lemma word_bytes_length (v : Z) : length (word_bytes v) = 4%nat.
Proof. reflexivity. Qed.

Lemma PUT_shape (st st' : heap) (p v : Z) : PUT st p v = Ok st' -> same_shape st st'.
Proof. apply store_bytes_shape. Qed.

Lemma PUT_ok (st : heap) (p v : Z) :
  in_heap st p 4 = true -> exists st', PUT st p v = Ok st'.
Proof.
  intros Hin. eexists. unfold PUT. apply store_bytes_ok. exact Hin.
Qed.

Lemma PUT_in_heap (st st' : heap) (p v : Z) : PUT st p v = Ok st' -> in_heap st p 4 = true.
Proof.
  intros H. apply store_bytes_inv in H as [_ [H | H]]; [discriminate | exact H].
Qed.

Lemma GET_PUT_eq (st st' : heap) (p v : Z) : PUT st p v = Ok st' -> GET st' p = Ok (uint v).
Proof.
  intros H. unfold PUT in H. apply load_store_same in H.
  unfold GET. change (Z.of_nat (length (word_bytes (uint v)))) with 4 in H.
  rewrite H. simpl. f_equal. apply bytes_word_bytes, uint_range.
Qed.

Lemma GET_PUT_ne (st st' : heap) (p q v : Z) :
  PUT st p v = Ok st' -> sep p q -> GET st' q = GET st q.
Proof.
  intros H Hsep. unfold GET.
  rewrite (load_store_other _ _ p q 4 _ H); [reflexivity |].
  rewrite word_bytes_length. unfold sep in Hsep. lia.
Qed.

Lemma GET_range (st : heap) (p w : Z) : GET st p = Ok w -> 0 <= w < 2 ^ 32.
Proof.
  unfold GET. destruct (load_bytes st p 4) as [bs | e]; [| discriminate].
  simpl. destruct bs as [| b0 [| b1 [| b2 [| b3 [| ? ?]]]]]; try discriminate.
  intros [= <-]. apply bytes_word_range.
Qed.

End RW.

(** ** Reallocation *)
Module Realloc.
Import Mm Inv Frame MemFacts RW Run.

Lemma load_bytes_length (st : heap) (p n : Z) (bs : list byte) :
  0 <= n -> load_bytes st p n = Ok bs -> Z.of_nat (length bs) = n.
Proof.
  intros Hn. unfold load_bytes.
  destruct (Z.eqb_spec n 0) as [-> | Hz]; [intros [= <-]; reflexivity |].
  destruct (in_heap st p n) eqn:Hin; [| discriminate].
  intros [= <-]. apply in_heap_spec in Hin.
  rewrite length_take, length_drop. unfold mem_brk, offset in *. lia.
Qed.

Lemma load_bytes_prefix (st : heap) (p n m : Z) (bs : list byte) :
  load_bytes st p n = Ok bs -> 0 <= m <= n ->
  load_bytes st p m = Ok (take (Z.to_nat m) bs).
Proof.
  unfold load_bytes. intros H Hm.
  destruct (Z.eqb_spec m 0) as [-> | Hm0]; [reflexivity |].
  destruct (Z.eqb_spec n 0) as [-> | Hn0]; [lia |].
  destruct (in_heap st p n) eqn:Hin; [| discriminate].
  injection H as <-.
  assert (in_heap st p m = true) as ->.
  { apply in_heap_spec in Hin. apply in_heap_spec. lia. }
  f_equal. rewrite take_take. f_equal. lia.
Qed.

Lemma load_bytes_ok (st : heap) (p n : Z) :
  in_heap st p n = true -> exists bs, load_bytes st p n = Ok bs.
Proof.
  intros Hin. unfold load_bytes. rewrite Hin. destruct (n =? 0); eauto.
Qed.

Lemma realloc_copy_len_min (st : heap) (oldptr size osize : Z) :
  GET_SIZE st (HDRP oldptr) = Ok osize ->
  realloc_copy_len st oldptr size = Ok (Z.min osize size).
Proof.
  intros H. unfold realloc_copy_len. rewrite H. simpl. f_equal.
  destruct (Z.ltb_spec size osize); lia.
Qed.

End Realloc.

(** ** The search *)
Module Search.
Import Mm Inv Frame MemFacts RW.

#[local] Opaque walk_fuel.

Lemma res_bind_ok {A B : Type} (m : res A) (f : A -> res B) (b : B) :
  m ≫= f = Ok b -> exists a, m = Ok a /\ f a = Ok b.
Proof. destruct m as [a | e]; simpl; [eauto | discriminate]. Qed.

Lemma list_from_not_null (fuel : nat) (st : heap) (bp : Z) (l : list Z) :
  list_from fuel st bp = Ok l -> Forall (fun x => x <> NULL) l.
Proof.
  revert bp l. induction fuel as [| fuel IH]; intros bp l; simpl.
  - destruct (Z.eqb_spec bp NULL); [intros [= <-]; constructor | discriminate].
  - destruct (Z.eqb_spec bp NULL) as [| Hbp]; [intros [= <-]; constructor |].
    intros H. apply res_bind_ok in H as (s & Hs & H).
    apply res_bind_ok in H as (l' & Hl' & H). injection H as <-.
    constructor; [exact Hbp | eapply IH; exact Hl'].
Qed.

(** The inner loop of [find_fit] returns the first fit of the list it walks. *)
Lemma find_in_list_first_fit (fuel : nat) (st : heap) (bp asize : Z) (l : list Z) :
  list_from fuel st bp = Ok l -> find_in_list fuel st bp asize = first_fit st l asize.
Proof.
  revert bp l. induction fuel as [| fuel IH]; intros bp l; simpl.
  - destruct (Z.eqb_spec bp NULL); [intros [= <-]; reflexivity | discriminate].
  - destruct (Z.eqb_spec bp NULL) as [| Hbp]; [intros [= <-]; reflexivity |].
    intros H. apply res_bind_ok in H as (s & Hs & H).
    apply res_bind_ok in H as (l' & Hl' & H). injection H as <-.
    simpl. destruct (GET_SIZE st (HDRP bp)) as [sz | e]; [| reflexivity]. simpl.
    destruct (asize <=? sz); [reflexivity |].
    rewrite Hs. simpl. apply IH. exact Hl'.
Qed.

Lemma first_fit_app (st : heap) (l1 l2 : list Z) (asize : Z) :
  Forall (fun x => x <> NULL) l1 ->
  first_fit st (l1 ++ l2) asize
  = (r ← first_fit st l1 asize; if r =? NULL then first_fit st l2 asize else Ok r).
Proof.
  induction 1 as [| x l1 Hx _ IH]; simpl.
  - reflexivity.
  - destruct (GET_SIZE st (HDRP x)) as [sz | e]; [| reflexivity]. simpl.
    destruct (asize <=? sz); [| exact IH].
    simpl. destruct (Z.eqb_spec x NULL); [contradiction | reflexivity].
Qed.

Lemma upward_step (c : Z) :
  0 <= c < CLASS_CNT -> upward c = c :: upward (c + 1).
Proof.
  intros Hc. unfold upward, CLASS_CNT in *.
  replace (Z.to_nat (14 - c)) with (S (Z.to_nat (14 - (c + 1)))) by lia.
  simpl. f_equal; [lia |].
  rewrite <- seq_shift, map_map. apply map_ext. intros i. lia.
Qed.

Lemma upward_end : upward CLASS_CNT = [].
Proof. reflexivity. Qed.

Lemma head_cell_next (st : heap) (c : Z) : head_cell st c + WSIZE = head_cell st (c + 1).
Proof. unfold head_cell, WSIZE, CLASS_CNT. lia. Qed.

Lemma head_cell_end (st : heap) : heap_listp st - 2 * WSIZE = head_cell st CLASS_CNT.
Proof. unfold head_cell, WSIZE, CLASS_CNT. lia. Qed.

Lemma find_fit_from_lists (st : heap) (asize : Z) (lists : Z -> list Z) (n : nat) :
  forall (c : Z) (fuel : nat),
    0 <= c -> c + Z.of_nat n = CLASS_CNT -> (n <= fuel)%nat ->
    (forall k, c <= k < CLASS_CNT -> class_list st k = Ok (lists k)) ->
    find_fit_from fuel st (head_cell st c) (head_cell st CLASS_CNT) asize
    = first_fit st (concat (map lists (upward c))) asize.
Proof.
  induction n as [| n IH]; intros c fuel Hc Hn Hfuel Hl.
  - replace c with CLASS_CNT by lia. rewrite upward_end. simpl.
    destruct fuel; simpl; rewrite Z.eqb_refl; reflexivity.
  - destruct fuel as [| fuel]; [lia |]. simpl.
    destruct (Z.eqb_spec (head_cell st c) (head_cell st CLASS_CNT)) as [Heq | _].
    { unfold head_cell, WSIZE in Heq. lia. }
    rewrite upward_step by lia. simpl.
    pose proof (Hl c ltac:(lia)) as Hc_list. unfold class_list in Hc_list.
    apply res_bind_ok in Hc_list as (h & -> & Hc_list). simpl.
    rewrite (find_in_list_first_fit _ _ _ _ _ Hc_list).
    rewrite first_fit_app by (eapply list_from_not_null; exact Hc_list).
    destruct (first_fit st (lists c) asize) as [r | e]; [| reflexivity]. simpl.
    destruct (r =? NULL); [| reflexivity].
    rewrite head_cell_next. apply IH; try lia.
    intros k Hk. apply Hl. lia.
Qed.

(** [find_fit] returns the first block of size at least [asize] met when the
    class lists are read one after the other from the class of [asize] up. *)
Lemma find_fit_first_fit (st : heap) (asize : Z) (lists : Z -> list Z) :
  (forall k, class_of asize <= k < CLASS_CNT -> class_list st k = Ok (lists k)) ->
  find_fit st asize = first_fit st (concat (map lists (upward (class_of asize)))) asize.
Proof.
  intros Hl. unfold find_fit, get_listp. rewrite head_cell_end.
  assert (0 <= class_of asize < CLASS_CNT) as Hc.
  { unfold class_of, CLASS_CNT.
    repeat match goal with |- context [if ?b then _ else _] => destruct b end; lia. }
  apply (find_fit_from_lists st asize lists (Z.to_nat (CLASS_CNT - class_of asize)));
    [lia | unfold CLASS_CNT in *; lia | unfold CLASS_CNT in *; lia | exact Hl].
Qed.

End Search.

(** ** Link fields and list segments *)
Module Links.
Import Mm Inv Frame MemFacts RW Search.

Lemma REL_ABS (st : heap) (x : Z) :
  x = NULL \/ linkable st x -> REL2ABS st (uint (ABS2REL st x)) = x.
Proof.
  unfold REL2ABS, ABS2REL, linkable, NULL.
  intros [-> | [_ Hx]]; [reflexivity |].
  destruct (Z.eqb_spec x 0) as [-> | Hx0]; [reflexivity |].
  rewrite (uint_small (uint _)) by apply uint_range.
  rewrite uint_small by lia.
  destruct (Z.eqb_spec (x - heap_listp st) 0); lia.
Qed.

Lemma REL2ABS_linkable (st : heap) (w : Z) :
  0 <= w < 2 ^ 32 -> REL2ABS st w <> NULL -> linkable st (REL2ABS st w).
Proof.
  unfold REL2ABS, linkable, NULL. destruct (Z.eqb_spec w 0); intros; lia.
Qed.

Lemma same_shape_REL2ABS (st st' : heap) (w : Z) :
  same_shape st st' -> REL2ABS st' w = REL2ABS st w.
Proof. intros (_ & _ & _ & _ & _ & H). unfold REL2ABS. rewrite H. reflexivity. Qed.

Lemma same_shape_linkable (st st' : heap) (x : Z) :
  same_shape st st' -> linkable st x -> linkable st' x.
Proof. intros (_ & _ & _ & _ & _ & H). unfold linkable. rewrite H. tauto. Qed.

Lemma same_shape_head_cell (st st' : heap) (c : Z) :
  same_shape st st' -> head_cell st' c = head_cell st c.
Proof. intros (_ & _ & _ & _ & _ & H). unfold head_cell. rewrite H. reflexivity. Qed.

Lemma GET_in_heap (st : heap) (p w : Z) : GET st p = Ok w -> in_heap st p 4 = true.
Proof.
  unfold GET, load_bytes. simpl.
  destruct (in_heap st p 4); [reflexivity | discriminate].
Qed.

Lemma get_link_linkable (st : heap) (p x : Z) :
  get_link st p = Ok x -> x <> NULL -> linkable st x.
Proof.
  unfold get_link. intros H Hx. apply res_bind_ok in H as (w & Hw & [= <-]).
  apply REL2ABS_linkable; [eapply GET_range; exact Hw | exact Hx].
Qed.

Lemma get_link_in_heap (st : heap) (p x : Z) : get_link st p = Ok x -> in_heap st p 4 = true.
Proof.
  unfold get_link. intros H. apply res_bind_ok in H as (w & Hw & _).
  eapply GET_in_heap; exact Hw.
Qed.

Lemma set_link_ok (st : heap) (p x : Z) :
  in_heap st p 4 = true -> exists st', set_link st p x = Ok st'.
Proof. apply PUT_ok. Qed.

Lemma set_link_shape (st st' : heap) (p x : Z) : set_link st p x = Ok st' -> same_shape st st'.
Proof. apply PUT_shape. Qed.

Lemma get_set_link_eq (st st' : heap) (p x : Z) :
  set_link st p x = Ok st' -> x = NULL \/ linkable st x -> get_link st' p = Ok x.
Proof.
  intros H Hx. unfold get_link. pose proof (PUT_shape _ _ _ _ H) as Hsh.
  rewrite (GET_PUT_eq _ _ _ _ H). simpl.
  rewrite (same_shape_REL2ABS _ _ _ Hsh), REL_ABS by exact Hx. reflexivity.
Qed.

Lemma get_set_link_ne (st st' : heap) (p q x : Z) :
  set_link st p x = Ok st' -> sep p q -> get_link st' q = get_link st q.
Proof.
  intros H Hsep. unfold get_link. pose proof (PUT_shape _ _ _ _ H) as Hsh.
  rewrite (GET_PUT_ne _ _ _ _ _ H Hsep).
  destruct (GET st q); simpl; [| reflexivity].
  rewrite (same_shape_REL2ABS _ _ _ Hsh). reflexivity.
Qed.

Lemma GET_SIZE_set_link (st st' : heap) (p q x : Z) :
  set_link st p x = Ok st' -> sep p q -> GET_SIZE st' q = GET_SIZE st q.
Proof.
  intros H Hsep. unfold GET_SIZE. rewrite (GET_PUT_ne _ _ _ _ _ H Hsep). reflexivity.
Qed.

(** Segments *)
Lemma seg_app (st : heap) (l1 l2 : list Z) (h m : Z) :
  seg st h (l1 ++ l2) m <-> exists k, seg st h l1 k /\ seg st k l2 m.
Proof.
  revert h. induction l1 as [| x l1 IH]; intros h; simpl.
  - split; [intros H; exists h; auto | intros (k & -> & H); exact H].
  - split.
    + intros (-> & Hx & s & Hs & H). apply IH in H as (k & H1 & H2).
      exists k. split; [| exact H2]. repeat split; [exact Hx |]. exists s. auto.
    + intros (k & (-> & Hx & s & Hs & H1) & H2).
      repeat split; [exact Hx |]. exists s. split; [exact Hs |].
      apply IH. exists k. auto.
Qed.

Lemma seg_frame (st st' : heap) (l : list Z) (h m : Z) :
  Forall (fun x => GET_SUCC st' x = GET_SUCC st x) l -> seg st h l m -> seg st' h l m.
Proof.
  intros Hf. revert h. induction Hf as [| x l Hx _ IH]; intros h; simpl; [auto |].
  intros (-> & Hn & s & Hs & H). repeat split; [exact Hn |].
  exists s. rewrite Hx. auto.
Qed.

Lemma list_from_seg (fuel : nat) (st : heap) (h : Z) (l : list Z) :
  list_from fuel st h = Ok l -> seg st h l NULL.
Proof.
  revert h l. induction fuel as [| fuel IH]; intros h l; simpl.
  - destruct (Z.eqb_spec h NULL); [intros [= <-]; assumption | discriminate].
  - destruct (Z.eqb_spec h NULL) as [| Hh]; [intros [= <-]; assumption |].
    intros H. apply res_bind_ok in H as (s & Hs & H).
    apply res_bind_ok in H as (l' & Hl' & [= <-]). simpl.
    repeat split; [exact Hh |]. exists s. split; [exact Hs | apply IH; exact Hl'].
Qed.

Lemma seg_list_from (fuel : nat) (st : heap) (h : Z) (l : list Z) :
  seg st h l NULL -> (length l <= fuel)%nat -> list_from fuel st h = Ok l.
Proof.
  revert h l. induction fuel as [| fuel IH]; intros h l Hseg Hlen.
  - destruct l; [| simpl in Hlen; lia]. simpl in *. subst h. reflexivity.
  - destruct l as [| x l]; simpl in *.
    + subst h. reflexivity.
    + destruct Hseg as (-> & Hx & s & Hs & Hseg).
      destruct (Z.eqb_spec x NULL); [contradiction |].
      rewrite Hs. simpl. rewrite (IH s l Hseg) by lia. reflexivity.
Qed.

End Links.

(** ** Runs of link stores *)
Module Writes.
Import Mm Inv Frame MemFacts RW Search Links.

Lemma sep_sym (p q : Z) : sep p q -> sep q p.
Proof. unfold sep. tauto. Qed.

Lemma get_link_frame (st st' : heap) (q : Z) :
  same_shape st st' -> GET st' q = GET st q -> get_link st' q = get_link st q.
Proof.
  intros Hsh Hq. unfold get_link. rewrite Hq.
  destruct (GET st q); simpl; [| reflexivity].
  rewrite (same_shape_REL2ABS _ _ _ Hsh). reflexivity.
Qed.

Lemma GET_SIZE_frame (st st' : heap) (q : Z) :
  GET st' q = GET st q -> GET_SIZE st' q = GET_SIZE st q.
Proof. intros Hq. unfold GET_SIZE. rewrite Hq. reflexivity. Qed.

Lemma GET_ALLOC_frame (st st' : heap) (q : Z) :
  GET st' q = GET st q -> GET_ALLOC st' q = GET_ALLOC st q.
Proof. intros Hq. unfold GET_ALLOC. rewrite Hq. reflexivity. Qed.

(** A run of stores to pairwise disjoint words inside the heap succeeds;
    afterwards each word holds its link and every other word is unchanged. *)
Lemma run_writes_spec (ws : list (Z * Z)) :
  forall st : heap,
    Forall (fun w => in_heap st w.1 4 = true /\ (w.2 = NULL \/ linkable st w.2)) ws ->
    cells_sep (map fst ws) ->
    exists st',
      run_writes st ws = Ok st' /\ same_shape st st' /\
      Forall (fun w => get_link st' w.1 = Ok w.2) ws /\
      (forall q, Forall (fun p => sep p q) (map fst ws) -> GET st' q = GET st q).
Proof.
  induction ws as [| [p x] ws IH]; intros st Hws Hsep.
  - exists st. simpl. repeat split; auto using same_shape_refl.
  - inversion Hws as [| ? ? [Hin Hx] Hws']; subst. simpl in Hin, Hx.
    destruct Hsep as [Hp Hsep]. fold (map fst ws) in Hp, Hsep.
    destruct (set_link_ok st p x Hin) as [st1 H1].
    pose proof (set_link_shape _ _ _ _ H1) as Hsh1.
    destruct (IH st1) as (st' & Hrun & Hsh & Hget & Hframe); [| exact Hsep |].
    { eapply Forall_impl; [exact Hws' |]. intros [p' x'] [Hin' Hx']. simpl in *.
      rewrite (same_shape_in_heap _ _ _ _ Hsh1). split; [exact Hin' |].
      destruct Hx' as [-> | Hx']; [left; reflexivity | right].
      eapply same_shape_linkable; eauto. }
    exists st'. simpl. rewrite H1. simpl. split; [exact Hrun |].
    split; [eapply same_shape_trans; eauto |]. split.
    + constructor; [| exact Hget]. simpl.
      rewrite (get_link_frame st1 st' p Hsh).
      * eapply get_set_link_eq; eauto.
      * apply Hframe. eapply Forall_impl; [exact Hp |]. intros q. apply sep_sym.
    + intros q Hq. inversion Hq as [| ? ? Hpq Hq']; subst.
      rewrite (Hframe q Hq'). eapply GET_PUT_ne; eauto.
Qed.

End Writes.

(** ** Insertion into a class list *)
Module Insert.
Import Mm Inv Frame MemFacts RW Search Links Writes.

#[local] Opaque walk_fuel.

Lemma last_cons (x d : Z) (l : list Z) : List.last (x :: l) d = List.last l x.
Proof.
  revert x d. induction l as [| y l IH]; intros x d; [reflexivity |].
  change (List.last (x :: y :: l) d) with (List.last (y :: l) d).
  rewrite !IH. reflexivity.
Qed.

Lemma last_in (l : list Z) (d : Z) : l <> [] -> In (List.last l d) l.
Proof.
  revert d. induction l as [| x l IH]; intros d H; [contradiction |].
  rewrite last_cons. destruct l as [| y l]; [left; reflexivity |].
  right. apply IH. discriminate.
Qed.

Lemma list_from_cons (fuel : nat) (st : heap) (h x : Z) (l : list Z) :
  list_from fuel st h = Ok (x :: l) ->
  exists fuel' s, fuel = S fuel' /\ h = x /\ x <> NULL /\
                  GET_SUCC st x = Ok s /\ list_from fuel' st s = Ok l.
Proof.
  destruct fuel as [| fuel]; simpl.
  - destruct (h =? NULL); discriminate.
  - destruct (Z.eqb_spec h NULL) as [| Hh]; [discriminate |].
    intros H. apply res_bind_ok in H as (s & Hs & H).
    apply res_bind_ok in H as (l' & Hl' & [= <- <-]).
    exists fuel, s. auto.
Qed.

Lemma list_from_nil (fuel : nat) (st : heap) (h : Z) : list_from fuel st h = Ok [] -> h = NULL.
Proof. intros H. apply list_from_seg in H. exact H. Qed.

Lemma insert_scan_null (fuel : nat) (st : heap) (sz pred0 : Z) :
  insert_scan fuel st sz pred0 NULL = Ok (pred0, NULL).
Proof. destruct fuel; reflexivity. Qed.

(** The scan stops between the blocks smaller than [sz] and the rest. *)
Lemma insert_scan_spec (st : heap) (sz : Z) (L : list Z) :
  forall (fuel : nat) (pred0 h : Z) (ss : list Z),
    list_from fuel st h = Ok L -> sizes st L = Ok ss ->
    exists L1 L2 ss1 ss2,
      L = L1 ++ L2 /\ ss = ss1 ++ ss2 /\ length L1 = length ss1 /\
      Forall (fun s => s < sz) ss1 /\
      match ss2 with [] => True | s :: _ => sz <= s end /\
      insert_scan fuel st sz pred0 h = Ok (List.last L1 pred0, hd NULL L2).
Proof.
  induction L as [| x L IH]; intros fuel pred0 h ss Hl Hs.
  - apply list_from_nil in Hl as ->. injection Hs as <-.
    exists [], [], [], []. rewrite insert_scan_null. simpl. repeat split; auto.
  - apply list_from_cons in Hl as (fuel' & s & -> & -> & Hx & Hsucc & Hl).
    simpl in Hs. apply res_bind_ok in Hs as (sx & Hsx & Hs).
    apply res_bind_ok in Hs as (ss' & Hss' & [= <-]).
    simpl. destruct (Z.eqb_spec x NULL); [contradiction |].
    rewrite Hsx. simpl. destruct (Z.ltb_spec sx sz) as [Hlt | Hge].
    + rewrite Hsucc. simpl.
      destruct (IH fuel' x s ss' Hl Hss') as (L1 & L2 & ss1 & ss2 & -> & -> & Hlen & Hf & Hh & Hscan).
      exists (x :: L1), L2, (sx :: ss1), ss2. rewrite last_cons, Hscan. simpl.
      repeat split; auto.
    + exists [], (x :: L), [], (sx :: ss'). simpl. repeat split; auto.
Qed.

Lemma seg_linkable (st : heap) (L : list Z) :
  forall p0 h m, get_link st p0 = Ok h -> seg st h L m -> Forall (linkable st) L.
Proof.
  induction L as [| x L IH]; intros p0 h m Hh Hseg; [constructor |].
  destruct Hseg as (-> & Hx & s & Hs & Hseg). constructor.
  - eapply get_link_linkable; eauto.
  - eapply (IH (SUCCP x)); eauto.
Qed.

Lemma seg_succ_in_heap (st : heap) (L : list Z) :
  forall h m, seg st h L m -> Forall (fun x => in_heap st (x + 4) 4 = true) L.
Proof.
  induction L as [| x L IH]; intros h m Hseg; [constructor |].
  destruct Hseg as (-> & Hx & s & Hs & Hseg). constructor; [| eapply IH; eauto].
  eapply (get_link_in_heap st (x + 4)). exact Hs.
Qed.

Lemma sizes_in_heap (st : heap) (L : list Z) (ss : list Z) :
  sizes st L = Ok ss -> Forall (fun x => in_heap st (x - 4) 4 = true) L.
Proof.
  revert ss. induction L as [| x L IH]; intros ss H; [constructor |].
  simpl in H. apply res_bind_ok in H as (sx & Hsx & H).
  apply res_bind_ok in H as (ss' & Hss' & _). constructor; [| eapply IH; eauto].
  unfold GET_SIZE in Hsx. apply res_bind_ok in Hsx as (w & Hw & _).
  eapply GET_in_heap. exact Hw.
Qed.

Lemma in_heap_between (st : heap) (x : Z) :
  in_heap st (x - 4) 4 = true -> in_heap st (x + 4) 4 = true -> in_heap st x 4 = true.
Proof. rewrite !in_heap_spec. lia. Qed.

Lemma bind_ext {A B : Type} (m : res A) (f g : A -> res B) :
  (forall a, f a = g a) -> m ≫= f = m ≫= g.
Proof. intros H. destruct m; simpl; auto. Qed.

Lemma bind_ret {A : Type} (m : res A) : m ≫= Ok = m.
Proof. destruct m; reflexivity. Qed.

Lemma apart_sym (x y : Z) : apart x y -> apart y x.
Proof. unfold apart. tauto. Qed.

Lemma spaced_app (l1 l2 : list Z) :
  spaced (l1 ++ l2) <->
  spaced l1 /\ spaced l2 /\ Forall (fun x => Forall (apart x) l2) l1.
Proof.
  induction l1 as [| x l1 IH]; simpl.
  - split; [intros H; repeat split; auto | tauto].
  - rewrite Forall_app, IH, Forall_cons. tauto.
Qed.

Lemma sizes_app_eq (st : heap) (l1 l2 : list Z) :
  sizes st (l1 ++ l2) = (ss1 ← sizes st l1; ss2 ← sizes st l2; Ok (ss1 ++ ss2)).
Proof.
  induction l1 as [| x l1 IH]; simpl.
  - symmetry. apply bind_ret.
  - destruct (GET_SIZE st (HDRP x)); simpl; [| reflexivity].
    rewrite IH. destruct (sizes st l1); simpl; [| reflexivity].
    destruct (sizes st l2); reflexivity.
Qed.

Lemma sizes_length (st : heap) (l ss : list Z) : sizes st l = Ok ss -> length l = length ss.
Proof.
  revert ss. induction l as [| x l IH]; intros ss; simpl; [intros [= <-]; reflexivity |].
  intros H. apply res_bind_ok in H as (sx & _ & H).
  apply res_bind_ok in H as (ss' & Hss' & [= <-]). simpl. f_equal. auto.
Qed.

Lemma sizes_app (st : heap) (l1 l2 : list Z) (ss1 ss2 : list Z) :
  length l1 = length ss1 ->
  sizes st (l1 ++ l2) = Ok (ss1 ++ ss2) <-> sizes st l1 = Ok ss1 /\ sizes st l2 = Ok ss2.
Proof.
  intros Hlen. rewrite sizes_app_eq. split.
  - intros H. apply res_bind_ok in H as (a & Ha & H).
    apply res_bind_ok in H as (b & Hb & [= Hab]).
    apply app_inj_1 in Hab as [-> ->]; [auto |].
    rewrite <- (sizes_length _ _ _ Ha). exact Hlen.
  - intros [-> ->]. reflexivity.
Qed.

Lemma sizes_frame (st st' : heap) (l : list Z) :
  Forall (fun x => GET_SIZE st' (HDRP x) = GET_SIZE st (HDRP x)) l ->
  sizes st' l = sizes st l.
Proof.
  induction 1 as [| x l Hx _ IH]; simpl; [reflexivity |].
  rewrite Hx, IH. reflexivity.
Qed.

Lemma seg_hd (st : heap) (l : list Z) (k m : Z) :
  seg st k l m -> l <> [] -> k = hd NULL l.
Proof. destruct l; [contradiction | intros (-> & _) _; reflexivity]. Qed.

Lemma seg_snoc (st : heap) (l : list Z) (h p m : Z) :
  seg st h (l ++ [p]) m <-> seg st h l p /\ p <> NULL /\ GET_SUCC st p = Ok m.
Proof.
  rewrite seg_app. simpl. split.
  - intros (k & H1 & -> & Hp & s & Hs & ->). auto.
  - intros (H1 & Hp & Hs). exists p. split; [exact H1 |].
    repeat split; [exact Hp |]. exists m. auto.
Qed.

Lemma class_of_range (size : Z) : 0 <= class_of size < CLASS_CNT.
Proof.
  unfold class_of, CLASS_CNT.
  repeat match goal with |- context [if ?b then _ else _] => destruct b end; lia.
Qed.

Lemma head_cell_below (st : heap) (c : Z) :
  0 <= c < CLASS_CNT -> head_cell st c + 12 <= heap_listp st.
Proof. unfold head_cell, CLASS_CNT, WSIZE. lia. Qed.

(** With the scan result known, [insert_to_free_list] is a run of stores. *)
Lemma insert_as_writes (st : heap) (bp sz h : Z) (L1 L2 : list Z) :
  GET_SIZE st (HDRP bp) = Ok sz ->
  GET_HEAD st (get_listp st sz) = Ok h ->
  insert_scan (walk_fuel st) st sz (get_listp st sz) h
  = Ok (List.last L1 (get_listp st sz), hd NULL L2) ->
  Forall (linkable st) (L1 ++ L2) ->
  insert_to_free_list st bp = run_writes st (insert_writes (get_listp st sz) bp L1 L2).
Proof.
  intros Hsz Hh Hscan Hlink. unfold insert_to_free_list.
  rewrite Hsz. simpl. rewrite Hh. simpl. rewrite Hscan. simpl.
  set (hp := get_listp st sz) in *.
  assert (hp + 12 <= heap_listp st) as Hhp
    by (apply head_cell_below, class_of_range).
  apply Forall_app in Hlink as [Hl1 Hl2].
  assert (L1 <> [] -> List.last L1 hp <> hp) as Hpred.
  { intros Hne. pose proof (last_in L1 hp Hne) as Hin.
    rewrite Forall_forall in Hl1. destruct (Hl1 _ (proj2 (list_elem_of_In _ _) Hin)) as [_ ?]. lia. }
  unfold insert_writes. destruct L1 as [| x1 L1]; destruct L2 as [| s L2]; simpl hd.
  - simpl List.last. rewrite Z.eqb_refl. simpl.
    apply bind_ext; intros st1. apply bind_ext; intros st2.
    symmetry. apply bind_ret.
  - assert (s <> NULL) as Hs by (inversion Hl2 as [| ? ? [? _]]; assumption).
    simpl List.last. rewrite Z.eqb_refl. destruct (Z.eqb_spec s NULL); [contradiction |].
    simpl. do 3 (apply bind_ext; intros ?). symmetry. apply bind_ret.
  - destruct (Z.eqb_spec (List.last (x1 :: L1) hp) hp) as [E | _];
      [exfalso; apply Hpred; [discriminate | exact E] |].
    simpl. do 2 (apply bind_ext; intros ?). symmetry. apply bind_ret.
  - assert (s <> NULL) as Hs by (inversion Hl2 as [| ? ? [? _]]; assumption).
    destruct (Z.eqb_spec (List.last (x1 :: L1) hp) hp) as [E | _];
      [exfalso; apply Hpred; [discriminate | exact E] |].
    destruct (Z.eqb_spec s NULL); [contradiction |].
    simpl. do 3 (apply bind_ext; intros ?). symmetry. apply bind_ret.
Qed.

(** The words [insert_to_free_list] writes. *)
Lemma insert_cells (hp bp : Z) (L1 L2 : list Z) :
  Forall (fun p => (L1 = [] /\ p = hp) \/ (L1 <> [] /\ p = List.last L1 hp + 4) \/
                   p = bp \/ p = bp + 4 \/ (L2 <> [] /\ p = hd NULL L2))
         (map fst (insert_writes hp bp L1 L2)).
Proof.
  destruct L1 as [| x1 L1]; destruct L2 as [| s L2]; unfold insert_writes; simpl map;
    repeat (apply List.Forall_cons); try apply List.Forall_nil;
    first [ left; split; reflexivity
          | right; left; split; [discriminate | reflexivity]
          | right; right; left; reflexivity
          | right; right; right; left; reflexivity
          | right; right; right; right; split; [discriminate | reflexivity] ].
Qed.

Lemma spaced_pairwise (l : list Z) (x y : Z) :
  spaced l -> In x l -> In y l -> x = y \/ apart x y.
Proof.
  induction l as [| z l IH]; intros Hsp Hx Hy; [contradiction |].
  destruct Hsp as [Hz Hsp]. rewrite Forall_forall in Hz.
  destruct Hx as [-> | Hx]; destruct Hy as [-> | Hy].
  - left; reflexivity.
  - right. apply Hz, list_elem_of_In, Hy.
  - right. apply apart_sym, Hz, list_elem_of_In, Hx.
  - apply IH; assumption.
Qed.

Lemma spaced_last (l1 l2 : list Z) (p : Z) :
  spaced (l1 ++ p :: l2) -> Forall (fun x => apart x p) (l1 ++ l2).
Proof.
  intros H. apply spaced_app in H as (_ & [Hp _] & H12).
  apply Forall_app. split.
  - eapply Forall_impl; [exact H12 |]. intros x Hx. inversion Hx; assumption.
  - eapply Forall_impl; [exact Hp |]. intros x. apply apart_sym.
Qed.

(** What the scan needs to know about the list and the block, gathered. *)
Lemma insert_facts (st : heap) (bp h : Z) (L1 L2 ss : list Z) (hp : Z) :
  get_link st hp = Ok h -> seg st h (L1 ++ L2) NULL -> sizes st (L1 ++ L2) = Ok ss ->
  spaced (bp :: L1 ++ L2) ->
  Forall (fun x => linkable st x /\ in_heap st x 4 = true /\ in_heap st (x + 4) 4 = true /\
                   apart bp x /\
                   (L1 <> [] -> x = List.last L1 hp \/ apart x (List.last L1 hp)) /\
                   (L2 <> [] -> x = hd NULL L2 \/ apart x (hd NULL L2)))
         (L1 ++ L2).
Proof.
  intros Hh Hseg Hss [Hbp Hsp].
  pose proof (seg_linkable _ _ _ _ _ Hh Hseg) as Hlink.
  pose proof (seg_succ_in_heap _ _ _ _ Hseg) as Hsucc.
  pose proof (sizes_in_heap _ _ _ Hss) as Hhdr.
  apply List.Forall_forall. intros x Hx.
  rewrite List.Forall_forall in Hlink, Hsucc, Hhdr, Hbp.
  split; [auto |]. split; [apply in_heap_between; auto |].
  split; [auto |]. split; [auto |]. split.
  - intros Hne. apply (spaced_pairwise (L1 ++ L2)); auto.
    apply in_or_app. left. apply last_in. exact Hne.
  - intros Hne. apply (spaced_pairwise (L1 ++ L2)); auto.
    apply in_or_app. right. destruct L2; [contradiction | left; reflexivity].
Qed.

Ltac sep_arith :=
  simpl;
  repeat match goal with
         | |- _ /\ _ => split
         | |- Forall _ [] => apply List.Forall_nil
         | |- Forall _ (_ :: _) => apply List.Forall_cons
         | |- True => exact I
         end;
  simpl; simpl hd in *; unfold sep, apart, linkable, NULL in *; try lia.

(** The stores of an insertion go to disjoint words inside the heap and
    store NULL or pointers a link can hold. *)
Lemma insert_writes_ok (st : heap) (bp hp : Z) (L1 L2 : list Z) :
  Forall (fun x => linkable st x /\ in_heap st x 4 = true /\ in_heap st (x + 4) 4 = true /\
                   apart bp x /\
                   (L1 <> [] -> x = List.last L1 hp \/ apart x (List.last L1 hp)) /\
                   (L2 <> [] -> x = hd NULL L2 \/ apart x (hd NULL L2)))
         (L1 ++ L2) ->
  linkable st bp -> in_heap st bp 8 = true -> in_heap st hp 4 = true ->
  hp + 12 <= heap_listp st ->
  Forall (fun w => in_heap st w.1 4 = true /\ (w.2 = NULL \/ linkable st w.2))
         (insert_writes hp bp L1 L2) /\
  cells_sep (map fst (insert_writes hp bp L1 L2)).
Proof.
  intros HF Hbp Hbp_in Hhp_in Hhp. rewrite List.Forall_forall in HF.
  assert (L1 <> [] ->
          linkable st (List.last L1 hp) /\ in_heap st (List.last L1 hp + 4) 4 = true /\
          apart bp (List.last L1 hp) /\
          (L2 <> [] -> List.last L1 hp = hd NULL L2 \/ apart (List.last L1 hp) (hd NULL L2)))
    as Hp.
  { intros Hne. destruct (HF (List.last L1 hp)) as (a & b & c & d & e & f); [| auto].
    apply in_or_app. left. apply last_in. exact Hne. }
  assert (L2 <> [] ->
          linkable st (hd NULL L2) /\ in_heap st (hd NULL L2) 4 = true /\ apart bp (hd NULL L2))
    as Hs.
  { intros Hne. destruct (HF (hd NULL L2)) as (a & b & c & d & e & f); [| auto].
    apply in_or_app. right. destruct L2; [contradiction | left; reflexivity]. }
  assert (in_heap st bp 4 = true /\ in_heap st (bp + 4) 4 = true) as [Hb0 Hb4].
  { rewrite !in_heap_spec in *. lia. }
  clear HF.
  destruct L1 as [| x1 L1]; destruct L2 as [| s L2]; unfold insert_writes.
  - split; sep_arith; auto.
  - destruct (Hs ltac:(discriminate)) as (Hs1 & Hs2 & Hs3).
    split; sep_arith; auto.
  - destruct (Hp ltac:(discriminate)) as (Hp1 & Hp2 & Hp3 & _).
    set (p := List.last (x1 :: L1) hp) in *. clearbody p.
    split; sep_arith; auto.
  - destruct (Hs ltac:(discriminate)) as (Hs1 & Hs2 & Hs3).
    destruct (Hp ltac:(discriminate)) as (Hp1 & Hp2 & Hp3 & Hp4).
    specialize (Hp4 ltac:(discriminate)).
    set (p := List.last (x1 :: L1) hp) in *. clearbody p.
    split; sep_arith; auto.
Qed.

Ltac by_cells :=
  eapply Forall_impl; [apply insert_cells |]; simpl;
  intros ? [[? ->] | [[? ->] | [-> | [-> | [? ->]]]]];
  unfold sep, apart, linkable in *; intuition lia.

Lemma insert_writes_in (hp bp : Z) (L1 L2 : list Z) :
  In (bp + 4, hd NULL L2) (insert_writes hp bp L1 L2) /\
  (L1 = [] -> In (hp, bp) (insert_writes hp bp L1 L2)) /\
  (L1 <> [] -> In (List.last L1 hp + 4, bp) (insert_writes hp bp L1 L2)).
Proof.
  destruct L1 as [| x1 L1]; unfold insert_writes; simpl app.
  - split; [right; right; left; reflexivity |].
    split; [intros _; left; reflexivity | intros H; contradiction].
  - split; [right; right; left; reflexivity |].
    split; [discriminate | intros _; left; reflexivity].
Qed.

(** A node other than the one before [bp] keeps its successor field. *)
Lemma succ_kept (st : heap) (hp bp x : Z) (L1 L2 : list Z) :
  hp + 12 <= heap_listp st -> linkable st x -> apart bp x ->
  (L1 <> [] -> apart x (List.last L1 hp)) ->
  (L2 <> [] -> x = hd NULL L2 \/ apart x (hd NULL L2)) ->
  Forall (fun p => sep p (x + 4)) (map fst (insert_writes hp bp L1 L2)).
Proof. intros. by_cells. Qed.

(** No header of the blocks involved is written. *)
Lemma hdr_kept (st : heap) (hp bp x : Z) (L1 L2 : list Z) :
  hp + 12 <= heap_listp st -> linkable st x -> x = bp \/ apart bp x ->
  (L1 <> [] -> x = List.last L1 hp \/ apart x (List.last L1 hp)) ->
  (L2 <> [] -> x = hd NULL L2 \/ apart x (hd NULL L2)) ->
  Forall (fun p => sep p (x - 4)) (map fst (insert_writes hp bp L1 L2)).
Proof. intros. by_cells. Qed.

(** When [bp] does not become the first node the head cell is not written. *)
Lemma head_kept (st : heap) (hp bp : Z) (L1 L2 : list Z) :
  hp + 12 <= heap_listp st -> linkable st bp -> L1 <> [] ->
  linkable st (List.last L1 hp) -> (L2 <> [] -> linkable st (hd NULL L2)) ->
  Forall (fun p => sep p hp) (map fst (insert_writes hp bp L1 L2)).
Proof. intros. by_cells. Qed.

(** Any word away from the head cell and from the link fields of the
    blocks involved is not written. *)
Lemma rest_kept (hp bp q : Z) (L1 L2 : list Z) :
  sep hp q -> Forall (fun x => sep x q /\ sep (x + 4) q) (bp :: L1 ++ L2) ->
  Forall (fun p => sep p q) (map fst (insert_writes hp bp L1 L2)).
Proof.
  intros Hhp Hall. rewrite List.Forall_forall in Hall.
  assert (L1 <> [] -> sep (List.last L1 hp + 4) q) as Hp.
  { intros Hne. apply Hall. right. apply in_or_app. left. apply last_in, Hne. }
  assert (L2 <> [] -> sep (hd NULL L2) q) as Hs.
  { intros Hne. apply Hall. right. apply in_or_app. right.
    destruct L2; [contradiction | left; reflexivity]. }
  destruct (Hall bp (or_introl eq_refl)) as [Hb0 Hb4].
  eapply Forall_impl; [apply insert_cells |]. simpl.
  intros ? [[? ->] | [[? ->] | [-> | [-> | [? ->]]]]]; auto.
Qed.

(** The list after the stores: the nodes of [L1], then [bp], then [L2]. *)
Lemma insert_list (st st' : heap) (bp hp h : Z) (L1 L2 : list Z) :
  same_shape st st' ->
  get_link st hp = Ok h -> seg st h (L1 ++ L2) NULL ->
  Forall (fun w => get_link st' w.1 = Ok w.2) (insert_writes hp bp L1 L2) ->
  (forall q, Forall (fun p => sep p q) (map fst (insert_writes hp bp L1 L2)) ->
             GET st' q = GET st q) ->
  spaced (bp :: L1 ++ L2) -> linkable st bp -> hp + 12 <= heap_listp st ->
  exists h', get_link st' hp = Ok h' /\ seg st' h' (L1 ++ bp :: L2) NULL.
Proof.
  intros Hsh Hh Hseg Hget Hframe Hsp Hbp Hhp.
  pose proof (seg_linkable _ _ _ _ _ Hh Hseg) as Hlink.
  destruct Hsp as [Hbp_ap Hsp].
  rewrite List.Forall_forall in Hget, Hlink, Hbp_ap.
  destruct (insert_writes_in hp bp L1 L2) as (Hin_succ & Hin_head & Hin_pred).
  apply seg_app in Hseg as (k & Hs1 & Hs2).
  assert (k = hd NULL L2) as ->.
  { destruct L2; [exact Hs2 | eapply seg_hd; [exact Hs2 | discriminate]]. }
  (* the nodes of [L2], and those of [L1] but the last, keep their successor *)
  assert (forall x, In x (L1 ++ L2) -> (L1 <> [] -> apart x (List.last L1 hp)) ->
                    GET_SUCC st' x = GET_SUCC st x) as Hkeep.
  { intros x Hx Hp. apply (get_link_frame st st' (x + 4) Hsh), Hframe.
    apply (succ_kept st); [exact Hhp | apply Hlink, Hx | apply Hbp_ap, Hx | exact Hp |].
    intros Hne. apply (spaced_pairwise (L1 ++ L2)); [exact Hsp | exact Hx |].
    apply in_or_app. right. destruct L2; [contradiction | left; reflexivity]. }
  assert (seg st' bp (bp :: L2) NULL) as Hbp_seg.
  { simpl. split; [reflexivity |]. split; [apply Hbp |].
    exists (hd NULL L2). split; [apply (Hget _ Hin_succ) |].
    eapply seg_frame; [| exact Hs2]. apply List.Forall_forall. intros x Hx.
    apply Hkeep; [apply in_or_app; right; exact Hx |].
    intros Hne. destruct (exists_last Hne) as (L1' & p & ->).
    rewrite last_last. rewrite <- app_assoc in Hsp. apply spaced_last in Hsp.
    rewrite List.Forall_forall in Hsp. apply Hsp, in_or_app. right. exact Hx. }
  destruct (decide (L1 = [])) as [-> | Hne].
  - exists bp. split; [apply (Hget _ (Hin_head eq_refl)) | exact Hbp_seg].
  - pose proof (Hin_pred Hne) as Hin_p.
    destruct (exists_last Hne) as (L1' & p & ->). rewrite last_last in *.
    apply seg_snoc in Hs1 as (Hs1 & Hp & Hps).
    pose proof Hsp as Hsp'. rewrite <- app_assoc in Hsp'. apply spaced_last in Hsp'.
    rewrite List.Forall_forall in Hsp'.
    exists h. split.
    + rewrite (get_link_frame st st' hp Hsh); [exact Hh |].
      apply Hframe. apply (head_kept st); auto.
      * rewrite ?last_last. apply Hlink, in_or_app. left. apply in_or_app. right. left. reflexivity.
      * intros Hn2. apply Hlink, in_or_app. right.
        destruct L2; [contradiction | left; reflexivity].
    + rewrite <- app_assoc. apply seg_app. exists p. split.
      * eapply seg_frame; [| exact Hs1]. apply List.Forall_forall. intros x Hx.
        apply Hkeep; [apply in_or_app; left; apply in_or_app; left; exact Hx |].
        intros _. rewrite ?last_last. apply Hsp', in_or_app. left. exact Hx.
      * simpl. split; [reflexivity |]. split; [exact Hp |].
        exists bp. split; [apply (Hget _ Hin_p) | exact Hbp_seg].
Qed.

(** Distinct nodes inside the heap are fewer than its bytes, so a list of
    them is walked within [walk_fuel]. *)
Lemma spaced_NoDup (l : list Z) : spaced l -> List.NoDup l.
Proof.
  induction l as [| x l IH]; intros Hsp; [constructor |].
  destruct Hsp as [Hx Hsp]. constructor; [| apply IH, Hsp].
  intros Hin. rewrite List.Forall_forall in Hx. specialize (Hx x Hin).
  unfold apart in Hx. lia.
Qed.

Lemma range_length (l : list Z) (lo hi : Z) :
  List.NoDup l -> Forall (fun x => lo <= x < hi) l -> Z.of_nat (length l) <= Z.max 0 (hi - lo).
Proof.
  intros Hnd Hall.
  pose (l' := map (fun i => lo + Z.of_nat i) (seq 0 (Z.to_nat (hi - lo)))).
  assert (List.incl l l') as Hincl.
  { intros x Hx. rewrite List.Forall_forall in Hall. specialize (Hall x Hx).
    unfold l'. apply in_map_iff. exists (Z.to_nat (x - lo)). split; [lia |].
    apply in_seq. lia. }
  pose proof (List.NoDup_incl_length Hnd Hincl) as Hlen.
  unfold l' in Hlen. rewrite length_map, length_seq in Hlen. lia.
Qed.

Lemma nodes_fit (st : heap) (l : list Z) :
  spaced l -> Forall (fun x => in_heap st x 4 = true) l ->
  (length l <= length (mem_heap st))%nat.
Proof.
  intros Hsp Hin.
  assert (Z.of_nat (length l) <= Z.max 0 (mem_brk st - mem_start_brk st)) as H.
  { apply range_length; [apply spaced_NoDup, Hsp |].
    eapply Forall_impl; [exact Hin |]. simpl. intros x Hx.
    apply in_heap_spec in Hx. lia. }
  unfold mem_brk in H. lia.
Qed.

(** Insertion puts the block after the nodes smaller than it and before the
    others, leaves every size as it was, and writes nothing but the head cell
    and link fields of the blocks involved. *)
Lemma insert_spec (st : heap) (bp sz : Z) (L ss : list Z) :
  linkable st bp -> in_heap st bp 8 = true ->
  GET_SIZE st (HDRP bp) = Ok sz ->
  class_list st (class_of sz) = Ok L -> sizes st L = Ok ss ->
  spaced (bp :: L) ->
  exists st' L1 L2 ss1 ss2,
    insert_to_free_list st bp = Ok st' /\ same_shape st st' /\
    L = L1 ++ L2 /\ ss = ss1 ++ ss2 /\ length L1 = length ss1 /\
    Forall (fun s => s < sz) ss1 /\
    match ss2 with [] => True | s :: _ => sz <= s end /\
    class_list st' (class_of sz) = Ok (L1 ++ bp :: L2) /\
    sizes st' (L1 ++ bp :: L2) = Ok (ss1 ++ sz :: ss2) /\
    (forall q, sep (get_listp st sz) q ->
               Forall (fun x => sep x q /\ sep (x + 4) q) (bp :: L) ->
               GET st' q = GET st q).
Proof.
  intros Hbp Hbp_in Hsz HL Hss Hsp.
  unfold class_list in HL. apply res_bind_ok in HL as (h & Hh & HL).
  change (head_cell st (class_of sz)) with (get_listp st sz) in Hh.
  destruct (insert_scan_spec st sz L _ (get_listp st sz) h ss HL Hss)
    as (L1 & L2 & ss1 & ss2 & -> & -> & Hl12 & Hlt & Hge & Hscan).
  set (hp := get_listp st sz) in *.
  pose proof (list_from_seg _ _ _ _ HL) as Hseg.
  assert (hp + 12 <= heap_listp st) as Hhp by (apply head_cell_below, class_of_range).
  pose proof (insert_facts st bp h L1 L2 _ hp Hh Hseg Hss Hsp) as Hfacts.
  assert (Forall (linkable st) (L1 ++ L2)) as Hlink
    by (eapply Forall_impl; [exact Hfacts |]; simpl; tauto).
  assert (length (L1 ++ L2) <= length (mem_heap st))%nat as Hlen.
  { apply nodes_fit; [apply Hsp |]. eapply Forall_impl; [exact Hfacts |]; simpl; tauto. }
  destruct (insert_writes_ok st bp hp L1 L2 Hfacts Hbp Hbp_in
              (get_link_in_heap _ _ _ Hh) Hhp) as [Hws Hcs].
  destruct (run_writes_spec _ st Hws Hcs) as (st' & Hrun & Hsh & Hget & Hframe).
  exists st', L1, L2, ss1, ss2.
  split; [rewrite (insert_as_writes st bp sz h L1 L2 Hsz Hh Hscan Hlink); exact Hrun |].
  split; [exact Hsh |]. split; [reflexivity |]. split; [reflexivity |].
  split; [exact Hl12 |]. split; [exact Hlt |]. split; [exact Hge |].
  rewrite List.Forall_forall in Hfacts.
  assert (GET_SIZE st' (HDRP bp) = Ok sz) as Hsz'.
  { rewrite <- Hsz. apply GET_SIZE_frame, Hframe. destruct Hsp as [Hap _].
    rewrite List.Forall_forall in Hap.
    apply (hdr_kept st); [exact Hhp | exact Hbp | left; reflexivity | |]; intros Hne; right.
    - apply Hap, in_or_app. left. apply last_in, Hne.
    - apply Hap, in_or_app. right. destruct L2; [contradiction | left; reflexivity]. }
  split; [| split].
  - destruct (insert_list st st' bp hp h L1 L2 Hsh Hh Hseg Hget Hframe Hsp Hbp Hhp)
      as (h' & Hh' & Hseg').
    unfold class_list. rewrite (same_shape_head_cell _ _ _ Hsh).
    change (GET_HEAD st' (head_cell st (class_of sz))) with (get_link st' hp).
    rewrite Hh'. simpl. apply seg_list_from; [exact Hseg' |].
    rewrite (same_shape_fuel _ _ Hsh). rewrite length_app in *. simpl.
    rewrite walk_fuel_eq. lia.
  - apply sizes_app in Hss as [Hss1 Hss2]; [| exact Hl12].
    assert (forall l, (forall x, In x l -> In x (L1 ++ L2)) -> sizes st' l = sizes st l) as Hsame.
    { intros l Hl. apply sizes_frame, List.Forall_forall. intros x Hx.
      destruct (Hfacts x (Hl x Hx)) as (a & b & c & d & e & f).
      apply GET_SIZE_frame, Hframe. apply (hdr_kept st); auto. }
    apply sizes_app; [exact Hl12 |]. split.
    + rewrite Hsame; [exact Hss1 | intros x Hx; apply in_or_app; left; exact Hx].
    + simpl. rewrite Hsz'. simpl.
      rewrite Hsame; [rewrite Hss2; reflexivity | intros x Hx; apply in_or_app; right; exact Hx].
  - intros q Hq Hall. apply Hframe, rest_kept; assumption.
Qed.

End Insert.

(** ** What the search returns *)
Module Fit.
Import Mm Inv Frame MemFacts RW Search Links Writes Insert Run.

Lemma sizes_in (st : heap) (l ss : list Z) (x t : Z) :
  sizes st l = Ok ss -> In x l -> GET_SIZE st (HDRP x) = Ok t -> In t ss.
Proof.
  revert ss. induction l as [| y l IH]; intros ss Hs Hx Ht; [contradiction |].
  simpl in Hs. apply res_bind_ok in Hs as (sy & Hsy & Hs).
  apply res_bind_ok in Hs as (ss' & Hss' & [= <-]).
  destruct Hx as [-> | Hx].
  - left. congruence.
  - right. eapply IH; eauto.
Qed.

(** In a list whose sizes ascend, the first fit is the smallest fit. *)
Lemma first_fit_minimal (st : heap) (asize : Z) (l : list Z) :
  forall ss r,
    sizes st l = Ok ss -> ascending ss -> first_fit st l asize = Ok r -> r <> NULL ->
    In r l /\
    exists s, GET_SIZE st (HDRP r) = Ok s /\ asize <= s /\
              forall x t, In x l -> GET_SIZE st (HDRP x) = Ok t -> asize <= t -> s <= t.
Proof.
  induction l as [| y l IH]; intros ss r Hs Hasc Hfit Hr; simpl in *.
  - injection Hfit as <-. contradiction.
  - apply res_bind_ok in Hs as (sy & Hsy & Hs).
    apply res_bind_ok in Hs as (ss' & Hss' & [= <-]).
    destruct Hasc as [Hle Hasc]. rewrite Hsy in Hfit. simpl in Hfit.
    destruct (Z.leb_spec asize sy) as [Hfits | Hsmall].
    + injection Hfit as <-. split; [left; reflexivity |].
      exists sy. repeat split; auto. intros x t [-> | Hx] Ht Hge; [assert (t = sy) by congruence; lia |].
      rewrite List.Forall_forall in Hle. apply Hle. eapply sizes_in; eauto.
    + destruct (IH ss' r Hss' Hasc Hfit Hr) as (Hin & s & Hs & Hge & Hmin).
      split; [right; exact Hin |]. exists s. repeat split; auto.
      intros x t [-> | Hx] Ht Hget; [assert (t = sy) by congruence; lia | eauto].
Qed.

(** A list without a fit holds only smaller blocks. *)
Lemma first_fit_none (st : heap) (asize : Z) (l : list Z) :
  Forall (fun x => x <> NULL) l -> first_fit st l asize = Ok NULL ->
  Forall (fun x => exists t, GET_SIZE st (HDRP x) = Ok t /\ t < asize) l.
Proof.
  induction 1 as [| y l Hy _ IH]; intros Hfit; [constructor |]. simpl in Hfit.
  destruct (GET_SIZE st (HDRP y)) as [sy | e] eqn:Hsy; [| discriminate]. simpl in Hfit.
  destruct (Z.leb_spec asize sy); [injection Hfit as ->; contradiction |].
  constructor; [exists sy; auto | auto].
Qed.

(** The first fit over several lists lies in the first list that has one. *)
Lemma first_fit_concat (st : heap) (asize r : Z) (lists : Z -> list Z) (cs : list Z) :
  Forall (fun c => Forall (fun x => x <> NULL) (lists c)) cs ->
  first_fit st (concat (map lists cs)) asize = Ok r -> r <> NULL ->
  exists before c after,
    cs = before ++ c :: after /\ first_fit st (lists c) asize = Ok r /\
    Forall (fun k => first_fit st (lists k) asize = Ok NULL) before.
Proof.
  induction 1 as [| c cs Hc _ IH]; intros Hfit Hr; simpl in Hfit.
  - injection Hfit as <-. contradiction.
  - rewrite first_fit_app in Hfit by exact Hc.
    apply res_bind_ok in Hfit as (r0 & Hr0 & Hfit).
    destruct (Z.eqb_spec r0 NULL) as [-> | Hne].
    + destruct (IH Hfit Hr) as (before & c' & after & -> & Hc' & Hb).
      exists (c :: before), c', after. repeat split; auto.
    + injection Hfit as <-. exists [], c, cs. repeat split; auto.
Qed.

Lemma upward_range (c0 c : Z) : In c (upward c0) -> c0 <= c < CLASS_CNT.
Proof.
  unfold upward. rewrite in_map_iff. intros (i & <- & Hi).
  apply in_seq in Hi. unfold CLASS_CNT in *. lia.
Qed.

Lemma ascending_insert (sz : Z) (ss1 ss2 : list Z) :
  ascending (ss1 ++ ss2) -> Forall (fun s => s < sz) ss1 ->
  match ss2 with [] => True | s :: _ => sz <= s end ->
  ascending (ss1 ++ sz :: ss2).
Proof.
  induction ss1 as [| s ss1 IH]; simpl; intros Hasc Hlt Hge.
  - split; [| exact Hasc]. destruct ss2 as [| t ss2]; [constructor |].
    destruct Hasc as [Ht _]. constructor; [exact Hge |].
    eapply Forall_impl; [exact Ht |]. simpl. intros; lia.
  - destruct Hasc as [Hs Hasc]. inversion Hlt as [| ? ? Hs_lt Hlt']; subst.
    split; [| apply IH; assumption].
    apply Forall_app in Hs as [Hs1 Hs2]. apply Forall_app. split; [exact Hs1 |].
    constructor; [lia | exact Hs2].
Qed.

(** C7, amended.  The search starts at the class of the adjusted size and
    goes upward; what it returns is the first block of size at least [asize]
    in the first class, from there upward, whose list holds such a block:
    classes that are empty or hold only smaller blocks are passed over.  With
    the lists in ascending order that block is the smallest fit of its class.
    Insertion puts a block behind the smaller ones and so keeps a list
    ascending. *)
Theorem find_fit_first_fitting_class (st : heap) (asize : Z) (lists : Z -> list Z) :
  (forall k, class_of asize <= k < CLASS_CNT -> class_list st k = Ok (lists k)) ->
  (forall k, class_of asize <= k < CLASS_CNT ->
             exists ss, sizes st (lists k) = Ok ss /\ ascending ss) ->
  find_fit st asize = first_fit st (concat (map lists (upward (class_of asize)))) asize /\
  (forall r, find_fit st asize = Ok r -> r <> NULL ->
     exists before c after s,
       upward (class_of asize) = before ++ c :: after /\
       Forall (fun k => Forall (fun x => exists t, GET_SIZE st (HDRP x) = Ok t /\ t < asize)
                               (lists k)) before /\
       In r (lists c) /\ GET_SIZE st (HDRP r) = Ok s /\ asize <= s /\
       (forall x t, In x (lists c) -> GET_SIZE st (HDRP x) = Ok t -> asize <= t -> s <= t)) /\
  (forall bp sz,
     class_of asize <= class_of sz -> linkable st bp -> in_heap st bp 8 = true ->
     GET_SIZE st (HDRP bp) = Ok sz -> spaced (bp :: lists (class_of sz)) ->
     exists st' L1 L2 ss',
       insert_to_free_list st bp = Ok st' /\ lists (class_of sz) = L1 ++ L2 /\
       class_list st' (class_of sz) = Ok (L1 ++ bp :: L2) /\
       sizes st' (L1 ++ bp :: L2) = Ok ss' /\ ascending ss').
Proof.
  intros Hlists Hasc.
  pose proof (find_fit_first_fit st asize lists Hlists) as Hfit.
  assert (forall k, In k (upward (class_of asize)) -> Forall (fun x => x <> NULL) (lists k))
    as Hnn.
  { intros k Hk. apply upward_range in Hk. specialize (Hlists k Hk).
    unfold class_list in Hlists. apply res_bind_ok in Hlists as (h & _ & Hl).
    eapply list_from_not_null; exact Hl. }
  split; [exact Hfit |]. split.
  - intros r Hr Hnull. rewrite Hfit in Hr.
    destruct (first_fit_concat st asize r lists (upward (class_of asize))) as
      (before & c & after & Hup & Hc & Hb); [apply List.Forall_forall; exact Hnn | exact Hr | exact Hnull |].
    assert (In c (upward (class_of asize))) as Hcin
      by (rewrite Hup; apply in_or_app; right; left; reflexivity).
    destruct (Hasc c (upward_range _ _ Hcin)) as (ss & Hss & Hs_asc).
    destruct (first_fit_minimal st asize (lists c) ss r Hss Hs_asc Hc Hnull)
      as (Hin & s & Hs & Hge & Hmin).
    exists before, c, after, s. repeat split; auto.
    apply List.Forall_forall. intros k Hk. rewrite List.Forall_forall in Hb.
    apply first_fit_none; [| apply Hb, Hk].
    apply Hnn. rewrite Hup. apply in_or_app. left. exact Hk.
  - intros bp sz Hc Hbp Hin Hsz Hsp.
    assert (class_of asize <= class_of sz < CLASS_CNT) as Hrange
      by (pose proof (class_of_range sz); lia).
    destruct (Hasc _ Hrange) as (ss & Hss & Hs_asc).
    destruct (insert_spec st bp sz _ ss Hbp Hin Hsz (Hlists _ Hrange) Hss Hsp)
      as (st' & L1 & L2 & ss1 & ss2 & Hins & _ & HL & -> & _ & Hlt & Hge & Hcl & Hsizes & _).
    exists st', L1, L2, (ss1 ++ sz :: ss2). repeat split; auto.
    apply ascending_insert; assumption.
Qed.

Lemma find_fit_first_fitting_class_witness :
  find_fit skipped 160 = Ok 4648 /\
  exists st' L1 L2 ss',
    insert_to_free_list skipped 4440 = Ok st' /\ lists_of skipped (class_of 208) = L1 ++ L2 /\
    class_list st' (class_of 208) = Ok (L1 ++ 4440 :: L2) /\
    sizes st' (L1 ++ 4440 :: L2) = Ok ss' /\ ascending ss'.
Proof.
  destruct (find_fit_first_fitting_class skipped 160 (lists_of skipped)) as (Hfit & _ & Hins).
  - intros k Hk. change (class_of 160) with 6 in Hk. unfold CLASS_CNT in Hk.
    assert (k = 6 \/ k = 7 \/ k = 8 \/ k = 9 \/ k = 10 \/ k = 11 \/ k = 12 \/ k = 13)
      as Hcases by lia.
    repeat (destruct Hcases as [-> | Hcases]; [vm_compute; reflexivity |]).
    subst k. vm_compute. reflexivity.
  - intros k Hk. change (class_of 160) with 6 in Hk. unfold CLASS_CNT in Hk.
    exists (value (sizes skipped (lists_of skipped k)) []).
    assert (k = 6 \/ k = 7 \/ k = 8 \/ k = 9 \/ k = 10 \/ k = 11 \/ k = 12 \/ k = 13)
      as Hcases by lia.
    repeat (destruct Hcases as [-> | Hcases];
            [split; [vm_compute; reflexivity | vm_compute; repeat constructor] |]).
    subst k. split; [vm_compute; reflexivity | vm_compute; repeat constructor].
  - split; [rewrite Hfit; vm_compute; reflexivity |].
    apply (Hins 4440 208).
    + vm_compute. discriminate.
    + unfold linkable. change (heap_listp skipped) with 4160. unfold NULL. lia.
    + vm_compute. reflexivity.
    + vm_compute. reflexivity.
    + replace (lists_of skipped (class_of 208)) with [4280] by (vm_compute; reflexivity).
      simpl. split; [constructor; [unfold apart; lia | constructor] |].
      split; [constructor | exact I].
Defined.

(** C7, as stated, fails: asked for 160 bytes the search starts at class 6,
    the first non-empty class it reaches, whose only block has 144 bytes; it
    goes on and returns the block of class 7. *)
Lemma find_fit_passes_nonempty_class :
  class_of 160 = 6 /\ class_list skipped 6 = Ok [4280] /\
  GET_SIZE skipped (HDRP 4280) = Ok 144 /\
  find_fit skipped 160 = Ok 4648 /\ class_list skipped 7 = Ok [4648] /\
  ~ In 4648 (lists_of skipped 6).
Proof.
  repeat (split; [vm_compute; reflexivity |]).
  vm_compute. intros [H | H]; [discriminate | exact H].
Qed.

End Fit.

(** ** Removal from a class list *)
Module Remove.
Import Mm Inv Frame MemFacts RW Search Links Writes Insert.

#[local] Opaque walk_fuel.

Lemma last_default (l : list Z) (d d' : Z) : l <> [] -> List.last l d = List.last l d'.
Proof.
  destruct l as [| x l]; [contradiction | intros _]. rewrite !last_cons. reflexivity.
Qed.

Lemma list_from_length (fuel : nat) (st : heap) (h : Z) (l : list Z) :
  list_from fuel st h = Ok l -> (length l <= fuel)%nat.
Proof.
  revert h l. induction fuel as [| fuel IH]; intros h l H.
  - simpl in H. destruct (h =? NULL); [injection H as <-; simpl; lia | discriminate].
  - destruct l as [| x l]; [simpl; lia |].
    apply list_from_cons in H as (fuel' & s & [= <-] & _ & _ & _ & H).
    simpl. apply IH in H. lia.
Qed.

(** Every node of a list can be linked to and has its link fields inside
    the heap. *)
Lemma node_facts (st : heap) (hp h : Z) (L ss : list Z) :
  get_link st hp = Ok h -> seg st h L NULL -> sizes st L = Ok ss ->
  Forall (fun x => linkable st x /\ in_heap st x 4 = true /\ in_heap st (x + 4) 4 = true) L.
Proof.
  intros Hh Hseg Hss.
  pose proof (seg_linkable _ _ _ _ _ Hh Hseg) as Hlink.
  pose proof (seg_succ_in_heap _ _ _ _ Hseg) as Hsucc.
  pose proof (sizes_in_heap _ _ _ Hss) as Hhdr.
  rewrite List.Forall_forall in *. intros x Hx.
  split; [auto |]. split; [apply in_heap_between; auto | auto].
Qed.

(** With the neighbours known, [remove_from_free_list] is a run of stores. *)
Lemma remove_as_writes (st : heap) (bp sz : Z) (L1 L2 : list Z) :
  GET_SIZE st (HDRP bp) = Ok sz ->
  GET_PRED st bp = Ok (List.last L1 NULL) ->
  GET_SUCC st bp = Ok (hd NULL L2) ->
  Forall (fun x => x <> NULL) (L1 ++ L2) ->
  remove_from_free_list st bp = run_writes st (remove_writes (get_listp st sz) L1 L2).
Proof.
  intros Hsz Hpred Hsucc Hnn. unfold remove_from_free_list.
  rewrite Hsz. simpl. rewrite Hpred. simpl. rewrite Hsucc. simpl.
  set (hp := get_listp st sz).
  apply Forall_app in Hnn as [Hn1 Hn2]. rewrite List.Forall_forall in Hn1, Hn2.
  unfold remove_writes.
  destruct L1 as [| x1 L1]; destruct L2 as [| s L2]; simpl hd.
  - simpl. symmetry. apply bind_ret.
  - simpl List.last. pose proof (Hn2 s (or_introl eq_refl)) as Hs.
    destruct (Z.eqb_spec s NULL); [contradiction |]. simpl.
    apply bind_ext; intros ?. symmetry. apply bind_ret.
  - pose proof (Hn1 _ (last_in (x1 :: L1) NULL ltac:(discriminate))) as Hp.
    rewrite (last_default (x1 :: L1) hp NULL) by discriminate.
    destruct (Z.eqb_spec (List.last (x1 :: L1) NULL) NULL); [contradiction |]. simpl.
    symmetry. apply bind_ret.
  - pose proof (Hn1 _ (last_in (x1 :: L1) NULL ltac:(discriminate))) as Hp.
    pose proof (Hn2 s (or_introl eq_refl)) as Hs.
    rewrite (last_default (x1 :: L1) hp NULL) by discriminate.
    destruct (Z.eqb_spec (List.last (x1 :: L1) NULL) NULL); [contradiction |].
    destruct (Z.eqb_spec s NULL); [contradiction |]. simpl.
    apply bind_ext; intros ?. symmetry. apply bind_ret.
Qed.

(** The words [remove_from_free_list] writes. *)
Lemma remove_cells (hp : Z) (L1 L2 : list Z) :
  Forall (fun p => (L1 = [] /\ p = hp) \/ (L1 <> [] /\ p = List.last L1 hp + 4) \/
                   (L2 <> [] /\ p = hd NULL L2))
         (map fst (remove_writes hp L1 L2)).
Proof.
  destruct L1 as [| x1 L1]; destruct L2 as [| s L2]; unfold remove_writes; simpl map;
    repeat (apply List.Forall_cons); try apply List.Forall_nil;
    first [ left; split; reflexivity
          | right; left; split; [discriminate | reflexivity]
          | right; right; split; [discriminate | reflexivity] ].
Qed.

Lemma remove_writes_in (hp : Z) (L1 L2 : list Z) :
  (L1 = [] -> In (hp, hd NULL L2) (remove_writes hp L1 L2)) /\
  (L1 <> [] -> In (List.last L1 hp + 4, hd NULL L2) (remove_writes hp L1 L2)).
Proof.
  destruct L1 as [| x1 L1]; destruct L2 as [| s L2]; unfold remove_writes; simpl hd;
    (split; [first [discriminate | intros _; left; reflexivity]
            | first [intros H; contradiction | intros _; left; reflexivity]]).
Qed.

Ltac by_remove_cells :=
  eapply Forall_impl; [apply remove_cells |]; simpl;
  intros ? [[? ->] | [[? ->] | [? ->]]];
  unfold sep, apart, linkable in *; intuition lia.

Lemma remove_writes_ok (st : heap) (hp : Z) (L1 L2 : list Z) :
  Forall (fun x => linkable st x /\ in_heap st x 4 = true /\ in_heap st (x + 4) 4 = true)
         (L1 ++ L2) ->
  spaced (L1 ++ L2) -> in_heap st hp 4 = true -> hp + 12 <= heap_listp st ->
  Forall (fun w => in_heap st w.1 4 = true /\ (w.2 = NULL \/ linkable st w.2))
         (remove_writes hp L1 L2) /\
  cells_sep (map fst (remove_writes hp L1 L2)).
Proof.
  intros HF Hsp Hhp_in Hhp. rewrite List.Forall_forall in HF.
  assert (L1 <> [] -> linkable st (List.last L1 hp) /\
                      in_heap st (List.last L1 hp + 4) 4 = true) as Hp.
  { intros Hne. destruct (HF (List.last L1 hp)) as (a & b & c); [| auto].
    apply in_or_app. left. apply last_in, Hne. }
  assert (L2 <> [] -> linkable st (hd NULL L2) /\ in_heap st (hd NULL L2) 4 = true) as Hs.
  { intros Hne. destruct (HF (hd NULL L2)) as (a & b & c); [| auto].
    apply in_or_app. right. destruct L2; [contradiction | left; reflexivity]. }
  assert (L1 <> [] -> L2 <> [] -> apart (List.last L1 hp) (hd NULL L2)) as Hps.
  { intros Hn1 Hn2. apply spaced_app in Hsp as (_ & _ & H12).
    rewrite List.Forall_forall in H12. specialize (H12 _ (last_in L1 hp Hn1)).
    rewrite List.Forall_forall in H12. apply H12.
    destruct L2; [contradiction | left; reflexivity]. }
  clear HF Hsp.
  destruct L1 as [| x1 L1]; destruct L2 as [| s L2]; unfold remove_writes.
  - split; sep_arith; auto.
  - destruct (Hs ltac:(discriminate)) as (Hs1 & Hs2).
    split; sep_arith; auto.
  - destruct (Hp ltac:(discriminate)) as (Hp1 & Hp2).
    set (p := List.last (x1 :: L1) hp) in *. clearbody p.
    split; sep_arith; auto.
  - destruct (Hs ltac:(discriminate)) as (Hs1 & Hs2).
    destruct (Hp ltac:(discriminate)) as (Hp1 & Hp2).
    specialize (Hps ltac:(discriminate) ltac:(discriminate)).
    set (p := List.last (x1 :: L1) hp) in *. clearbody p.
    split; sep_arith; auto.
Qed.

(** A node other than the one before [bp] keeps its successor field. *)
Lemma remove_succ_kept (st : heap) (hp x : Z) (L1 L2 : list Z) :
  hp + 12 <= heap_listp st -> linkable st x ->
  (L1 <> [] -> apart x (List.last L1 hp)) ->
  (L2 <> [] -> x = hd NULL L2 \/ apart x (hd NULL L2)) ->
  Forall (fun p => sep p (x + 4)) (map fst (remove_writes hp L1 L2)).
Proof. intros. by_remove_cells. Qed.

Lemma remove_head_kept (st : heap) (hp : Z) (L1 L2 : list Z) :
  hp + 12 <= heap_listp st -> L1 <> [] ->
  linkable st (List.last L1 hp) -> (L2 <> [] -> linkable st (hd NULL L2)) ->
  Forall (fun p => sep p hp) (map fst (remove_writes hp L1 L2)).
Proof. intros. by_remove_cells. Qed.

Lemma remove_rest_kept (hp q : Z) (L1 L2 : list Z) :
  sep hp q -> Forall (fun x => sep x q /\ sep (x + 4) q) (L1 ++ L2) ->
  Forall (fun p => sep p q) (map fst (remove_writes hp L1 L2)).
Proof.
  intros Hhp Hall. rewrite List.Forall_forall in Hall.
  assert (L1 <> [] -> sep (List.last L1 hp + 4) q) as Hp.
  { intros Hne. apply Hall. apply in_or_app. left. apply last_in, Hne. }
  assert (L2 <> [] -> sep (hd NULL L2) q) as Hs.
  { intros Hne. apply Hall. apply in_or_app. right.
    destruct L2; [contradiction | left; reflexivity]. }
  eapply Forall_impl; [apply remove_cells |]. simpl.
  intros ? [[? ->] | [[? ->] | [? ->]]]; auto.
Qed.

Lemma spaced_remove (l1 l2 : list Z) (x : Z) : spaced (l1 ++ x :: l2) -> spaced (l1 ++ l2).
Proof.
  intros H. apply spaced_app in H as (H1 & [_ H2] & H12). apply spaced_app.
  split; [exact H1 |]. split; [exact H2 |].
  eapply Forall_impl; [exact H12 |]. simpl. intros y Hy. inversion Hy; assumption.
Qed.


End Remove.

(** ** Boundary tags *)
Module Tags.
Import Mm Inv Frame MemFacts RW Search Links Writes Insert.

Lemma mask_spec (n : Z) :
  0 <= n -> Z.testbit (uint (Z.lnot 7)) n = (3 <=? n) && (n <? 32).
Proof.
  intros Hn. change (uint (Z.lnot 7)) with (Z.shiftl (Z.ones 29) 3).
  rewrite Z.shiftl_spec by lia.
  destruct (Z.leb_spec 3 n) as [H3 | H3]; simpl.
  - destruct (Z.ltb_spec n 32) as [H32 | H32].
    + apply Z.ones_spec_low. lia.
    + apply Z.ones_spec_high. lia.
  - apply Z.testbit_neg_r. lia.
Qed.

(** [GET_SIZE] clears the three low bits. *)
Lemma land_mask (w : Z) : 0 <= w < 2 ^ 32 -> Z.land w (uint (Z.lnot 7)) = 8 * (w / 8).
Proof.
  intros Hw. apply Z.bits_inj'. intros n Hn.
  rewrite Z.land_spec, mask_spec by lia.
  replace (8 * (w / 8)) with (Z.shiftl (Z.shiftr w 3) 3)
    by (rewrite Z.shiftl_mul_pow2, Z.shiftr_div_pow2 by lia; change (2 ^ 3) with 8; lia).
  rewrite Z.shiftl_spec by lia.
  destruct (Z.leb_spec 3 n) as [H3 | H3]; simpl.
  - rewrite Z.shiftr_spec by lia. replace (n - 3 + 3) with n by lia.
    destruct (Z.ltb_spec n 32) as [H32 | H32]; [apply andb_true_r |].
    rewrite andb_false_r. symmetry.
    destruct (Z.eq_dec w 0) as [-> | Hw0]; [apply Z.bits_0 |].
    apply Z.bits_above_log2; [lia |].
    assert (Z.log2 w < 32) by (apply Z.log2_lt_pow2; lia). lia.
  - rewrite andb_false_r. symmetry. apply Z.testbit_neg_r. lia.
Qed.

Lemma PACK_size (size a : Z) :
  0 <= size < 2 ^ 32 -> size mod 8 = 0 -> 0 <= a <= 1 ->
  0 <= PACK size a < 2 ^ 32 /\ PACK size a = size + a /\
  Z.land (PACK size a) (uint (Z.lnot 7)) = size /\ Z.land (PACK size a) 1 = a.
Proof.
  intros Hs Hm Ha. unfold PACK.
  assert (Z.lor size a = size + a) as ->.
  { symmetry. apply Z.add_nocarry_lor.
    assert (a = 0 \/ a = 1) as [-> | ->] by lia; [apply Z.land_0_r |].
    change 1 with (Z.ones 1). rewrite Z.land_ones by lia.
    change (2 ^ 1) with 2. change (2 ^ 32) with 4294967296 in Hs.
    Z.div_mod_to_equations. lia. }
  change (2 ^ 32) with 4294967296 in *.
  assert (0 <= size + a < 4294967296) as Hr by (Z.div_mod_to_equations; lia).
  split; [exact Hr |]. split; [reflexivity |]. split.
  - rewrite land_mask by (change (2 ^ 32) with 4294967296; exact Hr).
    Z.div_mod_to_equations. lia.
  - change (Z.land (size + a) 1) with (Z.land (size + a) (Z.ones 1)).
    rewrite Z.land_ones by lia. change (2 ^ 1) with 2.
    Z.div_mod_to_equations. lia.
Qed.

Lemma GET_SIZE_PUT (st st' : heap) (p size a : Z) :
  PUT st p (PACK size a) = Ok st' ->
  0 <= size < 2 ^ 32 -> size mod 8 = 0 -> 0 <= a <= 1 ->
  GET st' p = Ok (PACK size a) /\ GET_SIZE st' p = Ok size /\ GET_ALLOC st' p = Ok a.
Proof.
  intros Hput Hs Hm Ha. destruct (PACK_size size a Hs Hm Ha) as (Hr & _ & Hsz & Hal).
  pose proof (GET_PUT_eq _ _ _ _ Hput) as Hget. rewrite uint_small in Hget by exact Hr.
  unfold GET_SIZE, GET_ALLOC. rewrite Hget. simpl. rewrite Hsz, Hal. auto.
Qed.

(** Writing header and footer of a block of [size] bytes at [p], as
    [place], [free] and [coalesce] do. *)
Lemma tag_block (st : heap) (p size a : Z) :
  in_heap st (p - 4) size = true ->
  8 <= size < 2 ^ 32 -> size mod 8 = 0 -> 0 <= a <= 1 ->
  exists st',
    (st1 ← PUT st (HDRP p) (PACK size a); f ← FTRP st1 p; PUT st1 f (PACK size a)) = Ok st' /\
    same_shape st st' /\
    GET st' (HDRP p) = Ok (PACK size a) /\ GET st' (p + size - 8) = Ok (PACK size a) /\
    GET_SIZE st' (HDRP p) = Ok size /\ GET_ALLOC st' (HDRP p) = Ok a /\
    (forall q, sep (p - 4) q -> sep (p + size - 8) q -> GET st' q = GET st q).
Proof.
  intros Hin Hs Hm Ha. unfold HDRP, WSIZE.
  assert (in_heap st (p - 4) 4 = true) as Hh by (rewrite in_heap_spec in *; lia).
  destruct (PUT_ok st (p - 4) (PACK size a) Hh) as (st1 & H1).
  pose proof (PUT_shape _ _ _ _ H1) as Hsh1.
  destruct (GET_SIZE_PUT _ _ _ _ _ H1 ltac:(lia) Hm Ha) as (Hg1 & Hsz1 & Hal1).
  assert (in_heap st1 (p + size - 8) 4 = true) as Hf.
  { rewrite (same_shape_in_heap _ _ _ _ Hsh1). rewrite in_heap_spec in *. lia. }
  destruct (PUT_ok st1 (p + size - 8) (PACK size a) Hf) as (st2 & H2).
  pose proof (PUT_shape _ _ _ _ H2) as Hsh2.
  assert (sep (p + size - 8) (p - 4)) as Hsep by (unfold sep; lia).
  exists st2. rewrite H1. simpl. unfold FTRP, HDRP, WSIZE, DSIZE. rewrite Hsz1. simpl.
  rewrite H2. split; [reflexivity |]. split; [eapply same_shape_trans; eauto |].
  pose proof (GET_PUT_ne _ _ _ _ _ H2 Hsep) as Hkeep.
  split; [rewrite Hkeep; exact Hg1 |].
  split; [apply (GET_SIZE_PUT _ _ _ _ _ H2); auto; lia |].
  split; [unfold GET_SIZE in *; rewrite Hkeep; exact Hsz1 |].
  split; [unfold GET_ALLOC in *; rewrite Hkeep; exact Hal1 |].
  intros q Hq1 Hq2. rewrite (GET_PUT_ne _ _ _ _ _ H2 Hq2). apply (GET_PUT_ne _ _ _ _ _ H1 Hq1).
Qed.

End Tags.

(** ** Placement *)
Module Place.
Import Mm Inv Frame MemFacts RW Search Links Writes Insert Remove Tags.

#[local] Opaque walk_fuel.

(** A list whose head cell and successor fields are untouched is the same
    list. *)
Lemma class_list_frame (st st' : heap) (k : Z) (L : list Z) :
  same_shape st st' -> class_list st k = Ok L ->
  GET st' (head_cell st k) = GET st (head_cell st k) ->
  Forall (fun y => GET st' (y + 4) = GET st (y + 4)) L ->
  class_list st' k = Ok L.
Proof.
  intros Hsh HL Hhead Hsucc. unfold class_list in *.
  apply res_bind_ok in HL as (h & Hh & HL).
  rewrite (same_shape_head_cell _ _ _ Hsh).
  change (GET_HEAD st' (head_cell st k)) with (get_link st' (head_cell st k)).
  rewrite (get_link_frame st st' _ Hsh Hhead).
  change (get_link st (head_cell st k)) with (GET_HEAD st (head_cell st k)).
  rewrite Hh. simpl. rewrite (same_shape_fuel _ _ Hsh).
  apply seg_list_from; [| eapply list_from_length; exact HL].
  eapply seg_frame; [| eapply list_from_seg; exact HL].
  eapply Forall_impl; [exact Hsucc |]. simpl. intros y Hy.
  apply (get_link_frame st st' (y + 4) Hsh Hy).
Qed.


Lemma spaced_concat (lists : Z -> list Z) (cs : list Z) :
  spaced (concat (map lists cs)) -> List.NoDup cs ->
  forall k k' x y, In k cs -> In k' cs -> k <> k' ->
                   In x (lists k) -> In y (lists k') -> apart x y.
Proof.
  induction cs as [| c cs IH]; intros Hsp Hnd k k' x y Hk Hk' Hne Hx Hy; [contradiction |].
  simpl in Hsp. apply spaced_app in Hsp as (H1 & H2 & H12).
  inversion Hnd as [| ? ? Hc Hnd']; subst.
  rewrite List.Forall_forall in H12.
  assert (forall j z, In j cs -> In z (lists j) -> In z (concat (map lists cs))) as Hin.
  { intros j z Hj Hz. apply in_concat. exists (lists j). split; [apply in_map, Hj | exact Hz]. }
  destruct Hk as [<- | Hk]; destruct Hk' as [<- | Hk'].
  - contradiction.
  - specialize (H12 x Hx). rewrite List.Forall_forall in H12. apply H12. eapply Hin; eauto.
  - specialize (H12 y Hy). rewrite List.Forall_forall in H12. apply apart_sym, H12.
    eapply Hin; eauto.
  - apply (IH H2 Hnd' k k' x y Hk Hk' Hne Hx Hy).
Qed.

Lemma upward_NoDup (c : Z) : List.NoDup (upward c).
Proof.
  unfold upward. apply Finite.Injective_map_NoDup; [| apply List.seq_NoDup].
  intros i j H. lia.
Qed.

Lemma spaced_class (lists : Z -> list Z) (k : Z) :
  spaced (all_nodes lists) -> 0 <= k < CLASS_CNT -> spaced (lists k).
Proof.
  intros Hsp Hk. unfold all_nodes in Hsp.
  assert (In k (upward 0)) as Hin.
  { unfold upward. apply in_map_iff. exists (Z.to_nat k). split; [lia |].
    apply in_seq. unfold CLASS_CNT in *. lia. }
  apply in_split in Hin as (c1 & c2 & E). rewrite E, map_app, concat_app in Hsp.
  apply spaced_app in Hsp as (_ & Hsp & _). simpl in Hsp.
  apply spaced_app in Hsp as (Hsp & _). exact Hsp.
Qed.



Lemma class_linkable (st : heap) (k : Z) (L : list Z) :
  class_list st k = Ok L -> Forall (linkable st) L.
Proof.
  unfold class_list. intros H. apply res_bind_ok in H as (h & Hh & HL).
  eapply (seg_linkable st L (head_cell st k)); [exact Hh |].
  eapply list_from_seg; exact HL.
Qed.


Lemma head_cells_sep (st : heap) (k k' : Z) : k <> k' -> sep (head_cell st k) (head_cell st k').
Proof. unfold sep, head_cell, WSIZE, CLASS_CNT. lia. Qed.

Lemma unlinked_in (lists : Z -> list Z) (c k x bp : Z) (L1 L2 : list Z) :
  lists c = L1 ++ bp :: L2 -> In x (unlinked lists c L1 L2 k) -> In x (lists k).
Proof.
  intros Hc. unfold unlinked. destruct (Z.eqb_spec k c) as [-> | _]; [| auto].
  rewrite Hc. intros H. apply in_app_or in H as [H | H]; apply in_or_app; [left | right; right];
    exact H.
Qed.



Lemma GET_SIZE_range (st : heap) (p s : Z) :
  GET_SIZE st p = Ok s -> 0 <= s < 2 ^ 32 /\ s mod 8 = 0.
Proof.
  unfold GET_SIZE. intros H. apply res_bind_ok in H as (w & Hw & [= <-]).
  apply GET_range in Hw. rewrite land_mask by exact Hw.
  change (2 ^ 32) with 4294967296 in *. Z.div_mod_to_equations. lia.
Qed.

Lemma tag_then {A : Type} (st : heap) (p v : Z) (k : heap -> res A) :
  (st1 ← PUT st (HDRP p) v; f ← FTRP st1 p; st2 ← PUT st1 f v; k st2)
  = (st2 ← (st1 ← PUT st (HDRP p) v; f ← FTRP st1 p; PUT st1 f v); k st2).
Proof.
  destruct (PUT st (HDRP p) v) as [st1 |]; simpl; [| reflexivity].
  destruct (FTRP st1 p); reflexivity.
Qed.

Lemma unlinked_iff (lists : Z -> list Z) (c k x bp : Z) (L1 L2 : list Z) :
  lists c = L1 ++ bp :: L2 -> x <> bp ->
  (In x (unlinked lists c L1 L2 k) <-> In x (lists k)).
Proof.
  intros Hc Hne. unfold unlinked. destruct (Z.eqb_spec k c) as [-> | _]; [| tauto].
  rewrite Hc, !in_app_iff. simpl. intuition congruence.
Qed.


Ltac each_class k Hk tac :=
  unfold CLASS_CNT in Hk;
  let H := fresh "Hcases" in
  assert (k = 0 \/ k = 1 \/ k = 2 \/ k = 3 \/ k = 4 \/ k = 5 \/ k = 6 \/ k = 7 \/
          k = 8 \/ k = 9 \/ k = 10 \/ k = 11 \/ k = 12 \/ k = 13) as H by lia;
  repeat (destruct H as [-> | H]; [tac |]); subst k; tac.



End Place.

(** ** Exhaustion of the region *)
Module Exhaustion.
Import Mm Inv Frame MemFacts RW.

(** The bytes [malloc] asks the region for when no block fits. *)
Lemma extend_size_even (asize : Z) :
  0 <= asize < 2 ^ 64 -> asize mod 8 = 0 ->
  (MAX asize CHUNKSIZE / WSIZE) mod 2 = 0 /\
  size_t (MAX asize CHUNKSIZE / WSIZE * WSIZE) = MAX asize CHUNKSIZE.
Proof.
  intros Hr Hm. unfold MAX, CHUNKSIZE, WSIZE, size_t. change (Z.shiftl 1 8) with 256.
  change (2 ^ 64) with 18446744073709551616 in *.
  destruct (256 <? asize); Z.div_mod_to_equations; lia.
Qed.

(** A refused growth request leaves everything but the request log alone. *)
Lemma extend_heap_refused (st : heap) (words size : Z) :
  size = (if negb (words mod 2 =? 0) then size_t ((words + 1) * WSIZE)
          else size_t (words * WSIZE)) ->
  mem_max_addr st < mem_brk st + size ->
  extend_heap st words = Ok (NULL, log_request st size).
Proof.
  intros Hsize Hfull. unfold extend_heap. rewrite <- Hsize.
  unfold Memlib.mem_sbrk.
  assert ((mem_max_addr (log_request st size) <? mem_brk (log_request st size) + size) = true)
    as -> by (apply Z.ltb_lt; exact Hfull).
  rewrite orb_true_r. reflexivity.
Qed.

(** [malloc] reports the refusal and changes nothing. *)
Lemma malloc_refused (st : heap) (size ext : Z) :
  size <> 0 -> find_fit st (adjust size) = Ok NULL ->
  ext = (let words := MAX (adjust size) CHUNKSIZE / WSIZE in
         if negb (words mod 2 =? 0) then size_t ((words + 1) * WSIZE)
         else size_t (words * WSIZE)) ->
  mem_max_addr st < mem_brk st + ext ->
  malloc st size = Ok (NULL, log_request st ext).
Proof.
  intros Hsize Hfit Hext Hfull. unfold malloc.
  destruct (Z.eqb_spec size 0); [contradiction |].
  rewrite Hfit. simpl.
  rewrite (extend_heap_refused st _ ext Hext Hfull). reflexivity.
Qed.

(** So does [realloc], which tests the pointer it gets from [malloc]. *)
Lemma realloc_refused (st : heap) (oldptr size ext : Z) :
  size <> 0 -> oldptr <> NULL -> malloc st size = Ok (NULL, log_request st ext) ->
  realloc st oldptr size = Ok (NULL, log_request st ext).
Proof.
  intros Hsize Hold Hmalloc. unfold realloc.
  destruct (Z.eqb_spec size 0); [contradiction |].
  destruct (Z.eqb_spec oldptr NULL); [contradiction |].
  rewrite Hmalloc. reflexivity.
Qed.

(** [calloc] does not: whenever [malloc] returns NULL for a request of at
    least one byte, [memset] is run on address 0, which lies below the heap. *)
Lemma calloc_refused (st st' : heap) (nmemb size : Z) :
  size_t (nmemb * size) <> 0 -> 0 < mem_start_brk st' ->
  malloc st (size_t (nmemb * size)) = Ok (NULL, st') ->
  calloc st nmemb size = Err SegFault.
Proof.
  intros Hbytes Hstart Hmalloc. unfold calloc. rewrite Hmalloc. simpl.
  unfold memset. destruct (Z.eqb_spec (size_t (nmemb * size)) 0); [contradiction |].
  unfold in_heap, NULL. destruct (Z.leb_spec (mem_start_brk st') 0); [lia | reflexivity].
Qed.

End Exhaustion.

(** ** Sizes, classes and tags *)
Module Sizes.
Import Mm Inv Frame MemFacts RW Links Tags.

(** X1.  Away from the top of the [size_t] range the adjusted size is a
    multiple of 8, at least 16, and leaves room for the payload and the two
    tags without wasting 16 bytes or more. *)
Theorem adjust_room (size : Z) :
  0 < size <= 2 ^ 64 - 16 ->
  adjust size mod 8 = 0 /\ 16 <= adjust size /\ size + 8 <= adjust size < size + 16.
Proof.
  intros H. rewrite (Adjust.adjust_in_range size H). unfold roundUp8.
  change (2 ^ 64) with 18446744073709551616 in H.
  Z.div_mod_to_equations. lia.
Qed.

Lemma adjust_room_witness :
  adjust 100 mod 8 = 0 /\ 16 <= adjust 100 /\ 100 + 8 <= adjust 100 < 100 + 16.
Proof. apply (adjust_room 100). vm_compute. split; [reflexivity | discriminate]. Defined.

(** X2.  [get_listp] sorts sizes by thresholds: for each class [k] from 0
    to 12, a size lands in class [k] or below exactly when it is at most the
    bound of class [k]; the class is always one of the fourteen, 0 to 13; and
    every size above the bound of class 12, which is 16384, lands in class
    13. *)
Theorem class_of_threshold (size : Z) :
  (forall k, 0 <= k < 13 -> (class_of size <= k <-> size <= class_bound k)) /\
  0 <= class_of size <= 13 /\
  (class_bound 12 < size -> class_of size = 13).
Proof.
  split; [| split].
  - intros k Hk.
    assert (k = 0 \/ k = 1 \/ k = 2 \/ k = 3 \/ k = 4 \/ k = 5 \/ k = 6 \/ k = 7 \/
            k = 8 \/ k = 9 \/ k = 10 \/ k = 11 \/ k = 12) as Hcases by lia.
    unfold class_of.
    repeat (destruct Hcases as [-> | Hcases];
            [simpl class_bound;
             repeat match goal with |- context [?a <=? ?b] => destruct (Z.leb_spec a b) end;
             lia |]).
    subst k. simpl class_bound.
    repeat match goal with |- context [?a <=? ?b] => destruct (Z.leb_spec a b) end; lia.
  - unfold class_of.
    repeat match goal with |- context [?a <=? ?b] => destruct (Z.leb_spec a b) end; lia.
  - simpl class_bound. unfold class_of.
    repeat match goal with |- context [?a <=? ?b] => destruct (Z.leb_spec a b) end; lia.
Qed.

(** X3.  A boundary tag read back: after [PUT(p, PACK(size, alloc))] with a
    size that is a multiple of 8 below [2^32] and an allocated bit of 0 or 1,
    [GET_SIZE(p)] is the size and [GET_ALLOC(p)] the bit, and any word that
    does not overlap [p] is as before. *)
Theorem tag_round_trip (st st' : heap) (p size a : Z) :
  PUT st p (PACK size a) = Ok st' ->
  0 <= size < 2 ^ 32 -> size mod 8 = 0 -> 0 <= a <= 1 ->
  GET_SIZE st' p = Ok size /\ GET_ALLOC st' p = Ok a /\
  forall q, sep p q -> GET st' q = GET st q.
Proof.
  intros Hput Hs Hm Ha.
  destruct (GET_SIZE_PUT st st' p size a Hput Hs Hm Ha) as (_ & Hsize & Halloc).
  split; [exact Hsize |]. split; [exact Halloc |].
  intros q Hq. eapply GET_PUT_ne; eauto.
Qed.

Lemma tag_round_trip_witness :
  GET_SIZE (Run.value (PUT Run.skipped 4436 (PACK 208 0)) Run.skipped) 4436 = Ok 208 /\
  GET_ALLOC (Run.value (PUT Run.skipped 4436 (PACK 208 0)) Run.skipped) 4436 = Ok 0 /\
  forall q, sep 4436 q ->
            GET (Run.value (PUT Run.skipped 4436 (PACK 208 0)) Run.skipped) q
            = GET Run.skipped q.
Proof.
  apply (tag_round_trip Run.skipped _ 4436 208 0).
  - vm_compute. reflexivity.
  - vm_compute. split; [discriminate | reflexivity].
  - reflexivity.
  - lia.
Defined.

(** X4.  A link read back: a pointer stored by [SET_SUCC] is what [GET_SUCC]
    returns, provided it is NULL or lies less than 4 GiB above [heap_listp];
    the predecessor field next to it is untouched.  The pointer [heap_listp]
    itself has offset 0 and is read back as NULL. *)
Theorem succ_round_trip (st st' : heap) (bp x : Z) :
  SET_SUCC st bp x = Ok st' ->
  (x = NULL \/ linkable st x -> GET_SUCC st' bp = Ok x /\ GET_PRED st' bp = GET_PRED st bp) /\
  (x = heap_listp st -> GET_SUCC st' bp = Ok NULL).
Proof.
  intros Hset. split.
  - intros Hx. split.
    + apply (get_set_link_eq st st' (SUCCP bp) x Hset Hx).
    + apply (get_set_link_ne st st' (SUCCP bp) (PREDP bp) x Hset).
      unfold sep, SUCCP, PREDP, WSIZE. lia.
  - intros ->. unfold GET_SUCC. unfold SET_SUCC in Hset.
    rewrite (GET_PUT_eq _ _ _ _ Hset). simpl. f_equal.
    unfold ABS2REL, REL2ABS. destruct (heap_listp st =? NULL); [reflexivity |].
    rewrite Z.sub_diag. reflexivity.
Qed.

Lemma succ_round_trip_witness :
  GET_SUCC (Run.value (SET_SUCC Run.skipped 4280 4648) Run.skipped) 4280 = Ok 4648 /\
  GET_PRED (Run.value (SET_SUCC Run.skipped 4280 4648) Run.skipped) 4280
  = GET_PRED Run.skipped 4280.
Proof.
  apply (succ_round_trip Run.skipped _ 4280 4648).
  - vm_compute. reflexivity.
  - right. unfold linkable, NULL. change (heap_listp Run.skipped) with 4160. lia.
Defined.

End Sizes.

(** ** What the operations leave alone *)
Module Shape.
Import Mm Inv Frame MemFacts RW Search Links.

Ltac binds :=
  repeat match goal with
    | H : (_ ≫= _) = Ok _ |- _ => apply res_bind_ok in H as (? & ? & H)
    | H : (let '(_, _) := ?p in _) = Ok _ |- _ => destruct p
    | H : (if ?b then _ else _) = Ok _ |- _ => destruct b
    | H : Ok (_, _) = Ok (_, _) |- _ => injection H as ? ?; subst
    end.

Ltac chain :=
  unfold SET_HEAD, SET_PRED, SET_SUCC in *;
  repeat match goal with
    | H : PUT _ _ _ = Ok _ |- _ => apply PUT_shape in H
    | H : Ok ?a = Ok ?b |- _ => injection H as H; subst
    end;
  repeat (eapply same_shape_trans; [eassumption |]); apply same_shape_refl.

Lemma insert_shape (st st' : heap) (bp : Z) :
  insert_to_free_list st bp = Ok st' -> same_shape st st'.
Proof. unfold insert_to_free_list. intros H. binds; chain. Qed.

Lemma remove_shape (st st' : heap) (bp : Z) :
  remove_from_free_list st bp = Ok st' -> same_shape st st'.
Proof. unfold remove_from_free_list. intros H. binds; chain. Qed.

Ltac chain' :=
  unfold SET_HEAD, SET_PRED, SET_SUCC in *;
  repeat match goal with
    | H : PUT _ _ _ = Ok _ |- _ => apply PUT_shape in H
    | H : insert_to_free_list _ _ = Ok _ |- _ => apply insert_shape in H
    | H : remove_from_free_list _ _ = Ok _ |- _ => apply remove_shape in H
    | H : Ok ?a = Ok ?b |- _ => injection H as H; subst
    end;
  repeat (eapply same_shape_trans; [eassumption |]); apply same_shape_refl.

Lemma coalesce_shape (st st' : heap) (bp r : Z) :
  coalesce st bp = Ok (r, st') -> same_shape st st'.
Proof. unfold coalesce. intros H. binds; chain'. Qed.

Lemma place_shape (st st' : heap) (bp asize r : Z) :
  place st bp asize = Ok (r, st') -> same_shape st st'.
Proof. unfold place. intros H. binds; chain'. Qed.

Lemma free_shape (st st' : heap) (bp : Z) :
  heap_listp st <> NULL -> free st bp = Ok st' -> same_shape st st'.
Proof.
  intros Hl. unfold free. destruct (Z.eqb_spec (heap_listp st) NULL); [contradiction |].
  intros H. destruct (bp =? NULL).
  - injection H as <-. apply same_shape_refl.
  - binds.
    match goal with H : coalesce _ _ = Ok _ |- _ => apply coalesce_shape in H end.
    chain'.
Qed.

Lemma same_shape_grown (st st' : heap) : same_shape st st' -> grown st st'.
Proof.
  intros (H1 & H2 & H3 & H4 & H5 & H6). unfold grown.
  rewrite H1, H2, H3, H4, H5, H6. repeat split; auto.
Qed.

Lemma grown_shape (st st1 st' : heap) : grown st st1 -> same_shape st1 st' -> grown st st'.
Proof.
  intros (G1 & G2 & G3 & G4 & G5 & G6) (H1 & H2 & H3 & H4 & H5 & H6). unfold grown.
  rewrite H1, H2, H3, H4, H5, H6. repeat split; auto.
Qed.

Lemma shape_grown (st st1 st' : heap) : same_shape st st1 -> grown st1 st' -> grown st st'.
Proof.
  intros (H1 & H2 & H3 & H4 & H5 & H6) (G1 & G2 & G3 & G4 & G5 & G6). unfold grown.
  rewrite G1, G2, G4, G5, <- H1, <- H2, <- H3, <- H4, <- H6, <- H5. repeat split; auto.
Qed.

Lemma mem_sbrk_grown (st st' : heap) (incr : Z) (r : option Z) :
  Memlib.mem_sbrk st incr = (r, st') -> grown st st' /\ sbrk_log st' = incr :: sbrk_log st.
Proof.
  unfold Memlib.mem_sbrk. intros H.
  destruct ((incr <? 0) || _); injection H as <- <-; unfold grown; simpl;
    rewrite ?length_app; repeat split; eauto; lia.
Qed.

Lemma extend_heap_grown (st st' : heap) (words bp : Z) :
  extend_heap st words = Ok (bp, st') ->
  grown st st' /\
  sbrk_log st' = (if negb (words mod 2 =? 0) then size_t ((words + 1) * WSIZE)
                  else size_t (words * WSIZE)) :: sbrk_log st.
Proof.
  unfold extend_heap. intros H.
  destruct (Memlib.mem_sbrk st _) as [[p |] st1] eqn:Hs;
    apply mem_sbrk_grown in Hs as [Hg Hlog].
  - binds.
    match goal with H : coalesce _ _ = Ok _ |- _ => apply coalesce_shape in H end.
    assert (same_shape st1 st') as Hsh by chain'.
    split; [eapply grown_shape; eauto |].
    destruct Hsh as (_ & _ & _ & _ & -> & _). exact Hlog.
  - injection H as <- <-. auto.
Qed.

Lemma malloc_grown (st st' : heap) (size p : Z) :
  malloc st size = Ok (p, st') -> grown st st'.
Proof.
  unfold malloc. intros H. destruct (size =? 0).
  - injection H as <- <-. apply same_shape_grown, same_shape_refl.
  - apply res_bind_ok in H as (bp & _ & H). destruct (negb (bp =? NULL)).
    + binds. apply same_shape_grown. eapply place_shape; eauto.
    + apply res_bind_ok in H as ([bp' st1] & He & H). apply extend_heap_grown in He as [Hg _].
      destruct (bp' =? NULL).
      * injection H as <- <-. exact Hg.
      * binds. eapply grown_shape; [exact Hg |]. eapply place_shape; eauto.
Qed.

End Shape.

(** ** The region under the public operations *)
Module Region.
Import Mm Inv Frame MemFacts RW Search Links Shape.

(** X5.  Once the allocator is initialised, [free] rewrites bytes of the
    region and nothing else: the break, the limits, [heap_listp] and the log
    of growth requests are as before; [free(NULL)] changes nothing at all. *)
Theorem free_keeps_region (st st' : heap) (bp : Z) :
  heap_listp st <> NULL -> free st bp = Ok st' ->
  same_shape st st' /\ (bp = NULL -> st' = st).
Proof.
  intros Hl H. split; [eapply free_shape; eauto |].
  intros ->. unfold free in H. simpl in H. congruence.
Qed.

Lemma free_keeps_region_witness :
  same_shape Run.skipped (Run.value (free Run.skipped 4440) Run.skipped) /\
  (4440 = NULL -> Run.value (free Run.skipped 4440) Run.skipped = Run.skipped).
Proof.
  apply (free_keeps_region Run.skipped _ 4440).
  - vm_compute. discriminate.
  - vm_compute. reflexivity.
Defined.

(** X7.  Whatever they return, [malloc], [realloc] and [calloc] on an
    initialised allocator never move or shrink the region: its start, its
    limit and [heap_listp] stay, the break does not decrease, and at most one
    growth request is made. *)
Theorem requests_only_grow (st st' : heap) (p : Z) :
  heap_listp st <> NULL ->
  (exists size, malloc st size = Ok (p, st')) \/
  (exists oldptr size, realloc st oldptr size = Ok (p, st')) \/
  (exists nmemb size, calloc st nmemb size = Ok (p, st')) ->
  grown st st'.
Proof.
  intros Hl [(size & H) | [(oldptr & size & H) | (nmemb & size & H)]].
  - eapply malloc_grown; eauto.
  - unfold realloc in H. destruct (size =? 0).
    + apply res_bind_ok in H as (st1 & Hf & H). injection H as _ <-.
      apply same_shape_grown. eapply free_shape; eauto.
    + destruct (oldptr =? NULL); [eapply malloc_grown; eauto |].
      apply res_bind_ok in H as ([q st1] & Hm & H). apply malloc_grown in Hm.
      destruct (q =? NULL); [injection H as _ <-; exact Hm |].
      apply res_bind_ok in H as (n & _ & H).
      apply res_bind_ok in H as (st2 & Hc & H).
      apply res_bind_ok in H as (st3 & Hf & H). injection H as _ <-.
      unfold memcpy in Hc. apply res_bind_ok in Hc as (bs & _ & Hc).
      apply store_bytes_shape in Hc.
      eapply grown_shape; [eapply grown_shape; [exact Hm | exact Hc] |].
      eapply free_shape; [| exact Hf].
      destruct Hc as (_ & _ & _ & _ & _ & ->). destruct Hm as (_ & _ & _ & _ & -> & _).
      exact Hl.
  - unfold calloc in H. apply res_bind_ok in H as ([q st1] & Hm & H).
    apply malloc_grown in Hm. apply res_bind_ok in H as (st2 & Hc & H). injection H as _ <-.
    eapply grown_shape; [exact Hm |]. unfold memset in Hc.
    destruct (_ =? 0); [injection Hc as <-; apply same_shape_refl |].
    destruct (in_heap _ _ _); [| discriminate]. eapply store_bytes_shape; eauto.
Qed.

Lemma requests_only_grow_witness :
  grown Run.skipped (Run.value (realloc Run.skipped 4440 1000) (NULL, Run.skipped)).2.
Proof.
  apply (requests_only_grow Run.skipped _
           (Run.value (realloc Run.skipped 4440 1000) (NULL, Run.skipped)).1).
  - vm_compute. discriminate.
  - right. left. exists 4440, 1000. vm_compute. reflexivity.
Defined.

(** X8.  [extend_heap] asks [mem_sbrk] for an even number of words: for a
    word count below [2^61] the request is a multiple of 8 bytes, the count
    times 4 rounded up.  When that many bytes do not fit below the limit of
    the region, [extend_heap] returns NULL and the region is as before, but
    for the logged request.  Whenever [extend_heap] returns, that request is
    the one entry it has added to the log. *)
Theorem extend_heap_request (st : heap) (words : Z) :
  0 <= words < 2 ^ 61 ->
  exists n, n mod 8 = 0 /\ 4 * words <= n < 4 * words + 8 /\
            (mem_max_addr st < mem_brk st + n ->
             extend_heap st words = Ok (NULL, log_request st n)) /\
            (forall bp st', extend_heap st words = Ok (bp, st') ->
                            sbrk_log st' = n :: sbrk_log st).
Proof.
  intros Hw.
  set (n := if negb (words mod 2 =? 0) then size_t ((words + 1) * WSIZE)
            else size_t (words * WSIZE)).
  exists n.
  assert (n mod 8 = 0 /\ 4 * words <= n < 4 * words + 8) as [Hm Hn].
  { subst n. unfold size_t, WSIZE. change (2 ^ 61) with 2305843009213693952 in Hw.
    change (2 ^ 64) with 18446744073709551616.
    destruct (Z.eqb_spec (words mod 2) 0); simpl; Z.div_mod_to_equations; lia. }
  split; [exact Hm |]. split; [exact Hn |]. split.
  - intros Hfull. apply (Exhaustion.extend_heap_refused st words n eq_refl Hfull).
  - intros bp st' H. destruct (extend_heap_grown _ _ _ _ H) as [_ Hlog]. exact Hlog.
Qed.

Lemma extend_heap_request_witness :
  exists n, n mod 8 = 0 /\ 4 * 63 <= n < 4 * 63 + 8 /\
            (mem_max_addr Run.tight < mem_brk Run.tight + n ->
             extend_heap Run.tight 63 = Ok (NULL, log_request Run.tight n)) /\
            (forall bp st', extend_heap Run.tight 63 = Ok (bp, st') ->
                            sbrk_log st' = n :: sbrk_log Run.tight).
Proof.
  apply (extend_heap_request Run.tight 63).
  vm_compute. split; [discriminate | reflexivity].
Defined.

End Region.

(** ** Running out of memory *)
Module OutOfMemory.
Import Mm Inv Frame MemFacts RW Search Links Shape.

(** X9.  When no free block fits the adjusted size and the region cannot grow
    by the larger of that size and [CHUNKSIZE], [malloc] returns NULL and
    [realloc] of a live block returns NULL too; in both cases no byte of the
    heap has changed, the lists are as they were, and the one refused request
    is what [mem_sbrk] was asked for. *)
Theorem no_room_returns_null (st : heap) (size oldptr : Z) :
  0 < size <= 2 ^ 64 - 16 ->
  find_fit st (adjust size) = Ok NULL ->
  mem_max_addr st < mem_brk st + MAX (adjust size) CHUNKSIZE ->
  malloc st size = Ok (NULL, log_request st (MAX (adjust size) CHUNKSIZE)) /\
  (oldptr <> NULL ->
   realloc st oldptr size = Ok (NULL, log_request st (MAX (adjust size) CHUNKSIZE))).
Proof.
  intros Hs Hf Hfull.
  assert (0 <= adjust size < 2 ^ 64 /\ adjust size mod 8 = 0) as [Hr Hm].
  { rewrite (Adjust.adjust_in_range size Hs). unfold roundUp8.
    change (2 ^ 64) with 18446744073709551616 in *. Z.div_mod_to_equations. lia. }
  destruct (Exhaustion.extend_size_even (adjust size) Hr Hm) as [Hev Hsz].
  assert (malloc st size = Ok (NULL, log_request st (MAX (adjust size) CHUNKSIZE))) as Hmalloc.
  { apply Exhaustion.malloc_refused; [lia | exact Hf | | exact Hfull].
    cbv zeta. rewrite Hev. simpl. symmetry. exact Hsz. }
  split; [exact Hmalloc |].
  intros Hold. apply Exhaustion.realloc_refused; [lia | exact Hold | exact Hmalloc].
Qed.

Lemma no_room_returns_null_witness :
  malloc Run.tight 1000 = Ok (NULL, log_request Run.tight (MAX (adjust 1000) CHUNKSIZE)) /\
  (4176 <> NULL ->
   realloc Run.tight 4176 1000
   = Ok (NULL, log_request Run.tight (MAX (adjust 1000) CHUNKSIZE))).
Proof.
  apply (no_room_returns_null Run.tight 1000 4176).
  - vm_compute. split; [reflexivity | discriminate].
  - vm_compute. reflexivity.
  - vm_compute. reflexivity.
Defined.

End OutOfMemory.

(** ** The free lists as doubly linked lists *)
Module Linked.
Import Mm Inv Frame MemFacts RW Search Links Writes Insert Remove Tags Place Fit.

#[local] Opaque walk_fuel.

Lemma preds_app (st : heap) (l1 l2 : list Z) :
  forall p, preds st p (l1 ++ l2) <-> preds st p l1 /\ preds st (List.last l1 p) l2.
Proof.
  induction l1 as [| x l1 IH]; intros p.
  - simpl. tauto.
  - rewrite last_cons. cbn [app preds]. rewrite IH. tauto.
Qed.

Lemma preds_frame (st st' : heap) (l : list Z) :
  same_shape st st' -> Forall (fun x => GET st' x = GET st x) l ->
  forall p, preds st p l -> preds st' p l.
Proof.
  intros Hsh. induction l as [| x l IH]; intros Hall p Hp; [exact I |].
  inversion Hall as [| ? ? Hx Hl]; subst. destruct Hp as [Hpx Hp]. split.
  - change (GET_PRED st' x) with (get_link st' x).
    rewrite (get_link_frame st st' x Hsh Hx). exact Hpx.
  - apply IH; assumption.
Qed.

(** A node other than the one after [bp] keeps its predecessor field. *)
Lemma pred_kept (st : heap) (hp bp x : Z) (L1 L2 : list Z) :
  hp + 12 <= heap_listp st -> linkable st x -> apart bp x ->
  (L1 <> [] -> x = List.last L1 hp \/ apart x (List.last L1 hp)) ->
  (L2 <> [] -> apart x (hd NULL L2)) ->
  Forall (fun p => sep p x) (map fst (insert_writes hp bp L1 L2)).
Proof. intros. by_cells. Qed.

Lemma insert_writes_pred (hp bp : Z) (L1 L2 : list Z) :
  In (bp, List.last L1 NULL) (insert_writes hp bp L1 L2) /\
  (L2 <> [] -> In (hd NULL L2, bp) (insert_writes hp bp L1 L2)).
Proof.
  destruct L1 as [| x1 L1]; destruct L2 as [| s L2]; unfold insert_writes;
    rewrite ?last_cons; simpl app; simpl hd.
  - split; [right; left; reflexivity | intros H; contradiction].
  - split; [right; left; reflexivity | intros _; do 3 right; left; reflexivity].
  - split; [right; left; reflexivity | intros H; contradiction].
  - split; [right; left; reflexivity | intros _; do 3 right; left; reflexivity].
Qed.

Lemma spaced_across (l1 l2 : list Z) (x y : Z) :
  spaced (l1 ++ l2) -> In x l1 -> In y l2 -> apart x y.
Proof.
  intros H Hx Hy. apply spaced_app in H as (_ & _ & H).
  rewrite List.Forall_forall in H. specialize (H x Hx).
  rewrite List.Forall_forall in H. apply H, Hy.
Qed.

(** Insertion, with the predecessor fields: the block goes after the nodes
    smaller than it and before the others, every size stays, the links in
    both directions describe the new list, and nothing is written but the
    head cell and link fields of the blocks involved. *)
Lemma insert_full (st : heap) (bp sz : Z) (L ss : list Z) :
  linkable st bp -> in_heap st bp 8 = true ->
  GET_SIZE st (HDRP bp) = Ok sz ->
  class_list st (class_of sz) = Ok L -> sizes st L = Ok ss -> preds st NULL L ->
  spaced (bp :: L) ->
  exists st' L1 L2 ss1 ss2,
    insert_to_free_list st bp = Ok st' /\ same_shape st st' /\
    L = L1 ++ L2 /\ ss = ss1 ++ ss2 /\ length L1 = length ss1 /\
    Forall (fun s => s < sz) ss1 /\
    match ss2 with [] => True | s :: _ => sz <= s end /\
    class_list st' (class_of sz) = Ok (L1 ++ bp :: L2) /\
    sizes st' (L1 ++ bp :: L2) = Ok (ss1 ++ sz :: ss2) /\
    preds st' NULL (L1 ++ bp :: L2) /\
    (forall q, sep (get_listp st sz) q ->
               Forall (fun x => sep x q /\ sep (x + 4) q) (bp :: L) ->
               GET st' q = GET st q).
Proof.
  intros Hbp Hbp_in Hsz HL Hss Hpreds Hsp.
  unfold class_list in HL. apply res_bind_ok in HL as (h & Hh & HL).
  change (head_cell st (class_of sz)) with (get_listp st sz) in Hh.
  destruct (insert_scan_spec st sz L _ (get_listp st sz) h ss HL Hss)
    as (L1 & L2 & ss1 & ss2 & -> & -> & Hl12 & Hlt & Hge & Hscan).
  set (hp := get_listp st sz) in *.
  pose proof (list_from_seg _ _ _ _ HL) as Hseg.
  assert (hp + 12 <= heap_listp st) as Hhp by (apply head_cell_below, class_of_range).
  pose proof (insert_facts st bp h L1 L2 _ hp Hh Hseg Hss Hsp) as Hfacts.
  assert (Forall (linkable st) (L1 ++ L2)) as Hlink
    by (eapply Forall_impl; [exact Hfacts |]; simpl; tauto).
  assert (length (L1 ++ L2) <= length (mem_heap st))%nat as Hlen.
  { apply nodes_fit; [apply Hsp |]. eapply Forall_impl; [exact Hfacts |]; simpl; tauto. }
  destruct (insert_writes_ok st bp hp L1 L2 Hfacts Hbp Hbp_in
              (get_link_in_heap _ _ _ Hh) Hhp) as [Hws Hcs].
  destruct (run_writes_spec _ st Hws Hcs) as (st' & Hrun & Hsh & Hget & Hframe).
  exists st', L1, L2, ss1, ss2.
  split; [rewrite (insert_as_writes st bp sz h L1 L2 Hsz Hh Hscan Hlink); exact Hrun |].
  split; [exact Hsh |]. split; [reflexivity |]. split; [reflexivity |].
  split; [exact Hl12 |]. split; [exact Hlt |]. split; [exact Hge |].
  rewrite List.Forall_forall in Hfacts.
  assert (GET_SIZE st' (HDRP bp) = Ok sz) as Hsz'.
  { rewrite <- Hsz. apply GET_SIZE_frame, Hframe. destruct Hsp as [Hap _].
    rewrite List.Forall_forall in Hap.
    apply (hdr_kept st); [exact Hhp | exact Hbp | left; reflexivity | |]; intros Hne; right.
    - apply Hap, in_or_app. left. apply last_in, Hne.
    - apply Hap, in_or_app. right. destruct L2; [contradiction | left; reflexivity]. }
  split; [| split; [| split]].
  - destruct (insert_list st st' bp hp h L1 L2 Hsh Hh Hseg Hget Hframe Hsp Hbp Hhp)
      as (h' & Hh' & Hseg').
    unfold class_list. rewrite (same_shape_head_cell _ _ _ Hsh).
    change (GET_HEAD st' (head_cell st (class_of sz))) with (get_link st' hp).
    rewrite Hh'. simpl. apply seg_list_from; [exact Hseg' |].
    rewrite (same_shape_fuel _ _ Hsh). rewrite length_app in *. simpl.
    rewrite walk_fuel_eq. lia.
  - apply sizes_app in Hss as [Hss1 Hss2]; [| exact Hl12].
    assert (forall l, (forall x, In x l -> In x (L1 ++ L2)) -> sizes st' l = sizes st l) as Hsame.
    { intros l Hl. apply sizes_frame, List.Forall_forall. intros x Hx.
      destruct (Hfacts x (Hl x Hx)) as (a & b & c & d & e & f).
      apply GET_SIZE_frame, Hframe. apply (hdr_kept st); auto. }
    apply sizes_app; [exact Hl12 |]. split.
    + rewrite Hsame; [exact Hss1 | intros x Hx; apply in_or_app; left; exact Hx].
    + simpl. rewrite Hsz'. simpl.
      rewrite Hsame; [rewrite Hss2; reflexivity | intros x Hx; apply in_or_app; right; exact Hx].
  - destruct Hsp as [_ Hsp]. rewrite List.Forall_forall in Hget.
    destruct (insert_writes_pred hp bp L1 L2) as [Hin_bp Hin_s].
    apply preds_app in Hpreds as [Hp1 Hp2]. apply preds_app. split.
    + apply (preds_frame st st' L1 Hsh); [| exact Hp1].
      apply List.Forall_forall. intros x Hx.
      destruct (Hfacts x (in_or_app _ _ _ (or_introl Hx))) as (a & b & c & d & e & f).
      apply Hframe. apply (pred_kept st); auto.
      intros Hne. apply (spaced_across L1 L2); [exact Hsp | exact Hx |].
      destruct L2; [contradiction | left; reflexivity].
    + split; [apply (Hget _ Hin_bp) |].
      destruct L2 as [| s L2]; [exact I |].
      destruct Hp2 as [_ Hp2]. split; [apply (Hget _ (Hin_s ltac:(discriminate))) |].
      apply (preds_frame st st' L2 Hsh); [| exact Hp2].
      apply List.Forall_forall. intros x Hx.
      assert (In x (L1 ++ s :: L2)) as Hx' by (apply in_or_app; right; right; exact Hx).
      destruct (Hfacts x Hx') as (a & b & c & d & e & f).
      apply Hframe. apply (pred_kept st); auto. intros _. simpl.
      apply spaced_app in Hsp as (_ & [Hs _] & _). rewrite List.Forall_forall in Hs.
      apply apart_sym, Hs, Hx.
  - intros q Hq Hall. apply Hframe, rest_kept; assumption.
Qed.

Lemma remove_pred_kept (st : heap) (hp x : Z) (L1 L2 : list Z) :
  hp + 12 <= heap_listp st -> linkable st x ->
  (L1 <> [] -> x = List.last L1 hp \/ apart x (List.last L1 hp)) ->
  (L2 <> [] -> apart x (hd NULL L2)) ->
  Forall (fun p => sep p x) (map fst (remove_writes hp L1 L2)).
Proof. intros. by_remove_cells. Qed.

Lemma remove_hdr_kept (st : heap) (hp x : Z) (L1 L2 : list Z) :
  hp + 12 <= heap_listp st -> linkable st x ->
  (L1 <> [] -> x = List.last L1 hp \/ apart x (List.last L1 hp)) ->
  (L2 <> [] -> x = hd NULL L2 \/ apart x (hd NULL L2)) ->
  Forall (fun p => sep p (x - 4)) (map fst (remove_writes hp L1 L2)).
Proof. intros. by_remove_cells. Qed.

Lemma remove_writes_pred (hp : Z) (L1 L2 : list Z) :
  L2 <> [] -> In (hd NULL L2, List.last L1 NULL) (remove_writes hp L1 L2).
Proof.
  destruct L1 as [| x1 L1]; destruct L2 as [| s L2]; unfold remove_writes;
    rewrite ?last_cons; simpl hd; intros H; try contradiction.
  - right; left; reflexivity.
  - right; left; reflexivity.
Qed.

(** Removal, with the predecessor fields: the block leaves its list, whose
    links in both directions describe what is left; the sizes stay, and
    nothing is written but the head cell and the link fields of the block's
    neighbours in the list. *)
Lemma remove_full (st : heap) (bp sz : Z) (L1 L2 ss : list Z) :
  GET_SIZE st (HDRP bp) = Ok sz ->
  class_list st (class_of sz) = Ok (L1 ++ bp :: L2) ->
  sizes st (L1 ++ bp :: L2) = Ok ss ->
  preds st NULL (L1 ++ bp :: L2) ->
  spaced (L1 ++ bp :: L2) ->
  exists st',
    remove_from_free_list st bp = Ok st' /\ same_shape st st' /\
    class_list st' (class_of sz) = Ok (L1 ++ L2) /\
    sizes st' (L1 ++ L2) = sizes st (L1 ++ L2) /\
    preds st' NULL (L1 ++ L2) /\
    (forall q, sep (get_listp st sz) q ->
               Forall (fun x => sep x q /\ sep (x + 4) q) (L1 ++ L2) ->
               GET st' q = GET st q).
Proof.
  intros Hsz HL Hss Hpreds Hsp.
  apply preds_app in Hpreds as [Hp1 [Hpred Hp2]].
  unfold class_list in HL. apply res_bind_ok in HL as (h & Hh & HL).
  change (head_cell st (class_of sz)) with (get_listp st sz) in Hh.
  set (hp := get_listp st sz) in *.
  assert (hp + 12 <= heap_listp st) as Hhp by (apply head_cell_below, class_of_range).
  pose proof (list_from_seg _ _ _ _ HL) as Hseg.
  pose proof (list_from_length _ _ _ _ HL) as Hlen.
  pose proof (node_facts st hp h _ ss Hh Hseg Hss) as Hfacts.
  apply seg_app in Hseg as (k & Hs1 & Hs2).
  destruct Hs2 as (-> & Hbp_nn & s & Hsucc & Hs2).
  assert (s = hd NULL L2) as ->.
  { destruct L2; [exact Hs2 | eapply seg_hd; [exact Hs2 | discriminate]]. }
  assert (Forall (fun x => linkable st x /\ in_heap st x 4 = true /\
                           in_heap st (x + 4) 4 = true) (L1 ++ L2)) as Hfacts'.
  { apply Forall_app in Hfacts as [F1 F2]. inversion F2; subst. apply Forall_app. auto. }
  pose proof (spaced_remove _ _ _ Hsp) as Hsp'.
  destruct (remove_writes_ok st hp L1 L2 Hfacts' Hsp' (get_link_in_heap _ _ _ Hh) Hhp)
    as [Hws Hcs].
  destruct (run_writes_spec _ st Hws Hcs) as (st' & Hrun & Hsh & Hget & Hframe).
  exists st'. rewrite List.Forall_forall in Hget, Hfacts'.
  destruct (remove_writes_in hp L1 L2) as (Hin_head & Hin_pred).
  assert (forall x, In x (L1 ++ L2) ->
                    (L1 <> [] -> x = List.last L1 hp \/ apart x (List.last L1 hp)) /\
                    (L2 <> [] -> x = hd NULL L2 \/ apart x (hd NULL L2))) as Hnear.
  { intros x Hx. split; intros Hne; apply (spaced_pairwise (L1 ++ L2)); auto;
      apply in_or_app; [left; apply last_in, Hne | right].
    destruct L2; [contradiction | left; reflexivity]. }
  split; [| split; [exact Hsh | split; [| split; [| split]]]].
  - rewrite (remove_as_writes st bp sz L1 L2 Hsz Hpred Hsucc); [exact Hrun |].
    apply List.Forall_forall. intros x Hx. apply (Hfacts' x Hx).
  - assert (forall x, In x (L1 ++ L2) -> (L1 <> [] -> apart x (List.last L1 hp)) ->
                      GET_SUCC st' x = GET_SUCC st x) as Hkeep.
    { intros x Hx Hp. apply (get_link_frame st st' (x + 4) Hsh), Hframe.
      apply (remove_succ_kept st); [exact Hhp | apply (Hfacts' x Hx) | exact Hp |].
      apply (Hnear x Hx). }
    assert (seg st' (hd NULL L2) L2 NULL) as Hs2'.
    { eapply seg_frame; [| exact Hs2]. apply List.Forall_forall. intros x Hx.
      apply Hkeep; [apply in_or_app; right; exact Hx |].
      intros Hne. apply apart_sym. apply (spaced_across L1 L2); [exact Hsp' | | exact Hx].
      apply last_in, Hne. }
    assert (exists h', get_link st' hp = Ok h' /\ seg st' h' (L1 ++ L2) NULL) as (h' & Hh' & Hseg').
    { destruct (decide (L1 = [])) as [-> | Hne].
      - exists (hd NULL L2). split; [apply (Hget _ (Hin_head eq_refl)) | exact Hs2'].
      - pose proof (Hin_pred Hne) as Hin_p.
        destruct (exists_last Hne) as (L1' & p & ->). rewrite last_last in *.
        apply seg_snoc in Hs1 as (Hs1 & Hp & Hps).
        pose proof Hsp' as Hsp''. rewrite <- app_assoc in Hsp''. apply spaced_last in Hsp''.
        rewrite List.Forall_forall in Hsp''.
        exists h. split.
        + rewrite (get_link_frame st st' hp Hsh); [exact Hh |].
          apply Hframe. apply (remove_head_kept st); auto.
          * rewrite ?last_last. apply Hfacts', in_or_app. left. apply in_or_app. right.
            left. reflexivity.
          * intros Hn2. apply Hfacts', in_or_app. right.
            destruct L2; [contradiction | left; reflexivity].
        + rewrite <- app_assoc. apply seg_app. exists p. split.
          * eapply seg_frame; [| exact Hs1]. apply List.Forall_forall. intros x Hx.
            apply Hkeep; [apply in_or_app; left; apply in_or_app; left; exact Hx |].
            intros _. rewrite ?last_last. apply Hsp'', in_or_app. left. exact Hx.
          * simpl. split; [reflexivity |]. split; [exact Hp |].
            exists (hd NULL L2). split; [apply (Hget _ Hin_p) | exact Hs2']. }
    unfold class_list. rewrite (same_shape_head_cell _ _ _ Hsh).
    change (GET_HEAD st' (head_cell st (class_of sz))) with (get_link st' hp).
    rewrite Hh'. simpl. apply seg_list_from; [exact Hseg' |].
    rewrite (same_shape_fuel _ _ Hsh). rewrite length_app in *. simpl in Hlen. lia.
  - apply sizes_frame, List.Forall_forall. intros x Hx.
    apply GET_SIZE_frame, Hframe. apply (remove_hdr_kept st); auto; try apply (Hnear x Hx).
    apply (Hfacts' x Hx).
  - apply preds_app. split.
    + apply (preds_frame st st' L1 Hsh); [| exact Hp1].
      apply List.Forall_forall. intros x Hx.
      assert (In x (L1 ++ L2)) as Hx' by (apply in_or_app; left; exact Hx).
      apply Hframe. apply (remove_pred_kept st); auto; try apply (Hnear x Hx').
      * apply (Hfacts' x Hx').
      * intros Hne. apply (spaced_across L1 L2); [exact Hsp' | exact Hx |].
        destruct L2; [contradiction | left; reflexivity].
    + destruct L2 as [| s L2]; [exact I |]. destruct Hp2 as [_ Hp2].
      split; [apply (Hget _ (remove_writes_pred hp L1 (s :: L2) ltac:(discriminate))) |].
      apply (preds_frame st st' L2 Hsh); [| exact Hp2].
      apply List.Forall_forall. intros x Hx.
      assert (In x (L1 ++ s :: L2)) as Hx' by (apply in_or_app; right; right; exact Hx).
      apply Hframe. apply (remove_pred_kept st); auto; try apply (Hnear x Hx').
      * apply (Hfacts' x Hx').
      * intros _. simpl. apply spaced_app in Hsp' as (_ & [Hs _] & _).
        rewrite List.Forall_forall in Hs. apply apart_sym, Hs, Hx.
  - intros q Hq Hall. apply Hframe, remove_rest_kept; assumption.
Qed.

Lemma spaced_insert (l1 l2 : list Z) (x : Z) : spaced (x :: l1 ++ l2) <-> spaced (l1 ++ x :: l2).
Proof.
  assert (Forall (fun y => Forall (apart y) (x :: l2)) l1 <->
          Forall (apart x) l1 /\ Forall (fun y => Forall (apart y) l2) l1) as H.
  { rewrite !List.Forall_forall. split.
    - intros H. split; intros y Hy; specialize (H y Hy); inversion H; subst;
        [apply apart_sym |]; assumption.
    - intros [H1 H2] y Hy. constructor; [apply apart_sym |]; auto. }
  rewrite (spaced_app l1 (x :: l2)), H. cbn [spaced]. rewrite spaced_app, Forall_app. tauto.
Qed.

Lemma ascending_remove (ss1 ss2 : list Z) (s : Z) :
  ascending (ss1 ++ s :: ss2) -> ascending (ss1 ++ ss2).
Proof.
  induction ss1 as [| t ss1 IH]; simpl.
  - tauto.
  - rewrite !Forall_app, Forall_cons. tauto.
Qed.

Lemma sizes_split (st : heap) (l1 l2 ss : list Z) (x : Z) :
  sizes st (l1 ++ x :: l2) = Ok ss ->
  exists ss1 sx ss2, ss = ss1 ++ sx :: ss2 /\ GET_SIZE st (HDRP x) = Ok sx /\
                     sizes st (l1 ++ l2) = Ok (ss1 ++ ss2).
Proof.
  rewrite !sizes_app_eq. intros H.
  apply res_bind_ok in H as (a & Ha & H). apply res_bind_ok in H as (b & Hb & [= <-]).
  simpl in Hb. apply res_bind_ok in Hb as (sx & Hsx & Hb).
  apply res_bind_ok in Hb as (b' & Hb' & [= <-]).
  exists a, sx, b'. rewrite Ha, Hb'. auto.
Qed.

(** A class whose head cell and whose nodes' header and link words are
    untouched is as well formed as before. *)
Lemma class_frame (st st' : heap) (k : Z) (L : list Z) :
  same_shape st st' ->
  GET st' (head_cell st k) = GET st (head_cell st k) ->
  Forall (fun y => GET st' (y - 4) = GET st (y - 4) /\ GET st' y = GET st y /\
                   GET st' (y + 4) = GET st (y + 4)) L ->
  class_list st k = Ok L /\ preds st NULL L /\
  (exists ss, sizes st L = Ok ss /\ ascending ss /\ Forall (fun s => class_of s = k) ss) /\
  spaced L ->
  class_list st' k = Ok L /\ preds st' NULL L /\
  (exists ss, sizes st' L = Ok ss /\ ascending ss /\ Forall (fun s => class_of s = k) ss) /\
  spaced L.
Proof.
  intros Hsh Hhead Hall (HL & Hp & (ss & Hss & Hasc & Hcl) & Hsp).
  split; [| split; [| split; [| exact Hsp]]].
  - apply (class_list_frame st st' k L Hsh HL Hhead).
    eapply Forall_impl; [exact Hall |]. simpl. tauto.
  - apply (preds_frame st st' L Hsh); [| exact Hp].
    eapply Forall_impl; [exact Hall |]. simpl. tauto.
  - exists ss. split; [| auto]. rewrite <- Hss. apply sizes_frame.
    eapply Forall_impl; [exact Hall |]. simpl. intros y (Hy & _).
    apply GET_SIZE_frame. exact Hy.
Qed.

(** Writes that miss the head cells and the header and link words of the
    listed blocks leave the lists well formed. *)
Lemma wl_frame (st st' : heap) (lists : Z -> list Z) :
  well_linked st lists -> same_shape st st' ->
  (forall k, 0 <= k < CLASS_CNT -> GET st' (head_cell st k) = GET st (head_cell st k)) ->
  (forall k y, 0 <= k < CLASS_CNT -> In y (lists k) ->
               forall q, y - 4 <= q <= y + 4 -> GET st' q = GET st q) ->
  well_linked st' lists.
Proof.
  intros [Hcl Hap] Hsh Hhead Hnodes. split; [| exact Hap].
  intros k Hk. apply (class_frame st st' k _ Hsh (Hhead k Hk)); [| apply Hcl, Hk].
  apply List.Forall_forall. intros y Hy.
  repeat split; apply (Hnodes k y Hk Hy); lia.
Qed.

Lemma wl_linkable (st : heap) (lists : Z -> list Z) (k x : Z) :
  well_linked st lists -> 0 <= k < CLASS_CNT -> In x (lists k) -> linkable st x.
Proof.
  intros [Hcl _] Hk Hx. destruct (Hcl k Hk) as (HL & _).
  pose proof (class_linkable _ _ _ HL) as H. rewrite List.Forall_forall in H. auto.
Qed.

(** Insertion keeps the fourteen lists well formed. *)
Lemma wl_insert (st : heap) (lists : Z -> list Z) (bp sz : Z) :
  well_linked st lists -> linkable st bp -> in_heap st bp 8 = true ->
  GET_SIZE st (HDRP bp) = Ok sz ->
  (forall k x, 0 <= k < CLASS_CNT -> In x (lists k) -> apart bp x) ->
  exists st' L1 L2,
    insert_to_free_list st bp = Ok st' /\ same_shape st st' /\
    lists (class_of sz) = L1 ++ L2 /\
    well_linked st' (linked lists (class_of sz) L1 bp L2) /\
    (forall q, sep (get_listp st sz) q ->
               Forall (fun x => sep x q /\ sep (x + 4) q) (bp :: lists (class_of sz)) ->
               GET st' q = GET st q).
Proof.
  intros Hwl Hbp Hbp_in Hsz Hfresh. pose proof Hwl as [Hcl Hap].
  set (c := class_of sz) in *.
  assert (0 <= c < CLASS_CNT) as Hcr by apply class_of_range.
  destruct (Hcl c Hcr) as (HLc & Hpc & (ssc & Hssc & Hasc & Hinc) & Hspc).
  assert (spaced (bp :: lists c)) as Hsp.
  { split; [| exact Hspc]. apply List.Forall_forall. intros x Hx. apply (Hfresh c x Hcr Hx). }
  destruct (insert_full st bp sz (lists c) ssc Hbp Hbp_in Hsz HLc Hssc Hpc Hsp)
    as (st' & L1 & L2 & ss1 & ss2 & Hins & Hsh & HL & Hss & Hlen & Hlt & Hge & Hcl' & Hsz'
        & Hp' & Hframe).
  change (get_listp st sz) with (head_cell st c) in Hframe.
  exists st', L1, L2. split; [exact Hins |]. split; [exact Hsh |]. split; [exact HL |].
  split; [| exact Hframe].
  pose proof (head_cell_below st c Hcr) as Hhc.
  assert (forall x, In x (bp :: lists c) -> linkable st x) as Hlc.
  { intros x [<- | Hx]; [exact Hbp | eapply wl_linkable; eauto]. }
  split.
  - intros k Hk. unfold linked. destruct (Z.eqb_spec k c) as [-> | Hkc].
    + split; [exact Hcl' |]. split; [exact Hp' |]. split.
      * exists (ss1 ++ sz :: ss2). split; [exact Hsz' |]. subst ssc. split.
        -- apply ascending_insert; assumption.
        -- apply Forall_app in Hinc as [H1 H2]. apply Forall_app. split; [exact H1 |].
           constructor; [reflexivity | exact H2].
      * apply spaced_insert. rewrite <- HL. exact Hsp.
    + pose proof (head_cell_below st k Hk) as Hhk.
      apply (class_frame st st' k _ Hsh); [| | apply Hcl, Hk].
      * apply Hframe; [apply head_cells_sep; congruence |].
        apply List.Forall_forall. intros x Hx. destruct (Hlc x Hx) as [_ ?].
        unfold sep. lia.
      * apply List.Forall_forall. intros y Hy.
        pose proof (wl_linkable st lists k y Hwl Hk Hy) as [_ Hyl].
        assert (forall x, In x (bp :: lists c) -> apart x y) as Hxy.
        { intros x [<- | Hx]; [apply (Hfresh k y Hk Hy) |].
          apply (Hap c k x y Hcr Hk ltac:(congruence) Hx Hy). }
        repeat split; (apply Hframe; [unfold sep; lia |]);
          apply List.Forall_forall; intros x Hx; specialize (Hxy x Hx);
          unfold sep, apart in *; lia.
  - assert (forall k x, In x (linked lists c L1 bp L2 k) ->
                        (x = bp /\ k = c) \/ In x (lists k)) as Hin.
    { intros k x. unfold linked. destruct (Z.eqb_spec k c) as [-> | _]; [| auto].
      rewrite HL, !in_app_iff. simpl. intuition. }
    intros k k' x y Hk Hk' Hne Hx Hy.
    destruct (Hin k x Hx) as [[-> ->] | Hx']; destruct (Hin k' y Hy) as [[-> ->] | Hy'].
    + contradiction.
    + apply (Hfresh k' y Hk' Hy').
    + apply apart_sym, (Hfresh k x Hk Hx').
    + apply (Hap k k' x y Hk Hk' Hne Hx' Hy').
Qed.

(** Removal keeps the fourteen lists well formed. *)
Lemma wl_remove (st : heap) (lists : Z -> list Z) (bp sz : Z) (L1 L2 : list Z) :
  well_linked st lists -> GET_SIZE st (HDRP bp) = Ok sz ->
  lists (class_of sz) = L1 ++ bp :: L2 ->
  exists st',
    remove_from_free_list st bp = Ok st' /\ same_shape st st' /\
    well_linked st' (unlinked lists (class_of sz) L1 L2) /\
    (forall q, sep (get_listp st sz) q ->
               Forall (fun x => sep x q /\ sep (x + 4) q) (L1 ++ L2) ->
               GET st' q = GET st q).
Proof.
  intros Hwl Hsz Hc. pose proof Hwl as [Hcl Hap].
  set (c := class_of sz) in *.
  assert (0 <= c < CLASS_CNT) as Hcr by apply class_of_range.
  destruct (Hcl c Hcr) as (HLc & Hpc & (ssc & Hssc & Hasc & Hinc) & Hspc).
  rewrite Hc in HLc, Hpc, Hssc, Hspc.
  destruct (remove_full st bp sz L1 L2 ssc Hsz HLc Hssc Hpc Hspc)
    as (st' & Hrem & Hsh & HL' & Hsz' & Hp' & Hframe).
  change (get_listp st sz) with (head_cell st c) in Hframe.
  exists st'. split; [exact Hrem |]. split; [exact Hsh |]. split; [| exact Hframe].
  pose proof (head_cell_below st c Hcr) as Hhc.
  assert (forall x, In x (L1 ++ L2) -> In x (lists c)) as Hsub.
  { intros x Hx. rewrite Hc. rewrite in_app_iff in *. simpl. tauto. }
  split.
  - intros k Hk. unfold unlinked. destruct (Z.eqb_spec k c) as [-> | Hkc].
    + split; [exact HL' |]. split; [exact Hp' |]. split; [| eapply spaced_remove; eauto].
      destruct (sizes_split _ _ _ _ _ Hssc) as (ss1 & sx & ss2 & -> & _ & Hss').
      exists (ss1 ++ ss2). rewrite Hsz'. split; [exact Hss' |]. split.
      * eapply ascending_remove; eauto.
      * apply Forall_app in Hinc as [H1 H2]. inversion H2; subst. apply Forall_app. auto.
    + pose proof (head_cell_below st k Hk) as Hhk.
      apply (class_frame st st' k _ Hsh); [| | apply Hcl, Hk].
      * apply Hframe; [apply head_cells_sep; congruence |].
        apply List.Forall_forall. intros x Hx.
        destruct (wl_linkable st lists c x Hwl Hcr (Hsub x Hx)) as [_ ?]. unfold sep. lia.
      * apply List.Forall_forall. intros y Hy.
        pose proof (wl_linkable st lists k y Hwl Hk Hy) as [_ Hyl].
        repeat split; (apply Hframe; [unfold sep; lia |]);
          apply List.Forall_forall; intros x Hx;
          pose proof (Hap c k x y Hcr Hk ltac:(congruence) (Hsub x Hx) Hy);
          unfold sep, apart in *; lia.
  - intros k k' x y Hk Hk' Hne Hx Hy.
    apply (Hap k k' x y Hk Hk' Hne); eapply unlinked_in; eauto.
Qed.

Lemma wl_ext (st : heap) (f g : Z -> list Z) :
  (forall k, 0 <= k < CLASS_CNT -> f k = g k) -> well_linked st f -> well_linked st g.
Proof.
  intros Hfg [Hcl Hap]. split.
  - intros k Hk. rewrite <- (Hfg k Hk). apply Hcl, Hk.
  - intros k k' x y Hk Hk'. rewrite <- (Hfg k Hk), <- (Hfg k' Hk'). apply Hap; assumption.
Qed.

Lemma in_upward (k : Z) : 0 <= k < CLASS_CNT -> In k (upward 0).
Proof.
  intros Hk. unfold upward. apply in_map_iff. exists (Z.to_nat k). split; [lia |].
  apply in_seq. unfold CLASS_CNT in *. lia.
Qed.

(** Well-formedness from the per-class facts and the spacing of all nodes. *)
Lemma wl_intro (st : heap) (lists : Z -> list Z) :
  (forall k, 0 <= k < CLASS_CNT ->
             class_list st k = Ok (lists k) /\ preds st NULL (lists k) /\
             exists ss, sizes st (lists k) = Ok ss /\ ascending ss /\
                        Forall (fun s => class_of s = k) ss) ->
  spaced (all_nodes lists) ->
  well_linked st lists.
Proof.
  intros Hcl Hsp. split.
  - intros k Hk. destruct (Hcl k Hk) as (a & b & c).
    split; [exact a |]. split; [exact b |]. split; [exact c |].
    apply (spaced_class lists k Hsp Hk).
  - intros k k' x y Hk Hk' Hne.
    apply (spaced_concat lists (upward 0) Hsp (upward_NoDup 0) k k' x y
             (in_upward k Hk) (in_upward k' Hk') Hne).
Qed.

Ltac check_props :=
  vm_compute;
  repeat first [ exact I | reflexivity | discriminate
               | apply List.Forall_nil | apply List.Forall_cons | split
               | (left; discriminate) | (right; discriminate) ].

Ltac check_class :=
  split; [vm_compute; reflexivity |];
  split; [check_props |];
  match goal with
  | |- exists ss, sizes ?st ?l = Ok ss /\ _ =>
      let ss := eval vm_compute in (Run.value (sizes st l) []) in exists ss
  end;
  split; [vm_compute; reflexivity |];
  split; [check_props |];
  repeat first [apply List.Forall_nil | apply List.Forall_cons; [reflexivity |]].

Ltac check_fresh :=
  let k := fresh "k" in let x := fresh "x" in let Hk := fresh "Hk" in
  intros k x Hk;
  each_class k Hk ltac:(let Hx := fresh "Hx" in
                        intros Hx; vm_compute in Hx; unfold apart, outside; intuition lia).

Ltac check_lists :=
  apply wl_intro;
  [ let k := fresh "k" in let Hk := fresh "Hk" in
    intros k Hk; each_class k Hk ltac:(check_class)
  | check_props ].

(** X10.  Inserting a block that is on no list, when the fourteen lists are
    well formed, succeeds and leaves them well formed: the block sits in the
    list of its size class after the smaller blocks, successor and
    predecessor fields agree, sizes ascend, and only the head cell of that
    class and link fields of that list and of the block were written. *)
Theorem insert_keeps_lists (st : heap) (lists : Z -> list Z) (bp sz : Z) :
  well_linked st lists -> linkable st bp -> in_heap st bp 8 = true ->
  GET_SIZE st (HDRP bp) = Ok sz ->
  (forall k x, 0 <= k < CLASS_CNT -> In x (lists k) -> apart bp x) ->
  exists st' L1 L2,
    insert_to_free_list st bp = Ok st' /\ same_shape st st' /\
    lists (class_of sz) = L1 ++ L2 /\
    well_linked st' (linked lists (class_of sz) L1 bp L2) /\
    (forall q, sep (get_listp st sz) q ->
               Forall (fun x => sep x q /\ sep (x + 4) q) (bp :: lists (class_of sz)) ->
               GET st' q = GET st q).
Proof. apply wl_insert. Qed.

Lemma insert_keeps_lists_witness :
  exists st' L1 L2,
    insert_to_free_list Run.skipped 4440 = Ok st' /\ same_shape Run.skipped st' /\
    Run.lists_of Run.skipped (class_of 208) = L1 ++ L2 /\
    well_linked st' (linked (Run.lists_of Run.skipped) (class_of 208) L1 4440 L2) /\
    (forall q, sep (get_listp Run.skipped 208) q ->
               Forall (fun x => sep x q /\ sep (x + 4) q)
                      (4440 :: Run.lists_of Run.skipped (class_of 208)) ->
               GET st' q = GET Run.skipped q).
Proof.
  apply (insert_keeps_lists Run.skipped (Run.lists_of Run.skipped) 4440 208).
  - check_lists.
  - check_props.
  - vm_compute. reflexivity.
  - vm_compute. reflexivity.
  - check_fresh.
Defined.

(** X11.  Removing a listed block, when the fourteen lists are well formed,
    succeeds and leaves them well formed: the block is gone from the list of
    its size class, its neighbours point at each other, and only the head
    cell of that class and link fields of that list were written. *)
Theorem remove_keeps_lists (st : heap) (lists : Z -> list Z) (bp sz : Z) (L1 L2 : list Z) :
  well_linked st lists -> GET_SIZE st (HDRP bp) = Ok sz ->
  lists (class_of sz) = L1 ++ bp :: L2 ->
  exists st',
    remove_from_free_list st bp = Ok st' /\ same_shape st st' /\
    well_linked st' (unlinked lists (class_of sz) L1 L2) /\
    (forall q, sep (get_listp st sz) q ->
               Forall (fun x => sep x q /\ sep (x + 4) q) (L1 ++ L2) ->
               GET st' q = GET st q).
Proof. apply wl_remove. Qed.

Lemma remove_keeps_lists_witness :
  exists st',
    remove_from_free_list Run.skipped 4648 = Ok st' /\ same_shape Run.skipped st' /\
    well_linked st' (unlinked (Run.lists_of Run.skipped) (class_of 440) [] []) /\
    (forall q, sep (get_listp Run.skipped 440) q ->
               Forall (fun x => sep x q /\ sep (x + 4) q) ([] ++ []) ->
               GET st' q = GET Run.skipped q).
Proof.
  apply (remove_keeps_lists Run.skipped (Run.lists_of Run.skipped) 4648 440 [] []).
  - check_lists.
  - vm_compute. reflexivity.
  - vm_compute. reflexivity.
Defined.

(** X12.  Insertion followed by removal of the same block is a round trip on
    the lists: both calls succeed, the fourteen lists are again the ones
    before, well formed, and no word but the head cell of the block's class
    and link fields of that list and of the block was written. *)
Theorem insert_then_remove (st : heap) (lists : Z -> list Z) (bp sz : Z) :
  well_linked st lists -> linkable st bp -> in_heap st bp 8 = true ->
  GET_SIZE st (HDRP bp) = Ok sz ->
  (forall k x, 0 <= k < CLASS_CNT -> In x (lists k) -> apart bp x) ->
  exists st1 st2,
    insert_to_free_list st bp = Ok st1 /\ remove_from_free_list st1 bp = Ok st2 /\
    same_shape st st2 /\ well_linked st2 lists /\
    (forall q, sep (get_listp st sz) q ->
               Forall (fun x => sep x q /\ sep (x + 4) q) (bp :: lists (class_of sz)) ->
               GET st2 q = GET st q).
Proof.
  intros Hwl Hbp Hbp_in Hsz Hfresh.
  set (c := class_of sz).
  assert (0 <= c < CLASS_CNT) as Hcr by apply class_of_range.
  destruct (wl_insert st lists bp sz Hwl Hbp Hbp_in Hsz Hfresh)
    as (st1 & L1 & L2 & Hins & Hsh1 & HL & Hwl1 & Hframe1).
  fold c in HL, Hwl1, Hframe1.
  pose proof (head_cell_below st c Hcr) as Hhc.
  assert (GET_SIZE st1 (HDRP bp) = Ok sz) as Hsz1.
  { rewrite <- Hsz. apply GET_SIZE_frame, Hframe1.
    - destruct Hbp as [_ ?]. unfold get_listp, sep, HDRP, WSIZE. fold c. lia.
    - apply List.Forall_forall. intros x [<- | Hx]; [unfold sep, HDRP, WSIZE; lia |].
      pose proof (Hfresh c x Hcr Hx). unfold sep, apart, HDRP, WSIZE in *. lia. }
  assert (linked lists c L1 bp L2 (class_of sz) = L1 ++ bp :: L2) as Hc1.
  { unfold linked. fold c. rewrite Z.eqb_refl. reflexivity. }
  destruct (wl_remove st1 _ bp sz L1 L2 Hwl1 Hsz1 Hc1) as (st2 & Hrem & Hsh2 & Hwl2 & Hframe2).
  exists st1, st2. split; [exact Hins |]. split; [exact Hrem |].
  split; [eapply same_shape_trans; eauto |]. split.
  - apply (wl_ext st2 (unlinked (linked lists c L1 bp L2) (class_of sz) L1 L2)); [| exact Hwl2].
    intros k Hk. unfold unlinked, linked. fold c.
    destruct (Z.eqb_spec k c) as [-> | _]; [symmetry; exact HL | reflexivity].
  - intros q Hq Hall. rewrite <- (Hframe1 q Hq Hall). apply Hframe2.
    + unfold get_listp. rewrite (same_shape_head_cell _ _ _ Hsh1). exact Hq.
    + rewrite List.Forall_forall in Hall. apply List.Forall_forall. intros x Hx.
      apply Hall. right. rewrite HL. exact Hx.
Qed.

Lemma insert_then_remove_witness :
  exists st1 st2,
    insert_to_free_list Run.skipped 4440 = Ok st1 /\ remove_from_free_list st1 4440 = Ok st2 /\
    same_shape Run.skipped st2 /\ well_linked st2 (Run.lists_of Run.skipped) /\
    (forall q, sep (get_listp Run.skipped 208) q ->
               Forall (fun x => sep x q /\ sep (x + 4) q)
                      (4440 :: Run.lists_of Run.skipped (class_of 208)) ->
               GET st2 q = GET Run.skipped q).
Proof.
  apply (insert_then_remove Run.skipped (Run.lists_of Run.skipped) 4440 208).
  - check_lists.
  - check_props.
  - vm_compute. reflexivity.
  - vm_compute. reflexivity.
  - check_fresh.
Defined.

Lemma wl_size (st : heap) (lists : Z -> list Z) (k n : Z) :
  well_linked st lists -> 0 <= k < CLASS_CNT -> In n (lists k) ->
  exists sz, GET_SIZE st (HDRP n) = Ok sz /\ class_of sz = k.
Proof.
  intros [Hcl _] Hk Hn. destruct (Hcl k Hk) as (_ & _ & (ss & Hss & _ & Hin) & _).
  apply in_split in Hn as (l1 & l2 & E). rewrite E in Hss.
  destruct (sizes_split _ _ _ _ _ Hss) as (ss1 & sx & ss2 & -> & Hsx & _).
  exists sx. split; [exact Hsx |].
  apply Forall_app in Hin as [_ Hin]. apply List.Forall_cons_iff in Hin as [Hc _]. exact Hc.
Qed.

(** Any listed block can be removed, and the lists stay well formed; a word
    that is no head cell and no link field of another listed block is not
    written. *)
Lemma wl_unlink (st : heap) (lists : Z -> list Z) (k n : Z) :
  well_linked st lists -> 0 <= k < CLASS_CNT -> In n (lists k) ->
  exists st' L1 L2,
    lists k = L1 ++ n :: L2 /\
    remove_from_free_list st n = Ok st' /\ same_shape st st' /\
    well_linked st' (unlinked lists k L1 L2) /\
    (forall q, off_links st (unlinked lists k L1 L2) q -> GET st' q = GET st q).
Proof.
  intros Hwl Hk Hn. destruct (wl_size st lists k n Hwl Hk Hn) as (sz & Hsz & <-).
  apply in_split in Hn as (L1 & L2 & E).
  destruct (wl_remove st lists n sz L1 L2 Hwl Hsz E) as (st' & Hrem & Hsh & Hwl' & Hframe).
  exists st', L1, L2. split; [exact E |]. split; [exact Hrem |]. split; [exact Hsh |].
  split; [exact Hwl' |]. intros q Hq. destruct (Hq (class_of sz) Hk) as [Hh Hl].
  apply Hframe; [exact Hh |]. unfold unlinked in Hl. rewrite Z.eqb_refl in Hl. exact Hl.
Qed.

(** The header of a listed block is no head cell and no link field. *)
Lemma hdr_off_links (st : heap) (lists lists' : Z -> list Z) (k y : Z) :
  well_linked st lists -> 0 <= k < CLASS_CNT -> In y (lists k) ->
  (forall j x, 0 <= j < CLASS_CNT -> In x (lists' j) -> In x (lists j)) ->
  off_links st lists' (y - 4).
Proof.
  intros Hwl Hk Hy Hsub j Hj. pose proof (wl_linkable st lists k y Hwl Hk Hy) as [_ Hyl].
  pose proof (head_cell_below st j Hj). split; [unfold sep; lia |].
  apply List.Forall_forall. intros x Hx. apply Hsub in Hx; [| exact Hj].
  destruct Hwl as [Hcl Hap].
  assert (x = y \/ apart x y) as [-> | Ha].
  { destruct (Z.eq_dec j k) as [-> | Hne].
    - destruct (Hcl k Hk) as (_ & _ & _ & Hsp). apply (spaced_pairwise (lists k)); auto.
    - right. apply (Hap j k x y Hj Hk Hne Hx Hy). }
  - unfold sep. lia.
  - unfold sep, apart in *. lia.
Qed.

(** Words inside a block that holds no listed block are no head cells and no
    link fields. *)
Lemma inside_off_links (st : heap) (lists : Z -> list Z) (B S q : Z) :
  heap_listp st <= B ->
  (forall k x, 0 <= k < CLASS_CNT -> In x (lists k) -> outside B S x) ->
  B - 4 <= q -> q + 4 <= B + S ->
  off_links st lists q.
Proof.
  intros HB Hout Hq1 Hq2 k Hk. pose proof (head_cell_below st k Hk).
  split; [unfold sep; lia |]. apply List.Forall_forall. intros x Hx.
  specialize (Hout k x Hk Hx). unfold outside, sep in *. lia.
Qed.

(** Tagging a span that holds no listed block as one free block and
    inserting it: both tags say (S, free), the block is on the list of its
    class, the lists are well formed, and nothing outside the span is written
    but head cells and link fields. *)
Lemma wl_release (st : heap) (lists : Z -> list Z) (B S : Z) :
  well_linked st lists -> linkable st B -> in_heap st (B - 4) S = true ->
  16 <= S < 2 ^ 32 -> S mod 8 = 0 ->
  (forall k x, 0 <= k < CLASS_CNT -> In x (lists k) -> outside B S x) ->
  exists st1 st2 st' L1 L2,
    PUT st (B - 4) (PACK S 0) = Ok st1 /\ GET_SIZE st1 (B - 4) = Ok S /\
    PUT st1 (B + S - 8) (PACK S 0) = Ok st2 /\
    insert_to_free_list st2 B = Ok st' /\ same_shape st st' /\
    lists (class_of S) = L1 ++ L2 /\
    well_linked st' (linked lists (class_of S) L1 B L2) /\
    GET st' (B - 4) = Ok (PACK S 0) /\ GET st' (B + S - 8) = Ok (PACK S 0) /\
    (forall q, q + 4 <= B - 4 \/ B + S - 4 <= q -> off_links st lists q ->
               GET st' q = GET st q).
Proof.
  intros Hwl HB Hin HS Hm Hout. pose proof HB as [_ HBl].
  rewrite in_heap_spec in Hin.
  assert (0 <= S < 2 ^ 32) as HS0 by lia.
  destruct (PUT_ok st (B - 4) (PACK S 0)) as [st1 H1]; [apply in_heap_spec; lia |].
  pose proof (PUT_shape _ _ _ _ H1) as Hsh1.
  destruct (GET_SIZE_PUT st st1 (B - 4) S 0 H1 HS0 Hm ltac:(lia)) as (Hg1 & Hs1 & _).
  destruct (PUT_ok st1 (B + S - 8) (PACK S 0)) as [st2 H2].
  { rewrite (same_shape_in_heap _ _ _ _ Hsh1). apply in_heap_spec. lia. }
  pose proof (PUT_shape _ _ _ _ H2) as Hsh2.
  destruct (GET_SIZE_PUT st1 st2 (B + S - 8) S 0 H2 HS0 Hm ltac:(lia)) as (Hg2 & _ & _).
  pose proof (same_shape_trans _ _ _ Hsh1 Hsh2) as Hsh12.
  assert (forall q, sep (B - 4) q -> sep (B + S - 8) q -> GET st2 q = GET st q) as Htag.
  { intros q Ha Hb. rewrite (GET_PUT_ne _ _ _ _ _ H2 Hb). apply (GET_PUT_ne _ _ _ _ _ H1 Ha). }
  assert (GET st2 (B - 4) = Ok (PACK S 0)) as Hh2.
  { rewrite (GET_PUT_ne _ _ _ _ _ H2); [exact Hg1 | unfold sep; lia]. }
  assert (well_linked st2 lists) as Hwl2.
  { apply (wl_frame st st2 lists Hwl Hsh12).
    - intros k Hk. pose proof (head_cell_below st k Hk). apply Htag; unfold sep; lia.
    - intros k y Hk Hy q Hq. specialize (Hout k y Hk Hy).
      apply Htag; unfold sep, outside in *; lia. }
  assert (GET_SIZE st2 (HDRP B) = Ok S) as Hsz2.
  { unfold HDRP, WSIZE. rewrite <- Hs1. apply GET_SIZE_frame.
    apply (GET_PUT_ne _ _ _ _ _ H2). unfold sep. lia. }
  destruct (wl_insert st2 lists B S Hwl2) as (st' & L1 & L2 & Hins & Hsh' & HL & Hwl' & Hframe).
  { eapply same_shape_linkable; eauto. }
  { rewrite (same_shape_in_heap _ _ _ _ Hsh12). apply in_heap_spec. lia. }
  { exact Hsz2. }
  { intros k x Hk Hx. specialize (Hout k x Hk Hx). unfold outside, apart in *. lia. }
  assert (forall q, (q + 4 <= B \/ B + 8 <= q) -> off_links st lists q ->
                    GET st' q = GET st2 q) as Hfr.
  { intros q Hq Hoff. assert (0 <= class_of S < CLASS_CNT) as Hc by apply class_of_range.
    destruct (Hoff _ Hc) as [Hh Hl]. apply Hframe.
    - unfold get_listp. rewrite (same_shape_head_cell _ _ _ Hsh12). exact Hh.
    - constructor; [unfold sep; lia | exact Hl]. }
  exists st1, st2, st', L1, L2.
  split; [exact H1 |]. split; [exact Hs1 |]. split; [exact H2 |]. split; [exact Hins |].
  split; [eapply same_shape_trans; eauto |]. split; [exact HL |]. split; [exact Hwl' |].
  split; [| split].
  - rewrite <- Hh2. apply Hfr; [lia |].
    apply (inside_off_links st lists B S); auto; lia.
  - rewrite <- Hg2. apply Hfr; [lia |].
    apply (inside_off_links st lists B S); auto; lia.
  - intros q Hq Hoff. rewrite (Hfr q ltac:(lia) Hoff). apply Htag; unfold sep; lia.
Qed.

Lemma bind_ok {A B : Type} (a : A) (f : A -> res B) : Ok a ≫= f = f a.
Proof. reflexivity. Qed.

Lemma unlinked_mem (st : heap) (lists : Z -> list Z) (c bp : Z) (L1 L2 : list Z) :
  well_linked st lists -> 0 <= c < CLASS_CNT -> lists c = L1 ++ bp :: L2 ->
  forall k x, 0 <= k < CLASS_CNT ->
              (In x (unlinked lists c L1 L2 k) <-> In x (lists k) /\ x <> bp).
Proof.
  intros [Hcl Hap] Hc E k x Hk.
  assert (In bp (lists c)) as Hbp by (rewrite E; apply in_or_app; right; left; reflexivity).
  split.
  - intros Hx. pose proof (unlinked_in lists c k x bp L1 L2 E Hx) as Hx'.
    split; [exact Hx' |]. unfold unlinked in Hx. destruct (Z.eqb_spec k c) as [-> | Hkc].
    + destruct (Hcl c Hc) as (_ & _ & _ & Hsp). rewrite E in Hsp.
      apply spaced_last in Hsp. rewrite List.Forall_forall in Hsp.
      specialize (Hsp x Hx). unfold apart in Hsp. lia.
    + pose proof (Hap k c x bp Hk Hc Hkc Hx' Hbp) as Ha. unfold apart in Ha. lia.
  - intros [Hx Hne]. apply (unlinked_iff lists c k x bp L1 L2 E Hne), Hx.
Qed.

Lemma linked_mem (lists : Z -> list Z) (c bp : Z) (L1 L2 : list Z) :
  lists c = L1 ++ L2 ->
  forall k x, In x (linked lists c L1 bp L2 k) <-> In x (lists k) \/ (x = bp /\ k = c).
Proof.
  intros E k x. unfold linked. destruct (Z.eqb_spec k c) as [-> | Hkc].
  - rewrite E, !in_app_iff. simpl. intuition.
  - intuition congruence.
Qed.

Lemma off_links_sub (st st' : heap) (lists lists' : Z -> list Z) (q : Z) :
  same_shape st st' ->
  (forall k x, 0 <= k < CLASS_CNT -> In x (lists' k) -> In x (lists k)) ->
  off_links st lists q -> off_links st' lists' q.
Proof.
  intros Hsh Hsub Hoff k Hk. destruct (Hoff k Hk) as [Hh Hl].
  rewrite (same_shape_head_cell _ _ _ Hsh). split; [exact Hh |].
  rewrite List.Forall_forall in *. intros x Hx. apply Hl, (Hsub k x Hk Hx).
Qed.

(** Case 2 of [coalesce], the next block free: both blocks leave their
    lists and come back as one block of the summed size. *)
Lemma coalesce_case2 (st : heap) (lists : Z -> list Z) (bp s1 s2 ps pa : Z) :
  well_linked st lists ->
  GET_SIZE st (HDRP bp) = Ok s1 -> 16 <= s1 -> In bp (lists (class_of s1)) ->
  GET_SIZE st (bp - 8) = Ok ps -> GET_ALLOC st (HDRP (bp - ps)) = Ok pa -> pa <> 0 ->
  GET_SIZE st (HDRP (bp + s1)) = Ok s2 -> 16 <= s2 ->
  GET_ALLOC st (HDRP (bp + s1)) = Ok 0 -> In (bp + s1) (lists (class_of s2)) ->
  s1 + s2 < 2 ^ 32 -> in_heap st (bp - 4) (s1 + s2) = true ->
  (forall k x, 0 <= k < CLASS_CNT -> In x (lists k) ->
               x = bp \/ x = bp + s1 \/ outside bp (s1 + s2) x) ->
  exists st' lists',
    coalesce st bp = Ok (bp, st') /\ same_shape st st' /\ well_linked st' lists' /\
    GET st' (HDRP bp) = Ok (PACK (s1 + s2) 0) /\
    GET st' (bp + (s1 + s2) - 8) = Ok (PACK (s1 + s2) 0) /\
    (forall k x, 0 <= k < CLASS_CNT ->
                 (In x (lists' k) <->
                  (In x (lists k) /\ x <> bp /\ x <> bp + s1) \/
                  (x = bp /\ k = class_of (s1 + s2)))) /\
    (forall q, q + 4 <= bp - 4 \/ bp + (s1 + s2) - 4 <= q -> off_links st lists q ->
               GET st' q = GET st q).
Proof.
  intros Hwl Hs1 H16 Hbp Hps Hpa Hpa0 Hs2 H16' Hna Hn Hsum Hin Hout.
  destruct (GET_SIZE_range _ _ _ Hs1) as [_ Hm1].
  destruct (GET_SIZE_range _ _ _ Hs2) as [_ Hm2].
  set (n := bp + s1) in *. set (S := s1 + s2) in *.
  pose proof (class_of_range s1) as Hc1. pose proof (class_of_range s2) as Hc2.
  (* bp leaves its list *)
  destruct (wl_unlink st lists _ bp Hwl Hc1 Hbp)
    as (st1 & L1 & L2 & E1 & Hrem1 & Hsh1 & Hwl1 & Hfr1).
  set (lists1 := unlinked lists (class_of s1) L1 L2) in *.
  pose proof (unlinked_mem st lists _ bp L1 L2 Hwl Hc1 E1) as Hmem1. fold lists1 in Hmem1.
  assert (forall k x, 0 <= k < CLASS_CNT -> In x (lists1 k) -> In x (lists k)) as Hsub1
    by (intros k x Hk Hx; apply (Hmem1 k x Hk), Hx).
  (* the next block leaves its list *)
  assert (In n (lists1 (class_of s2))) as Hn1
    by (apply (Hmem1 _ n Hc2); split; [exact Hn | unfold n; lia]).
  destruct (wl_unlink st1 lists1 _ n Hwl1 Hc2 Hn1)
    as (st2 & L1' & L2' & E2 & Hrem2 & Hsh2 & Hwl2 & Hfr2).
  set (lists2 := unlinked lists1 (class_of s2) L1' L2') in *.
  pose proof (unlinked_mem st1 lists1 _ n L1' L2' Hwl1 Hc2 E2) as Hmem2. fold lists2 in Hmem2.
  assert (forall k x, 0 <= k < CLASS_CNT -> In x (lists2 k) -> In x (lists k)) as Hsub2
    by (intros k x Hk Hx; apply Hsub1, (Hmem2 k x Hk), Hx; exact Hk).
  pose proof (same_shape_trans _ _ _ Hsh1 Hsh2) as Hsh12.
  assert (forall q, off_links st lists1 q -> off_links st lists2 q -> GET st2 q = GET st q)
    as Hfr12.
  { intros q Ha Hb. rewrite Hfr2; [apply Hfr1, Ha |].
    apply (off_links_sub st st1 lists2 lists2 q Hsh1); auto. }
  assert (forall k y, 0 <= k < CLASS_CNT -> In y (lists k) -> GET st2 (y - 4) = GET st (y - 4))
    as Hhdr.
  { intros k y Hk Hy. apply Hfr12; apply (hdr_off_links st lists _ k y Hwl Hk Hy); assumption. }
  assert (GET_SIZE st2 (bp - 4) = Ok s1) as Hs1'
    by (rewrite <- Hs1; apply GET_SIZE_frame, (Hhdr _ bp Hc1 Hbp)).
  assert (GET_SIZE st2 (HDRP n) = Ok s2) as Hs2'
    by (rewrite <- Hs2; apply GET_SIZE_frame, (Hhdr _ n Hc2 Hn)).
  (* the merged block enters the list of its class *)
  destruct (wl_release st2 lists2 bp S Hwl2)
    as (st3 & st4 & st5 & M1 & M2 & H3 & Hs3 & H4 & Hins & Hsh5 & EM & Hwl5 & Hh5 & Hf5 & Hfr5).
  { apply (same_shape_linkable st st2 bp Hsh12), (wl_linkable st lists _ bp Hwl Hc1 Hbp). }
  { rewrite (same_shape_in_heap _ _ _ _ Hsh12). exact Hin. }
  { unfold S. lia. }
  { unfold S. change (2 ^ 32) with 4294967296 in *. Z.div_mod_to_equations. lia. }
  { intros k x Hk Hx. apply (Hmem2 k x Hk) in Hx as [Hx Hxn].
    apply (Hmem1 k x Hk) in Hx as [Hx Hxb].
    destruct (Hout k x Hk Hx) as [-> | [-> | Ho]]; [contradiction | contradiction | exact Ho]. }
  exists st5, (linked lists2 (class_of S) M1 bp M2).
  split; [| split; [eapply same_shape_trans; eauto | split; [exact Hwl5 |]]].
  - assert (PREV_BLKP st bp = Ok (bp - ps)) as HP
      by (unfold PREV_BLKP, DSIZE; rewrite Hps; reflexivity).
    assert (NEXT_BLKP st bp = Ok n) as HN
      by (unfold NEXT_BLKP; change (bp - WSIZE) with (HDRP bp); rewrite Hs1; reflexivity).
    assert (NEXT_BLKP st2 bp = Ok n) as HN2
      by (unfold NEXT_BLKP, WSIZE; rewrite Hs1'; reflexivity).
    assert (FTRP st3 bp = Ok (bp + S - 8)) as HF
      by (unfold FTRP, HDRP, WSIZE, DSIZE; rewrite Hs3; reflexivity).
    unfold coalesce. rewrite HP, bind_ok, Hpa, bind_ok, HN, bind_ok, Hna, bind_ok, Hs1, bind_ok.
    destruct (Z.eqb_spec pa 0); [contradiction |]. cbn [negb andb Z.eqb].
    rewrite Hrem1, bind_ok, Hrem2, bind_ok, HN2, bind_ok, Hs2', bind_ok.
    rewrite (Adjust.size_t_small (s1 + s2)) by (destruct (GET_SIZE_range _ _ _ Hs1); lia).
    fold S. change (HDRP bp) with (bp - 4).
    rewrite H3, bind_ok, HF, bind_ok, H4, bind_ok, Hins, bind_ok. reflexivity.
  - split; [exact Hh5 |]. split; [exact Hf5 |]. split.
    + intros k x Hk. rewrite (linked_mem lists2 _ bp M1 M2 EM k x).
      rewrite (Hmem2 k x Hk), (Hmem1 k x Hk). fold n. tauto.
    + intros q Hq Hoff. rewrite Hfr5; [| exact Hq |].
      * apply Hfr12;
          [apply (off_links_sub st st lists lists1 q (same_shape_refl st)); auto
          | apply (off_links_sub st st lists lists2 q (same_shape_refl st)); auto].
      * apply (off_links_sub st st2 lists lists2 q Hsh12); auto.
Qed.

(** Words of a span whose only listed blocks are those of [nodes], away
    from the link fields of these, are no head cells and no link fields. *)
Lemma span_off_links (st : heap) (lists : Z -> list Z) (nodes : list Z) (B S q : Z) :
  heap_listp st <= B ->
  (forall k x, 0 <= k < CLASS_CNT -> In x (lists k) -> In x nodes \/ outside B S x) ->
  B - 4 <= q -> q + 4 <= B + S ->
  Forall (fun x => sep x q /\ sep (x + 4) q) nodes ->
  off_links st lists q.
Proof.
  intros HB Hout Hq1 Hq2 Hn k Hk. pose proof (head_cell_below st k Hk).
  split; [unfold sep; lia |]. apply List.Forall_forall. intros x Hx.
  rewrite List.Forall_forall in Hn.
  destruct (Hout k x Hk Hx) as [Hin | Ho]; [apply Hn, Hin |].
  unfold outside, sep in *. lia.
Qed.

(** Case 3 of [coalesce], the previous block free: both blocks leave their
    lists and come back as one block of the summed size, at the previous
    block's address. *)
Lemma coalesce_case3 (st : heap) (lists : Z -> list Z) (bp s1 ps na : Z) :
  well_linked st lists ->
  GET_SIZE st (HDRP bp) = Ok s1 -> 16 <= s1 -> In bp (lists (class_of s1)) ->
  GET_SIZE st (bp - 8) = Ok ps -> 16 <= ps ->
  GET_SIZE st (HDRP (bp - ps)) = Ok ps -> GET_ALLOC st (HDRP (bp - ps)) = Ok 0 ->
  In (bp - ps) (lists (class_of ps)) ->
  GET_ALLOC st (HDRP (bp + s1)) = Ok na -> na <> 0 ->
  ps + s1 < 2 ^ 32 -> in_heap st (bp - ps - 4) (ps + s1) = true ->
  (forall k x, 0 <= k < CLASS_CNT -> In x (lists k) ->
               x = bp \/ x = bp - ps \/ outside (bp - ps) (ps + s1) x) ->
  exists st' lists',
    coalesce st bp = Ok (bp - ps, st') /\ same_shape st st' /\ well_linked st' lists' /\
    GET st' (HDRP (bp - ps)) = Ok (PACK (ps + s1) 0) /\
    GET st' (bp + s1 - 8) = Ok (PACK (ps + s1) 0) /\
    (forall k x, 0 <= k < CLASS_CNT ->
                 (In x (lists' k) <->
                  (In x (lists k) /\ x <> bp /\ x <> bp - ps) \/
                  (x = bp - ps /\ k = class_of (ps + s1)))) /\
    (forall q, q + 4 <= bp - ps - 4 \/ bp + s1 - 4 <= q -> off_links st lists q ->
               GET st' q = GET st q).
Proof.
  intros Hwl Hs1 H16 Hbp Hps H16' Hsp Hpa Hp Hna Hna0 Hsum Hin Hout.
  destruct (GET_SIZE_range _ _ _ Hs1) as [Hr1 Hm1].
  destruct (GET_SIZE_range _ _ _ Hps) as [_ Hm2].
  set (p := bp - ps) in *. set (S := ps + s1) in *.
  pose proof (class_of_range s1) as Hc1. pose proof (class_of_range ps) as Hc2.
  pose proof (wl_linkable st lists _ p Hwl Hc2 Hp) as Hpl.
  (* bp leaves its list *)
  destruct (wl_unlink st lists _ bp Hwl Hc1 Hbp)
    as (st1 & L1 & L2 & E1 & Hrem1 & Hsh1 & Hwl1 & Hfr1).
  set (lists1 := unlinked lists (class_of s1) L1 L2) in *.
  pose proof (unlinked_mem st lists _ bp L1 L2 Hwl Hc1 E1) as Hmem1. fold lists1 in Hmem1.
  assert (forall k x, 0 <= k < CLASS_CNT -> In x (lists1 k) -> In x (lists k)) as Hsub1
    by (intros k x Hk Hx; apply (Hmem1 k x Hk), Hx).
  (* the previous block leaves its list *)
  assert (In p (lists1 (class_of ps))) as Hp1
    by (apply (Hmem1 _ p Hc2); split; [exact Hp | unfold p; lia]).
  assert (GET_SIZE st1 (HDRP p) = Ok ps) as Hsp1.
  { rewrite <- Hsp. apply GET_SIZE_frame, Hfr1.
    apply (hdr_off_links st lists _ _ p Hwl Hc2 Hp); assumption. }
  destruct (wl_unlink st1 lists1 _ p Hwl1 Hc2 Hp1)
    as (st2 & L1' & L2' & E2 & Hrem2 & Hsh2 & Hwl2 & Hfr2).
  set (lists2 := unlinked lists1 (class_of ps) L1' L2') in *.
  pose proof (unlinked_mem st1 lists1 _ p L1' L2' Hwl1 Hc2 E2) as Hmem2. fold lists2 in Hmem2.
  assert (forall k x, 0 <= k < CLASS_CNT -> In x (lists2 k) -> In x (lists k)) as Hsub2
    by (intros k x Hk Hx; apply Hsub1, (Hmem2 k x Hk), Hx; exact Hk).
  pose proof (same_shape_trans _ _ _ Hsh1 Hsh2) as Hsh12.
  assert (forall q, off_links st lists q -> GET st2 q = GET st q) as Hfr12.
  { intros q Hq. rewrite Hfr2; [apply Hfr1 |].
    - apply (off_links_sub st st lists lists1 q (same_shape_refl st)); auto.
    - apply (off_links_sub st st1 lists lists2 q Hsh1); auto. }
  assert (forall k y, 0 <= k < CLASS_CNT -> In y (lists k) -> off_links st lists (y - 4))
    as Hhdr by (intros k y Hk Hy; apply (hdr_off_links st lists lists k y Hwl Hk Hy); auto).
  assert (off_links st lists (bp - 8)) as Hfoot.
  { apply (span_off_links st lists [bp; p] p S); [destruct Hpl; lia | | unfold p; lia | unfold p, S; lia |].
    - intros k x Hk Hx. destruct (Hout k x Hk Hx) as [-> | [-> | Ho]]; simpl; auto.
    - repeat constructor; unfold sep, p; lia. }
  assert (GET_SIZE st2 (bp - 4) = Ok s1) as Hs1'
    by (rewrite <- Hs1; apply GET_SIZE_frame, Hfr12, (Hhdr _ bp Hc1 Hbp)).
  assert (GET_SIZE st2 (HDRP p) = Ok ps) as Hsp2
    by (rewrite <- Hsp; apply GET_SIZE_frame, Hfr12, (Hhdr _ p Hc2 Hp)).
  assert (GET_SIZE st2 (bp - 8) = Ok ps) as Hps2
    by (rewrite <- Hps; apply GET_SIZE_frame, Hfr12, Hfoot).
  (* the merged block enters the list of its class *)
  destruct (wl_release st2 lists2 p S Hwl2)
    as (st3 & st4 & st5 & M1 & M2 & H3 & Hs3 & H4 & Hins & Hsh5 & EM & Hwl5 & Hh5 & Hf5 & Hfr5).
  { apply (same_shape_linkable st st2 p Hsh12), Hpl. }
  { rewrite (same_shape_in_heap _ _ _ _ Hsh12). exact Hin. }
  { unfold S. lia. }
  { unfold S. change (2 ^ 32) with 4294967296 in *. Z.div_mod_to_equations. lia. }
  { intros k x Hk Hx. apply (Hmem2 k x Hk) in Hx as [Hx Hxn].
    apply (Hmem1 k x Hk) in Hx as [Hx Hxb].
    destruct (Hout k x Hk Hx) as [-> | [-> | Ho]]; [contradiction | contradiction | exact Ho]. }
  replace (p + S - 8) with (bp + s1 - 8) in * by (unfold p, S; lia).
  exists st5, (linked lists2 (class_of S) M1 p M2).
  split; [| split; [eapply same_shape_trans; eauto | split; [exact Hwl5 |]]].
  - assert (PREV_BLKP st bp = Ok p) as HP
      by (unfold PREV_BLKP, DSIZE; rewrite Hps; reflexivity).
    assert (NEXT_BLKP st bp = Ok (bp + s1)) as HN
      by (unfold NEXT_BLKP; change (bp - WSIZE) with (HDRP bp); rewrite Hs1; reflexivity).
    assert (PREV_BLKP st2 bp = Ok p) as HP2
      by (unfold PREV_BLKP, DSIZE; rewrite Hps2; reflexivity).
    assert (FTRP st3 bp = Ok (bp + s1 - 8)) as HF.
    { unfold FTRP, HDRP, WSIZE, DSIZE.
      rewrite (GET_SIZE_frame st2 st3 (bp - 4)), Hs1'; [reflexivity |].
      apply (GET_PUT_ne _ _ _ _ _ H3). unfold sep, p. lia. }
    assert (PREV_BLKP st4 bp = Ok p) as HP4.
    { unfold PREV_BLKP, DSIZE.
      rewrite (GET_SIZE_frame st2 st4 (bp - 8)), Hps2; [reflexivity |].
      rewrite (GET_PUT_ne _ _ _ _ _ H4) by (unfold sep; lia).
      apply (GET_PUT_ne _ _ _ _ _ H3). unfold sep, p. lia. }
    unfold coalesce. rewrite HP, bind_ok, Hpa, bind_ok, HN, bind_ok, Hna, bind_ok, Hs1, bind_ok.
    destruct (Z.eqb_spec na 0); [contradiction |]. cbn [negb andb Z.eqb].
    rewrite Hrem1, bind_ok, Hrem2, bind_ok, HP2, bind_ok, Hsp2, bind_ok.
    rewrite (Adjust.size_t_small (s1 + ps)) by lia.
    replace (s1 + ps) with S by (unfold S; lia). cbv zeta.
    rewrite bind_ok. change (HDRP p) with (p - 4).
    rewrite H3, bind_ok, HF, bind_ok, H4, bind_ok, HP4, bind_ok, Hins, bind_ok. reflexivity.
  - split; [exact Hh5 |]. split; [exact Hf5 |]. split.
    + intros k x Hk. rewrite (linked_mem lists2 _ p M1 M2 EM k x).
      rewrite (Hmem2 k x Hk), (Hmem1 k x Hk). tauto.
    + intros q Hq Hoff. rewrite Hfr5; [apply Hfr12, Hoff | unfold p, S in *; lia |].
      apply (off_links_sub st st2 lists lists2 q Hsh12); auto.
Qed.

(** Case 4 of [coalesce], both neighbours free: the three blocks leave
    their lists and come back as one block of the summed size, at the
    previous block's address. *)
Lemma coalesce_case4 (st : heap) (lists : Z -> list Z) (bp s1 ps s2 : Z) :
  well_linked st lists ->
  GET_SIZE st (HDRP bp) = Ok s1 -> 16 <= s1 -> In bp (lists (class_of s1)) ->
  GET_SIZE st (bp - 8) = Ok ps -> 16 <= ps ->
  GET_SIZE st (HDRP (bp - ps)) = Ok ps -> GET_ALLOC st (HDRP (bp - ps)) = Ok 0 ->
  In (bp - ps) (lists (class_of ps)) ->
  GET_SIZE st (HDRP (bp + s1)) = Ok s2 -> 16 <= s2 ->
  GET_ALLOC st (HDRP (bp + s1)) = Ok 0 -> In (bp + s1) (lists (class_of s2)) ->
  ps + s1 + s2 < 2 ^ 32 -> in_heap st (bp - ps - 4) (ps + s1 + s2) = true ->
  (forall k x, 0 <= k < CLASS_CNT -> In x (lists k) ->
               x = bp - ps \/ x = bp \/ x = bp + s1 \/ outside (bp - ps) (ps + s1 + s2) x) ->
  exists st' lists',
    coalesce st bp = Ok (bp - ps, st') /\ same_shape st st' /\ well_linked st' lists' /\
    GET st' (HDRP (bp - ps)) = Ok (PACK (ps + s1 + s2) 0) /\
    GET st' (bp + s1 + s2 - 8) = Ok (PACK (ps + s1 + s2) 0) /\
    (forall k x, 0 <= k < CLASS_CNT ->
                 (In x (lists' k) <->
                  (In x (lists k) /\ x <> bp - ps /\ x <> bp /\ x <> bp + s1) \/
                  (x = bp - ps /\ k = class_of (ps + s1 + s2)))) /\
    (forall q, q + 4 <= bp - ps - 4 \/ bp + s1 + s2 - 4 <= q -> off_links st lists q ->
               GET st' q = GET st q).
Proof.
  intros Hwl Hs1 H16 Hbp Hps H16' Hsp Hpa Hp Hs2 H16'' Hna Hn Hsum Hin Hout.
  destruct (GET_SIZE_range _ _ _ Hs1) as [Hr1 Hm1].
  destruct (GET_SIZE_range _ _ _ Hps) as [_ Hm2].
  destruct (GET_SIZE_range _ _ _ Hs2) as [_ Hm3].
  set (p := bp - ps) in *. set (n := bp + s1) in *. set (S := ps + s1 + s2) in *.
  pose proof (class_of_range s1) as Hc1. pose proof (class_of_range ps) as Hc2.
  pose proof (class_of_range s2) as Hc3.
  pose proof (wl_linkable st lists _ p Hwl Hc2 Hp) as Hpl.
  assert (forall k y, 0 <= k < CLASS_CNT -> In y (lists k) -> off_links st lists (y - 4))
    as Hhdr by (intros k y Hk Hy; apply (hdr_off_links st lists lists k y Hwl Hk Hy); auto).
  (* the previous block leaves its list *)
  destruct (wl_unlink st lists _ p Hwl Hc2 Hp)
    as (st1 & L1 & L2 & E1 & Hrem1 & Hsh1 & Hwl1 & Hfr1).
  set (lists1 := unlinked lists (class_of ps) L1 L2) in *.
  pose proof (unlinked_mem st lists _ p L1 L2 Hwl Hc2 E1) as Hmem1. fold lists1 in Hmem1.
  assert (forall k x, 0 <= k < CLASS_CNT -> In x (lists1 k) -> In x (lists k)) as Hsub1
    by (intros k x Hk Hx; apply (Hmem1 k x Hk), Hx).
  assert (forall q, off_links st lists q -> GET st1 q = GET st q) as Hfr01.
  { intros q Hq. apply Hfr1.
    apply (off_links_sub st st lists lists1 q (same_shape_refl st)); auto. }
  (* bp leaves its list *)
  assert (In bp (lists1 (class_of s1))) as Hbp1
    by (apply (Hmem1 _ bp Hc1); split; [exact Hbp | unfold p; lia]).
  destruct (wl_unlink st1 lists1 _ bp Hwl1 Hc1 Hbp1)
    as (st2 & L1' & L2' & E2 & Hrem2 & Hsh2 & Hwl2 & Hfr2).
  set (lists2 := unlinked lists1 (class_of s1) L1' L2') in *.
  pose proof (unlinked_mem st1 lists1 _ bp L1' L2' Hwl1 Hc1 E2) as Hmem2. fold lists2 in Hmem2.
  assert (forall k x, 0 <= k < CLASS_CNT -> In x (lists2 k) -> In x (lists k)) as Hsub2
    by (intros k x Hk Hx; apply Hsub1, (Hmem2 k x Hk), Hx; exact Hk).
  pose proof (same_shape_trans _ _ _ Hsh1 Hsh2) as Hsh12.
  assert (forall q, off_links st lists q -> GET st2 q = GET st q) as Hfr02.
  { intros q Hq. rewrite Hfr2; [apply Hfr01, Hq |].
    apply (off_links_sub st st1 lists lists2 q Hsh1); auto. }
  (* the next block leaves its list *)
  assert (In n (lists2 (class_of s2))) as Hn2.
  { apply (Hmem2 _ n Hc3). split; [| unfold n; lia].
    apply (Hmem1 _ n Hc3). split; [exact Hn | unfold n, p; lia]. }
  destruct (wl_unlink st2 lists2 _ n Hwl2 Hc3 Hn2)
    as (st3 & L1'' & L2'' & E3 & Hrem3 & Hsh3 & Hwl3 & Hfr3).
  set (lists3 := unlinked lists2 (class_of s2) L1'' L2'') in *.
  pose proof (unlinked_mem st2 lists2 _ n L1'' L2'' Hwl2 Hc3 E3) as Hmem3. fold lists3 in Hmem3.
  assert (forall k x, 0 <= k < CLASS_CNT -> In x (lists3 k) -> In x (lists k)) as Hsub3
    by (intros k x Hk Hx; apply Hsub2, (Hmem3 k x Hk), Hx; exact Hk).
  pose proof (same_shape_trans _ _ _ Hsh12 Hsh3) as Hsh13.
  assert (forall q, off_links st lists q -> GET st3 q = GET st q) as Hfr03.
  { intros q Hq. rewrite Hfr3; [apply Hfr02, Hq |].
    apply (off_links_sub st st2 lists lists3 q Hsh12); auto. }
  assert (off_links st lists (bp - 8)) as Hfoot.
  { apply (span_off_links st lists [p; bp; n] p S);
      [destruct Hpl; lia | | unfold p; lia | unfold p, S; lia |].
    - intros k x Hk Hx. destruct (Hout k x Hk Hx) as [-> | [-> | [-> | Ho]]]; simpl; auto.
    - repeat constructor; unfold sep, p, n; lia. }
  assert (GET_SIZE st3 (bp - 4) = Ok s1) as Hs1'
    by (rewrite <- Hs1; apply GET_SIZE_frame, Hfr03, (Hhdr _ bp Hc1 Hbp)).
  assert (GET_SIZE st3 (HDRP p) = Ok ps) as Hsp3
    by (rewrite <- Hsp; apply GET_SIZE_frame, Hfr03, (Hhdr _ p Hc2 Hp)).
  assert (GET_SIZE st3 (HDRP n) = Ok s2) as Hs2'
    by (rewrite <- Hs2; apply GET_SIZE_frame, Hfr03, (Hhdr _ n Hc3 Hn)).
  assert (GET_SIZE st3 (bp - 8) = Ok ps) as Hps3
    by (rewrite <- Hps; apply GET_SIZE_frame, Hfr03, Hfoot).
  (* the merged block enters the list of its class *)
  destruct (wl_release st3 lists3 p S Hwl3)
    as (st4 & st5 & st6 & M1 & M2 & H4 & Hs4 & H5 & Hins & Hsh6 & EM & Hwl6 & Hh6 & Hf6 & Hfr6).
  { apply (same_shape_linkable st st3 p Hsh13), Hpl. }
  { rewrite (same_shape_in_heap _ _ _ _ Hsh13). exact Hin. }
  { unfold S. lia. }
  { unfold S. change (2 ^ 32) with 4294967296 in *. Z.div_mod_to_equations. lia. }
  { intros k x Hk Hx. apply (Hmem3 k x Hk) in Hx as [Hx Hxn].
    apply (Hmem2 k x Hk) in Hx as [Hx Hxb]. apply (Hmem1 k x Hk) in Hx as [Hx Hxp].
    destruct (Hout k x Hk Hx) as [-> | [-> | [-> | Ho]]];
      [contradiction | contradiction | contradiction | exact Ho]. }
  replace (p + S - 8) with (bp + s1 + s2 - 8) in * by (unfold p, S; lia).
  exists st6, (linked lists3 (class_of S) M1 p M2).
  split; [| split; [eapply same_shape_trans; eauto | split; [exact Hwl6 |]]].
  - assert (PREV_BLKP st bp = Ok p) as HP
      by (unfold PREV_BLKP, DSIZE; rewrite Hps; reflexivity).
    assert (NEXT_BLKP st bp = Ok n) as HN
      by (unfold NEXT_BLKP; change (bp - WSIZE) with (HDRP bp); rewrite Hs1; reflexivity).
    assert (PREV_BLKP st3 bp = Ok p) as HP3
      by (unfold PREV_BLKP, DSIZE; rewrite Hps3; reflexivity).
    assert (NEXT_BLKP st3 bp = Ok n) as HN3
      by (unfold NEXT_BLKP, WSIZE; rewrite Hs1'; reflexivity).
    assert (NEXT_BLKP st4 bp = Ok n) as HN4.
    { unfold NEXT_BLKP, WSIZE.
      rewrite (GET_SIZE_frame st3 st4 (bp - 4)), Hs1'; [reflexivity |].
      apply (GET_PUT_ne _ _ _ _ _ H4). unfold sep, p. lia. }
    assert (FTRP st4 n = Ok (bp + s1 + s2 - 8)) as HF.
    { unfold FTRP, DSIZE.
      rewrite (GET_SIZE_frame st3 st4 (HDRP n)), Hs2'; [f_equal; unfold n; lia |].
      apply (GET_PUT_ne _ _ _ _ _ H4). unfold sep, HDRP, WSIZE, p, n. lia. }
    assert (PREV_BLKP st5 bp = Ok p) as HP5.
    { unfold PREV_BLKP, DSIZE.
      rewrite (GET_SIZE_frame st3 st5 (bp - 8)), Hps3; [reflexivity |].
      rewrite (GET_PUT_ne _ _ _ _ _ H5) by (unfold sep; lia).
      apply (GET_PUT_ne _ _ _ _ _ H4). unfold sep, p. lia. }
    unfold coalesce. rewrite HP, bind_ok, Hpa, bind_ok, HN, bind_ok, Hna, bind_ok, Hs1, bind_ok.
    cbn [negb andb Z.eqb].
    rewrite Hrem1, bind_ok, Hrem2, bind_ok, Hrem3, bind_ok.
    rewrite HP3, bind_ok, Hsp3, bind_ok, HN3, bind_ok, Hs2', bind_ok.
    rewrite (MemFacts.uint_small (ps + s2)) by lia.
    rewrite (Adjust.size_t_small (s1 + (ps + s2))) by lia.
    replace (s1 + (ps + s2)) with S by (unfold S; lia). cbv zeta.
    rewrite bind_ok. change (HDRP p) with (p - 4).
    rewrite H4, bind_ok, HN4, bind_ok, HF, bind_ok, H5, bind_ok, HP5, bind_ok, Hins, bind_ok.
    reflexivity.
  - split; [exact Hh6 |]. split; [exact Hf6 |]. split.
    + intros k x Hk. rewrite (linked_mem lists3 _ p M1 M2 EM k x).
      rewrite (Hmem3 k x Hk), (Hmem2 k x Hk), (Hmem1 k x Hk). tauto.
    + intros q Hq Hoff. rewrite Hfr6; [apply Hfr03, Hoff | unfold p, S in *; lia |].
      apply (off_links_sub st st3 lists lists3 q Hsh13); auto.
Qed.

End Linked.

(** ** Coalescing *)
Module Coalesce.
Import Mm Inv Frame MemFacts RW Search Links Writes Insert Remove Tags Place Fit Linked.

#[local] Opaque walk_fuel.

Ltac check_outside :=
  let k := fresh "k" in let x := fresh "x" in let Hk := fresh "Hk" in
  intros k x Hk;
  each_class k Hk ltac:(let Hx := fresh "Hx" in
                        intros Hx; vm_compute in Hx; unfold outside; intuition lia).

(** X13.  [coalesce] on a listed free block whose next block is free and
    listed and whose previous block is allocated: it returns the block; the
    two blocks have left their lists and the block is on the list of the
    class of the summed size; header and footer of the merged block say
    (sum, free); the fourteen lists are well formed; and no word outside the
    merged block was written but head cells and link fields. *)
Theorem coalesce_merges_next (st : heap) (lists : Z -> list Z) (bp s1 s2 ps pa : Z) :
  well_linked st lists ->
  GET_SIZE st (HDRP bp) = Ok s1 -> 16 <= s1 -> In bp (lists (class_of s1)) ->
  GET_SIZE st (bp - 8) = Ok ps -> GET_ALLOC st (HDRP (bp - ps)) = Ok pa -> pa <> 0 ->
  GET_SIZE st (HDRP (bp + s1)) = Ok s2 -> 16 <= s2 ->
  GET_ALLOC st (HDRP (bp + s1)) = Ok 0 -> In (bp + s1) (lists (class_of s2)) ->
  s1 + s2 < 2 ^ 32 -> in_heap st (bp - 4) (s1 + s2) = true ->
  (forall k x, 0 <= k < CLASS_CNT -> In x (lists k) ->
               x = bp \/ x = bp + s1 \/ outside bp (s1 + s2) x) ->
  exists st' lists',
    coalesce st bp = Ok (bp, st') /\ same_shape st st' /\ well_linked st' lists' /\
    GET st' (HDRP bp) = Ok (PACK (s1 + s2) 0) /\
    GET st' (bp + (s1 + s2) - 8) = Ok (PACK (s1 + s2) 0) /\
    (forall k x, 0 <= k < CLASS_CNT ->
                 (In x (lists' k) <->
                  (In x (lists k) /\ x <> bp /\ x <> bp + s1) \/
                  (x = bp /\ k = class_of (s1 + s2)))) /\
    (forall q, q + 4 <= bp - 4 \/ bp + (s1 + s2) - 4 <= q -> off_links st lists q ->
               GET st' q = GET st q).
Proof. apply coalesce_case2. Qed.

Lemma coalesce_merges_next_witness :
  exists st' lists',
    coalesce Run.before_next 4440 = Ok (4440, st') /\ same_shape Run.before_next st' /\
    well_linked st' lists' /\
    GET st' (HDRP 4440) = Ok (PACK (208 + 440) 0) /\
    GET st' (4440 + (208 + 440) - 8) = Ok (PACK (208 + 440) 0) /\
    (forall k x, 0 <= k < CLASS_CNT ->
                 (In x (lists' k) <->
                  (In x (Run.lists_of Run.before_next k) /\ x <> 4440 /\ x <> 4440 + 208) \/
                  (x = 4440 /\ k = class_of (208 + 440)))) /\
    (forall q, q + 4 <= 4440 - 4 \/ 4440 + (208 + 440) - 4 <= q ->
               off_links Run.before_next (Run.lists_of Run.before_next) q ->
               GET st' q = GET Run.before_next q).
Proof.
  apply (coalesce_merges_next Run.before_next (Run.lists_of Run.before_next) 4440 208 440 16 1).
  - check_lists.
  - vm_compute. reflexivity.
  - lia.
  - vm_compute. auto.
  - vm_compute. reflexivity.
  - vm_compute. reflexivity.
  - discriminate.
  - vm_compute. reflexivity.
  - lia.
  - vm_compute. reflexivity.
  - vm_compute. auto.
  - vm_compute. reflexivity.
  - vm_compute. reflexivity.
  - check_outside.
Defined.

(** X14.  [coalesce] on a listed free block whose previous block is free and
    listed and whose next block is allocated: it returns the previous block;
    the two blocks have left their lists and the previous block is on the
    list of the class of the summed size; header and footer of the merged
    block say (sum, free); the fourteen lists are well formed; and no word
    outside the merged block was written but head cells and link fields. *)
Theorem coalesce_merges_prev (st : heap) (lists : Z -> list Z) (bp s1 ps na : Z) :
  well_linked st lists ->
  GET_SIZE st (HDRP bp) = Ok s1 -> 16 <= s1 -> In bp (lists (class_of s1)) ->
  GET_SIZE st (bp - 8) = Ok ps -> 16 <= ps ->
  GET_SIZE st (HDRP (bp - ps)) = Ok ps -> GET_ALLOC st (HDRP (bp - ps)) = Ok 0 ->
  In (bp - ps) (lists (class_of ps)) ->
  GET_ALLOC st (HDRP (bp + s1)) = Ok na -> na <> 0 ->
  ps + s1 < 2 ^ 32 -> in_heap st (bp - ps - 4) (ps + s1) = true ->
  (forall k x, 0 <= k < CLASS_CNT -> In x (lists k) ->
               x = bp \/ x = bp - ps \/ outside (bp - ps) (ps + s1) x) ->
  exists st' lists',
    coalesce st bp = Ok (bp - ps, st') /\ same_shape st st' /\ well_linked st' lists' /\
    GET st' (HDRP (bp - ps)) = Ok (PACK (ps + s1) 0) /\
    GET st' (bp + s1 - 8) = Ok (PACK (ps + s1) 0) /\
    (forall k x, 0 <= k < CLASS_CNT ->
                 (In x (lists' k) <->
                  (In x (lists k) /\ x <> bp /\ x <> bp - ps) \/
                  (x = bp - ps /\ k = class_of (ps + s1)))) /\
    (forall q, q + 4 <= bp - ps - 4 \/ bp + s1 - 4 <= q -> off_links st lists q ->
               GET st' q = GET st q).
Proof. apply coalesce_case3. Qed.

Lemma coalesce_merges_prev_witness :
  exists st' lists',
    coalesce Run.before_prev 4424 = Ok (4424 - 144, st') /\ same_shape Run.before_prev st' /\
    well_linked st' lists' /\
    GET st' (HDRP (4424 - 144)) = Ok (PACK (144 + 16) 0) /\
    GET st' (4424 + 16 - 8) = Ok (PACK (144 + 16) 0) /\
    (forall k x, 0 <= k < CLASS_CNT ->
                 (In x (lists' k) <->
                  (In x (Run.lists_of Run.before_prev k) /\ x <> 4424 /\ x <> 4424 - 144) \/
                  (x = 4424 - 144 /\ k = class_of (144 + 16)))) /\
    (forall q, q + 4 <= 4424 - 144 - 4 \/ 4424 + 16 - 4 <= q ->
               off_links Run.before_prev (Run.lists_of Run.before_prev) q ->
               GET st' q = GET Run.before_prev q).
Proof.
  apply (coalesce_merges_prev Run.before_prev (Run.lists_of Run.before_prev) 4424 16 144 1).
  - check_lists.
  - vm_compute. reflexivity.
  - lia.
  - vm_compute. auto.
  - vm_compute. reflexivity.
  - lia.
  - vm_compute. reflexivity.
  - vm_compute. reflexivity.
  - vm_compute. auto.
  - vm_compute. reflexivity.
  - discriminate.
  - vm_compute. reflexivity.
  - vm_compute. reflexivity.
  - check_outside.
Defined.

(** X15.  [coalesce] on a listed free block both of whose neighbours are
    free and listed: it returns the previous block; the three blocks have
    left their lists and the previous block is on the list of the class of
    the summed size; header and footer of the merged block say (sum, free);
    the fourteen lists are well formed; and no word outside the merged block
    was written but head cells and link fields. *)
Theorem coalesce_merges_both (st : heap) (lists : Z -> list Z) (bp s1 ps s2 : Z) :
  well_linked st lists ->
  GET_SIZE st (HDRP bp) = Ok s1 -> 16 <= s1 -> In bp (lists (class_of s1)) ->
  GET_SIZE st (bp - 8) = Ok ps -> 16 <= ps ->
  GET_SIZE st (HDRP (bp - ps)) = Ok ps -> GET_ALLOC st (HDRP (bp - ps)) = Ok 0 ->
  In (bp - ps) (lists (class_of ps)) ->
  GET_SIZE st (HDRP (bp + s1)) = Ok s2 -> 16 <= s2 ->
  GET_ALLOC st (HDRP (bp + s1)) = Ok 0 -> In (bp + s1) (lists (class_of s2)) ->
  ps + s1 + s2 < 2 ^ 32 -> in_heap st (bp - ps - 4) (ps + s1 + s2) = true ->
  (forall k x, 0 <= k < CLASS_CNT -> In x (lists k) ->
               x = bp - ps \/ x = bp \/ x = bp + s1 \/ outside (bp - ps) (ps + s1 + s2) x) ->
  exists st' lists',
    coalesce st bp = Ok (bp - ps, st') /\ same_shape st st' /\ well_linked st' lists' /\
    GET st' (HDRP (bp - ps)) = Ok (PACK (ps + s1 + s2) 0) /\
    GET st' (bp + s1 + s2 - 8) = Ok (PACK (ps + s1 + s2) 0) /\
    (forall k x, 0 <= k < CLASS_CNT ->
                 (In x (lists' k) <->
                  (In x (lists k) /\ x <> bp - ps /\ x <> bp /\ x <> bp + s1) \/
                  (x = bp - ps /\ k = class_of (ps + s1 + s2)))) /\
    (forall q, q + 4 <= bp - ps - 4 \/ bp + s1 + s2 - 4 <= q -> off_links st lists q ->
               GET st' q = GET st q).
Proof. apply coalesce_case4. Qed.

Lemma coalesce_merges_both_witness :
  exists st' lists',
    coalesce Run.before_both 4424 = Ok (4424 - 144, st') /\ same_shape Run.before_both st' /\
    well_linked st' lists' /\
    GET st' (HDRP (4424 - 144)) = Ok (PACK (144 + 16 + 648) 0) /\
    GET st' (4424 + 16 + 648 - 8) = Ok (PACK (144 + 16 + 648) 0) /\
    (forall k x, 0 <= k < CLASS_CNT ->
                 (In x (lists' k) <->
                  (In x (Run.lists_of Run.before_both k) /\
                   x <> 4424 - 144 /\ x <> 4424 /\ x <> 4424 + 16) \/
                  (x = 4424 - 144 /\ k = class_of (144 + 16 + 648)))) /\
    (forall q, q + 4 <= 4424 - 144 - 4 \/ 4424 + 16 + 648 - 4 <= q ->
               off_links Run.before_both (Run.lists_of Run.before_both) q ->
               GET st' q = GET Run.before_both q).
Proof.
  apply (coalesce_merges_both Run.before_both (Run.lists_of Run.before_both) 4424 16 144 648).
  - check_lists.
  - vm_compute. reflexivity.
  - lia.
  - vm_compute. auto.
  - vm_compute. reflexivity.
  - lia.
  - vm_compute. reflexivity.
  - vm_compute. reflexivity.
  - vm_compute. auto.
  - vm_compute. reflexivity.
  - lia.
  - vm_compute. reflexivity.
  - vm_compute. auto.
  - vm_compute. reflexivity.
  - vm_compute. reflexivity.
  - check_outside.
Defined.

(** What [free] does before it calls [coalesce]: the block is tagged free
    and enters the list of its class. *)
Lemma free_prefix (st : heap) (lists : Z -> list Z) (bp s : Z) :
  well_linked st lists -> heap_listp st <> NULL -> linkable st bp ->
  GET_SIZE st (HDRP bp) = Ok s -> 16 <= s -> in_heap st (bp - 4) s = true ->
  (forall k x, 0 <= k < CLASS_CNT -> In x (lists k) -> outside bp s x) ->
  exists st1 L1 L2,
    free st bp = ('(_, st') ← coalesce st1 bp; Ok st') /\
    Run.unmerged st bp = Ok st1 /\ same_shape st st1 /\
    lists (class_of s) = L1 ++ L2 /\
    well_linked st1 (linked lists (class_of s) L1 bp L2) /\
    GET st1 (HDRP bp) = Ok (PACK s 0) /\ GET st1 (bp + s - 8) = Ok (PACK s 0) /\
    (forall q, q + 4 <= bp - 4 \/ bp + s - 4 <= q -> off_links st lists q ->
               GET st1 q = GET st q).
Proof.
  intros Hwl Hl Hbp Hs H16 Hin Hout. pose proof Hbp as [Hnn Hbl].
  destruct (GET_SIZE_range _ _ _ Hs) as [Hr Hm].
  destruct (tag_block st bp s 0 Hin ltac:(lia) Hm ltac:(lia))
    as (st2 & Htag & Hsh2 & Hh2 & Hf2 & Hs2 & _ & Hfr2).
  rewrite in_heap_spec in Hin.
  destruct (set_link_ok st2 bp NULL) as [st3 H3].
  { rewrite (same_shape_in_heap _ _ _ _ Hsh2). apply in_heap_spec. lia. }
  pose proof (set_link_shape _ _ _ _ H3) as Hsh3.
  destruct (set_link_ok st3 (bp + 4) NULL) as [st4 H4].
  { rewrite (same_shape_in_heap _ _ _ _ Hsh3), (same_shape_in_heap _ _ _ _ Hsh2).
    apply in_heap_spec. lia. }
  pose proof (set_link_shape _ _ _ _ H4) as Hsh4.
  pose proof (same_shape_trans _ _ _ Hsh2 (same_shape_trans _ _ _ Hsh3 Hsh4)) as Hsh24.
  assert (forall q, sep bp q -> sep (bp + 4) q -> GET st4 q = GET st2 q) as Hfr4.
  { intros q Ha Hb. rewrite (GET_PUT_ne _ _ _ _ _ H4 Hb). apply (GET_PUT_ne _ _ _ _ _ H3 Ha). }
  assert (forall q, q + 4 <= bp - 4 \/ bp + s - 4 <= q -> GET st4 q = GET st q) as Hfr04.
  { intros q Hq. rewrite Hfr4 by (unfold sep; lia). apply Hfr2; unfold sep; lia. }
  assert (well_linked st4 lists) as Hwl4.
  { apply (wl_frame st st4 lists Hwl Hsh24).
    - intros k Hk. pose proof (head_cell_below st k Hk). apply Hfr04. lia.
    - intros k y Hk Hy q Hq. specialize (Hout k y Hk Hy). apply Hfr04.
      unfold outside in Hout. lia. }
  assert (GET st4 (HDRP bp) = Ok (PACK s 0)) as Hh4
    by (rewrite Hfr4; [exact Hh2 | |]; unfold sep, HDRP, WSIZE; lia).
  assert (GET st4 (bp + s - 8) = Ok (PACK s 0)) as Hf4
    by (rewrite Hfr4; [exact Hf2 | |]; unfold sep; lia).
  assert (GET_SIZE st4 (HDRP bp) = Ok s) as Hs4.
  { rewrite <- Hs2. apply GET_SIZE_frame, Hfr4; unfold sep, HDRP, WSIZE; lia. }
  destruct (wl_insert st4 lists bp s Hwl4) as (st5 & L1 & L2 & Hins & Hsh5 & HL & Hwl5 & Hfr5).
  { eapply same_shape_linkable; eauto. }
  { rewrite (same_shape_in_heap _ _ _ _ Hsh24). apply in_heap_spec. lia. }
  { exact Hs4. }
  { intros k x Hk Hx. specialize (Hout k x Hk Hx). unfold outside, apart in *. lia. }
  assert (forall q, (q + 4 <= bp \/ bp + 8 <= q) -> off_links st lists q ->
                    GET st5 q = GET st4 q) as Hfr45.
  { intros q Hq Hoff. assert (0 <= class_of s < CLASS_CNT) as Hc by apply class_of_range.
    destruct (Hoff _ Hc) as [Hh Hli]. apply Hfr5.
    - unfold get_listp. rewrite (same_shape_head_cell _ _ _ Hsh24). exact Hh.
    - constructor; [unfold sep; lia | exact Hli]. }
  assert (Run.unmerged st bp = Ok st5) as Hun.
  { unfold Run.unmerged. rewrite Hs, bind_ok, tag_then, Htag, bind_ok.
    change (SET_PRED st2 bp NULL) with (set_link st2 bp NULL). rewrite H3, bind_ok.
    change (SET_SUCC st3 bp NULL) with (set_link st3 (bp + 4) NULL). rewrite H4, bind_ok.
    exact Hins. }
  exists st5, L1, L2. split; [| split; [exact Hun |]].
  - unfold free. destruct (Z.eqb_spec bp NULL); [contradiction |].
    destruct (Z.eqb_spec (heap_listp st) NULL); [contradiction |].
    rewrite Hs, !bind_ok, tag_then, Htag, bind_ok.
    change (SET_PRED st2 bp NULL) with (set_link st2 bp NULL). rewrite H3, bind_ok.
    change (SET_SUCC st3 bp NULL) with (set_link st3 (bp + 4) NULL). rewrite H4, bind_ok.
    rewrite Hins, bind_ok. reflexivity.
  - split; [eapply same_shape_trans; eauto |]. split; [exact HL |]. split; [exact Hwl5 |].
    assert (forall q, bp - 4 <= q -> q + 4 <= bp + s -> off_links st lists q) as Hins_off.
    { intros q Ha Hb. apply (inside_off_links st lists bp s); auto. lia. }
    split; [| split].
    + rewrite <- Hh4. apply Hfr45; unfold HDRP, WSIZE; [lia | apply Hins_off; lia].
    + rewrite <- Hf4. apply Hfr45; [lia | apply Hins_off; lia].
    + intros q Hq Hoff. rewrite (Hfr45 q ltac:(lia) Hoff). apply Hfr04, Hq.
Qed.

(** X16.  [free] of a block between two allocated blocks, when the fourteen
    lists are well formed and no listed block lies in the span from the
    previous block to the next header: the call succeeds; header and footer
    of the block say (size, free); the block is on the list of its size
    class, after the smaller blocks; the lists are well formed; and no word
    outside the block was written but head cells and link fields. *)
Theorem free_between_allocated (st : heap) (lists : Z -> list Z) (bp s ps pa na : Z) :
  well_linked st lists -> heap_listp st <> NULL -> linkable st bp ->
  GET_SIZE st (HDRP bp) = Ok s -> 16 <= s -> in_heap st (bp - 4) s = true ->
  GET_SIZE st (bp - 8) = Ok ps -> 8 <= ps -> heap_listp st <= bp - ps ->
  GET_ALLOC st (HDRP (bp - ps)) = Ok pa -> pa <> 0 ->
  GET_ALLOC st (HDRP (bp + s)) = Ok na -> na <> 0 ->
  (forall k x, 0 <= k < CLASS_CNT -> In x (lists k) -> outside (bp - ps) (ps + s + 4) x) ->
  exists st' L1 L2,
    free st bp = Ok st' /\ same_shape st st' /\
    lists (class_of s) = L1 ++ L2 /\
    well_linked st' (linked lists (class_of s) L1 bp L2) /\
    GET st' (HDRP bp) = Ok (PACK s 0) /\ GET st' (bp + s - 8) = Ok (PACK s 0) /\
    (forall q, q + 4 <= bp - 4 \/ bp + s - 4 <= q -> off_links st lists q ->
               GET st' q = GET st q).
Proof.
  intros Hwl Hl Hbp Hs H16 Hin Hps Hps8 Hprev Hpa Hpa0 Hna Hna0 Hout.
  destruct (free_prefix st lists bp s Hwl Hl Hbp Hs H16 Hin)
    as (st1 & L1 & L2 & Hfree & _ & Hsh & HL & Hwl1 & Hh & Hf & Hfr).
  { intros k x Hk Hx. specialize (Hout k x Hk Hx). unfold outside in *. lia. }
  assert (forall q, bp - ps - 4 <= q -> q + 4 <= bp + s -> off_links st lists q) as Hoff.
  { intros q Ha Hb. apply (span_off_links st lists [] (bp - ps) (ps + s + 4));
      [exact Hprev | | lia | lia | constructor].
    intros k x Hk Hx. right. apply (Hout k x Hk Hx). }
  exists st1, L1, L2.
  split; [| split; [exact Hsh | split; [exact HL | split; [exact Hwl1 | split;
            [exact Hh | split; [exact Hf | exact Hfr]]]]]].
  rewrite Hfree. unfold coalesce.
  assert (PREV_BLKP st1 bp = Ok (bp - ps)) as HP.
  { unfold PREV_BLKP, DSIZE. rewrite (GET_SIZE_frame st st1 (bp - 8)), Hps; [reflexivity |].
    apply Hfr; [lia | apply Hoff; lia]. }
  assert (GET_SIZE st1 (HDRP bp) = Ok s) as Hs1.
  { unfold GET_SIZE. rewrite Hh, bind_ok. f_equal.
    destruct (GET_SIZE_range _ _ _ Hs) as [Hr Hm].
    apply (PACK_size s 0 Hr Hm ltac:(lia)). }
  assert (NEXT_BLKP st1 bp = Ok (bp + s)) as HN
    by (unfold NEXT_BLKP; change (bp - WSIZE) with (HDRP bp); rewrite Hs1; reflexivity).
  rewrite HP, bind_ok.
  rewrite (GET_ALLOC_frame st st1 (HDRP (bp - ps))), Hpa, bind_ok
    by (apply Hfr; unfold HDRP, WSIZE; [lia | apply Hoff; lia]).
  rewrite HN, bind_ok.
  rewrite (GET_ALLOC_frame st st1 (HDRP (bp + s))), Hna, bind_ok
    by (apply Hfr; unfold HDRP, WSIZE; [lia | apply Hoff; lia]).
  rewrite Hs1, bind_ok.
  destruct (Z.eqb_spec pa 0); [contradiction |]. destruct (Z.eqb_spec na 0); [contradiction |].
  reflexivity.
Qed.

Lemma free_between_allocated_witness :
  exists st' L1 L2,
    free Run.grown_new.2 4168 = Ok st' /\ same_shape Run.grown_new.2 st' /\
    Run.lists_of Run.grown_new.2 (class_of 112) = L1 ++ L2 /\
    well_linked st' (linked (Run.lists_of Run.grown_new.2) (class_of 112) L1 4168 L2) /\
    GET st' (HDRP 4168) = Ok (PACK 112 0) /\ GET st' (4168 + 112 - 8) = Ok (PACK 112 0) /\
    (forall q, q + 4 <= 4168 - 4 \/ 4168 + 112 - 4 <= q ->
               off_links Run.grown_new.2 (Run.lists_of Run.grown_new.2) q ->
               GET st' q = GET Run.grown_new.2 q).
Proof.
  apply (free_between_allocated Run.grown_new.2 (Run.lists_of Run.grown_new.2)
           4168 112 8 1 1).
  - check_lists.
  - vm_compute. discriminate.
  - check_props.
  - vm_compute. reflexivity.
  - lia.
  - vm_compute. reflexivity.
  - vm_compute. reflexivity.
  - lia.
  - vm_compute. discriminate.
  - vm_compute. reflexivity.
  - discriminate.
  - vm_compute. reflexivity.
  - discriminate.
  - check_outside.
Defined.

(** Placement keeps the fourteen lists well formed. *)
Lemma wl_place (st : heap) (lists : Z -> list Z) (bp asize csize : Z) :
  well_linked st lists ->
  GET_SIZE st (HDRP bp) = Ok csize -> In bp (lists (class_of csize)) ->
  16 <= asize <= csize -> asize mod 8 = 0 -> 0 <= mem_start_brk st ->
  in_heap st (bp - 4) csize = true -> bp + csize <= heap_listp st + 2 ^ 32 ->
  (forall k x, 0 <= k < CLASS_CNT -> In x (lists k) -> x = bp \/ outside bp csize x) ->
  exists st' lists',
    place st bp asize = Ok (bp, st') /\ same_shape st st' /\ well_linked st' lists' /\
    (if 16 <=? csize - asize then
       GET st' (HDRP bp) = Ok (PACK asize 1) /\
       GET st' (bp + asize - 8) = Ok (PACK asize 1) /\
       GET st' (HDRP (bp + asize)) = Ok (PACK (csize - asize) 0) /\
       GET st' (bp + csize - 8) = Ok (PACK (csize - asize) 0) /\
       (forall k x, 0 <= k < CLASS_CNT ->
                    (In x (lists' k) <->
                     (In x (lists k) /\ x <> bp) \/
                     (x = bp + asize /\ k = class_of (csize - asize))))
     else
       GET st' (HDRP bp) = Ok (PACK csize 1) /\
       GET st' (bp + csize - 8) = Ok (PACK csize 1) /\
       (forall k x, 0 <= k < CLASS_CNT -> (In x (lists' k) <-> In x (lists k) /\ x <> bp))) /\
    (forall q, q + 4 <= bp - 4 \/ bp + csize - 4 <= q -> off_links st lists q ->
               GET st' q = GET st q).
Proof.
  intros Hwl Hsz Hbp Hasize Hmod Hstart Hin Hsmall Hout.
  destruct (GET_SIZE_range _ _ _ Hsz) as [Hcr Hcm].
  pose proof (class_of_range csize) as Hc.
  pose proof (wl_linkable st lists _ bp Hwl Hc Hbp) as [Hnn Hbl].
  destruct (wl_unlink st lists _ bp Hwl Hc Hbp)
    as (st1 & L1 & L2 & E1 & Hrem & Hsh1 & Hwl1 & Hfr1).
  set (lists1 := unlinked lists (class_of csize) L1 L2) in *.
  pose proof (unlinked_mem st lists _ bp L1 L2 Hwl Hc E1) as Hmem1. fold lists1 in Hmem1.
  assert (forall k x, 0 <= k < CLASS_CNT -> In x (lists1 k) -> In x (lists k)) as Hsub1
    by (intros k x Hk Hx; apply (Hmem1 k x Hk), Hx).
  assert (forall k x, 0 <= k < CLASS_CNT -> In x (lists1 k) -> outside bp csize x) as Hout1.
  { intros k x Hk Hx. apply (Hmem1 k x Hk) in Hx as [Hx Hne].
    destruct (Hout k x Hk Hx) as [-> | Ho]; [contradiction | exact Ho]. }
  assert (forall q, off_links st lists q -> GET st1 q = GET st q) as Hfr01.
  { intros q Hq. apply Hfr1.
    apply (off_links_sub st st lists lists1 q (same_shape_refl st)); auto. }
  assert (forall st2, same_shape st1 st2 ->
            (forall q, q + 4 <= bp - 4 \/ bp + csize - 4 <= q -> GET st2 q = GET st1 q) ->
            well_linked st2 lists1) as Hkeep.
  { intros st2 Hsh Hfr. apply (wl_frame st1 st2 lists1 Hwl1 Hsh).
    - intros k Hk. pose proof (head_cell_below st1 k Hk) as Hh.
      apply Hfr. destruct Hsh1 as (_ & _ & _ & _ & _ & E). rewrite E in Hh. lia.
    - intros k y Hk Hy q Hq. specialize (Hout1 k y Hk Hy). apply Hfr.
      unfold outside in Hout1. lia. }
  rewrite in_heap_spec in Hin.
  unfold place. rewrite Hsz, bind_ok, Hrem, bind_ok.
  rewrite (Adjust.size_t_small (csize - asize)) by lia.
  change (2 * DSIZE) with 16.
  destruct (Z.leb_spec 16 (csize - asize)) as [Hsplit | Hwhole].
  - destruct (tag_block st1 bp asize 1) as (st2 & Htag2 & Hsh2 & Hh2 & Hf2 & Hsz2 & _ & Hfr2);
      [rewrite (same_shape_in_heap _ _ _ _ Hsh1), in_heap_spec; lia | lia | exact Hmod | lia |].
    pose proof (same_shape_trans _ _ _ Hsh1 Hsh2) as Hsh02.
    assert (well_linked st2 lists1) as Hwl2
      by (apply (Hkeep st2 Hsh2); intros q Hq; apply Hfr2; unfold sep; lia).
    assert ((csize - asize) mod 8 = 0) as Hrm
      by (change (2 ^ 32) with 4294967296 in *; Z.div_mod_to_equations; lia).
    destruct (wl_release st2 lists1 (bp + asize) (csize - asize) Hwl2)
      as (st3 & st4 & st5 & M1 & M2 & H3 & Hs3 & H4 & Hins & Hsh5 & EM & Hwl5 & Hh5 & Hf5
          & Hfr5).
    { destruct Hsh02 as (_ & _ & _ & _ & _ & E). unfold linkable, NULL in *. rewrite E. lia. }
    { rewrite (same_shape_in_heap _ _ _ _ Hsh02). apply in_heap_spec. lia. }
    { lia. }
    { exact Hrm. }
    { intros k x Hk Hx. specialize (Hout1 k x Hk Hx). unfold outside in *. lia. }
    assert (forall q, bp - 4 <= q -> q + 4 <= bp + csize -> off_links st2 lists1 q) as Hoff.
    { intros q Ha Hb. apply (inside_off_links st2 lists1 bp csize); auto.
      destruct Hsh02 as (_ & _ & _ & _ & _ & ->). lia. }
    exists st5, (linked lists1 (class_of (csize - asize)) M1 (bp + asize) M2).
    split; [| split; [eapply same_shape_trans; eauto | split; [exact Hwl5 | split]]].
    + rewrite tag_then, Htag2, bind_ok.
      assert (NEXT_BLKP st2 bp = Ok (bp + asize)) as HN
        by (unfold NEXT_BLKP; change (bp - WSIZE) with (HDRP bp); rewrite Hsz2; reflexivity).
      rewrite HN, bind_ok. change (HDRP (bp + asize)) with (bp + asize - 4).
      rewrite H3, bind_ok.
      assert (FTRP st3 (bp + asize) = Ok (bp + asize + (csize - asize) - 8)) as HF
        by (unfold FTRP, HDRP, WSIZE, DSIZE; rewrite Hs3; reflexivity).
      rewrite HF, bind_ok, H4, bind_ok, Hins, bind_ok. reflexivity.
    + split; [rewrite <- Hh2; apply Hfr5; unfold HDRP, WSIZE; [lia | apply Hoff; lia] |].
      split; [rewrite <- Hf2; apply Hfr5; [lia | apply Hoff; lia] |].
      split; [exact Hh5 |].
      split; [replace (bp + csize - 8) with (bp + asize + (csize - asize) - 8) by lia;
              exact Hf5 |].
      intros k x Hk. rewrite (linked_mem lists1 _ (bp + asize) M1 M2 EM k x).
      rewrite (Hmem1 k x Hk). tauto.
    + intros q Hq Hoffq.
      rewrite Hfr5; [| lia | apply (off_links_sub st st2 lists lists1 q Hsh02); auto].
      rewrite Hfr2 by (unfold sep; lia). apply Hfr01, Hoffq.
  - destruct (tag_block st1 bp csize 1) as (st2 & Htag2 & Hsh2 & Hh2 & Hf2 & _ & _ & Hfr2);
      [rewrite (same_shape_in_heap _ _ _ _ Hsh1), in_heap_spec; lia | lia | exact Hcm | lia |].
    exists st2, lists1.
    split; [| split; [eapply same_shape_trans; eauto | split; [| split]]].
    + rewrite tag_then, Htag2, bind_ok. reflexivity.
    + apply (Hkeep st2 Hsh2). intros q Hq. apply Hfr2; unfold sep; lia.
    + split; [exact Hh2 |]. split; [exact Hf2 | exact Hmem1].
    + intros q Hq Hoffq. rewrite Hfr2 by (unfold sep; lia). apply Hfr01, Hoffq.
Qed.

(** X17.  [place] on a listed free block with an adjusted size that is a
    multiple of 8, at least 16 and at most the size of the block, when the
    fourteen lists are well formed and the block lies in the heap and holds
    no other listed node, leaves the lists well formed: the block has left
    its list and is tagged allocated, with the adjusted size if the rest of
    at least 16 bytes is split off and with its whole size otherwise; a
    split-off rest is tagged free and is on the list of its class; and no
    word outside the block was written but head cells and link fields.
    (Adjusted sizes 0 and 8, which [malloc] passes for requests above
    [2^64 - 16], are left out.) *)
Theorem place_keeps_lists (st : heap) (lists : Z -> list Z) (bp asize csize : Z) :
  well_linked st lists ->
  GET_SIZE st (HDRP bp) = Ok csize -> In bp (lists (class_of csize)) ->
  16 <= asize <= csize -> asize mod 8 = 0 -> 0 <= mem_start_brk st ->
  in_heap st (bp - 4) csize = true -> bp + csize <= heap_listp st + 2 ^ 32 ->
  (forall k x, 0 <= k < CLASS_CNT -> In x (lists k) -> x = bp \/ outside bp csize x) ->
  exists st' lists',
    place st bp asize = Ok (bp, st') /\ same_shape st st' /\ well_linked st' lists' /\
    (if 16 <=? csize - asize then
       GET st' (HDRP bp) = Ok (PACK asize 1) /\
       GET st' (bp + asize - 8) = Ok (PACK asize 1) /\
       GET st' (HDRP (bp + asize)) = Ok (PACK (csize - asize) 0) /\
       GET st' (bp + csize - 8) = Ok (PACK (csize - asize) 0) /\
       (forall k x, 0 <= k < CLASS_CNT ->
                    (In x (lists' k) <->
                     (In x (lists k) /\ x <> bp) \/
                     (x = bp + asize /\ k = class_of (csize - asize))))
     else
       GET st' (HDRP bp) = Ok (PACK csize 1) /\
       GET st' (bp + csize - 8) = Ok (PACK csize 1) /\
       (forall k x, 0 <= k < CLASS_CNT -> (In x (lists' k) <-> In x (lists k) /\ x <> bp))) /\
    (forall q, q + 4 <= bp - 4 \/ bp + csize - 4 <= q -> off_links st lists q ->
               GET st' q = GET st q).
Proof. apply wl_place. Qed.

Lemma place_keeps_lists_witness :
  exists st' lists',
    place Run.skipped 4648 160 = Ok (4648, st') /\ same_shape Run.skipped st' /\
    well_linked st' lists' /\
    (if 16 <=? 440 - 160 then
       GET st' (HDRP 4648) = Ok (PACK 160 1) /\
       GET st' (4648 + 160 - 8) = Ok (PACK 160 1) /\
       GET st' (HDRP (4648 + 160)) = Ok (PACK (440 - 160) 0) /\
       GET st' (4648 + 440 - 8) = Ok (PACK (440 - 160) 0) /\
       (forall k x, 0 <= k < CLASS_CNT ->
                    (In x (lists' k) <->
                     (In x (Run.lists_of Run.skipped k) /\ x <> 4648) \/
                     (x = 4648 + 160 /\ k = class_of (440 - 160))))
     else
       GET st' (HDRP 4648) = Ok (PACK 440 1) /\
       GET st' (4648 + 440 - 8) = Ok (PACK 440 1) /\
       (forall k x, 0 <= k < CLASS_CNT ->
                    (In x (lists' k) <-> In x (Run.lists_of Run.skipped k) /\ x <> 4648))) /\
    (forall q, q + 4 <= 4648 - 4 \/ 4648 + 440 - 4 <= q ->
               off_links Run.skipped (Run.lists_of Run.skipped) q ->
               GET st' q = GET Run.skipped q).
Proof.
  apply (place_keeps_lists Run.skipped (Run.lists_of Run.skipped) 4648 160 440).
  - check_lists.
  - vm_compute. reflexivity.
  - vm_compute. auto.
  - lia.
  - reflexivity.
  - vm_compute. discriminate.
  - vm_compute. reflexivity.
  - vm_compute. discriminate.
  - check_outside.
Defined.

End Coalesce.

(** ** Growing the heap *)
Module Grow.
Import Mm Inv Frame MemFacts RW Search Links Writes Insert Remove Tags Place Fit Linked.

#[local] Opaque walk_fuel.

Lemma extends_in_heap (st st' : heap) (p n : Z) :
  extends st st' -> in_heap st p n = true -> in_heap st' p n = true.
Proof.
  intros (Hs & _ & extra & Hh). rewrite !in_heap_spec. unfold mem_brk.
  rewrite Hs, Hh, length_app. lia.
Qed.

Lemma extends_GET (st st' : heap) (q : Z) :
  extends st st' -> in_heap st q 4 = true -> GET st' q = GET st q.
Proof.
  intros Hext Hin. pose proof (extends_in_heap _ _ _ _ Hext Hin) as Hin'.
  destruct Hext as (Hs & _ & extra & Hh).
  unfold GET, load_bytes. rewrite Hin, Hin'. simpl.
  unfold offset. rewrite Hs, Hh.
  apply in_heap_spec in Hin. unfold mem_brk in Hin.
  rewrite drop_app_le by lia. rewrite take_app_le; [reflexivity |].
  rewrite length_drop. lia.
Qed.

Lemma extends_get_link (st st' : heap) (q : Z) :
  extends st st' -> in_heap st q 4 = true -> get_link st' q = get_link st q.
Proof.
  intros Hext Hin. unfold get_link. rewrite (extends_GET _ _ _ Hext Hin).
  destruct Hext as (_ & Hl & _). unfold REL2ABS. rewrite Hl. reflexivity.
Qed.

Lemma extends_fuel (st st' : heap) : extends st st' -> (walk_fuel st <= walk_fuel st')%nat.
Proof.
  intros (_ & _ & extra & Hh). rewrite !walk_fuel_eq, Hh, length_app. lia.
Qed.

Lemma preds_extends (st st' : heap) (l : list Z) :
  extends st st' -> Forall (fun x => in_heap st x 4 = true) l ->
  forall p, preds st p l -> preds st' p l.
Proof.
  intros Hext. induction l as [| x l IH]; intros Hall p Hp; [exact I |].
  inversion Hall as [| ? ? Hx Hl]; subst. destruct Hp as [Hpx Hp]. split.
  - change (GET_PRED st' x) with (get_link st' x).
    rewrite (extends_get_link _ _ x Hext Hx). exact Hpx.
  - apply IH; assumption.
Qed.

(** Bytes appended to the heap leave the lists well formed. *)
Lemma wl_extends (st st' : heap) (lists : Z -> list Z) :
  well_linked st lists -> extends st st' -> well_linked st' lists.
Proof.
  intros [Hcl Hap] Hext. split; [| exact Hap].
  intros k Hk. destruct (Hcl k Hk) as (HL & Hp & (ss & Hss & Hasc & Hin) & Hsp).
  pose proof HL as HL0.
  unfold class_list in HL. apply res_bind_ok in HL as (h & Hh & HL).
  pose proof (list_from_seg _ _ _ _ HL) as Hseg.
  pose proof (node_facts st _ h _ ss Hh Hseg Hss) as Hfacts.
  pose proof (sizes_in_heap _ _ _ Hss) as Hhdr.
  rewrite List.Forall_forall in Hfacts, Hhdr.
  split; [| split; [| split; [| exact Hsp]]].
  - unfold class_list.
    assert (head_cell st' k = head_cell st k) as ->
      by (destruct Hext as (_ & Hl & _); unfold head_cell; rewrite Hl; reflexivity).
    change (GET_HEAD st' (head_cell st k)) with (get_link st' (head_cell st k)).
    rewrite (extends_get_link _ _ _ Hext (get_link_in_heap _ _ _ Hh)).
    change (get_link st (head_cell st k)) with (GET_HEAD st (head_cell st k)).
    rewrite Hh, bind_ok. apply seg_list_from.
    + eapply seg_frame; [| exact Hseg]. apply List.Forall_forall. intros x Hx.
      apply (extends_get_link _ _ (x + 4) Hext). apply (Hfacts x Hx).
    + pose proof (list_from_length _ _ _ _ HL). pose proof (extends_fuel _ _ Hext). lia.
  - apply (preds_extends st st' _ Hext); [| exact Hp].
    apply List.Forall_forall. intros x Hx. apply (Hfacts x Hx).
  - exists ss. split; [| auto]. rewrite <- Hss. apply sizes_frame.
    apply List.Forall_forall. intros x Hx. apply GET_SIZE_frame.
    apply (extends_GET _ _ _ Hext). apply (Hhdr x Hx).
Qed.

Lemma mem_sbrk_extends (st : heap) (incr : Z) :
  0 <= incr -> mem_brk st + incr <= mem_max_addr st ->
  exists st', Memlib.mem_sbrk st incr = (Some (mem_brk st), st') /\ extends st st' /\
              mem_brk st' = mem_brk st + incr /\ mem_max_addr st' = mem_max_addr st /\
              sbrk_log st' = incr :: sbrk_log st /\ mem_fresh st' = mem_fresh st.
Proof.
  intros H0 Hfit. unfold Memlib.mem_sbrk.
  destruct (Z.ltb_spec incr 0); [lia |].
  change (mem_max_addr (log_request st incr)) with (mem_max_addr st).
  change (mem_brk (log_request st incr)) with (mem_brk st).
  destruct (Z.ltb_spec (mem_max_addr st) (mem_brk st + incr)); [lia |]. simpl.
  eexists. split; [reflexivity |]. split; [| split; [| auto]].
  - unfold extends. simpl. eauto.
  - unfold mem_brk. simpl. rewrite length_app, length_map, length_seq. lia.
Qed.

(** What [extend_heap] does before it calls [coalesce], when [mem_sbrk]
    grants the request: the new bytes, with the old epilogue header in front
    of them, become a free block on the list of its class, followed by a new
    epilogue header. *)
Lemma extend_heap_prefix (st : heap) (lists : Z -> list Z) (words size : Z) :
  well_linked st lists ->
  size = (if negb (words mod 2 =? 0) then size_t ((words + 1) * WSIZE)
          else size_t (words * WSIZE)) ->
  16 <= size < 2 ^ 32 -> size mod 8 = 0 ->
  mem_brk st + size <= mem_max_addr st ->
  linkable st (mem_brk st) -> in_heap st (mem_brk st - 4) 4 = true ->
  (forall k x, 0 <= k < CLASS_CNT -> In x (lists k) -> x + 12 <= mem_brk st) ->
  exists st1 L1 L2,
    extend_heap st words = coalesce st1 (mem_brk st) /\
    mem_start_brk st1 = mem_start_brk st /\ mem_max_addr st1 = mem_max_addr st /\
    heap_listp st1 = heap_listp st /\ mem_brk st1 = mem_brk st + size /\
    sbrk_log st1 = size :: sbrk_log st /\
    lists (class_of size) = L1 ++ L2 /\
    well_linked st1 (linked lists (class_of size) L1 (mem_brk st) L2) /\
    GET st1 (HDRP (mem_brk st)) = Ok (PACK size 0) /\
    GET st1 (mem_brk st + size - 8) = Ok (PACK size 0) /\
    GET st1 (mem_brk st + size - 4) = Ok (PACK 0 1) /\
    (forall q, q + 4 <= mem_brk st - 4 -> in_heap st q 4 = true -> off_links st lists q ->
               GET st1 q = GET st q).
Proof.
  intros Hwl Hsize HS Hm Hfit Hbp Hepi Hout.
  set (bp := mem_brk st) in *. pose proof Hbp as [Hnn Hbl].
  destruct (mem_sbrk_extends st size ltac:(lia) Hfit)
    as (st0 & Hsbrk & Hext & Hbrk0 & Hmax0 & Hlog0 & _). fold bp in Hsbrk, Hbrk0.
  pose proof (wl_extends st st0 lists Hwl Hext) as Hwl0.
  pose proof Hext as (Hstart0 & Hl0 & _).
  rewrite in_heap_spec in Hepi.
  assert (forall st', same_shape st0 st' -> forall q n,
            mem_start_brk st <= q -> q + n <= bp + size -> in_heap st' q n = true) as Hin'.
  { intros st' Hsh q n Ha Hb. rewrite (same_shape_in_heap _ _ _ _ Hsh).
    apply in_heap_spec. lia. }
  destruct (tag_block st0 bp size 0) as (st2 & Htag & Hsh2 & Hh2 & Hf2 & Hs2 & _ & Hfr2);
    [apply (Hin' st0 (same_shape_refl st0)); lia | lia | exact Hm | lia |].
  destruct (set_link_ok st2 bp NULL) as [st3 H3]; [apply (Hin' st2 Hsh2); lia |].
  pose proof (same_shape_trans _ _ _ Hsh2 (set_link_shape _ _ _ _ H3)) as Hsh3.
  destruct (set_link_ok st3 (bp + 4) NULL) as [st4 H4]; [apply (Hin' st3 Hsh3); lia |].
  pose proof (same_shape_trans _ _ _ Hsh3 (set_link_shape _ _ _ _ H4)) as Hsh4.
  destruct (PUT_ok st4 (bp + size - 4) (PACK 0 1)) as [st5 H5]; [apply (Hin' st4 Hsh4); lia |].
  pose proof (same_shape_trans _ _ _ Hsh4 (PUT_shape _ _ _ _ H5)) as Hsh5.
  destruct (GET_SIZE_PUT st4 st5 (bp + size - 4) 0 1 H5) as (He5 & _ & _);
    [change (2 ^ 32) with 4294967296; lia | reflexivity | lia |].
  assert (forall q, q + 4 <= bp - 4 \/ (bp + 8 <= q /\ q + 4 <= bp + size - 8) ->
                    GET st5 q = GET st0 q) as Hfr5.
  { intros q Hq. rewrite (GET_PUT_ne _ _ _ _ _ H5) by (unfold sep; lia).
    rewrite (GET_PUT_ne _ _ _ _ _ H4) by (unfold sep; lia).
    rewrite (GET_PUT_ne _ _ _ _ _ H3) by (unfold sep; lia).
    apply Hfr2; unfold sep; lia. }
  assert (GET st5 (HDRP bp) = Ok (PACK size 0)) as Hh5.
  { rewrite (GET_PUT_ne _ _ _ _ _ H5) by (unfold sep, HDRP, WSIZE; lia).
    rewrite (GET_PUT_ne _ _ _ _ _ H4) by (unfold sep, HDRP, WSIZE; lia).
    rewrite (GET_PUT_ne _ _ _ _ _ H3) by (unfold sep, HDRP, WSIZE; lia). exact Hh2. }
  assert (GET st5 (bp + size - 8) = Ok (PACK size 0)) as Hf5.
  { rewrite (GET_PUT_ne _ _ _ _ _ H5) by (unfold sep; lia).
    rewrite (GET_PUT_ne _ _ _ _ _ H4) by (unfold sep; lia).
    rewrite (GET_PUT_ne _ _ _ _ _ H3) by (unfold sep; lia). exact Hf2. }
  assert (GET_SIZE st4 (bp - 4) = Ok size) as Hs4.
  { rewrite <- Hs2. change (HDRP bp) with (bp - 4). apply GET_SIZE_frame.
    rewrite (GET_PUT_ne _ _ _ _ _ H4) by (unfold sep; lia).
    apply (GET_PUT_ne _ _ _ _ _ H3). unfold sep. lia. }
  assert (GET_SIZE st5 (HDRP bp) = Ok size) as Hs5.
  { unfold GET_SIZE. rewrite Hh5, bind_ok. f_equal.
    apply (PACK_size size 0 ltac:(lia) Hm ltac:(lia)). }
  assert (well_linked st5 lists) as Hwl5.
  { apply (wl_frame st0 st5 lists Hwl0 Hsh5).
    - intros k Hk. pose proof (head_cell_below st0 k Hk). apply Hfr5. lia.
    - intros k y Hk Hy q Hq. specialize (Hout k y Hk Hy). apply Hfr5. lia. }
  destruct (wl_insert st5 lists bp size Hwl5) as (st6 & L1 & L2 & Hins & Hsh6 & HL & Hwl6 & Hfr6).
  { unfold linkable in *. destruct Hsh5 as (_ & _ & _ & _ & _ & ->). rewrite Hl0. exact Hbp. }
  { apply (Hin' st5 Hsh5); lia. }
  { exact Hs5. }
  { intros k x Hk Hx. specialize (Hout k x Hk Hx). unfold apart. lia. }
  pose proof (same_shape_trans _ _ _ Hsh5 Hsh6) as Hsh06.
  assert (forall q, (q + 4 <= bp \/ bp + 8 <= q) -> off_links st lists q ->
                    GET st6 q = GET st5 q) as Hfr56.
  { intros q Hq Hoff. assert (0 <= class_of size < CLASS_CNT) as Hc by apply class_of_range.
    destruct (Hoff _ Hc) as [Hh Hli]. apply Hfr6.
    - unfold get_listp, head_cell in *. destruct Hsh5 as (_ & _ & _ & _ & _ & ->).
      rewrite Hl0. exact Hh.
    - constructor; [unfold sep; lia | exact Hli]. }
  assert (forall q, bp - 4 <= q -> off_links st lists q) as Hoff.
  { intros q Hq k Hk. pose proof (head_cell_below st k Hk). split; [unfold sep; lia |].
    apply List.Forall_forall. intros x Hx. specialize (Hout k x Hk Hx). unfold sep. lia. }
  exists st6, L1, L2. split.
  - unfold extend_heap. rewrite <- Hsize, Hsbrk.
    rewrite tag_then, Htag, bind_ok.
    change (SET_PRED st2 bp NULL) with (set_link st2 bp NULL). rewrite H3, bind_ok.
    change (SET_SUCC st3 bp NULL) with (set_link st3 (bp + 4) NULL). rewrite H4, bind_ok.
    assert (NEXT_BLKP st4 bp = Ok (bp + size)) as HN
      by (unfold NEXT_BLKP, WSIZE; rewrite Hs4; reflexivity).
    rewrite HN, bind_ok. change (HDRP (bp + size)) with (bp + size - 4).
    rewrite H5, bind_ok, Hins, bind_ok. reflexivity.
  - destruct Hsh06 as (E1 & E2 & E3 & E4 & E5 & E6).
    split; [congruence |]. split; [congruence |]. split; [congruence |].
    split; [unfold mem_brk in *; rewrite E1, E3; lia |]. split; [congruence |].
    split; [exact HL |]. split; [exact Hwl6 |].
    split; [rewrite <- Hh5; apply Hfr56; unfold HDRP, WSIZE; [lia | apply Hoff; lia] |].
    split; [rewrite <- Hf5; apply Hfr56; [lia | apply Hoff; lia] |].
    split; [rewrite <- He5; apply Hfr56; [lia | apply Hoff; lia] |].
    intros q Hq Hqin Hqoff. rewrite (Hfr56 q ltac:(lia) Hqoff). rewrite Hfr5 by lia.
    apply (extends_GET _ _ _ Hext Hqin).
Qed.

(** Growth behind an allocated last block. *)
Lemma wl_extend_heap (st : heap) (lists : Z -> list Z) (words size ps pa : Z) :
  well_linked st lists ->
  size = (if negb (words mod 2 =? 0) then size_t ((words + 1) * WSIZE)
          else size_t (words * WSIZE)) ->
  16 <= size < 2 ^ 32 -> size mod 8 = 0 ->
  mem_brk st + size <= mem_max_addr st -> linkable st (mem_brk st) ->
  GET_SIZE st (mem_brk st - 8) = Ok ps -> 8 <= ps -> heap_listp st <= mem_brk st - ps ->
  GET_ALLOC st (HDRP (mem_brk st - ps)) = Ok pa -> pa <> 0 ->
  (forall k x, 0 <= k < CLASS_CNT -> In x (lists k) -> x + 12 <= mem_brk st - ps) ->
  exists st' L1 L2,
    extend_heap st words = Ok (mem_brk st, st') /\
    mem_start_brk st' = mem_start_brk st /\ mem_max_addr st' = mem_max_addr st /\
    heap_listp st' = heap_listp st /\ mem_brk st' = mem_brk st + size /\
    sbrk_log st' = size :: sbrk_log st /\
    lists (class_of size) = L1 ++ L2 /\
    well_linked st' (linked lists (class_of size) L1 (mem_brk st) L2) /\
    GET st' (HDRP (mem_brk st)) = Ok (PACK size 0) /\
    GET st' (mem_brk st + size - 8) = Ok (PACK size 0) /\
    GET st' (mem_brk st + size - 4) = Ok (PACK 0 1) /\
    (forall q, q + 4 <= mem_brk st - 4 -> in_heap st q 4 = true -> off_links st lists q ->
               GET st' q = GET st q).
Proof.
  intros Hwl Hsize HS Hm Hfit Hbp Hps Hps8 Hprev Hpa Hpa0 Hout.
  set (bp := mem_brk st) in *.
  assert (in_heap st (bp - 8) 4 = true) as Hfin.
  { unfold GET_SIZE in Hps. apply res_bind_ok in Hps as (w & Hw & _).
    eapply GET_in_heap; eauto. }
  assert (in_heap st (HDRP (bp - ps)) 4 = true) as Hhin.
  { unfold GET_ALLOC in Hpa. apply res_bind_ok in Hpa as (w & Hw & _).
    eapply GET_in_heap; eauto. }
  destruct (extend_heap_prefix st lists words size Hwl Hsize HS Hm Hfit Hbp)
    as (st1 & L1 & L2 & Hext & R1 & R2 & R3 & R4 & R5 & HL & Hwl1 & Hh & Hf & He & Hfr).
  { rewrite in_heap_spec in *. fold bp. lia. }
  { intros k x Hk Hx. specialize (Hout k x Hk Hx). fold bp. lia. }
  fold bp in Hext, R4, Hh, Hf, He, Hfr.
  assert (forall q, bp - ps - 4 <= q -> off_links st lists q) as Hoff.
  { intros q Hq k Hk. pose proof (head_cell_below st k Hk). split; [unfold sep; lia |].
    apply List.Forall_forall. intros x Hx. specialize (Hout k x Hk Hx). unfold sep. lia. }
  exists st1, L1, L2.
  split; [| split; [exact R1 | split; [exact R2 | split; [exact R3 | split; [exact R4 |
            split; [exact R5 | split; [exact HL | split; [exact Hwl1 | split; [exact Hh |
            split; [exact Hf | split; [exact He | exact Hfr]]]]]]]]]]].
  rewrite Hext. unfold coalesce.
  assert (PREV_BLKP st1 bp = Ok (bp - ps)) as HP.
  { unfold PREV_BLKP, DSIZE. rewrite (GET_SIZE_frame st st1 (bp - 8)), Hps; [reflexivity |].
    apply Hfr; [lia | exact Hfin | apply Hoff; lia]. }
  assert (GET_SIZE st1 (HDRP bp) = Ok size) as Hs1.
  { unfold GET_SIZE. rewrite Hh, bind_ok. f_equal.
    apply (PACK_size size 0 ltac:(lia) Hm ltac:(lia)). }
  assert (NEXT_BLKP st1 bp = Ok (bp + size)) as HN
    by (unfold NEXT_BLKP; change (bp - WSIZE) with (HDRP bp); rewrite Hs1; reflexivity).
  assert (GET_ALLOC st1 (HDRP (bp + size)) = Ok 1) as Hna.
  { unfold GET_ALLOC. change (HDRP (bp + size)) with (bp + size - 4).
    rewrite He, bind_ok. reflexivity. }
  rewrite HP, bind_ok.
  rewrite (GET_ALLOC_frame st st1 (HDRP (bp - ps))), Hpa, bind_ok
    by (apply Hfr; unfold HDRP, WSIZE in *; [lia | exact Hhin | apply Hoff; lia]).
  rewrite HN, bind_ok, Hna, bind_ok, Hs1, bind_ok.
  destruct (Z.eqb_spec pa 0); [contradiction |]. reflexivity.
Qed.

(** X18.  [extend_heap] when [mem_sbrk] grants the request and the last
    block of the heap is allocated: it returns the old break; the new bytes
    are one free block whose header took the place of the old epilogue
    header, on the list of its class; a new epilogue header (0, allocated)
    ends the heap; the lists are well formed; and of the old heap only head
    cells, link fields and the old epilogue were written. *)
Theorem extend_heap_adds_block (st : heap) (lists : Z -> list Z) (words size ps pa : Z) :
  well_linked st lists ->
  size = (if negb (words mod 2 =? 0) then size_t ((words + 1) * WSIZE)
          else size_t (words * WSIZE)) ->
  16 <= size < 2 ^ 32 -> size mod 8 = 0 ->
  mem_brk st + size <= mem_max_addr st -> linkable st (mem_brk st) ->
  GET_SIZE st (mem_brk st - 8) = Ok ps -> 8 <= ps -> heap_listp st <= mem_brk st - ps ->
  GET_ALLOC st (HDRP (mem_brk st - ps)) = Ok pa -> pa <> 0 ->
  (forall k x, 0 <= k < CLASS_CNT -> In x (lists k) -> x + 12 <= mem_brk st - ps) ->
  exists st' L1 L2,
    extend_heap st words = Ok (mem_brk st, st') /\
    mem_start_brk st' = mem_start_brk st /\ mem_max_addr st' = mem_max_addr st /\
    heap_listp st' = heap_listp st /\ mem_brk st' = mem_brk st + size /\
    sbrk_log st' = size :: sbrk_log st /\
    lists (class_of size) = L1 ++ L2 /\
    well_linked st' (linked lists (class_of size) L1 (mem_brk st) L2) /\
    GET st' (HDRP (mem_brk st)) = Ok (PACK size 0) /\
    GET st' (mem_brk st + size - 8) = Ok (PACK size 0) /\
    GET st' (mem_brk st + size - 4) = Ok (PACK 0 1) /\
    (forall q, q + 4 <= mem_brk st - 4 -> in_heap st q 4 = true -> off_links st lists q ->
               GET st' q = GET st q).
Proof. apply wl_extend_heap. Qed.

Lemma extend_heap_adds_block_witness :
  exists st' L1 L2,
    extend_heap Run.filled 64 = Ok (mem_brk Run.filled, st') /\
    mem_start_brk st' = mem_start_brk Run.filled /\
    mem_max_addr st' = mem_max_addr Run.filled /\
    heap_listp st' = heap_listp Run.filled /\ mem_brk st' = mem_brk Run.filled + 256 /\
    sbrk_log st' = 256 :: sbrk_log Run.filled /\
    Run.lists_of Run.filled (class_of 256) = L1 ++ L2 /\
    well_linked st' (linked (Run.lists_of Run.filled) (class_of 256) L1
                            (mem_brk Run.filled) L2) /\
    GET st' (HDRP (mem_brk Run.filled)) = Ok (PACK 256 0) /\
    GET st' (mem_brk Run.filled + 256 - 8) = Ok (PACK 256 0) /\
    GET st' (mem_brk Run.filled + 256 - 4) = Ok (PACK 0 1) /\
    (forall q, q + 4 <= mem_brk Run.filled - 4 -> in_heap Run.filled q 4 = true ->
               off_links Run.filled (Run.lists_of Run.filled) q ->
               GET st' q = GET Run.filled q).
Proof.
  apply (extend_heap_adds_block Run.filled (Run.lists_of Run.filled) 64 256 256 1).
  - check_lists.
  - reflexivity.
  - vm_compute. split; [discriminate | reflexivity].
  - reflexivity.
  - vm_compute. discriminate.
  - check_props.
  - vm_compute. reflexivity.
  - lia.
  - vm_compute. discriminate.
  - vm_compute. reflexivity.
  - discriminate.
  - intros k x Hk. each_class k Hk ltac:(intros Hx; vm_compute in Hx; contradiction).
Defined.

(** The loop of [mm_init]: the head cells of classes [s] to [s + n - 1] are
    set to NULL. *)
Lemma init_heads (n : nat) :
  forall (s : nat) (st : heap),
    in_heap st (heap_listp st + Z.of_nat s * 4) (4 * Z.of_nat n) = true ->
    exists st',
      foldl (fun acc class_id =>
               st ← acc; SET_HEAD st (heap_listp st + Z.of_nat class_id * WSIZE) NULL)
            (Ok st) (seq s n) = Ok st' /\
      same_shape st st' /\
      (forall i, Z.of_nat s <= i < Z.of_nat s + Z.of_nat n ->
                 GET st' (heap_listp st + i * 4) = Ok 0) /\
      (forall q, q + 4 <= heap_listp st + Z.of_nat s * 4 \/
                 heap_listp st + (Z.of_nat s + Z.of_nat n) * 4 <= q ->
                 GET st' q = GET st q).
Proof.
  induction n as [| n IH]; intros s st Hin.
  - exists st. simpl. split; [reflexivity |]. split; [apply same_shape_refl |].
    split; [intros i Hi; lia | reflexivity].
  - rewrite in_heap_spec in Hin.
    destruct (PUT_ok st (heap_listp st + Z.of_nat s * 4) 0) as [st1 H1];
      [apply in_heap_spec; lia |].
    pose proof (PUT_shape _ _ _ _ H1) as Hsh1.
    assert (heap_listp st1 = heap_listp st) as Hl1 by apply Hsh1.
    destruct (IH (S s) st1) as (st' & Hfold & Hsh & Hget & Hfr).
    { rewrite (same_shape_in_heap _ _ _ _ Hsh1), Hl1. apply in_heap_spec. lia. }
    exists st'. split; [| split; [eapply same_shape_trans; eauto | split]].
    + cbn [seq foldl]. rewrite bind_ok.
      change (SET_HEAD st (heap_listp st + Z.of_nat s * WSIZE) NULL)
        with (PUT st (heap_listp st + Z.of_nat s * 4) 0).
      rewrite H1. exact Hfold.
    + intros i Hi. rewrite Hl1 in Hget, Hfr.
      destruct (Z.eq_dec i (Z.of_nat s)) as [-> | Hne].
      * rewrite Hfr by lia. rewrite (GET_PUT_eq _ _ _ _ H1). reflexivity.
      * apply Hget. lia.
    + intros q Hq. rewrite Hl1 in Hfr. rewrite Hfr by lia.
      apply (GET_PUT_ne _ _ _ _ _ H1). unfold sep. lia.
Qed.

Lemma GET_set_listp (st : heap) (a q : Z) : GET (set_listp st a) q = GET st q.
Proof. reflexivity. Qed.

Lemma PUT_set_listp (st st' : heap) (a q v : Z) :
  PUT st q v = Ok st' -> PUT (set_listp st a) q v = Ok (set_listp st' a).
Proof.
  unfold PUT, store_bytes. change (in_heap (set_listp st a)) with (in_heap st).
  destruct (_ =? 0); [intros [= <-]; reflexivity |].
  destruct (in_heap st q _); [intros [= <-]; reflexivity | discriminate].
Qed.

(** The stores of [mm_init] between its two calls for memory: fourteen head
    cells, the padding word, the prologue and the first epilogue header. *)
Lemma init_writes {A : Type} (st0 : heap) (p : Z) (k : heap -> res A) :
  in_heap st0 p 72 = true ->
  exists stW,
    (st ← foldl (fun acc class_id =>
                   st ← acc; SET_HEAD st (heap_listp st + Z.of_nat class_id * WSIZE) NULL)
                (Ok (set_listp st0 p)) (seq 0 (Z.to_nat CLASS_CNT));
     let st := set_listp st (heap_listp st + CLASS_CNT * WSIZE) in
     st ← PUT st (heap_listp st) 0;
     st ← PUT st (heap_listp st + 1 * WSIZE) (PACK DSIZE 1);
     st ← PUT st (heap_listp st + 2 * WSIZE) (PACK DSIZE 1);
     st ← PUT st (heap_listp st + 3 * WSIZE) (PACK 0 1);
     let st := set_listp st (heap_listp st + 2 * WSIZE) in
     k st) = k stW /\
    same_shape (set_listp st0 (p + 64)) stW /\
    (forall i, 0 <= i < 14 -> GET stW (p + i * 4) = Ok 0) /\
    GET stW (p + 60) = Ok (PACK 8 1) /\ GET stW (p + 64) = Ok (PACK 8 1) /\
    GET stW (p + 68) = Ok (PACK 0 1) /\
    (forall q, q + 4 <= p \/ p + 72 <= q -> GET stW q = GET st0 q).
Proof.
  intros Hin. rewrite in_heap_spec in Hin.
  destruct (init_heads 14 0 (set_listp st0 p)) as (st1 & Hfold & Hsh1 & Hget1 & Hfr1).
  { apply in_heap_spec. simpl. change (mem_brk (set_listp st0 p)) with (mem_brk st0). lia. }
  simpl heap_listp in Hget1, Hfr1.
  assert (forall st, same_shape (set_listp st0 p) st -> forall q,
            p <= q -> q + 4 <= p + 72 -> in_heap st q 4 = true) as Hin'.
  { intros st Hsh q Ha Hb. rewrite (same_shape_in_heap _ _ _ _ Hsh).
    apply in_heap_spec. change (mem_brk (set_listp st0 p)) with (mem_brk st0). simpl. lia. }
  assert (heap_listp st1 = p) as Hl1 by apply Hsh1.
  destruct (PUT_ok st1 (p + 56) 0) as [st2 H2]; [apply (Hin' st1 Hsh1); lia |].
  pose proof (same_shape_trans _ _ _ Hsh1 (PUT_shape _ _ _ _ H2)) as Hsh2.
  destruct (PUT_ok st2 (p + 60) (PACK 8 1)) as [st3 H3]; [apply (Hin' st2 Hsh2); lia |].
  pose proof (same_shape_trans _ _ _ Hsh2 (PUT_shape _ _ _ _ H3)) as Hsh3.
  destruct (PUT_ok st3 (p + 64) (PACK 8 1)) as [st4 H4]; [apply (Hin' st3 Hsh3); lia |].
  pose proof (same_shape_trans _ _ _ Hsh3 (PUT_shape _ _ _ _ H4)) as Hsh4.
  destruct (PUT_ok st4 (p + 68) (PACK 0 1)) as [st5 H5]; [apply (Hin' st4 Hsh4); lia |].
  pose proof (same_shape_trans _ _ _ Hsh4 (PUT_shape _ _ _ _ H5)) as Hsh5.
  exists (set_listp st5 (p + 64)). split; [| split; [| split; [| split; [| split; [| split]]]]].
  - change (Z.to_nat CLASS_CNT) with 14%nat. rewrite Hfold, bind_ok. cbv zeta.
    change DSIZE with 8.
    rewrite Hl1. change (p + CLASS_CNT * WSIZE) with (p + 56).
    simpl heap_listp.
    rewrite (PUT_set_listp _ _ (p + 56) _ _ H2), bind_ok. simpl heap_listp.
    replace (p + 56 + 1 * WSIZE) with (p + 60) by (unfold WSIZE; lia).
    rewrite (PUT_set_listp _ _ (p + 56) _ _ H3), bind_ok. simpl heap_listp.
    replace (p + 56 + 2 * WSIZE) with (p + 64) by (unfold WSIZE; lia).
    rewrite (PUT_set_listp _ _ (p + 56) _ _ H4), bind_ok. simpl heap_listp.
    replace (p + 56 + 3 * WSIZE) with (p + 68) by (unfold WSIZE; lia).
    rewrite (PUT_set_listp _ _ (p + 56) _ _ H5), bind_ok. simpl heap_listp.
    replace (p + 56 + 2 * WSIZE) with (p + 64) by (unfold WSIZE; lia). reflexivity.
  - destruct Hsh5 as (E1 & E2 & E3 & E4 & E5 & E6). unfold same_shape. simpl in *. tauto.
  - intros i Hi. rewrite GET_set_listp.
    rewrite (GET_PUT_ne _ _ _ _ _ H5) by (unfold sep; lia).
    rewrite (GET_PUT_ne _ _ _ _ _ H4) by (unfold sep; lia).
    rewrite (GET_PUT_ne _ _ _ _ _ H3) by (unfold sep; lia).
    rewrite (GET_PUT_ne _ _ _ _ _ H2) by (unfold sep; lia).
    apply Hget1. lia.
  - rewrite GET_set_listp.
    rewrite (GET_PUT_ne _ _ _ _ _ H5) by (unfold sep; lia).
    rewrite (GET_PUT_ne _ _ _ _ _ H4) by (unfold sep; lia).
    rewrite (GET_PUT_eq _ _ _ _ H3). reflexivity.
  - rewrite GET_set_listp.
    rewrite (GET_PUT_ne _ _ _ _ _ H5) by (unfold sep; lia).
    rewrite (GET_PUT_eq _ _ _ _ H4). reflexivity.
  - rewrite GET_set_listp. rewrite (GET_PUT_eq _ _ _ _ H5). reflexivity.
  - intros q Hq. rewrite GET_set_listp.
    rewrite (GET_PUT_ne _ _ _ _ _ H5) by (unfold sep; lia).
    rewrite (GET_PUT_ne _ _ _ _ _ H4) by (unfold sep; lia).
    rewrite (GET_PUT_ne _ _ _ _ _ H3) by (unfold sep; lia).
    rewrite (GET_PUT_ne _ _ _ _ _ H2) by (unfold sep; lia).
    rewrite Hfr1 by lia. reflexivity.
Qed.


Lemma init_lists_empty (st : heap) (p : Z) :
  heap_listp st = p + 64 -> (forall i, 0 <= i < 14 -> GET st (p + i * 4) = Ok 0) ->
  well_linked st (fun _ => []).
Proof.
  intros Hl Hget. split; [| intros k k' x y _ _ _ []].
  intros k Hk. split; [| split; [exact I | split; [| exact I]]].
  - unfold class_list, GET_HEAD.
    replace (head_cell st k) with (p + k * 4)
      by (unfold head_cell, CLASS_CNT, WSIZE; rewrite Hl; lia).
    rewrite (Hget k Hk), bind_ok. rewrite walk_fuel_eq. reflexivity.
  - exists []. split; [reflexivity |]. split; [exact I | constructor].
Qed.

(** The heap [mm_init] builds, with the limit of the region. *)
Lemma init_heap (st : heap) :
  0 <= mem_start_brk st -> mem_brk st + 328 <= mem_max_addr st ->
  exists st',
    mm_init st = Ok (0, st') /\
    heap_listp st' = mem_brk st + 64 /\ mem_start_brk st' = mem_start_brk st /\
    mem_brk st' = mem_brk st + 328 /\ sbrk_log st' = 256 :: 72 :: sbrk_log st /\
    mem_max_addr st' = mem_max_addr st /\
    well_linked st' (fun k => if k =? 6 then [mem_brk st + 72] else []) /\
    GET st' (mem_brk st + 60) = Ok (PACK 8 1) /\ GET st' (mem_brk st + 64) = Ok (PACK 8 1) /\
    GET st' (mem_brk st + 68) = Ok (PACK 256 0) /\
    GET st' (mem_brk st + 320) = Ok (PACK 256 0) /\
    GET st' (mem_brk st + 324) = Ok (PACK 0 1) /\
    (forall q, in_heap st q 4 = true -> GET st' q = GET st q).
Proof.
  intros Hstart Hroom. set (p := mem_brk st) in *.
  assert (mem_start_brk st <= p) as Hp by (unfold p, mem_brk; lia).
  destruct (mem_sbrk_extends st 72 ltac:(lia) ltac:(lia))
    as (st0 & Hsbrk & Hext & Hbrk0 & Hmax0 & Hlog0 & _). fold p in Hsbrk, Hbrk0.
  pose proof Hext as (Hstart0 & _ & _).
  destruct (init_writes st0 p
              (fun st => '(bp, st) ← extend_heap st (CHUNKSIZE / WSIZE);
                         if bp =? NULL then Ok (-1, st) else Ok (0, st)))
    as (stW & Hphase & HshW & Hheads & Hph & Hpf & Hep & HfrW).
  { apply in_heap_spec. lia. }
  assert (mm_init st = ('(bp, st) ← extend_heap stW (CHUNKSIZE / WSIZE);
                        if bp =? NULL then Ok (-1, st) else Ok (0, st))) as Hinit.
  { unfold mm_init. change ((CLASS_CNT + 4) * WSIZE) with 72. rewrite Hsbrk. exact Hphase. }
  destruct HshW as (W1 & W2 & W3 & W4 & W5 & W6). simpl in W1, W2, W4, W5, W6.
  assert (mem_brk stW = p + 72) as HbrkW.
  { unfold mem_brk in *. rewrite W1, W3. exact Hbrk0. }
  pose proof (init_lists_empty stW p W6 Hheads) as HwlW.
  destruct (wl_extend_heap stW (fun _ => []) 64 256 8 1 HwlW)
    as (st' & L1 & L2 & Hext' & R1 & R2 & R3 & R4 & R5 & HL & Hwl' & Hh & Hf & He & Hfr);
    rewrite ?HbrkW.
  { reflexivity. }
  { change (2 ^ 32) with 4294967296. lia. }
  { reflexivity. }
  { lia. }
  { unfold linkable, NULL. rewrite W6. change (2 ^ 32) with 4294967296. lia. }
  { replace (p + 72 - 8) with (p + 64) by lia. unfold GET_SIZE. rewrite Hpf. reflexivity. }
  { lia. }
  { lia. }
  { replace (HDRP (p + 72 - 8)) with (p + 60) by (unfold HDRP, WSIZE; lia).
    unfold GET_ALLOC. rewrite Hph. reflexivity. }
  { discriminate. }
  { intros k x _ []. }
  rewrite HbrkW in *.
  destruct L1; [| discriminate HL]. destruct L2; [| discriminate HL].
  exists st'. split; [| split; [congruence | split; [congruence | split; [lia | split;
                        [congruence | split; [congruence | split; [| split; [| split;
                        [| split; [| split; [| split]]]]]]]]]]].
  - rewrite Hinit. change (CHUNKSIZE / WSIZE) with 64. rewrite Hext', bind_ok. simpl.
    destruct (Z.eqb_spec (p + 72) NULL) as [E | _]; [unfold NULL in E; lia | reflexivity].
  - apply (wl_ext st' (linked (fun _ => []) (class_of 256) [] (p + 72) [])); [| exact Hwl'].
    intros k Hk. unfold linked. change (class_of 256) with 6.
    destruct (k =? 6); reflexivity.
  - rewrite <- Hph. apply Hfr; [lia | | ].
    + apply in_heap_spec. rewrite HbrkW, W1, Hstart0. lia.
    + intros k Hk. split; [| constructor]. unfold head_cell, CLASS_CNT, WSIZE, sep in *.
      rewrite W6. lia.
  - rewrite <- Hpf. apply Hfr; [lia | | ].
    + apply in_heap_spec. rewrite HbrkW, W1, Hstart0. lia.
    + intros k Hk. split; [| constructor]. unfold head_cell, CLASS_CNT, WSIZE, sep in *.
      rewrite W6. lia.
  - replace (p + 68) with (HDRP (p + 72)) by (unfold HDRP, WSIZE; lia). exact Hh.
  - replace (p + 320) with (p + 72 + 256 - 8) by lia. exact Hf.
  - replace (p + 324) with (p + 72 + 256 - 4) by lia. exact He.
  - intros q Hq. pose proof Hq as Hq'. rewrite in_heap_spec in Hq'. fold p in Hq'.
    rewrite Hfr.
    + rewrite HfrW by lia. apply (extends_GET _ _ _ Hext Hq).
    + lia.
    + apply in_heap_spec. rewrite HbrkW, W1, Hstart0. lia.
    + intros k Hk. split; [| constructor]. unfold head_cell, CLASS_CNT, WSIZE, sep in *.
      rewrite W6. lia.
Qed.

(** X19.  [mm_init] on a region with room for 328 more bytes returns 0 and
    builds the initial heap at the old break [p]: fourteen empty lists but
    for class 6, which holds the one free block of 256 bytes at [p + 72];
    prologue header and footer (8, allocated) at [p + 60] and [p + 64];
    header and footer (256, free) of the block; the epilogue header
    (0, allocated) in the last word; [heap_listp] is [p + 64]; and the two
    requests, of 72 and of 256 bytes, are the only ones made.  The bytes
    below the old break are untouched. *)
Theorem mm_init_builds_heap (st : heap) :
  0 <= mem_start_brk st -> mem_brk st + 328 <= mem_max_addr st ->
  exists st',
    mm_init st = Ok (0, st') /\
    heap_listp st' = mem_brk st + 64 /\ mem_start_brk st' = mem_start_brk st /\
    mem_brk st' = mem_brk st + 328 /\ sbrk_log st' = 256 :: 72 :: sbrk_log st /\
    well_linked st' (fun k => if k =? 6 then [mem_brk st + 72] else []) /\
    GET st' (mem_brk st + 60) = Ok (PACK 8 1) /\ GET st' (mem_brk st + 64) = Ok (PACK 8 1) /\
    GET st' (mem_brk st + 68) = Ok (PACK 256 0) /\
    GET st' (mem_brk st + 320) = Ok (PACK 256 0) /\
    GET st' (mem_brk st + 324) = Ok (PACK 0 1) /\
    (forall q, in_heap st q 4 = true -> GET st' q = GET st q).
Proof.
  intros Hstart Hroom.
  destruct (init_heap st Hstart Hroom)
    as (st' & H1 & H2 & H3 & H4 & H5 & _ & H6 & H7 & H8 & H9 & H10 & H11 & H12).
  exists st'. auto 15.
Qed.

Lemma mm_init_builds_heap_witness :
  exists st',
    mm_init (Run.region 4096 Run.MAX_HEAP (fun _ => x00)) = Ok (0, st') /\
    heap_listp st' = mem_brk (Run.region 4096 Run.MAX_HEAP (fun _ => x00)) + 64 /\
    mem_start_brk st' = mem_start_brk (Run.region 4096 Run.MAX_HEAP (fun _ => x00)) /\
    mem_brk st' = mem_brk (Run.region 4096 Run.MAX_HEAP (fun _ => x00)) + 328 /\
    sbrk_log st' = 256 :: 72 :: sbrk_log (Run.region 4096 Run.MAX_HEAP (fun _ => x00)) /\
    well_linked st'
      (fun k => if k =? 6 then [mem_brk (Run.region 4096 Run.MAX_HEAP (fun _ => x00)) + 72]
                else []) /\
    GET st' (mem_brk (Run.region 4096 Run.MAX_HEAP (fun _ => x00)) + 60) = Ok (PACK 8 1) /\
    GET st' (mem_brk (Run.region 4096 Run.MAX_HEAP (fun _ => x00)) + 64) = Ok (PACK 8 1) /\
    GET st' (mem_brk (Run.region 4096 Run.MAX_HEAP (fun _ => x00)) + 68) = Ok (PACK 256 0) /\
    GET st' (mem_brk (Run.region 4096 Run.MAX_HEAP (fun _ => x00)) + 320)
    = Ok (PACK 256 0) /\
    GET st' (mem_brk (Run.region 4096 Run.MAX_HEAP (fun _ => x00)) + 324) = Ok (PACK 0 1) /\
    (forall q, in_heap (Run.region 4096 Run.MAX_HEAP (fun _ => x00)) q 4 = true ->
               GET st' q = GET (Run.region 4096 Run.MAX_HEAP (fun _ => x00)) q).
Proof.
  apply (mm_init_builds_heap (Run.region 4096 Run.MAX_HEAP (fun _ => x00))).
  - vm_compute. discriminate.
  - vm_compute. discriminate.
Defined.

(** X20.  [mm_init] on a region without room for 328 more bytes returns -1.
    If not even the 72 bytes of head cells, prologue and epilogue fit, the
    heap is untouched and [heap_listp] is left at the failure value
    [(char * )-1] of [mem_sbrk]; otherwise the 72 bytes were taken and
    written, [heap_listp] points at the prologue, and the request for the
    first chunk of 256 bytes was refused.  Either way [heap_listp] is not
    NULL afterwards. *)
Theorem mm_init_fails (st : heap) :
  0 <= mem_start_brk st -> mem_max_addr st < mem_brk st + 328 ->
  exists st',
    mm_init st = Ok (-1, st') /\ heap_listp st' <> NULL /\
    (mem_max_addr st < mem_brk st + 72 ->
     st' = set_listp (log_request st 72) (2 ^ 64 - 1)) /\
    (mem_brk st + 72 <= mem_max_addr st ->
     heap_listp st' = mem_brk st + 64 /\ mem_brk st' = mem_brk st + 72 /\
     sbrk_log st' = 256 :: 72 :: sbrk_log st /\
     forall q, in_heap st q 4 = true -> GET st' q = GET st q).
Proof.
  intros Hstart Hroom. set (p := mem_brk st) in *.
  assert (mem_start_brk st <= p) as Hp by (unfold p, mem_brk; lia).
  destruct (Z_lt_le_dec (mem_max_addr st) (p + 72)) as [Hno | Hyes].
  - exists (set_listp (log_request st 72) (2 ^ 64 - 1)).
    split; [| split; [discriminate | split; [reflexivity | intros; lia]]].
    unfold mm_init, Memlib.mem_sbrk. change ((CLASS_CNT + 4) * WSIZE) with 72.
    change (mem_max_addr (log_request st 72)) with (mem_max_addr st).
    change (mem_brk (log_request st 72)) with p.
    destruct (Z.ltb_spec (mem_max_addr st) (p + 72)); [| lia]. reflexivity.
  - destruct (mem_sbrk_extends st 72 ltac:(lia) Hyes)
      as (st0 & Hsbrk & Hext & Hbrk0 & Hmax0 & Hlog0 & _). fold p in Hsbrk, Hbrk0.
    pose proof Hext as (Hstart0 & _ & _).
    destruct (init_writes st0 p
                (fun st => '(bp, st) ← extend_heap st (CHUNKSIZE / WSIZE);
                           if bp =? NULL then Ok (-1, st) else Ok (0, st)))
      as (stW & Hphase & HshW & _ & _ & _ & _ & HfrW).
    { apply in_heap_spec. lia. }
    assert (mm_init st = ('(bp, st) ← extend_heap stW (CHUNKSIZE / WSIZE);
                          if bp =? NULL then Ok (-1, st) else Ok (0, st))) as Hinit.
    { unfold mm_init. change ((CLASS_CNT + 4) * WSIZE) with 72. rewrite Hsbrk. exact Hphase. }
    destruct HshW as (W1 & W2 & W3 & W4 & W5 & W6). simpl in W1, W2, W4, W5, W6.
    assert (mem_brk stW = p + 72) as HbrkW.
    { unfold mem_brk in *. rewrite W1, W3. exact Hbrk0. }
    exists (log_request stW 256).
    split; [| split; [| split; [intros; lia | intros _]]].
    + rewrite Hinit. change (CHUNKSIZE / WSIZE) with 64.
      rewrite (Exhaustion.extend_heap_refused stW 64 256 eq_refl); [reflexivity |].
      rewrite HbrkW, W2, Hmax0. lia.
    + simpl. rewrite W6. unfold NULL. lia.
    + simpl. split; [exact W6 |]. split; [exact HbrkW |]. split; [congruence |].
      intros q Hq. change (GET (log_request stW 256) q) with (GET stW q).
      pose proof Hq as Hq'. rewrite in_heap_spec in Hq'. fold p in Hq'.
      rewrite HfrW by lia. apply (extends_GET _ _ _ Hext Hq).
Qed.

Lemma mm_init_fails_witness :
  exists st',
    mm_init (Run.region 4096 100 (fun _ => x00)) = Ok (-1, st') /\ heap_listp st' <> NULL /\
    (mem_max_addr (Run.region 4096 100 (fun _ => x00))
     < mem_brk (Run.region 4096 100 (fun _ => x00)) + 72 ->
     st' = set_listp (log_request (Run.region 4096 100 (fun _ => x00)) 72) (2 ^ 64 - 1)) /\
    (mem_brk (Run.region 4096 100 (fun _ => x00)) + 72
     <= mem_max_addr (Run.region 4096 100 (fun _ => x00)) ->
     heap_listp st' = mem_brk (Run.region 4096 100 (fun _ => x00)) + 64 /\
     mem_brk st' = mem_brk (Run.region 4096 100 (fun _ => x00)) + 72 /\
     sbrk_log st' = 256 :: 72 :: sbrk_log (Run.region 4096 100 (fun _ => x00)) /\
     forall q, in_heap (Run.region 4096 100 (fun _ => x00)) q 4 = true ->
               GET st' q = GET (Run.region 4096 100 (fun _ => x00)) q).
Proof.
  apply (mm_init_fails (Run.region 4096 100 (fun _ => x00))).
  - vm_compute. discriminate.
  - vm_compute. reflexivity.
Defined.

End Grow.

(** ** Allocation from the lists *)
Module Alloc.
Import Mm Inv Frame MemFacts RW Search Links Writes Insert Remove Tags Place Fit Linked.
Import Coalesce.

#[local] Opaque walk_fuel.

Ltac check_clear :=
  let k := fresh "k" in let x := fresh "x" in let c := fresh "c" in
  let Hk := fresh "Hk" in
  intros k x c Hk;
  each_class k Hk
    ltac:(let Hx := fresh "Hx" in let Hc := fresh "Hc" in
          intros Hx Hc; vm_compute in Hx;
          repeat match goal with
            | H : False |- _ => destruct H
            | H : _ \/ _ |- _ => destruct H as [<- | H]
            end;
          vm_compute in Hc; injection Hc as <-;
          (split; [vm_compute; reflexivity |]);
          (split; [vm_compute; discriminate |]);
          check_outside).

(** X21.  [malloc] of 1 to [2^64 - 16] bytes when [find_fit] finds a block,
    on well-formed lists whose blocks lie in the heap and hold no other
    listed node: it returns the block found, which was on a list of the class
    of the adjusted size or a higher one and is on no list afterwards; the
    block is tagged allocated with a size that leaves room for the requested
    bytes and both tags; the lists are still well formed; no memory was
    requested; and outside the block only head cells and link fields were
    written.  (Larger requests, whose adjusted size wraps to 0 or 8, are left
    out.) *)
Theorem malloc_takes_fit (st : heap) (lists : Z -> list Z) (size bp : Z) :
  well_linked st lists -> clear_blocks st lists -> 0 <= mem_start_brk st ->
  0 < size <= 2 ^ 64 - 16 ->
  find_fit st (adjust size) = Ok bp -> bp <> NULL ->
  exists st' lists' csize,
    malloc st size = Ok (bp, st') /\ same_shape st st' /\
    (exists k, class_of (adjust size) <= k < CLASS_CNT /\ In bp (lists k)) /\
    GET_SIZE st (HDRP bp) = Ok csize /\
    well_linked st' lists' /\ (forall k, 0 <= k < CLASS_CNT -> ~ In bp (lists' k)) /\
    GET_ALLOC st' (HDRP bp) = Ok 1 /\
    (exists s, GET_SIZE st' (HDRP bp) = Ok s /\ size + 8 <= s <= csize) /\
    (forall q, q + 4 <= bp - 4 \/ bp + csize - 4 <= q -> off_links st lists q ->
               GET st' q = GET st q).
Proof.
  intros Hwl Hclear Hstart Hsize Hfit Hbp. pose proof Hwl as [Hcl _].
  set (asize := adjust size) in *.
  assert (16 <= asize /\ asize mod 8 = 0 /\ size + 8 <= asize) as (Ha16 & Ham & Hroom).
  { unfold asize. rewrite (Adjust.adjust_in_range size Hsize). unfold roundUp8.
    change (2 ^ 64) with 18446744073709551616 in *. Z.div_mod_to_equations. lia. }
  (* the block found is listed and large enough *)
  rewrite (find_fit_first_fit st asize lists) in Hfit
    by (intros k Hk; apply Hcl; pose proof (class_of_range asize); lia).
  destruct (first_fit_concat st asize bp lists (upward (class_of asize))) as
    (before & c & after & Hup & Hfc & _); [| exact Hfit | exact Hbp |].
  { apply List.Forall_forall. intros k Hk. apply upward_range in Hk.
    apply List.Forall_forall. intros x Hx.
    apply (wl_linkable st lists k x Hwl ltac:(pose proof (class_of_range asize); lia) Hx). }
  assert (class_of asize <= c < CLASS_CNT) as Hc.
  { apply upward_range. rewrite Hup. apply in_or_app. right. left. reflexivity. }
  assert (0 <= c < CLASS_CNT) as Hc0 by (pose proof (class_of_range asize); lia).
  destruct (Hcl c Hc0) as (_ & _ & (ss & Hss & Hasc & _) & _).
  destruct (first_fit_minimal st asize (lists c) ss bp Hss Hasc Hfc Hbp)
    as (Hin & csize & Hcs & Hge & _).
  destruct (wl_size st lists c bp Hwl Hc0 Hin) as (csize' & Hcs' & Hclass).
  assert (csize' = csize) as -> by congruence.
  destruct (Hclear c bp csize Hc0 Hin Hcs) as (Hbin & Hreach & Hout).
  rewrite <- Hclass in Hin.
  destruct (wl_place st lists bp asize csize Hwl Hcs Hin ltac:(lia) Ham Hstart Hbin Hreach)
    as (st' & lists' & Hplace & Hsh & Hwl' & Htags & Hfr).
  { intros k x Hk Hx. apply (Hout k x Hk Hx). }
  destruct (GET_SIZE_range _ _ _ Hcs) as [Hcr Hcm].
  exists st', lists', csize.
  split; [| split; [exact Hsh | split; [| split; [exact Hcs | split; [exact Hwl' |]]]]].
  - unfold malloc. destruct (Z.eqb_spec size 0); [lia |]. fold asize.
    rewrite (find_fit_first_fit st asize lists)
      by (intros k Hk; apply Hcl; pose proof (class_of_range asize); lia).
    rewrite Hfit, bind_ok. destruct (Z.eqb_spec bp NULL); [contradiction |].
    cbn [negb]. rewrite Hplace. reflexivity.
  - exists c. rewrite Hclass in Hin. auto.
  - destruct (Z.leb_spec 16 (csize - asize)) as [Hsplit | Hwhole].
    + destruct Htags as (Hh & _ & _ & _ & Hmem).
      split; [| split; [| split; [| exact Hfr]]].
      * intros k Hk Hx. apply (Hmem k bp Hk) in Hx as [[_ Hne] | [Heq _]]; [contradiction | lia].
      * unfold GET_ALLOC. rewrite Hh, bind_ok. f_equal.
        apply (PACK_size asize 1 ltac:(lia) Ham ltac:(lia)).
      * exists asize. split; [| lia]. unfold GET_SIZE. rewrite Hh, bind_ok. f_equal.
        apply (PACK_size asize 1 ltac:(lia) Ham ltac:(lia)).
    + destruct Htags as (Hh & _ & Hmem).
      split; [| split; [| split; [| exact Hfr]]].
      * intros k Hk Hx. apply (Hmem k bp Hk) in Hx as [_ Hne]. contradiction.
      * unfold GET_ALLOC. rewrite Hh, bind_ok. f_equal.
        apply (PACK_size csize 1 Hcr Hcm ltac:(lia)).
      * exists csize. split; [| lia]. unfold GET_SIZE. rewrite Hh, bind_ok. f_equal.
        apply (PACK_size csize 1 Hcr Hcm ltac:(lia)).
Qed.

Lemma malloc_takes_fit_witness :
  exists st' lists' csize,
    malloc Run.skipped 150 = Ok (4648, st') /\ same_shape Run.skipped st' /\
    (exists k, class_of (adjust 150) <= k < CLASS_CNT /\ In 4648 (Run.lists_of Run.skipped k)) /\
    GET_SIZE Run.skipped (HDRP 4648) = Ok csize /\
    well_linked st' lists' /\ (forall k, 0 <= k < CLASS_CNT -> ~ In 4648 (lists' k)) /\
    GET_ALLOC st' (HDRP 4648) = Ok 1 /\
    (exists s, GET_SIZE st' (HDRP 4648) = Ok s /\ 150 + 8 <= s <= csize) /\
    (forall q, q + 4 <= 4648 - 4 \/ 4648 + csize - 4 <= q ->
               off_links Run.skipped (Run.lists_of Run.skipped) q ->
               GET st' q = GET Run.skipped q).
Proof.
  apply (malloc_takes_fit Run.skipped (Run.lists_of Run.skipped) 150 4648).
  - check_lists.
  - check_clear.
  - vm_compute. discriminate.
  - vm_compute. split; [reflexivity | discriminate].
  - vm_compute. reflexivity.
  - discriminate.
Defined.

Lemma class_of_mono (a b : Z) : a <= b -> class_of a <= class_of b.
Proof.
  intros H. unfold class_of.
  repeat match goal with |- context [?x <=? ?y] => destruct (Z.leb_spec x y) end; lia.
Qed.

Lemma first_fit_total (st : heap) (asize : Z) (l : list Z) :
  Forall (fun x => exists s, GET_SIZE st (HDRP x) = Ok s) l ->
  exists r, first_fit st l asize = Ok r.
Proof.
  induction 1 as [| x l [s Hs] _ [r IH]]; simpl; [eauto |].
  rewrite Hs, bind_ok. destruct (asize <=? s); eauto.
Qed.

Lemma first_fit_hit (st : heap) (asize r : Z) (l : list Z) :
  first_fit st l asize = Ok r -> r <> NULL ->
  In r l /\ exists s, GET_SIZE st (HDRP r) = Ok s /\ asize <= s.
Proof.
  induction l as [| x l IH]; simpl; intros H Hr; [injection H as <-; contradiction |].
  apply res_bind_ok in H as (s & Hs & H).
  destruct (Z.leb_spec asize s).
  - injection H as <-. split; [left; reflexivity | eauto].
  - destruct (IH H Hr) as [Hin Hex]. split; [right; exact Hin | exact Hex].
Qed.

(** X22.  On well-formed lists [find_fit] always returns, and it returns
    NULL exactly when no listed block at all has at least the wanted size:
    the classes below the one it starts from hold only smaller blocks.  A
    block it returns is listed, in the starting class or a higher one, and
    has at least the wanted size. *)
Theorem find_fit_complete (st : heap) (lists : Z -> list Z) (asize : Z) :
  well_linked st lists ->
  exists r,
    find_fit st asize = Ok r /\
    (r = NULL <->
     forall k x s, 0 <= k < CLASS_CNT -> In x (lists k) ->
                   GET_SIZE st (HDRP x) = Ok s -> s < asize) /\
    (r <> NULL ->
     exists k s, class_of asize <= k < CLASS_CNT /\ In r (lists k) /\
                 GET_SIZE st (HDRP r) = Ok s /\ asize <= s).
Proof.
  intros Hwl. pose proof Hwl as [Hcl _].
  pose proof (class_of_range asize) as Hc0.
  rewrite (find_fit_first_fit st asize lists) by (intros k Hk; apply Hcl; lia).
  set (all := concat (map lists (upward (class_of asize)))).
  assert (forall x, In x all <-> exists k, class_of asize <= k < CLASS_CNT /\ In x (lists k))
    as Hall.
  { intros x. unfold all. rewrite in_concat. split.
    - intros (l & Hl & Hx). apply in_map_iff in Hl as (k & <- & Hk).
      exists k. split; [apply upward_range, Hk | exact Hx].
    - intros (k & Hk & Hx). exists (lists k). split; [| exact Hx].
      apply in_map. unfold upward. apply in_map_iff.
      exists (Z.to_nat (k - class_of asize)). split; [lia |]. apply in_seq. lia. }
  destruct (first_fit_total st asize all) as [r Hr].
  { apply List.Forall_forall. intros x Hx. apply Hall in Hx as (k & Hk & Hx).
    destruct (wl_size st lists k x Hwl ltac:(lia) Hx) as (s & Hs & _). eauto. }
  exists r. split; [exact Hr |]. split; [split |].
  - intros ->. intros k x s Hk Hx Hs.
    destruct (Z_lt_le_dec k (class_of asize)) as [Hlow | Hhigh].
    + destruct (wl_size st lists k x Hwl Hk Hx) as (s' & Hs' & Hclass).
      assert (s' = s) as -> by congruence.
      destruct (Z_lt_le_dec s asize) as [| Hge]; [assumption |].
      pose proof (class_of_mono asize s Hge). lia.
    + apply first_fit_none in Hr.
      * rewrite List.Forall_forall in Hr. destruct (Hr x) as (t & Ht & Hlt).
        { apply Hall. exists k. split; [lia | exact Hx]. }
        assert (t = s) as -> by congruence. exact Hlt.
      * apply List.Forall_forall. intros y Hy. apply Hall in Hy as (j & Hj & Hy).
        apply (wl_linkable st lists j y Hwl ltac:(lia) Hy).
  - intros Hnone. destruct (Z.eq_dec r NULL) as [| Hne]; [assumption | exfalso].
    destruct (first_fit_hit st asize r all Hr Hne) as (Hin & s & Hs & Hge).
    apply Hall in Hin as (k & Hk & Hin).
    pose proof (Hnone k r s ltac:(lia) Hin Hs). lia.
  - intros Hne. destruct (first_fit_hit st asize r all Hr Hne) as (Hin & s & Hs & Hge).
    apply Hall in Hin as (k & Hk & Hin). exists k, s. auto.
Qed.

Lemma find_fit_complete_witness :
  exists r,
    find_fit Run.skipped 160 = Ok r /\
    (r = NULL <->
     forall k x s, 0 <= k < CLASS_CNT -> In x (Run.lists_of Run.skipped k) ->
                   GET_SIZE Run.skipped (HDRP x) = Ok s -> s < 160) /\
    (r <> NULL ->
     exists k s, class_of 160 <= k < CLASS_CNT /\ In r (Run.lists_of Run.skipped k) /\
                 GET_SIZE Run.skipped (HDRP r) = Ok s /\ 160 <= s).
Proof.
  apply (find_fit_complete Run.skipped (Run.lists_of Run.skipped) 160).
  check_lists.
Defined.

(** X23.  Whenever [calloc] returns, the bytes it was asked for, counted as
    the product of its arguments modulo [2^64], are zero at the pointer it
    returns, and that pointer is what [malloc] returned for that count; the
    heap differs from the one [malloc] left in the contents of bytes only. *)
Theorem calloc_zero_fills (st st' : heap) (nmemb size p : Z) :
  calloc st nmemb size = Ok (p, st') ->
  load_bytes st' p (size_t (nmemb * size))
  = Ok (replicate (Z.to_nat (size_t (nmemb * size))) x00) /\
  exists st1, malloc st (size_t (nmemb * size)) = Ok (p, st1) /\ same_shape st1 st'.
Proof.
  unfold calloc. intros H. set (bytes := size_t (nmemb * size)) in *.
  assert (0 <= bytes) as Hb by (unfold bytes, size_t; apply Z.mod_pos_bound; reflexivity).
  apply res_bind_ok in H as ([q st1] & Hm & H).
  apply res_bind_ok in H as (st2 & Hset & H). injection H as <- <-.
  split; [| exists st1; split; [exact Hm |]].
  - unfold memset in Hset. destruct (Z.eqb_spec bytes 0) as [E | Hne].
    + rewrite E. reflexivity.
    + destruct (in_heap st1 q bytes); [| discriminate].
      apply load_store_same in Hset. rewrite length_replicate, Z2Nat.id in Hset by lia.
      exact Hset.
  - unfold memset in Hset. destruct (bytes =? 0); [injection Hset as <-; apply same_shape_refl |].
    destruct (in_heap st1 q bytes); [| discriminate]. eapply store_bytes_shape; eauto.
Qed.

Lemma calloc_zero_fills_witness :
  load_bytes (Run.value (calloc Run.skipped 10 8) (NULL, Run.skipped)).2
             (Run.value (calloc Run.skipped 10 8) (NULL, Run.skipped)).1
             (size_t (10 * 8))
  = Ok (replicate (Z.to_nat (size_t (10 * 8))) x00) /\
  exists st1,
    malloc Run.skipped (size_t (10 * 8))
    = Ok ((Run.value (calloc Run.skipped 10 8) (NULL, Run.skipped)).1, st1) /\
    same_shape st1 (Run.value (calloc Run.skipped 10 8) (NULL, Run.skipped)).2.
Proof.
  apply (calloc_zero_fills Run.skipped _ 10 8). vm_compute. reflexivity.
Defined.

End Alloc.

(** ** The blocks of a well-formed heap *)
Module Tiling.
Import Mm Inv Frame MemFacts RW Search Links Writes Insert Remove Tags Place Fit Shape
  Linked Coalesce Grow Alloc Layout.
#[local] Opaque walk_fuel.

Lemma tiles_app (bs1 bs2 : list block) :
  forall bp e, tiles bp (bs1 ++ bs2) e <-> exists m, tiles bp bs1 m /\ tiles m bs2 e.
Proof.
  induction bs1 as [| [[x s] a] bs1 IH]; intros bp e; simpl.
  - split; [intros H; exists bp; auto | intros (m & -> & H); exact H].
  - rewrite IH. split.
    + intros (Hx & Hs & Hm & Ha & m & H1 & H2). exists m. tauto.
    + intros (m & (Hx & Hs & Hm & Ha & H1) & H2). repeat (split; [assumption |]). eauto.
Qed.

Lemma tiles_le (bs : list block) : forall bp e, tiles bp bs e -> bp <= e.
Proof.
  induction bs as [| [[x s] a] bs IH]; intros bp e; simpl; [lia |].
  intros (_ & Hs & _ & _ & H). apply IH in H. lia.
Qed.

Lemma tiles_split (bs : list block) (x s a : Z) :
  forall bp e, tiles bp bs e -> In (x, s, a) bs ->
  exists bs1 bs2, bs = bs1 ++ (x, s, a) :: bs2 /\ tiles bp bs1 x /\ tiles (x + s) bs2 e /\
                  16 <= s /\ s mod 8 = 0 /\ (a = 0 \/ a = 1).
Proof.
  induction bs as [| [[y t] c] bs IH]; intros bp e H Hin; [contradiction |].
  simpl in H. destruct H as (-> & Ht & Hm & Hc & H). destruct Hin as [E | Hin].
  - injection E as -> -> ->. exists [], bs. simpl. auto 10.
  - destruct (IH _ _ H Hin) as (bs1 & bs2 & -> & H1 & H2 & Hrest).
    exists ((bp, t, c) :: bs1), bs2. simpl. auto 10.
Qed.

Lemma tiles_in (bs : list block) (x s a bp e : Z) :
  tiles bp bs e -> In (x, s, a) bs ->
  bp <= x /\ x + s <= e /\ 16 <= s /\ s mod 8 = 0 /\ (a = 0 \/ a = 1).
Proof.
  intros H Hin. destruct (tiles_split bs x s a bp e H Hin) as (bs1 & bs2 & _ & H1 & H2 & Hr).
  apply tiles_le in H1, H2. tauto.
Qed.

(** Two blocks of the heap are the same block or do not overlap. *)
Lemma tiles_disjoint (bs : list block) (x s a y t c : Z) :
  forall bp e, tiles bp bs e -> In (x, s, a) bs -> In (y, t, c) bs ->
  (x, s, a) = (y, t, c) \/ x + s <= y \/ y + t <= x.
Proof.
  intros bp e H Hx Hy.
  destruct (tiles_split bs x s a bp e H Hx) as (bs1 & bs2 & -> & H1 & H2 & _).
  apply in_app_or in Hy as [Hy | [Hy | Hy]].
  - right; right. apply (tiles_in _ _ _ _ _ _ H1 Hy).
  - left. exact Hy.
  - right; left. apply (tiles_in _ _ _ _ _ _ H2 Hy).
Qed.

Lemma tiles_same_address (bs : list block) (x s a t c : Z) :
  forall bp e, tiles bp bs e -> In (x, s, a) bs -> In (x, t, c) bs -> s = t /\ a = c.
Proof.
  intros bp e H Hx Hy.
  pose proof (tiles_in _ _ _ _ _ _ H Hx). pose proof (tiles_in _ _ _ _ _ _ H Hy).
  destruct (tiles_disjoint bs x s a x t c bp e H Hx Hy) as [E | ?]; [| lia].
  injection E as -> ->. auto.
Qed.

Lemma tiles_last (bs : list block) (y t c : Z) :
  forall bp e, tiles bp (bs ++ [(y, t, c)]) e -> y + t = e.
Proof.
  intros bp e H. apply tiles_app in H as (m & _ & H). simpl in H. intuition lia.
Qed.

End Tiling.

Module Wellformed.
Import Mm Inv Frame MemFacts RW Search Links Writes Insert Remove Tags Place Fit Shape
  Linked Coalesce Grow Alloc Layout Tiling.
#[local] Opaque walk_fuel.

Section Ok.
Variables (st : heap) (lists : Z -> list Z) (bs : list block).
Hypothesis Hok : heap_ok st lists bs.

Lemma ok_wl : well_linked st lists.
Proof. apply Hok. Qed.

Lemma ok_start : mem_start_brk st <= heap_listp st - 4 /\ heap_listp st + 8 <= mem_brk st.
Proof.
  destruct Hok as (_ & _ & _ & _ & Hp & _ & Ht & _).
  apply GET_in_heap, in_heap_spec in Hp. apply tiles_le in Ht. lia.
Qed.

Lemma ok_listp : heap_listp st <> NULL.
Proof. pose proof ok_start. destruct Hok as (_ & H0 & _). unfold NULL. lia. Qed.

Lemma ok_bounds (x s a : Z) :
  In (x, s, a) bs ->
  heap_listp st + 8 <= x /\ x + s <= mem_brk st /\ 16 <= s < 2 ^ 32 /\ s mod 8 = 0 /\
  (a = 0 \/ a = 1) /\ in_heap st (x - 4) s = true /\ linkable st x /\
  x + s <= heap_listp st + 2 ^ 32.
Proof.
  intros Hin. pose proof ok_start as [Hs _].
  destruct Hok as (_ & H0 & Hbm & Hmax & _ & _ & Ht & _).
  destruct (tiles_in _ _ _ _ _ _ Ht Hin) as (H1 & H2 & H3 & H4 & H5).
  repeat split; try lia; try assumption.
  - apply in_heap_spec. lia.
  - unfold NULL. lia.
Qed.

Lemma ok_tag (x s a : Z) :
  In (x, s, a) bs ->
  GET st (HDRP x) = Ok (PACK s a) /\ GET st (x + s - 8) = Ok (PACK s a) /\
  GET_SIZE st (HDRP x) = Ok s /\ GET_ALLOC st (HDRP x) = Ok a /\
  GET_SIZE st (x + s - 8) = Ok s /\ GET_ALLOC st (x + s - 8) = Ok a.
Proof.
  intros Hin. destruct (ok_bounds x s a Hin) as (_ & _ & Hs & Hm & Ha & _).
  destruct Hok as (_ & _ & _ & _ & _ & _ & _ & _ & Htag & _).
  rewrite List.Forall_forall in Htag. destruct (Htag _ Hin) as [Hh Hf]. simpl in Hh, Hf.
  destruct (PACK_size s a ltac:(lia) Hm ltac:(lia)) as (_ & _ & Hsz & Hal).
  unfold GET_SIZE, GET_ALLOC. rewrite Hh, Hf. simpl. rewrite Hsz, Hal. auto 6.
Qed.

Lemma ok_listed (k x : Z) :
  0 <= k < CLASS_CNT -> In x (lists k) -> exists s, In (x, s, 0) bs /\ class_of s = k.
Proof.
  intros Hk Hx. destruct Hok as (Hwl & _ & _ & _ & _ & _ & _ & _ & _ & Hl & _).
  destruct (Hl k x Hk Hx) as (s & Hs). exists s. split; [exact Hs |].
  destruct (wl_size st lists k x Hwl Hk Hx) as (sz & Hsz & Hc).
  destruct (ok_tag x s 0 Hs) as (_ & _ & Hsz' & _). congruence.
Qed.

Lemma ok_free (x s : Z) : In (x, s, 0) bs -> In x (lists (class_of s)).
Proof. apply Hok. Qed.

(** A word that is no link field of a free block and lies behind the head
    cells is off the links. *)
Lemma ok_off_links (q : Z) :
  heap_listp st - 8 <= q ->
  (forall y u, In (y, u, 0) bs -> sep y q /\ sep (y + 4) q) ->
  off_links st lists q.
Proof.
  intros Hq Hfree k Hk. split.
  - unfold sep, head_cell, CLASS_CNT, WSIZE in *. lia.
  - apply List.Forall_forall. intros x Hx.
    destruct (ok_listed k x Hk Hx) as (s & Hs & _). apply (Hfree x s Hs).
Qed.

(** No word of a block is a link field, but the two of the block itself
    when it is free. *)
Lemma ok_block_off_links (x s a q : Z) :
  In (x, s, a) bs -> x - 4 <= q -> q + 4 <= x + s - 4 ->
  a = 1 \/ q + 4 <= x \/ x + 8 <= q ->
  off_links st lists q.
Proof.
  intros Hin Hlo Hhi Hown. destruct (ok_bounds x s a Hin) as (Hx & _).
  apply ok_off_links; [lia |]. intros y u Hy.
  destruct Hok as (_ & _ & _ & _ & _ & _ & Ht & _).
  destruct (ok_bounds y u 0 Hy) as (_ & _ & Hu & _).
  destruct (tiles_disjoint bs x s a y u 0 _ _ Ht Hin Hy) as [E | Hd].
  - injection E as -> -> ->. unfold sep. lia.
  - unfold sep. lia.
Qed.

Lemma ok_prologue_off_links (q : Z) :
  heap_listp st - 4 <= q <= heap_listp st -> off_links st lists q.
Proof.
  intros Hq. apply ok_off_links; [lia |]. intros y u Hy.
  destruct (ok_bounds y u 0 Hy) as (Hx & _). unfold sep. lia.
Qed.

Lemma ok_epilogue_off_links : off_links st lists (mem_brk st - 4).
Proof.
  pose proof ok_start. apply ok_off_links; [lia |]. intros y u Hy.
  destruct (ok_bounds y u 0 Hy) as (Hx & Hb & Hu & _). unfold sep. lia.
Qed.

(** A listed block is the block itself or lies outside it. *)
Lemma ok_outside (x s a k y : Z) :
  In (x, s, a) bs -> 0 <= k < CLASS_CNT -> In y (lists k) -> y = x \/ outside x s y.
Proof.
  intros Hin Hk Hy. destruct (ok_listed k y Hk Hy) as (u & Hu & _).
  destruct Hok as (_ & _ & _ & _ & _ & _ & Ht & _).
  destruct (ok_bounds y u 0 Hu) as (_ & _ & Hur & _).
  destruct (tiles_disjoint bs x s a y u 0 _ _ Ht Hin Hu) as [E | Hd].
  - injection E as -> -> ->. left. reflexivity.
  - right. unfold outside. lia.
Qed.

Lemma ok_allocated_outside (x s k y : Z) :
  In (x, s, 1) bs -> 0 <= k < CLASS_CNT -> In y (lists k) -> outside x s y.
Proof.
  intros Hin Hk Hy. destruct (ok_outside x s 1 k y Hin Hk Hy) as [-> | H]; [| exact H].
  destruct (ok_listed k x Hk Hy) as (u & Hu & _).
  destruct Hok as (_ & _ & _ & _ & _ & _ & Ht & _).
  destruct (tiles_same_address bs x s 1 u 0 _ _ Ht Hin Hu) as [_ E]. discriminate.
Qed.

End Ok.

Lemma tiles_end (bs : list block) : forall bp e e', tiles bp bs e -> tiles bp bs e' -> e = e'.
Proof.
  induction bs as [| [[x s] a] bs IH]; intros bp e e'; simpl; [congruence |].
  intros (_ & _ & _ & _ & H) (_ & _ & _ & _ & H'). eapply IH; eauto.
Qed.

(** The three parts of a heap whose blocks [mid] fill the [S] bytes at [B]. *)
Lemma tiles_parts (bs1 mid bs2 : list block) (b0 B S e : Z) :
  tiles b0 (bs1 ++ mid ++ bs2) e -> tiles b0 bs1 B -> tiles B mid (B + S) ->
  tiles (B + S) bs2 e.
Proof.
  intros H H1 Hm. apply tiles_app in H as (m & H1' & H).
  rewrite (tiles_end _ _ _ _ H1 H1') in *. apply tiles_app in H as (m' & Hm' & H).
  rewrite (tiles_end _ _ _ _ Hm Hm'). exact H.
Qed.

(** A heap in which the bytes of some blocks were rewritten into other
    blocks is well formed again. *)
Lemma ok_rebuild (st st' : heap) (lists lists' : Z -> list Z)
      (bs1 mid mid' bs2 : list block) (B S : Z) :
  heap_ok st lists (bs1 ++ mid ++ bs2) -> same_shape st st' -> well_linked st' lists' ->
  (forall q, q + 4 <= B - 4 \/ B + S - 4 <= q -> off_links st lists q ->
             GET st' q = GET st q) ->
  tiles (heap_listp st + 8) bs1 B -> tiles B mid (B + S) ->
  tiles B mid' (B + S) -> Forall (tagged st') mid' ->
  (forall k x, 0 <= k < CLASS_CNT -> In x (lists' k) ->
               exists s, In (x, s, 0) (bs1 ++ mid' ++ bs2)) ->
  (forall x s, In (x, s, 0) (bs1 ++ mid' ++ bs2) -> In x (lists' (class_of s))) ->
  heap_ok st' lists' (bs1 ++ mid' ++ bs2) /\
  forall x s a q, In (x, s, a) (bs1 ++ bs2) -> x - 4 <= q -> q + 4 <= x + s - 4 ->
                  a = 1 \/ q + 4 <= x \/ x + 8 <= q ->
                  GET st' q = GET st q.
Proof.
  intros Hok Hsh Hwl Hfr H1 Hm Hm' Htag' Hl1 Hl2.
  pose proof Hok as (_ & H0 & Hbm & Hmax & Hp1 & Hp2 & Ht & He & Htag & _).
  pose proof (tiles_parts _ _ _ _ _ _ _ Ht H1 Hm) as H2.
  pose proof (tiles_le _ _ _ H1) as HB. pose proof (tiles_le _ _ _ H2) as HS.
  pose proof (tiles_le _ _ _ Hm) as HS0.
  destruct Hsh as (Es & Em & El & Ef & Elog & Ehl).
  assert (mem_brk st' = mem_brk st) as Eb by (unfold mem_brk; rewrite Es, El; reflexivity).
  assert (forall x s a q, In (x, s, a) (bs1 ++ bs2) -> x - 4 <= q -> q + 4 <= x + s - 4 ->
                          a = 1 \/ q + 4 <= x \/ x + 8 <= q -> GET st' q = GET st q) as Hkeep.
  { intros x s a q Hin Hlo Hhi Hown.
    assert (In (x, s, a) (bs1 ++ mid ++ bs2)) as Hin'
      by (rewrite !in_app_iff in *; tauto).
    apply Hfr; [| apply (ok_block_off_links st lists _ Hok x s a q Hin' Hlo Hhi Hown)].
    apply in_app_or in Hin as [Hin | Hin].
    - pose proof (tiles_in _ _ _ _ _ _ H1 Hin). lia.
    - pose proof (tiles_in _ _ _ _ _ _ H2 Hin). lia. }
  split; [| exact Hkeep].
  split; [exact Hwl |]. rewrite Es, Em, Ehl, Eb.
  split; [exact H0 |]. split; [exact Hbm |]. split; [exact Hmax |].
  split; [rewrite Hfr; [exact Hp1 | lia | apply (ok_prologue_off_links st lists _ Hok); lia] |].
  split; [rewrite Hfr; [exact Hp2 | lia | apply (ok_prologue_off_links st lists _ Hok); lia] |].
  split.
  { apply tiles_app. exists B. split; [exact H1 |]. apply tiles_app. eauto. }
  split; [rewrite Hfr; [exact He | lia | apply (ok_epilogue_off_links st lists _ Hok)] |].
  split; [| split; assumption].
  rewrite List.Forall_forall in Htag.
  apply Forall_app. split; [| apply Forall_app; split; [exact Htag' |]];
    apply List.Forall_forall; intros [[x s] a] Hin.
  - assert (In (x, s, a) (bs1 ++ bs2)) as Hin' by (apply in_or_app; tauto).
    pose proof (tiles_in _ _ _ _ _ _ H1 Hin) as (_ & _ & Hs & _).
    destruct (Htag (x, s, a)) as [Hh Hf]; [rewrite !in_app_iff; tauto |].
    unfold tagged, HDRP, WSIZE in *. simpl in *.
    rewrite (Hkeep x s a (x - 4) Hin'), (Hkeep x s a (x + s - 8) Hin') by lia. auto.
  - assert (In (x, s, a) (bs1 ++ bs2)) as Hin' by (apply in_or_app; tauto).
    pose proof (tiles_in _ _ _ _ _ _ H2 Hin) as (_ & _ & Hs & _).
    destruct (Htag (x, s, a)) as [Hh Hf]; [rewrite !in_app_iff; tauto |].
    unfold tagged, HDRP, WSIZE in *. simpl in *.
    rewrite (Hkeep x s a (x - 4) Hin'), (Hkeep x s a (x + s - 8) Hin') by lia. auto.
Qed.

End Wellformed.

(** ** The allocator keeps the heap well formed *)
Module Placing.
Import Mm Inv Frame MemFacts RW Search Links Writes Insert Remove Tags Place Fit Shape
  Linked Coalesce Grow Alloc Layout Tiling Wellformed.
#[local] Opaque walk_fuel.

Lemma kept_of (st st' : heap) (bs1 mid bs2 : list block) (x0 s0 : Z) :
  (forall x s a q, In (x, s, a) (bs1 ++ bs2) -> x - 4 <= q -> q + 4 <= x + s - 4 ->
                   a = 1 \/ q + 4 <= x \/ x + 8 <= q -> GET st' q = GET st q) ->
  (forall x s, In (x, s, 1) mid -> x = x0 /\ s = s0) ->
  forall x s q, In (x, s, 1) (bs1 ++ mid ++ bs2) -> (x, s) <> (x0, s0) ->
                x - 4 <= q -> q + 4 <= x + s - 4 -> GET st' q = GET st q.
Proof.
  intros Hkeep Hmid x s q Hin Hne Hlo Hhi.
  apply (Hkeep x s 1 q); [| lia | lia | left; reflexivity].
  rewrite !in_app_iff in *. destruct Hin as [? | [Hin | ?]]; [tauto | | tauto].
  destruct (Hmid x s Hin) as [-> ->]. contradiction Hne. reflexivity.
Qed.

(** [place] on a free block of a well-formed heap. *)
Lemma place_ok (st : heap) (lists : Z -> list Z) (bs : list block) (bp csize asize : Z) :
  heap_ok st lists bs -> In (bp, csize, 0) bs -> 16 <= asize <= csize -> asize mod 8 = 0 ->
  exists st' lists' bs' qs,
    place st bp asize = Ok (bp, st') /\ same_shape st st' /\ heap_ok st' lists' bs' /\
    In (bp, qs, 1) bs' /\ asize <= qs <= csize /\
    (forall x s, In (x, s, 1) bs -> In (x, s, 1) bs') /\ kept st st' bs.
Proof.
  intros Hok Hin Hasize Hmod.
  pose proof Hok as (Hwl & H0 & _ & _ & _ & _ & Ht & _).
  destruct (tiles_split bs bp csize 0 _ _ Ht Hin) as (bs1 & bs2 & E & H1 & H2 & Hc16 & Hcm & _).
  destruct (ok_bounds st lists bs Hok bp csize 0 Hin) as (Hlo & Hhi & Hcr & _ & _ & Hih & Hlk & Hend).
  destruct (ok_tag st lists bs Hok bp csize 0 Hin) as (_ & _ & Hsz & _).
  destruct (wl_place st lists bp asize csize Hwl Hsz (ok_free st lists bs Hok bp csize Hin)
                     Hasize Hmod H0 Hih Hend)
    as (st' & lists' & Hplace & Hsh & Hwl' & Hcase & Hfr).
  { intros k x Hk Hx. apply (ok_outside st lists bs Hok bp csize 0 k x Hin Hk Hx). }
  assert (tiles bp [(bp, csize, 0)] (bp + csize)) as Hmid by (simpl; auto 6).
  change (bs1 ++ (bp, csize, 0) :: bs2) with (bs1 ++ [(bp, csize, 0)] ++ bs2) in E.
  rewrite E in Hok.
  assert (forall x s, In (x, s, 0) (bs1 ++ bs2) -> In x (lists (class_of s)) /\ x <> bp)
    as Hold.
  { intros x s Hx. split.
    - apply (ok_free st lists _ Hok). rewrite !in_app_iff in *. tauto.
    - apply in_app_or in Hx as [Hx | Hx].
      + pose proof (tiles_in _ _ _ _ _ _ H1 Hx). lia.
      + pose proof (tiles_in _ _ _ _ _ _ H2 Hx). lia. }
  assert (forall k x, 0 <= k < CLASS_CNT -> In x (lists k) -> x <> bp ->
                      exists s, In (x, s, 0) (bs1 ++ bs2)) as Hother.
  { intros k x Hk Hx Hne. destruct (ok_listed st lists _ Hok k x Hk Hx) as (s & Hs & _).
    exists s. rewrite !in_app_iff in *. destruct Hs as [? | [[Hs | []] | ?]]; try tauto.
    injection Hs as <- _. contradiction Hne. reflexivity. }
  destruct (Z.leb_spec 16 (csize - asize)) as [Hsplit | Hwhole].
  - destruct Hcase as (Hh & Hf & Hrh & Hrf & Hmem).
    assert ((csize - asize) mod 8 = 0) as Hrm by (Z.div_mod_to_equations; lia).
    destruct (ok_rebuild st st' lists lists' bs1 [(bp, csize, 0)]
                         [(bp, asize, 1); (bp + asize, csize - asize, 0)] bs2 bp csize
                         Hok Hsh Hwl' Hfr H1 Hmid) as [Hok' Hkeep].
    + simpl. repeat (split; [auto; lia |]). lia.
    + constructor; [split; simpl; assumption |]. constructor; [| constructor].
      split; simpl; [exact Hrh |]. replace (bp + asize + (csize - asize) - 8)
        with (bp + csize - 8) by lia. exact Hrf.
    + intros k x Hk Hx. apply (Hmem k x Hk) in Hx as [[Hx Hne] | [-> ->]].
      * destruct (Hother k x Hk Hx Hne) as (s & Hs). exists s.
        rewrite !in_app_iff in *. tauto.
      * exists (csize - asize). rewrite !in_app_iff. right. left. right. left. reflexivity.
    + intros x s Hx. apply Hmem; [apply class_of_range |].
      rewrite !in_app_iff in Hx. destruct Hx as [Hx | [[Hx | [Hx | []]] | Hx]].
      * left. apply Hold. apply in_or_app. tauto.
      * discriminate Hx.
      * injection Hx as <- <-. right. auto.
      * left. apply Hold. apply in_or_app. tauto.
    + exists st', lists', (bs1 ++ [(bp, asize, 1); (bp + asize, csize - asize, 0)] ++ bs2), asize.
      split; [exact Hplace |]. split; [exact Hsh |]. split; [exact Hok' |].
      split; [rewrite !in_app_iff; right; left; left; reflexivity |].
      split; [lia |]. rewrite E. split.
      * intros x s Hx. rewrite !in_app_iff in *. destruct Hx as [? | [[Hx | []] | ?]]; try tauto.
        discriminate Hx.
      * intros x s q Hx Hlo' Hhi'. apply (Hkeep x s 1 q); [| lia | lia | left; reflexivity].
        rewrite !in_app_iff in *. destruct Hx as [? | [[Hx | []] | ?]]; try tauto.
        discriminate Hx.
  - destruct Hcase as (Hh & Hf & Hmem).
    destruct (ok_rebuild st st' lists lists' bs1 [(bp, csize, 0)] [(bp, csize, 1)] bs2 bp csize
                         Hok Hsh Hwl' Hfr H1 Hmid) as [Hok' Hkeep].
    + simpl. auto 6.
    + constructor; [split; simpl; assumption | constructor].
    + intros k x Hk Hx. apply (Hmem k x Hk) in Hx as [Hx Hne].
      destruct (Hother k x Hk Hx Hne) as (s & Hs). exists s. rewrite !in_app_iff in *. tauto.
    + intros x s Hx. apply Hmem; [apply class_of_range |].
      rewrite !in_app_iff in Hx. destruct Hx as [Hx | [[Hx | []] | Hx]].
      * apply Hold. apply in_or_app. tauto.
      * discriminate Hx.
      * apply Hold. apply in_or_app. tauto.
    + exists st', lists', (bs1 ++ [(bp, csize, 1)] ++ bs2), csize.
      split; [exact Hplace |]. split; [exact Hsh |]. split; [exact Hok' |].
      split; [rewrite !in_app_iff; right; left; left; reflexivity |].
      split; [lia |]. rewrite E. split.
      * intros x s Hx. rewrite !in_app_iff in *. destruct Hx as [? | [[Hx | []] | ?]]; try tauto.
        discriminate Hx.
      * intros x s q Hx Hlo' Hhi'. apply (Hkeep x s 1 q); [| lia | lia | left; reflexivity].
        rewrite !in_app_iff in *. destruct Hx as [? | [[Hx | []] | ?]]; try tauto.
        discriminate Hx.
Qed.

End Placing.

Module Merging.
Import Mm Inv Frame MemFacts RW Search Links Writes Insert Remove Tags Place Fit Shape
  Linked Coalesce Grow Alloc Layout Tiling Wellformed.
#[local] Opaque walk_fuel.

Ltac tile_goal :=
  simpl; repeat split; auto; try lia; try (Z.div_mod_to_equations; lia).

(** Case 1 of [coalesce]: both neighbours are allocated. *)
Lemma coalesce_case1 (st : heap) (bp ps pa s na : Z) :
  GET_SIZE st (bp - 8) = Ok ps -> GET_ALLOC st (HDRP (bp - ps)) = Ok pa -> pa <> 0 ->
  GET_SIZE st (HDRP bp) = Ok s -> GET_ALLOC st (HDRP (bp + s)) = Ok na -> na <> 0 ->
  coalesce st bp = Ok (bp, st).
Proof.
  intros Hps Hpa Hpa0 Hs Hna Hna0. unfold coalesce, PREV_BLKP, NEXT_BLKP, DSIZE.
  change (bp - WSIZE) with (HDRP bp).
  rewrite Hps, !bind_ok, Hpa, bind_ok, Hs, !bind_ok, Hna, bind_ok.
  destruct (Z.eqb_spec pa 0); [contradiction |]. destruct (Z.eqb_spec na 0); [contradiction |].
  reflexivity.
Qed.

Section Neighbours.
Variables (st : heap) (lists : Z -> list Z) (bs1 bs2 : list block) (bp s a : Z).
Hypothesis Hok : heap_ok st lists (bs1 ++ (bp, s, a) :: bs2).

Lemma here : In (bp, s, a) (bs1 ++ (bp, s, a) :: bs2).
Proof. apply in_or_app. right. left. reflexivity. Qed.

Lemma parts :
  tiles (heap_listp st + 8) bs1 bp /\ tiles (bp + s) bs2 (mem_brk st).
Proof.
  destruct Hok as (_ & _ & _ & _ & _ & _ & Ht & _).
  apply tiles_app in Ht as (m & H1 & H2). simpl in H2.
  destruct H2 as (-> & _ & _ & _ & H2). auto.
Qed.

(** What [coalesce] reads of the block before: the prologue or the last
    block of [bs1]. *)
Lemma prev_tags :
  exists ps pa,
    GET_SIZE st (bp - 8) = Ok ps /\ GET_ALLOC st (HDRP (bp - ps)) = Ok pa /\
    8 <= ps /\ heap_listp st <= bp - ps /\
    (pa = 1 \/ (pa = 0 /\ exists bs1', bs1 = bs1' ++ [(bp - ps, ps, 0)])).
Proof.
  destruct parts as [H1 _].
  destruct bs1 as [| [[y u] c] bs1' _] using rev_ind.
  - simpl in H1. subst bp. exists 8, 1.
    destruct Hok as (_ & _ & _ & _ & Hp1 & Hp2 & _).
    destruct (PACK_size 8 1 ltac:(lia) eq_refl ltac:(lia)) as (_ & _ & Hsz & Hal).
    unfold GET_SIZE, GET_ALLOC, HDRP, WSIZE.
    replace (heap_listp st + 8 - 8) with (heap_listp st) by lia.
    replace (heap_listp st + 8 - 8 - 4) with (heap_listp st - 4) by lia.
    rewrite Hp1, Hp2, !bind_ok, Hsz, Hal. repeat (split; [reflexivity || lia |]). left.
    reflexivity.
  - pose proof (tiles_last _ _ _ _ _ _ H1) as E.
    assert (In (y, u, c) ((bs1' ++ [(y, u, c)]) ++ (bp, s, a) :: bs2)) as Hin
      by (rewrite !in_app_iff; left; right; left; reflexivity).
    destruct (ok_bounds st lists _ Hok y u c Hin) as (Hy & _ & Hu & _ & Hc & _).
    destruct (ok_tag st lists _ Hok y u c Hin) as (_ & _ & _ & Hal & Hfs & _).
    exists u, c. replace (bp - 8) with (y + u - 8) by lia.
    replace (bp - u) with y by lia.
    split; [exact Hfs |]. split; [exact Hal |]. split; [lia |]. split; [lia |].
    destruct Hc as [-> | ->]; [right | left; reflexivity].
    split; [reflexivity |]. exists bs1'. reflexivity.
Qed.

(** What it reads of the block behind: the epilogue or the first block of
    [bs2]. *)
Lemma next_tags :
  exists na,
    GET_ALLOC st (HDRP (bp + s)) = Ok na /\
    (na = 1 \/ (na = 0 /\ exists s2 bs2', bs2 = (bp + s, s2, 0) :: bs2')).
Proof.
  destruct parts as [_ H2].
  destruct bs2 as [| [[y u] c] bs2'].
  - simpl in H2. exists 1. destruct Hok as (_ & _ & _ & _ & _ & _ & _ & He & _).
    unfold GET_ALLOC, HDRP, WSIZE. rewrite H2, He, bind_ok.
    destruct (PACK_size 0 1 ltac:(lia) eq_refl ltac:(lia)) as (_ & _ & _ & ->). auto.
  - simpl in H2. destruct H2 as (-> & _).
    assert (In (bp + s, u, c) (bs1 ++ (bp, s, a) :: (bp + s, u, c) :: bs2')) as Hin
      by (rewrite !in_app_iff; right; right; left; reflexivity).
    destruct (ok_bounds st lists _ Hok _ u c Hin) as (_ & _ & _ & _ & Hc & _).
    destruct (ok_tag st lists _ Hok _ u c Hin) as (_ & _ & _ & Hal & _).
    exists c. split; [exact Hal |]. destruct Hc as [-> | ->]; [right | left; reflexivity].
    split; [reflexivity |]. eauto.
Qed.

End Neighbours.

(** The lists after blocks [mid] have left them and the block of [T] bytes
    at [R] has entered. *)
Lemma merged_lists (st : heap) (lists lists' : Z -> list Z) (bs1 mid bs2 : list block)
      (B S R T : Z) (P : Z -> Prop) :
  heap_ok st lists (bs1 ++ mid ++ bs2) ->
  tiles (heap_listp st + 8) bs1 B -> tiles B mid (B + S) ->
  (forall x, P x <-> forall u c, ~ In (x, u, c) mid) ->
  (forall k x, 0 <= k < CLASS_CNT ->
               (In x (lists' k) <-> (In x (lists k) /\ P x) \/ (x = R /\ k = class_of T))) ->
  (forall k x, 0 <= k < CLASS_CNT -> In x (lists' k) ->
               exists s, In (x, s, 0) (bs1 ++ [(R, T, 0)] ++ bs2)) /\
  (forall x s, In (x, s, 0) (bs1 ++ [(R, T, 0)] ++ bs2) -> In x (lists' (class_of s))).
Proof.
  intros Hok H1 Hm HP Hmem.
  pose proof Hok as (_ & _ & _ & _ & _ & _ & Ht & _).
  pose proof (tiles_parts _ _ _ _ _ _ _ Ht H1 Hm) as H2.
  split.
  - intros k x Hk Hx. apply (Hmem k x Hk) in Hx as [[Hx Hp] | [-> ->]].
    + destruct (ok_listed st lists _ Hok k x Hk Hx) as (s & Hs & _). exists s.
      rewrite !in_app_iff in *. destruct Hs as [? | [Hs | ?]]; [tauto | | tauto].
      exfalso. apply (proj1 (HP x) Hp s 0 Hs).
    + exists T. rewrite !in_app_iff. right. left. left. reflexivity.
  - intros x s Hx. apply Hmem; [apply class_of_range |].
    rewrite !in_app_iff in Hx. destruct Hx as [Hx | [[Hx | []] | Hx]].
    + left. split; [apply (ok_free st lists _ Hok); rewrite !in_app_iff; tauto |].
      apply HP. intros u c Hu. pose proof (tiles_in _ _ _ _ _ _ H1 Hx).
      pose proof (tiles_in _ _ _ _ _ _ Hm Hu). lia.
    + injection Hx as <- <-. right. auto.
    + left. split; [apply (ok_free st lists _ Hok); rewrite !in_app_iff; tauto |].
      apply HP. intros u c Hu. pose proof (tiles_in _ _ _ _ _ _ H2 Hx).
      pose proof (tiles_in _ _ _ _ _ _ Hm Hu). lia.
Qed.

(** [coalesce] on a free block of a well-formed heap: the heap stays well
    formed, the block and its free neighbours have become one free block,
    and the allocated blocks are as they were. *)
Lemma coalesce_ok (st : heap) (lists : Z -> list Z) (bs : list block) (bp s : Z) :
  heap_ok st lists bs -> In (bp, s, 0) bs ->
  exists r t st' lists' bs',
    coalesce st bp = Ok (r, st') /\ same_shape st st' /\ heap_ok st' lists' bs' /\
    In (r, t, 0) bs' /\ r <= bp /\ bp + s <= r + t /\
    (forall x u, In (x, u, 1) bs -> In (x, u, 1) bs') /\ kept st st' bs.
Proof.
  intros Hok Hin.
  pose proof Hok as (Hwl & H0 & Hbm & Hmax & _ & _ & Ht & _).
  destruct (tiles_split bs bp s 0 _ _ Ht Hin) as (bs1 & bs2 & -> & H1 & H2 & Hs16 & Hsm & _).
  destruct (prev_tags st lists bs1 bs2 bp s 0 Hok) as (ps & pa & Hps & Hpa & Hps8 & Hplo & Hprev).
  destruct (next_tags st lists bs1 bs2 bp s 0 Hok) as (na & Hna & Hnext).
  destruct (ok_tag st lists _ Hok bp s 0 Hin) as (_ & _ & Hsz & _).
  destruct (ok_bounds st lists _ Hok bp s 0 Hin) as (Hlo & Hhi & _ & _ & _ & Hih & _).
  pose proof (ok_free st lists _ Hok bp s Hin) as Hlisted.
  pose proof (ok_start st lists _ Hok) as [Hst _].
  apply in_heap_spec in Hih.
  destruct Hprev as [-> | (-> & bs1' & ->)]; destruct Hnext as [-> | (-> & s2 & bs2' & ->)].
  - (* both neighbours allocated *)
    exists bp, s, st, lists, (bs1 ++ (bp, s, 0) :: bs2).
    split; [apply (coalesce_case1 st bp ps 1 s 1); auto; discriminate |].
    split; [apply same_shape_refl |]. split; [exact Hok |]. split; [exact Hin |].
    split; [lia |]. split; [lia |]. split; [auto |]. intros x u q _ _ _. reflexivity.
  - (* the next block is free *)
    assert (In (bp + s, s2, 0) (bs1 ++ (bp, s, 0) :: (bp + s, s2, 0) :: bs2')) as Hin2
      by (rewrite !in_app_iff; right; right; left; reflexivity).
    destruct (ok_tag st lists _ Hok _ s2 0 Hin2) as (_ & _ & Hsz2 & Hal2 & _).
    destruct (ok_bounds st lists _ Hok _ s2 0 Hin2) as (_ & Hhi2 & Hs2 & Hm2 & _).
    destruct (coalesce_case2 st lists bp s s2 ps 1 Hwl Hsz Hs16 Hlisted Hps Hpa
                             ltac:(discriminate) Hsz2 ltac:(lia) Hal2
                             (ok_free st lists _ Hok _ s2 Hin2))
      as (st' & lists' & Hco & Hsh & Hwl' & Hh & Hf & Hmem & Hfr).
    { lia. }
    { apply in_heap_spec. lia. }
    { intros k x Hk Hx.
      destruct (ok_outside st lists _ Hok bp s 0 k x Hin Hk Hx) as [-> | Ha]; [auto |].
      destruct (ok_outside st lists _ Hok _ s2 0 k x Hin2 Hk Hx) as [-> | Hb]; [auto |].
      right. right. unfold outside in *. lia. }
    change (bs1 ++ (bp, s, 0) :: (bp + s, s2, 0) :: bs2')
      with (bs1 ++ [(bp, s, 0); (bp + s, s2, 0)] ++ bs2') in *.
    assert (tiles bp [(bp, s, 0); (bp + s, s2, 0)] (bp + (s + s2))) as Hmid.
    { tile_goal. }
    destruct (merged_lists st lists lists' bs1 _ bs2' bp (s + s2) bp (s + s2)
                           (fun x => x <> bp /\ x <> bp + s) Hok H1 Hmid) as [Hl1 Hl2].
    { intros x. simpl. split.
      - intros [Ha Hb] u c [E | [E | []]]; injection E as E _; lia.
      - intros H. split; intros ->; [apply (H s 0) | apply (H s2 0)]; auto. }
    { exact Hmem. }
    destruct (ok_rebuild st st' lists lists' bs1 _ [(bp, s + s2, 0)] bs2' bp (s + s2)
                         Hok Hsh Hwl' Hfr H1 Hmid) as [Hok' Hkeep]; [| | exact Hl1 | exact Hl2 |].
    { tile_goal. }
    { constructor; [| constructor]. split; simpl; assumption. }
    exists bp, (s + s2), st', lists', (bs1 ++ [(bp, s + s2, 0)] ++ bs2').
    split; [exact Hco |]. split; [exact Hsh |]. split; [exact Hok' |].
    split; [rewrite !in_app_iff; right; left; left; reflexivity |].
    split; [lia |]. split; [lia |]. split.
    + intros x u Hx. rewrite !in_app_iff in *. simpl in Hx.
      destruct Hx as [? | [[E | [E | []]] | ?]]; try tauto; discriminate E.
    + intros x u q Hx Hlo' Hhi'. apply (Hkeep x u 1 q); [| lia | lia | auto].
      rewrite !in_app_iff in *. simpl in Hx.
      destruct Hx as [? | [[E | [E | []]] | ?]]; try tauto; discriminate E.
  - (* the previous block is free *)
    assert (In (bp - ps, ps, 0) ((bs1' ++ [(bp - ps, ps, 0)]) ++ (bp, s, 0) :: bs2)) as Hin1
      by (rewrite !in_app_iff; left; right; left; reflexivity).
    destruct (ok_tag st lists _ Hok _ ps 0 Hin1) as (_ & _ & Hsz1 & Hal1 & _).
    destruct (ok_bounds st lists _ Hok _ ps 0 Hin1) as (Hlo1 & _ & Hps16 & Hpm & _).
    destruct (coalesce_case3 st lists bp s ps 1 Hwl Hsz Hs16 Hlisted Hps ltac:(lia) Hsz1 Hal1
                             (ok_free st lists _ Hok _ ps Hin1) Hna ltac:(discriminate))
      as (st' & lists' & Hco & Hsh & Hwl' & Hh & Hf & Hmem & Hfr).
    { lia. }
    { apply in_heap_spec. lia. }
    { intros k x Hk Hx.
      destruct (ok_outside st lists _ Hok bp s 0 k x Hin Hk Hx) as [-> | Ha]; [auto |].
      destruct (ok_outside st lists _ Hok _ ps 0 k x Hin1 Hk Hx) as [-> | Hb]; [auto |].
      right. right. unfold outside in *. lia. }
    rewrite <- app_assoc in *.
    change (bs1' ++ [(bp - ps, ps, 0)] ++ (bp, s, 0) :: bs2)
      with (bs1' ++ [(bp - ps, ps, 0); (bp, s, 0)] ++ bs2) in *.
    apply tiles_app in H1 as (m & H1 & Hm). simpl in Hm.
    destruct Hm as (Em & _); subst m.
    assert (tiles (bp - ps) [(bp - ps, ps, 0); (bp, s, 0)] (bp - ps + (ps + s))) as Hmid.
    { tile_goal. }
    destruct (merged_lists st lists lists' bs1' _ bs2 (bp - ps) (ps + s) (bp - ps) (ps + s)
                           (fun x => x <> bp /\ x <> bp - ps) Hok H1 Hmid) as [Hl1 Hl2].
    { intros x. simpl. split.
      - intros [Ha Hb] u c [E | [E | []]]; injection E as E _; lia.
      - intros H. split; intros ->; [apply (H s 0) | apply (H ps 0)]; auto. }
    { exact Hmem. }
    destruct (ok_rebuild st st' lists lists' bs1' _ [(bp - ps, ps + s, 0)] bs2 (bp - ps) (ps + s)
                         Hok Hsh Hwl' ltac:(intros q Hq; apply Hfr; lia) H1 Hmid)
      as [Hok' Hkeep]; [| | exact Hl1 | exact Hl2 |].
    { tile_goal. }
    { constructor; [| constructor]. split; simpl; [exact Hh |].
      replace (bp - ps + (ps + s) - 8) with (bp + s - 8) by lia. exact Hf. }
    exists (bp - ps), (ps + s), st', lists', (bs1' ++ [(bp - ps, ps + s, 0)] ++ bs2).
    split; [exact Hco |]. split; [exact Hsh |]. split; [exact Hok' |].
    split; [rewrite !in_app_iff; right; left; left; reflexivity |].
    split; [lia |]. split; [lia |]. split.
    + intros x u Hx. rewrite !in_app_iff in *. simpl in Hx.
      destruct Hx as [? | [[E | [E | []]] | ?]]; try tauto; discriminate E.
    + intros x u q Hx Hlo' Hhi'. apply (Hkeep x u 1 q); [| lia | lia | auto].
      rewrite !in_app_iff in *. simpl in Hx.
      destruct Hx as [? | [[E | [E | []]] | ?]]; try tauto; discriminate E.
  - (* both neighbours are free *)
    assert (In (bp - ps, ps, 0)
               ((bs1' ++ [(bp - ps, ps, 0)]) ++ (bp, s, 0) :: (bp + s, s2, 0) :: bs2')) as Hin1
      by (rewrite !in_app_iff; left; right; left; reflexivity).
    assert (In (bp + s, s2, 0)
               ((bs1' ++ [(bp - ps, ps, 0)]) ++ (bp, s, 0) :: (bp + s, s2, 0) :: bs2')) as Hin2
      by (rewrite !in_app_iff; right; right; left; reflexivity).
    destruct (ok_tag st lists _ Hok _ ps 0 Hin1) as (_ & _ & Hsz1 & Hal1 & _).
    destruct (ok_bounds st lists _ Hok _ ps 0 Hin1) as (Hlo1 & _ & Hps16 & Hpm & _).
    destruct (ok_tag st lists _ Hok _ s2 0 Hin2) as (_ & _ & Hsz2 & Hal2 & _).
    destruct (ok_bounds st lists _ Hok _ s2 0 Hin2) as (_ & Hhi2 & Hs2 & Hm2 & _).
    destruct (coalesce_case4 st lists bp s ps s2 Hwl Hsz Hs16 Hlisted Hps ltac:(lia) Hsz1 Hal1
                             (ok_free st lists _ Hok _ ps Hin1) Hsz2 ltac:(lia) Hal2
                             (ok_free st lists _ Hok _ s2 Hin2))
      as (st' & lists' & Hco & Hsh & Hwl' & Hh & Hf & Hmem & Hfr).
    { lia. }
    { apply in_heap_spec. lia. }
    { intros k x Hk Hx.
      destruct (ok_outside st lists _ Hok bp s 0 k x Hin Hk Hx) as [-> | Ha]; [auto |].
      destruct (ok_outside st lists _ Hok _ ps 0 k x Hin1 Hk Hx) as [-> | Hb]; [auto |].
      destruct (ok_outside st lists _ Hok _ s2 0 k x Hin2 Hk Hx) as [-> | Hc]; [auto |].
      right. right. right. unfold outside in *. lia. }
    rewrite <- app_assoc in *.
    change (bs1' ++ [(bp - ps, ps, 0)] ++ (bp, s, 0) :: (bp + s, s2, 0) :: bs2')
      with (bs1' ++ [(bp - ps, ps, 0); (bp, s, 0); (bp + s, s2, 0)] ++ bs2') in *.
    apply tiles_app in H1 as (m & H1 & Hm). simpl in Hm.
    destruct Hm as (Em & _); subst m.
    assert (tiles (bp - ps) [(bp - ps, ps, 0); (bp, s, 0); (bp + s, s2, 0)]
                  (bp - ps + (ps + s + s2))) as Hmid.
    { tile_goal. }
    destruct (merged_lists st lists lists' bs1' _ bs2' (bp - ps) (ps + s + s2) (bp - ps)
                           (ps + s + s2)
                           (fun x => x <> bp - ps /\ x <> bp /\ x <> bp + s) Hok H1 Hmid)
      as [Hl1 Hl2].
    { intros x. simpl. split.
      - intros (Ha & Hb & Hc) u c [E | [E | [E | []]]]; injection E as E _; lia.
      - intros H. repeat split; intros ->; [apply (H ps 0) | apply (H s 0) | apply (H s2 0)];
          auto. }
    { exact Hmem. }
    destruct (ok_rebuild st st' lists lists' bs1' _ [(bp - ps, ps + s + s2, 0)] bs2' (bp - ps)
                         (ps + s + s2)
                         Hok Hsh Hwl' ltac:(intros q Hq; apply Hfr; lia) H1 Hmid)
      as [Hok' Hkeep]; [| | exact Hl1 | exact Hl2 |].
    { tile_goal. }
    { constructor; [| constructor]. split; simpl; [exact Hh |].
      replace (bp - ps + (ps + s + s2) - 8) with (bp + s + s2 - 8) by lia. exact Hf. }
    exists (bp - ps), (ps + s + s2), st', lists', (bs1' ++ [(bp - ps, ps + s + s2, 0)] ++ bs2').
    split; [exact Hco |]. split; [exact Hsh |]. split; [exact Hok' |].
    split; [rewrite !in_app_iff; right; left; left; reflexivity |].
    split; [lia |]. split; [lia |]. split.
    + intros x u Hx. rewrite !in_app_iff in *. simpl in Hx.
      destruct Hx as [? | [[E | [E | [E | []]]] | ?]]; try tauto; discriminate E.
    + intros x u q Hx Hlo' Hhi'. apply (Hkeep x u 1 q); [| lia | lia | auto].
      rewrite !in_app_iff in *. simpl in Hx.
      destruct Hx as [? | [[E | [E | [E | []]]] | ?]]; try tauto; discriminate E.
Qed.

End Merging.

Module Freeing.
Import Mm Inv Frame MemFacts RW Search Links Writes Insert Remove Tags Place Fit Shape
  Linked Coalesce Grow Alloc Layout Tiling Wellformed Merging.
#[local] Opaque walk_fuel.

(** [free] of an allocated block of a well-formed heap: the heap stays well
    formed, the bytes of the block belong to a free block, and the other
    allocated blocks are as they were. *)
Lemma free_ok (st : heap) (lists : Z -> list Z) (bs : list block) (p s : Z) :
  heap_ok st lists bs -> In (p, s, 1) bs ->
  exists st' lists' bs' r t,
    free st p = Ok st' /\ same_shape st st' /\ heap_ok st' lists' bs' /\
    In (r, t, 0) bs' /\ r <= p /\ p + s <= r + t /\
    (forall x u, In (x, u, 1) bs -> (x, u) <> (p, s) -> In (x, u, 1) bs') /\
    (forall x u q, In (x, u, 1) bs -> (x, u) <> (p, s) ->
                   x - 4 <= q -> q + 4 <= x + u - 4 -> GET st' q = GET st q).
Proof.
  intros Hok Hin.
  pose proof Hok as (Hwl & H0 & _ & _ & _ & _ & Ht & _).
  destruct (tiles_split bs p s 1 _ _ Ht Hin) as (bs1 & bs2 & -> & H1 & H2 & Hs16 & Hsm & _).
  destruct (ok_tag st lists _ Hok p s 1 Hin) as (_ & _ & Hsz & _).
  destruct (ok_bounds st lists _ Hok p s 1 Hin) as (Hlo & Hhi & _ & _ & _ & Hih & Hlk & _).
  destruct (free_prefix st lists p s Hwl (ok_listp st lists _ Hok) Hlk Hsz Hs16 Hih)
    as (st1 & L1 & L2 & Hfree & _ & Hsh1 & HL & Hwl1 & Hh1 & Hf1 & Hfr1).
  { intros k x Hk Hx. apply (ok_allocated_outside st lists _ Hok p s k x Hin Hk Hx). }
  change (bs1 ++ (p, s, 1) :: bs2) with (bs1 ++ [(p, s, 1)] ++ bs2) in *.
  assert (tiles p [(p, s, 1)] (p + s)) as Hmid by tile_goal.
  destruct (merged_lists st lists (linked lists (class_of s) L1 p L2) bs1 _ bs2 p s p s
                         (fun x => x <> p) Hok H1 Hmid) as [Hl1 Hl2].
  { intros x. simpl. split.
    - intros Hne u c [E | []]. injection E as E _. lia.
    - intros H ->. apply (H s 1). auto. }
  { intros k x Hk. rewrite (linked_mem lists (class_of s) p L1 L2 HL k x). split.
    - intros [Hx | Hx]; [left | right; exact Hx]. split; [exact Hx |].
      pose proof (ok_allocated_outside st lists _ Hok p s k x Hin Hk Hx) as Ho.
      unfold outside in Ho. lia.
    - intros [[Hx _] | Hx]; auto. }
  destruct (ok_rebuild st st1 lists (linked lists (class_of s) L1 p L2) bs1 _ [(p, s, 0)] bs2
                       p s Hok Hsh1 Hwl1 Hfr1 H1 Hmid) as [Hok1 Hkeep1];
    [tile_goal | | exact Hl1 | exact Hl2 |].
  { constructor; [| constructor]. split; simpl; assumption. }
  assert (In (p, s, 0) (bs1 ++ [(p, s, 0)] ++ bs2)) as Hin1
    by (rewrite !in_app_iff; right; left; left; reflexivity).
  destruct (coalesce_ok st1 _ _ p s Hok1 Hin1)
    as (r & t & st' & lists' & bs' & Hco & Hsh & Hok' & Hr & Hrl & Hrh & Hall & Hkeep).
  exists st', lists', bs', r, t.
  split; [rewrite Hfree, Hco; reflexivity |].
  split; [eapply same_shape_trans; eauto |]. split; [exact Hok' |].
  split; [exact Hr |]. split; [lia |]. split; [lia |].
  assert (forall x u, In (x, u, 1) (bs1 ++ [(p, s, 1)] ++ bs2) -> (x, u) <> (p, s) ->
                      In (x, u, 1) (bs1 ++ bs2)) as Hrest.
  { intros x u Hx Hne. rewrite !in_app_iff in *. destruct Hx as [? | [[E | []] | ?]]; try tauto.
    injection E as <- <-. contradiction Hne. reflexivity. }
  split.
  - intros x u Hx Hne. apply Hall. specialize (Hrest x u Hx Hne).
    rewrite !in_app_iff in *. tauto.
  - intros x u q Hx Hne Hql Hqh. specialize (Hrest x u Hx Hne).
    rewrite (Hkeep x u q); [| rewrite !in_app_iff in *; tauto | lia | lia].
    apply (Hkeep1 x u 1 q Hrest); auto.
Qed.

End Freeing.

Module Growing.
Import Mm Inv Frame MemFacts RW Search Links Writes Insert Remove Tags Place Fit Shape
  Linked Coalesce Grow Alloc Layout Tiling Wellformed Merging.
#[local] Opaque walk_fuel.

(** [extend_heap] on a well-formed heap, when [mem_sbrk] grants the request:
    the heap stays well formed, its last block is free and has room for the
    bytes asked for, and the allocated blocks are as they were. *)
Lemma extend_ok (st : heap) (lists : Z -> list Z) (bs : list block) (words size : Z) :
  heap_ok st lists bs ->
  size = (if negb (words mod 2 =? 0) then size_t ((words + 1) * WSIZE)
          else size_t (words * WSIZE)) ->
  16 <= size -> size mod 8 = 0 -> mem_brk st + size <= mem_max_addr st ->
  exists r t st' lists' bs',
    extend_heap st words = Ok (r, st') /\ r <> NULL /\ heap_ok st' lists' bs' /\
    In (r, t, 0) bs' /\ size <= t /\
    (forall x u, In (x, u, 1) bs -> In (x, u, 1) bs') /\ kept st st' bs /\
    mem_start_brk st' = mem_start_brk st /\ heap_listp st' = heap_listp st /\
    mem_brk st <= mem_brk st'.
Proof.
  intros Hok Hsize H16 Hmod Hroom.
  pose proof Hok as (Hwl & H0 & Hbm & Hmax & Hp1 & Hp2 & Ht & He & Htag & _).
  pose proof (ok_start st lists bs Hok) as [Hst Hbrk].
  destruct (extend_heap_prefix st lists words size Hwl Hsize ltac:(lia) Hmod Hroom)
    as (st1 & L1 & L2 & Hext & Es & Em & El & Eb & _ & HL & Hwl1 & Hh & Hf & Hep & Hfr).
  { unfold linkable, NULL. lia. }
  { apply (GET_in_heap _ _ _ He). }
  { intros k x Hk Hx. destruct (ok_listed st lists bs Hok k x Hk Hx) as (u & Hu & _).
    destruct (ok_bounds st lists bs Hok x u 0 Hu) as (_ & Hxu & Hur & _). lia. }
  assert (forall x u a q, In (x, u, a) bs -> x - 4 <= q -> q + 4 <= x + u - 4 ->
                          a = 1 \/ q + 4 <= x \/ x + 8 <= q -> GET st1 q = GET st q) as Hkeep1.
  { intros x u a q Hx Hql Hqh Hown.
    destruct (ok_bounds st lists bs Hok x u a Hx) as (Hxl & Hxh & _).
    apply Hfr; [lia | apply in_heap_spec; lia |].
    apply (ok_block_off_links st lists bs Hok x u a q Hx Hql Hqh Hown). }
  assert (heap_ok st1 (linked lists (class_of size) L1 (mem_brk st) L2)
                  (bs ++ [(mem_brk st, size, 0)])) as Hok1.
  { split; [exact Hwl1 |]. rewrite Es, Em, El, Eb.
    split; [exact H0 |]. split; [exact Hroom |]. split; [exact Hmax |].
    split; [rewrite Hfr; [exact Hp1 | lia | apply (GET_in_heap _ _ _ Hp1)
                          | apply (ok_prologue_off_links st lists bs Hok); lia] |].
    split; [rewrite Hfr; [exact Hp2 | lia | apply (GET_in_heap _ _ _ Hp2)
                          | apply (ok_prologue_off_links st lists bs Hok); lia] |].
    split; [apply tiles_app; exists (mem_brk st); split; [exact Ht | tile_goal] |].
    split; [exact Hep |]. split; [| split].
    - apply Forall_app. split.
      + rewrite List.Forall_forall in *. intros [[x u] a] Hx.
        destruct (Htag _ Hx) as [Hxh Hxf]. unfold tagged, HDRP, WSIZE in *. simpl in *.
        destruct (ok_bounds st lists bs Hok x u a Hx) as (_ & _ & Hur & _).
        rewrite (Hkeep1 x u a (x - 4) Hx), (Hkeep1 x u a (x + u - 8) Hx) by lia. auto.
      + constructor; [| constructor]. split; simpl; assumption.
    - intros k x Hk Hx. apply (linked_mem lists _ _ L1 L2 HL k x) in Hx as [Hx | [-> _]].
      + destruct (ok_listed st lists bs Hok k x Hk Hx) as (u & Hu & _). exists u.
        apply in_or_app. auto.
      + exists size. apply in_or_app. right. left. reflexivity.
    - intros x u Hx. apply (linked_mem lists _ _ L1 L2 HL).
      apply in_app_or in Hx as [Hx | [E | []]].
      + left. apply (ok_free st lists bs Hok x u Hx).
      + injection E as <- <-. right. auto. }
  assert (In (mem_brk st, size, 0) (bs ++ [(mem_brk st, size, 0)])) as Hin1
    by (apply in_or_app; right; left; reflexivity).
  destruct (coalesce_ok st1 _ _ _ size Hok1 Hin1)
    as (r & t & st' & lists' & bs' & Hco & Hsh & Hok' & Hr & Hrl & Hrh & Hall & Hkeep).
  exists r, t, st', lists', bs'.
  split; [rewrite Hext; exact Hco |].
  destruct (ok_bounds st' lists' bs' Hok' r t 0 Hr) as (Hrlo & _).
  pose proof (ok_start st' lists' bs' Hok') as [Hst' _].
  destruct Hok' as (Hwl' & H0' & Hrest). 
  split; [unfold NULL; lia |].
  split; [split; [exact Hwl' |]; split; [exact H0' | exact Hrest] |].
  split; [exact Hr |]. split; [lia |].
  split; [intros x u Hx; apply Hall, in_or_app; auto |].
  split.
  - intros x u q Hx Hql Hqh.
    rewrite (Hkeep x u q); [| apply in_or_app; auto | lia | lia].
    apply (Hkeep1 x u 1 q Hx); auto.
  - pose proof (same_shape_brk st1 st' Hsh) as Eb'.
    destruct Hsh as (Es' & Em' & El' & _ & _ & Ehl').
    split; [congruence |]. split; [congruence |]. rewrite Eb', Eb. lia.
Qed.

End Growing.

Module Allocating.
Import Mm Inv Frame MemFacts RW Search Links Writes Insert Remove Tags Place Fit Shape
  Linked Coalesce Grow Alloc Layout Tiling Wellformed Placing Merging Growing.
#[local] Opaque walk_fuel.

(** [find_fit] on a well-formed heap returns NULL or a free block with room
    for the size. *)
Lemma find_fit_block (st : heap) (lists : Z -> list Z) (bs : list block) (asize : Z) :
  heap_ok st lists bs ->
  exists r, find_fit st asize = Ok r /\
            (r = NULL \/ exists cs, In (r, cs, 0) bs /\ asize <= cs).
Proof.
  intros Hok. pose proof (ok_wl st lists bs Hok) as Hwl. pose proof Hwl as [Hcl _].
  pose proof (class_of_range asize) as Hc0.
  rewrite (find_fit_first_fit st asize lists) by (intros k Hk; apply Hcl; lia).
  set (all := concat (map lists (upward (class_of asize)))).
  assert (forall x, In x all -> exists k, 0 <= k < CLASS_CNT /\ In x (lists k)) as Hall.
  { intros x. unfold all. rewrite in_concat. intros (l & Hl & Hx).
    apply in_map_iff in Hl as (k & <- & Hk). exists k. split; [| exact Hx].
    apply upward_range in Hk. lia. }
  destruct (first_fit_total st asize all) as [r Hr].
  { apply List.Forall_forall. intros x Hx. apply Hall in Hx as (k & Hk & Hx).
    destruct (wl_size st lists k x Hwl Hk Hx) as (s & Hs & _). eauto. }
  exists r. split; [exact Hr |].
  destruct (Z.eq_dec r NULL) as [-> | Hne]; [left; reflexivity | right].
  destruct (first_fit_hit st asize r all Hr Hne) as (Hin & s & Hs & Hge).
  apply Hall in Hin as (k & Hk & Hin).
  destruct (ok_listed st lists bs Hok k r Hk Hin) as (cs & Hcs & _).
  destruct (ok_tag st lists bs Hok r cs 0 Hcs) as (_ & _ & Hsz & _).
  exists cs. split; [exact Hcs |]. congruence.
Qed.

Lemma adjust_facts (size : Z) :
  0 < size <= 2 ^ 64 - 16 ->
  adjust size mod 8 = 0 /\ 16 <= adjust size < 2 ^ 64 /\ size + 8 <= adjust size.
Proof.
  intros H. rewrite (Adjust.adjust_in_range size H). unfold roundUp8.
  change (2 ^ 64) with 18446744073709551616 in *. Z.div_mod_to_equations. lia.
Qed.

(** [malloc] on a well-formed heap: it returns NULL, having changed nothing
    but the log of requests, or an allocated block of a well-formed heap
    with room for the bytes asked for; the blocks that were allocated are as
    they were. *)
Lemma malloc_ok (st : heap) (lists : Z -> list Z) (bs : list block) (size : Z) :
  heap_ok st lists bs -> 0 < size <= 2 ^ 64 - 16 ->
  exists q st',
    malloc st size = Ok (q, st') /\
    mem_start_brk st' = mem_start_brk st /\ heap_listp st' = heap_listp st /\
    mem_brk st <= mem_brk st' /\
    ((q = NULL /\ st' = log_request st (MAX (adjust size) CHUNKSIZE)) \/
     (q <> NULL /\
      exists lists' bs' qs,
        heap_ok st' lists' bs' /\ In (q, qs, 1) bs' /\ size + 8 <= qs /\
        (forall x u, In (x, u, 1) bs -> In (x, u, 1) bs' /\ x <> q) /\ kept st st' bs)).
Proof.
  intros Hok Hsize. destruct (adjust_facts size Hsize) as (Hm & Ha & Hroom).
  set (asize := adjust size) in *.
  destruct (find_fit_block st lists bs asize Hok) as (r & Hfit & Hr).
  assert (forall st0 lists0 bs0 bp cs,
            heap_ok st0 lists0 bs0 -> In (bp, cs, 0) bs0 -> asize <= cs ->
            exists st' lists' bs' qs,
              place st0 bp asize = Ok (bp, st') /\ same_shape st0 st' /\ bp <> NULL /\
              heap_ok st' lists' bs' /\ In (bp, qs, 1) bs' /\ size + 8 <= qs /\
              (forall x u, In (x, u, 1) bs0 -> In (x, u, 1) bs' /\ x <> bp) /\
              kept st0 st' bs0) as Hplace.
  { intros st0 lists0 bs0 bp cs Hok0 Hbp Hcs.
    destruct (place_ok st0 lists0 bs0 bp cs asize Hok0 Hbp ltac:(lia) Hm)
      as (st' & lists' & bs' & qs & Hpl & Hsh & Hok' & Hq & Hqs & Hall & Hkeep).
    exists st', lists', bs', qs. split; [exact Hpl |]. split; [exact Hsh |].
    destruct (ok_bounds st0 lists0 bs0 Hok0 bp cs 0 Hbp) as (_ & _ & _ & _ & _ & _ & [Hnn _] & _).
    split; [exact Hnn |]. split; [exact Hok' |]. split; [exact Hq |]. split; [lia |].
    split; [| exact Hkeep]. intros x u Hx. split; [apply Hall, Hx |]. intros ->.
    destruct Hok0 as (_ & _ & _ & _ & _ & _ & Ht & _).
    destruct (tiles_same_address bs0 bp u 1 cs 0 _ _ Ht Hx Hbp) as [_ E]. discriminate. }
  unfold malloc. destruct (Z.eqb_spec size 0); [lia |]. cbv zeta. fold asize.
  rewrite Hfit, bind_ok.
  destruct Hr as [-> | (cs & Hcs & Hge)].
  - (* no block fits: the heap has to grow *)
    change (negb (NULL =? NULL)) with false. cbv iota.
    destruct (Exhaustion.extend_size_even asize ltac:(lia) Hm) as [Hev Hsz].
    set (E := MAX asize CHUNKSIZE) in *.
    assert (E = (if negb (E / WSIZE mod 2 =? 0) then size_t ((E / WSIZE + 1) * WSIZE)
                 else size_t (E / WSIZE * WSIZE))) as HE
      by (rewrite Hev; simpl; symmetry; exact Hsz).
    assert (16 <= E /\ E mod 8 = 0 /\ asize <= E) as (HE16 & HEm & HEa).
    { subst E. unfold MAX, CHUNKSIZE. change (Z.shiftl 1 8) with 256.
      destruct (Z.ltb_spec 256 asize); repeat split; try lia; reflexivity. }
    destruct (Z_lt_le_dec (mem_max_addr st) (mem_brk st + E)) as [Hfull | Hfree].
    + rewrite (Exhaustion.extend_heap_refused st _ E HE Hfull), bind_ok.
      exists NULL, (log_request st E). split; [reflexivity |].
      split; [reflexivity |]. split; [reflexivity |]. split; [unfold mem_brk; simpl; lia |].
      left. auto.
    + destruct (extend_ok st lists bs (E / WSIZE) E Hok HE HE16 HEm Hfree)
        as (bp & t & st1 & lists1 & bs1 & Hext & Hnn & Hok1 & Hbp & Ht & Hall1 & Hkeep1
            & Es & El & Eb).
      rewrite Hext, bind_ok. destruct (Z.eqb_spec bp NULL); [contradiction |].
      destruct (Hplace st1 lists1 bs1 bp t Hok1 Hbp ltac:(lia))
        as (st' & lists' & bs' & qs & Hpl & Hsh & _ & Hok' & Hq & Hqs & Hall & Hkeep).
      rewrite Hpl, bind_ok. exists bp, st'. split; [reflexivity |].
      pose proof (same_shape_brk _ _ Hsh) as Eb'.
      destruct Hsh as (Es' & _ & _ & _ & _ & El').
      split; [congruence |]. split; [congruence |]. split; [lia |].
      right. split; [exact Hnn |]. exists lists', bs', qs.
      split; [exact Hok' |]. split; [exact Hq |]. split; [exact Hqs |]. split.
      * intros x u Hx. apply Hall, Hall1, Hx.
      * intros x u q Hx Hql Hqh.
        rewrite (Hkeep x u q (Hall1 x u Hx) Hql Hqh). apply (Hkeep1 x u q Hx Hql Hqh).
  - (* a block fits *)
    destruct (Hplace st lists bs r cs Hok Hcs Hge)
      as (st' & lists' & bs' & qs & Hpl & Hsh & Hnn & Hok' & Hq & Hqs & Hall & Hkeep).
    destruct (Z.eqb_spec r NULL); [contradiction |]. cbv iota. simpl negb. cbv iota.
    rewrite Hpl, bind_ok. exists r, st'. split; [reflexivity |].
    pose proof (same_shape_brk _ _ Hsh) as Eb'.
    destruct Hsh as (Es' & _ & _ & _ & _ & El').
    split; [exact Es' |]. split; [exact El' |]. split; [lia |].
    right. split; [exact Hnn |]. exists lists', bs', qs. auto.
Qed.

(** X6.  When [find_fit] finds a block for the adjusted size of a nonzero
    request: whenever [malloc] returns, on a heap well formed or not, the
    pointer it returns is that very block and no growth request was made,
    the region keeps its break, its limits, its log and [heap_listp]; and on
    a well-formed heap, for a request of at most [2^64 - 16] bytes, [malloc]
    does return. *)
Theorem malloc_hit_keeps_region (st : heap) (size bp : Z) :
  size <> 0 -> find_fit st (adjust size) = Ok bp -> bp <> NULL ->
  (forall p st', malloc st size = Ok (p, st') -> p = bp /\ same_shape st st') /\
  (forall lists bs, heap_ok st lists bs -> 0 < size <= 2 ^ 64 - 16 ->
                    exists st', malloc st size = Ok (bp, st')).
Proof.
  intros Hs Hf Hbp.
  assert (forall p st', malloc st size = Ok (p, st') -> p = bp /\ same_shape st st') as Hret.
  { intros p st' H. unfold malloc in H.
    destruct (Z.eqb_spec size 0); [contradiction |].
    rewrite Hf in H. simpl in H.
    destruct (Z.eqb_spec bp NULL); [contradiction |]. simpl in H.
    binds. split; [reflexivity |]. eapply place_shape; eauto. }
  split; [exact Hret |].
  intros lists bs Hok Hsize.
  destruct (malloc_ok st lists bs size Hok Hsize) as (q & st' & Hm & _).
  destruct (Hret q st' Hm) as [-> _]. exists st'. exact Hm.
Qed.

Lemma malloc_hit_keeps_region_witness :
  (forall p st', malloc Run.skipped 100 = Ok (p, st') -> p = 4280 /\ same_shape Run.skipped st') /\
  (forall lists bs, heap_ok Run.skipped lists bs -> 0 < 100 <= 2 ^ 64 - 16 ->
                    exists st', malloc Run.skipped 100 = Ok (4280, st')).
Proof.
  apply (malloc_hit_keeps_region Run.skipped 100 4280).
  - discriminate.
  - vm_compute. reflexivity.
  - discriminate.
Defined.

End Allocating.

(** ** Words and bytes *)
Module Bytes.
Import Mm Inv Frame MemFacts RW Search Links Writes Insert Remove Tags Place Fit Shape
  Linked Coalesce Grow Alloc Layout Tiling Wellformed.
#[local] Opaque walk_fuel.

Lemma Z_of_byte_inj (b c : byte) : Z_of_byte b = Z_of_byte c -> b = c.
Proof.
  unfold Z_of_byte. intros H. apply N2Z.inj in H.
  pose proof (Byte.of_to_N b) as Hb. pose proof (Byte.of_to_N c) as Hc.
  rewrite H in Hb. congruence.
Qed.

Lemma bytes_word_inj (b0 b1 b2 b3 c0 c1 c2 c3 : byte) :
  bytes_word b0 b1 b2 b3 = bytes_word c0 c1 c2 c3 -> [b0; b1; b2; b3] = [c0; c1; c2; c3].
Proof.
  unfold bytes_word. intros H.
  pose proof (Z_of_byte_range b0). pose proof (Z_of_byte_range b1).
  pose proof (Z_of_byte_range b2). pose proof (Z_of_byte_range b3).
  pose proof (Z_of_byte_range c0). pose proof (Z_of_byte_range c1).
  pose proof (Z_of_byte_range c2). pose proof (Z_of_byte_range c3).
  assert (Z_of_byte b0 = Z_of_byte c0) as E0 by lia.
  assert (Z_of_byte b1 = Z_of_byte c1) as E1 by lia.
  assert (Z_of_byte b2 = Z_of_byte c2) as E2 by lia.
  assert (Z_of_byte b3 = Z_of_byte c3) as E3 by lia.
  apply Z_of_byte_inj in E0, E1, E2, E3. congruence.
Qed.

(** The four bytes behind a word that can be read. *)
Lemma GET_slice (st : heap) (w v : Z) :
  GET st w = Ok v ->
  in_heap st w 4 = true /\
  exists b0 b1 b2 b3,
    take 4 (drop (offset st w) (mem_heap st)) = [b0; b1; b2; b3] /\
    v = bytes_word b0 b1 b2 b3.
Proof.
  unfold GET, load_bytes. change (4 =? 0) with false. cbv iota.
  destruct (in_heap st w 4); [| discriminate]. rewrite bind_ok.
  change (Z.to_nat 4) with 4%nat.
  destruct (take 4 (drop (offset st w) (mem_heap st))) as [| b0 [| b1 [| b2 [| b3 [| ? ?]]]]];
    try discriminate.
  intros [= <-]. split; [reflexivity |]. eauto 6.
Qed.

(** Equal words are equal bytes. *)
Lemma GET_eq_slice (st st' : heap) (w v : Z) :
  GET st w = Ok v -> GET st' w = Ok v ->
  take 4 (drop (offset st' w) (mem_heap st')) = take 4 (drop (offset st w) (mem_heap st)).
Proof.
  intros H H'. apply GET_slice in H as (_ & b0 & b1 & b2 & b3 & E & ->).
  apply GET_slice in H' as (_ & c0 & c1 & c2 & c3 & E' & Hv).
  rewrite E, E'. symmetry. apply bytes_word_inj, Hv.
Qed.

Lemma GET_in_range (st : heap) (w : Z) :
  in_heap st w 4 = true -> exists v, GET st w = Ok v.
Proof.
  intros Hin. unfold GET, load_bytes. change (4 =? 0) with false. cbv iota. rewrite Hin, bind_ok.
  apply in_heap_spec in Hin. unfold mem_brk in Hin.
  change (Z.to_nat 4) with 4%nat.
  assert (length (take 4 (drop (offset st w) (mem_heap st))) = 4%nat) as Hlen
    by (rewrite length_take, length_drop; unfold offset; lia).
  destruct (take 4 (drop (offset st w) (mem_heap st))) as [| b0 [| b1 [| b2 [| b3 [| ? ?]]]]];
    try discriminate Hlen.
  eauto.
Qed.

(** Bytes that lie in words that are the same in two heaps are the same. *)
Lemma bytes_of_words (st st' : heap) (a n : Z) :
  mem_start_brk st' = mem_start_brk st -> 4 <= n -> in_heap st a n = true ->
  (forall w, a <= w -> w + 4 <= a + n -> GET st' w = GET st w) ->
  load_bytes st' a n = load_bytes st a n.
Proof.
  intros Es Hn Hin Hw. pose proof Hin as Hin0. apply in_heap_spec in Hin.
  assert (forall w, a <= w -> w + 4 <= a + n ->
            in_heap st' w 4 = true /\
            take 4 (drop (offset st w) (mem_heap st'))
            = take 4 (drop (offset st w) (mem_heap st))) as Hslice.
  { intros w Hl Hh.
    destruct (GET_in_range st w) as [v Hv]; [apply in_heap_spec; lia |].
    pose proof (Hw w Hl Hh) as Hv'. rewrite Hv in Hv'.
    split; [apply (GET_in_heap _ _ _ Hv') |].
    replace (offset st w) with (offset st' w) at 1 by (unfold offset; rewrite Es; reflexivity).
    apply (GET_eq_slice st st' w v Hv Hv'). }
  assert (in_heap st' a n = true) as Hin'.
  { destruct (Hslice a ltac:(lia) ltac:(lia)) as [Ha _].
    destruct (Hslice (a + n - 4) ltac:(lia) ltac:(lia)) as [Hb _].
    apply in_heap_spec in Ha, Hb. apply in_heap_spec. lia. }
  unfold load_bytes. destruct (Z.eqb_spec n 0); [lia |]. rewrite Hin0, Hin'. f_equal.
  replace (offset st' a) with (offset st a) by (unfold offset; rewrite Es; reflexivity).
  apply list_eq. intros i.
  destruct (lt_dec i (Z.to_nat n)) as [Hi | Hi];
    [| rewrite !lookup_take_ge by lia; reflexivity].
  rewrite !lookup_take_lt, !lookup_drop by lia.
  set (j := Z.min (Z.of_nat i) (n - 4)).
  destruct (Hslice (a + j) ltac:(lia) ltac:(lia)) as [_ E].
  apply (f_equal (fun l => l !! (i - Z.to_nat j)%nat)) in E.
  rewrite !lookup_take_lt, !lookup_drop in E by lia.
  replace (offset st (a + j) + (i - Z.to_nat j))%nat with (offset st a + i)%nat in E
    by (unfold offset; lia).
  exact E.
Qed.

(** A store leaves the words it does not overlap. *)
Lemma GET_store_other (st st' : heap) (p w : Z) (bs : list byte) :
  store_bytes st p bs = Ok st' -> w + 4 <= p \/ p + Z.of_nat (length bs) <= w ->
  GET st' w = GET st w.
Proof.
  intros H Hd. unfold GET. rewrite (load_store_other st st' p w 4 bs H Hd). reflexivity.
Qed.

End Bytes.

(** ** [realloc] keeps the payload *)
Module Copying.
Import Mm Inv Frame MemFacts RW Search Links Writes Insert Remove Tags Place Fit Shape
  Linked Coalesce Grow Alloc Layout Tiling Wellformed Merging Freeing Allocating Bytes.
#[local] Opaque walk_fuel.

(** Bytes stored in the payload of an allocated block leave the heap well
    formed. *)
Lemma store_ok (st : heap) (lists : Z -> list Z) (bs : list block) (q qs : Z)
      (bytes : list byte) :
  heap_ok st lists bs -> In (q, qs, 1) bs -> Z.of_nat (length bytes) <= qs - 8 ->
  exists st',
    store_bytes st q bytes = Ok st' /\ same_shape st st' /\ heap_ok st' lists bs /\
    (forall w, w + 4 <= q \/ q + Z.of_nat (length bytes) <= w -> GET st' w = GET st w).
Proof.
  intros Hok Hin Hlen.
  pose proof Hok as (Hwl & _ & _ & _ & _ & _ & Ht & _).
  destruct (tiles_split bs q qs 1 _ _ Ht Hin) as (bs1 & bs2 & E & H1 & H2 & _).
  destruct (ok_bounds st lists bs Hok q qs 1 Hin) as (Hlo & Hhi & Hqs & Hqm & _ & Hih & _).
  apply in_heap_spec in Hih.
  assert (in_heap st q (Z.of_nat (length bytes)) = true) as Hin_q
    by (apply in_heap_spec; lia).
  pose proof (store_bytes_ok st q bytes Hin_q) as Hst.
  set (st' := set_mem st (list_inserts (offset st q) bytes (mem_heap st))) in *.
  pose proof (store_bytes_shape _ _ _ _ Hst) as Hsh.
  assert (forall w, w + 4 <= q \/ q + Z.of_nat (length bytes) <= w -> GET st' w = GET st w)
    as Hfr by (intros w; apply (GET_store_other _ _ _ _ _ Hst)).
  exists st'. split; [exact Hst |]. split; [exact Hsh |]. split; [| exact Hfr].
  assert (well_linked st' lists) as Hwl'.
  { apply (wl_frame st _ lists Hwl Hsh).
    - intros k Hk. apply Hfr. unfold head_cell, CLASS_CNT, WSIZE in *. lia.
    - intros k y Hk Hy w Hw. apply Hfr.
      pose proof (ok_allocated_outside st lists bs Hok q qs k y Hin Hk Hy) as Ho.
      unfold outside in Ho. lia. }
  change (bs1 ++ (q, qs, 1) :: bs2) with (bs1 ++ [(q, qs, 1)] ++ bs2) in E.
  rewrite E in *.
  assert (tiles q [(q, qs, 1)] (q + qs)) as Hmid by tile_goal.
  destruct (ok_tag st lists _ Hok q qs 1 Hin) as (Hh & Hf & _).
  destruct (ok_rebuild st _ lists lists bs1 _ [(q, qs, 1)] bs2 q qs Hok Hsh Hwl'
                       ltac:(intros w Hw _; apply Hfr; lia) H1 Hmid Hmid) as [Hok' _].
  - constructor; [| constructor]. unfold tagged, HDRP, WSIZE in *. simpl.
    rewrite !Hfr by lia. auto.
  - intros k x Hk Hx. destruct (ok_listed st lists _ Hok k x Hk Hx) as (s & Hs & _). eauto.
  - intros x s Hx. apply (ok_free st lists _ Hok x s Hx).
  - exact Hok'.
Qed.

Lemma prefix_eq (st st' : heap) (a b N m : Z) :
  load_bytes st' a N = load_bytes st b N -> in_heap st b N = true -> 0 <= m <= N ->
  load_bytes st' a m = load_bytes st b m.
Proof.
  intros E Hin Hm. destruct (Realloc.load_bytes_ok st b N Hin) as [bytes Hb].
  rewrite Hb in E.
  rewrite (Realloc.load_bytes_prefix _ _ _ _ _ E Hm), (Realloc.load_bytes_prefix _ _ _ _ _ Hb Hm).
  reflexivity.
Qed.

(** The payload of an allocated block whose words are kept holds the same
    bytes. *)
Lemma payload_kept (st st' : heap) (lists : Z -> list Z) (bs : list block) (x u m : Z) :
  heap_ok st lists bs -> In (x, u, 1) bs -> mem_start_brk st' = mem_start_brk st ->
  (forall w, x - 4 <= w -> w + 4 <= x + u - 4 -> GET st' w = GET st w) ->
  0 <= m <= u - 8 ->
  load_bytes st' x m = load_bytes st x m.
Proof.
  intros Hok Hin Es Hkeep Hm.
  destruct (ok_bounds st lists bs Hok x u 1 Hin) as (_ & _ & Hu & _ & _ & Hih & _).
  apply in_heap_spec in Hih.
  assert (in_heap st x (u - 8) = true) as Hin' by (apply in_heap_spec; lia).
  apply (prefix_eq st st' x x (u - 8) m); [| exact Hin' | exact Hm].
  apply (bytes_of_words st st' x (u - 8) Es ltac:(lia) Hin').
  intros w Hl Hh. apply Hkeep; lia.
Qed.

(** C1, amended.  On a well-formed heap, for an allocated block [p] and a
    size from 1 to [2^64 - 16], [realloc] returns.  It returns NULL when
    [malloc] does, and then the heap is as before but for the logged
    request.  Otherwise it has copied [min(oldBlockSize, size)] bytes from
    the old payload address to the new block, where the old block size is
    the size field of the old header (the payload plus 8), released the old
    block and returned the new pointer: in the heap it returns, the first
    [min(oldPayloadSize, size)] bytes of the new payload, and every prefix of
    them, are the bytes the old payload held before the call; the new block
    is allocated and has room for [size] bytes; the bytes of the old block
    belong to a free block; and the heap is well formed. *)
Theorem realloc_keeps_payload (st : heap) (lists : Z -> list Z) (bs : list block)
        (p s size : Z) :
  heap_ok st lists bs -> In (p, s, 1) bs -> 0 < size <= 2 ^ 64 - 16 ->
  exists q st',
    realloc st p size = Ok (q, st') /\
    ((q = NULL /\ st' = log_request st (MAX (adjust size) CHUNKSIZE)) \/
     (q <> NULL /\ q <> p /\
      exists st1 st2 lists' bs' qs r t,
        malloc st size = Ok (q, st1) /\
        payload_size st1 p = Ok (s - 8) /\
        memcpy st1 q p (Z.min s size) = Ok st2 /\
        free st2 p = Ok st' /\
        (forall m, 0 <= m <= Z.min (s - 8) size ->
                   exists bytes, load_bytes st p m = Ok bytes /\
                                 load_bytes st' q m = Ok bytes) /\
        heap_ok st' lists' bs' /\ In (q, qs, 1) bs' /\ size + 8 <= qs /\
        In (r, t, 0) bs' /\ r <= p /\ p + s <= r + t)).
Proof.
  intros Hok Hin Hsize.
  destruct (ok_bounds st lists bs Hok p s 1 Hin) as (Hplo & Hphi & Hs & _ & _ & Hpin & [Hpn _] & _).
  destruct (malloc_ok st lists bs size Hok Hsize)
    as (q & st1 & Hmalloc & Es & El & Eb & [[-> ->] | (Hq & lists1 & bs1 & qs & Hok1 & Hqin & Hqs
                                                      & Hall1 & Hkeep1)]).
  { exists NULL, (log_request st (MAX (adjust size) CHUNKSIZE)). split; [| left; auto].
    unfold realloc. destruct (Z.eqb_spec size 0); [lia |].
    destruct (Z.eqb_spec p NULL); [contradiction |]. rewrite Hmalloc, bind_ok. reflexivity. }
  destruct (Hall1 p s Hin) as [Hin1 Hpq].
  destruct (ok_tag st1 lists1 bs1 Hok1 p s 1 Hin1) as (_ & _ & Hsz1 & _).
  destruct (ok_bounds st1 lists1 bs1 Hok1 p s 1 Hin1) as (_ & Hphi1 & _ & _ & _ & Hpin1 & _).
  destruct (ok_bounds st1 lists1 bs1 Hok1 q qs 1 Hqin) as (_ & _ & Hqsr & _ & _ & Hqin1 & _).
  apply in_heap_spec in Hpin, Hpin1, Hqin1.
  set (n := Z.min s size).
  assert (in_heap st1 p n = true) as Hsrc by (apply in_heap_spec; lia).
  destruct (Realloc.load_bytes_ok st1 p n Hsrc) as [bytes Hload].
  pose proof (Realloc.load_bytes_length st1 p n bytes ltac:(lia) Hload) as Hlen.
  destruct (store_ok st1 lists1 bs1 q qs bytes Hok1 Hqin ltac:(lia))
    as (st2 & Hstore & Hsh2 & Hok2 & Hfr2).
  destruct (free_ok st2 lists1 bs1 p s Hok2 Hin1)
    as (st' & lists' & bs' & r & t & Hfree & Hsh' & Hok' & Hr & Hrl & Hrh & Hall' & Hkeep').
  assert ((q, qs) <> (p, s)) as Hne by congruence.
  exists q, st'. split.
  { unfold realloc. destruct (Z.eqb_spec size 0); [lia |].
    destruct (Z.eqb_spec p NULL); [contradiction |]. rewrite Hmalloc, bind_ok.
    destruct (Z.eqb_spec q NULL); [contradiction |].
    rewrite (Realloc.realloc_copy_len_min st1 p size s Hsz1), bind_ok.
    unfold memcpy. fold n. rewrite Hload, bind_ok, Hstore, bind_ok, Hfree. reflexivity. }
  right. split; [exact Hq |]. split; [congruence |].
  exists st1, st2, lists', bs', qs, r, t.
  split; [exact Hmalloc |].
  split; [unfold payload_size; rewrite Hsz1; reflexivity |].
  split; [unfold memcpy; fold n; rewrite Hload, bind_ok; exact Hstore |].
  split; [exact Hfree |].
  split; [| split; [exact Hok' |]; split; [apply (Hall' q qs Hqin Hne) |];
            split; [exact Hqs |]; auto].
  intros m Hm.
  assert (in_heap st p m = true) as Hpm by (apply in_heap_spec; lia).
  destruct (Realloc.load_bytes_ok st p m Hpm) as [b Hb]. exists b. split; [exact Hb |].
  rewrite <- Hb.
  (* the old payload survives malloc *)
  rewrite <- (payload_kept st st1 lists bs p s m Hok Hin Es
                           (fun w Hl Hh => Hkeep1 p s w Hin Hl Hh) ltac:(lia)).
  (* the copy *)
  assert (load_bytes st2 q n = load_bytes st1 p n) as Hcopy.
  { rewrite Hload, <- Hlen. apply (load_store_same _ _ _ _ Hstore). }
  rewrite <- (prefix_eq st1 st2 q p n m Hcopy Hsrc ltac:(lia)).
  (* the new payload survives free *)
  destruct Hsh' as (Es' & _).
  apply (payload_kept st2 st' lists1 bs1 q qs m Hok2 Hqin Es'
                      (fun w Hl Hh => Hkeep' q qs w Hqin Hne Hl Hh) ltac:(lia)).
Qed.

Lemma realloc_keeps_payload_witness :
  exists q st',
    realloc Run.grown_old.2 4168 200 = Ok (q, st') /\
    ((q = NULL /\ st' = log_request Run.grown_old.2 (MAX (adjust 200) CHUNKSIZE)) \/
     (q <> NULL /\ q <> 4168 /\
      exists st1 st2 lists' bs' qs r t,
        malloc Run.grown_old.2 200 = Ok (q, st1) /\
        payload_size st1 4168 = Ok (112 - 8) /\
        memcpy st1 q 4168 (Z.min 112 200) = Ok st2 /\
        free st2 4168 = Ok st' /\
        (forall m, 0 <= m <= Z.min (112 - 8) 200 ->
                   exists bytes, load_bytes Run.grown_old.2 4168 m = Ok bytes /\
                                 load_bytes st' q m = Ok bytes) /\
        heap_ok st' lists' bs' /\ In (q, qs, 1) bs' /\ 200 + 8 <= qs /\
        In (r, t, 0) bs' /\ r <= 4168 /\ 4168 + 112 <= r + t)).
Proof.
  apply (realloc_keeps_payload Run.grown_old.2 (Run.lists_of Run.grown_old.2)
           [(4168, 112, 1); (4280, 144, 0)] 4168 112 200).
  - split; [check_lists |].
    split; [vm_compute; discriminate |]. split; [vm_compute; discriminate |].
    split; [vm_compute; reflexivity |].
    split; [vm_compute; reflexivity |]. split; [vm_compute; reflexivity |].
    split; [vm_compute; repeat split; auto; discriminate |].
    split; [vm_compute; reflexivity |].
    split; [repeat constructor; vm_compute; reflexivity |].
    split.
    + intros k x Hk. each_class k Hk ltac:(intros Hx; vm_compute in Hx;
        repeat match goal with
          | H : False |- _ => destruct H
          | H : _ \/ _ |- _ => destruct H as [<- | H]
          end; eexists; simpl; eauto).
    + intros x s [E | [E | []]]; [discriminate E |]. injection E as <- <-.
      vm_compute. left. reflexivity.
  - left. reflexivity.
  - vm_compute. split; [reflexivity | discriminate].
Defined.

End Copying.

(** ** The initial heap is well formed *)
Module Starting.
Import Mm Inv Frame MemFacts RW Search Links Writes Insert Remove Tags Place Fit Shape
  Linked Coalesce Grow Alloc Layout Tiling Wellformed Merging.
#[local] Opaque walk_fuel.

(** [mm_init] on a region with room for 328 bytes, whose limit is less than
    4 GiB above the new [heap_listp], builds a well-formed heap of one free
    block. *)
Lemma init_ok (st : heap) :
  0 <= mem_start_brk st -> mem_brk st + 328 <= mem_max_addr st ->
  mem_max_addr st < mem_brk st + 64 + 2 ^ 32 ->
  exists st',
    mm_init st = Ok (0, st') /\
    heap_ok st' (fun k => if k =? 6 then [mem_brk st + 72] else []) [(mem_brk st + 72, 256, 0)].
Proof.
  intros Hstart Hroom Hmax.
  destruct (init_heap st Hstart Hroom)
    as (st' & Hinit & Hl & Hs & Hb & _ & Hm & Hwl & Hph & Hpf & Hh & Hf & He & _).
  exists st'. split; [exact Hinit |].
  split; [exact Hwl |]. rewrite Hl, Hs, Hb, Hm.
  split; [exact Hstart |]. split; [exact Hroom |]. split; [exact Hmax |].
  split; [replace (mem_brk st + 64 - 4) with (mem_brk st + 60) by lia; exact Hph |].
  split; [exact Hpf |].
  split; [simpl; repeat split; auto; lia |].
  split; [replace (mem_brk st + 328 - 4) with (mem_brk st + 324) by lia; exact He |].
  split; [| split].
  - constructor; [| constructor]. unfold tagged, HDRP, WSIZE. simpl.
    replace (mem_brk st + 72 - 4) with (mem_brk st + 68) by lia.
    replace (mem_brk st + 72 + 256 - 8) with (mem_brk st + 320) by lia. auto.
  - intros k x Hk Hx. destruct (Z.eqb_spec k 6); [| contradiction].
    destruct Hx as [<- | []]. exists 256. left. reflexivity.
  - intros x s [E | []]. injection E as <- <-. left. reflexivity.
Qed.

End Starting.

(** ** The cache simulator: the two loops of a visit *)
Module CsimFacts.
Import Csim.

(** The first loop: it stops at the first valid line with the tag; without
    one it reports the last invalid line it saw. *)
Lemma find_line_spec (cacheSet : list cacheLine) (t : Z) (n : nat) :
  forall (i : nat) (v : Z),
    (i + n <= length cacheSet)%nat ->
    exists r,
      find_line cacheSet t i n v = Some r /\
      match r with
      | inl k =>
          (i <= k < i + n)%nat /\
          (exists l, cacheSet !! k = Some l /\ valid l <> 0 /\ tag l = t) /\
          forall j l, (i <= j < k)%nat -> cacheSet !! j = Some l ->
                      valid l = 0 \/ tag l <> t
      | inr v' =>
          (forall j l, (i <= j < i + n)%nat -> cacheSet !! j = Some l ->
                       valid l = 0 \/ tag l <> t) /\
          ((v' = v /\ forall j l, (i <= j < i + n)%nat -> cacheSet !! j = Some l ->
                                  valid l <> 0) \/
           (exists k l, v' = Z.of_nat k /\ (i <= k < i + n)%nat /\
                        cacheSet !! k = Some l /\ valid l = 0 /\
                        forall j l', (k < j < i + n)%nat -> cacheSet !! j = Some l' ->
                                     valid l' <> 0))
      end.
Proof.
  induction n as [| n IH]; intros i v Hlen.
  - exists (inr v). split; [reflexivity |]. split; [intros; lia |]. left.
    split; [reflexivity | intros; lia].
  - destruct (lookup_lt_is_Some_2 cacheSet i ltac:(lia)) as [line Hline].
    cbn [find_line]. rewrite Hline. cbn [mbind option_bind].
    destruct (Z.eqb_spec (valid line) 0) as [Hv | Hv]; cbn [negb].
    + destruct (IH (S i) (Z.of_nat i) ltac:(lia)) as (r & Hr & Hspec).
      exists r. split; [exact Hr |]. destruct r as [k | v'].
      * destruct Hspec as (Hk & Hm & Hbefore). split; [lia |]. split; [exact Hm |].
        intros j l Hj Hl. destruct (decide (j = i)) as [-> | Hne].
        -- left. congruence.
        -- apply (Hbefore j l); [lia | exact Hl].
      * destruct Hspec as (Hnone & Hvac). split.
        -- intros j l Hj Hl. destruct (decide (j = i)) as [-> | Hne].
           ++ left. congruence.
           ++ apply (Hnone j l); [lia | exact Hl].
        -- right. destruct Hvac as [[-> Hall] | (k & l & -> & Hk & Hl & Hlv & Hafter)].
           ++ exists i, line. split; [reflexivity |]. split; [lia |]. split; [exact Hline |].
              split; [exact Hv |]. intros j l' Hj Hl'. apply (Hall j l'); [lia | exact Hl'].
           ++ exists k, l. split; [reflexivity |]. split; [lia |]. split; [exact Hl |].
              split; [exact Hlv |]. intros j l' Hj Hl'. apply (Hafter j l'); [lia | exact Hl'].
    + destruct (Z.eqb_spec (tag line) t) as [Ht | Ht].
      * exists (inl i). split; [reflexivity |]. split; [lia |].
        split; [exists line; auto | intros; lia].
      * destruct (IH (S i) v ltac:(lia)) as (r & Hr & Hspec).
        exists r. split; [exact Hr |]. destruct r as [k | v'].
        -- destruct Hspec as (Hk & Hm & Hbefore). split; [lia |]. split; [exact Hm |].
           intros j l Hj Hl. destruct (decide (j = i)) as [-> | Hne].
           ++ right. congruence.
           ++ apply (Hbefore j l); [lia | exact Hl].
        -- destruct Hspec as (Hnone & Hvac). split.
           ++ intros j l Hj Hl. destruct (decide (j = i)) as [-> | Hne].
              ** right. congruence.
              ** apply (Hnone j l); [lia | exact Hl].
           ++ destruct Hvac as [[-> Hall] | (k & l & -> & Hk & Hl & Hlv & Hafter)].
              ** left. split; [reflexivity |]. intros j l' Hj Hl'.
                 destruct (decide (j = i)) as [-> | Hne]; [congruence |].
                 apply (Hall j l'); [lia | exact Hl'].
              ** right. exists k, l. split; [reflexivity |]. split; [lia |].
                 split; [exact Hl |]. split; [exact Hlv |].
                 intros j l' Hj Hl'. apply (Hafter j l'); [lia | exact Hl'].
Qed.

(** The second loop: the first line whose time is the least, if any time
    is below the starting [minTime]. *)
Lemma min_line_spec (cacheSet : list cacheLine) (n : nat) :
  forall (i : nat) (mi0 mt0 : Z),
    (i + n <= length cacheSet)%nat ->
    exists mi mt,
      min_line cacheSet i n mi0 mt0 = Some (mi, mt) /\
      (forall j l, (i <= j < i + n)%nat -> cacheSet !! j = Some l -> mt <= lastUsedTime l) /\
      ((mi = mi0 /\ mt = mt0) \/
       (exists k l, mi = Z.of_nat k /\ (i <= k < i + n)%nat /\ cacheSet !! k = Some l /\
                    lastUsedTime l = mt /\ mt < mt0 /\
                    forall j l', (i <= j < k)%nat -> cacheSet !! j = Some l' ->
                                 mt < lastUsedTime l')).
Proof.
  induction n as [| n IH]; intros i mi0 mt0 Hlen.
  - exists mi0, mt0. split; [reflexivity |]. split; [intros; lia | left; auto].
  - destruct (lookup_lt_is_Some_2 cacheSet i ltac:(lia)) as [line Hline].
    cbn [min_line]. rewrite Hline. cbn [mbind option_bind].
    destruct (Z.ltb_spec (lastUsedTime line) mt0) as [Hlt | Hge].
    + destruct (IH (S i) (Z.of_nat i) (lastUsedTime line) ltac:(lia))
        as (mi & mt & Hr & Hmin & Hcase).
      exists mi, mt. split; [exact Hr |].
      assert (mt <= lastUsedTime line) as Hle.
      { destruct Hcase as [[_ ->] | (k & l & _ & _ & _ & _ & Hlt' & _)]; lia. }
      split.
      * intros j l Hj Hl. destruct (decide (j = i)) as [-> | Hne].
        -- assert (l = line) as -> by congruence. exact Hle.
        -- apply (Hmin j l); [lia | exact Hl].
      * right. destruct Hcase as [[-> ->] | (k & l & -> & Hk & Hl & Ht & Hlt' & Hbefore)].
        -- exists i, line. split; [reflexivity |]. split; [lia |]. split; [exact Hline |].
           split; [reflexivity |]. split; [exact Hlt |]. intros; lia.
        -- exists k, l. split; [reflexivity |]. split; [lia |]. split; [exact Hl |].
           split; [exact Ht |]. split; [lia |].
           intros j l' Hj Hl'. destruct (decide (j = i)) as [-> | Hne].
           ++ assert (l' = line) as -> by congruence. lia.
           ++ apply (Hbefore j l'); [lia | exact Hl'].
    + destruct (IH (S i) mi0 mt0 ltac:(lia)) as (mi & mt & Hr & Hmin & Hcase).
      exists mi, mt. split; [exact Hr |].
      assert (mt <= mt0) as Hle.
      { destruct Hcase as [[_ ->] | (k & l & _ & _ & _ & _ & Hlt' & _)]; lia. }
      split.
      * intros j l Hj Hl. destruct (decide (j = i)) as [-> | Hne].
        -- assert (l = line) as -> by congruence. lia.
        -- apply (Hmin j l); [lia | exact Hl].
      * destruct Hcase as [[-> ->] | (k & l & -> & Hk & Hl & Ht & Hlt' & Hbefore)].
        -- left. auto.
        -- right. exists k, l. split; [reflexivity |]. split; [lia |]. split; [exact Hl |].
           split; [exact Ht |]. split; [exact Hlt' |].
           intros j l' Hj Hl'. destruct (decide (j = i)) as [-> | Hne].
           ++ assert (l' = line) as -> by congruence. lia.
           ++ apply (Hbefore j l'); [lia | exact Hl'].
Qed.

Lemma store_spec (cacheSet : list cacheLine) (k : nat) (l : cacheLine)
      (f : cacheLine -> cacheLine) :
  cacheSet !! k = Some l -> store cacheSet (Z.of_nat k) f = Some (<[k := f l]> cacheSet).
Proof.
  intros Hl. unfold store. pose proof (lookup_lt_Some _ _ _ Hl) as Hlt.
  destruct (Z.leb_spec 0 (Z.of_nat k)); [| lia].
  destruct (Z.ltb_spec (Z.of_nat k) (Z.of_nat (length cacheSet))); [| lia].
  cbn [andb]. rewrite Nat2Z.id, Hl. reflexivity.
Qed.

End CsimFacts.

(** ** The cache simulator: hits, misses and evictions *)
Module CsimVisit.
Import Csim CsimFacts.

Lemma cacheVisit_hit (cacheSet : list cacheLine) (t E time : Z) (c : counters)
      (k : nat) (l : cacheLine) :
  Z.of_nat (length cacheSet) = E ->
  cacheSet !! k = Some l -> valid l <> 0 -> tag l = t ->
  (forall j l', (j < k)%nat -> cacheSet !! j = Some l' -> valid l' = 0 \/ tag l' <> t) ->
  cacheVisit cacheSet t E time c
  = Some (<[k := CacheLine (valid l) (tag l) time]> cacheSet,
          Counters (int (hits c + 1)) (misses c) (evictions c)).
Proof.
  intros HE Hl Hv Ht Hfirst. unfold cacheVisit.
  destruct (find_line_spec cacheSet t (Z.to_nat E) 0 (-1) ltac:(lia)) as (r & Hr & Hspec).
  rewrite Hr. cbn [mbind option_bind]. pose proof (lookup_lt_Some _ _ _ Hl) as Hk.
  destruct r as [k' | v'].
  - destruct Hspec as (Hk' & (l' & Hl' & Hv' & Ht') & Hbefore).
    assert (k' = k) as ->.
    { destruct (Nat.lt_trichotomy k' k) as [Hlt | [Heq | Hgt]]; [| exact Heq |].
      - destruct (Hfirst k' l' Hlt Hl'); contradiction.
      - destruct (Hbefore k l ltac:(lia) Hl); contradiction. }
    assert (l' = l) as -> by congruence.
    rewrite (store_spec cacheSet k l _ Hl). reflexivity.
  - destruct Hspec as (Hnone & _). destruct (Hnone k l ltac:(lia) Hl); contradiction.
Qed.

(** X24.  A visit of a set that holds the tag in no valid line and has an
    invalid line is a miss without eviction: the miss count goes up by one,
    and the last invalid line of the set becomes valid with the tag and the
    time; nothing else changes. *)
Theorem cacheVisit_fills_vacant (cacheSet : list cacheLine) (t E time : Z) (c : counters)
        (k : nat) (l0 : cacheLine) :
  Z.of_nat (length cacheSet) = E ->
  (forall j l, cacheSet !! j = Some l -> valid l = 0 \/ tag l <> t) ->
  cacheSet !! k = Some l0 -> valid l0 = 0 ->
  (forall j l, (k < j)%nat -> cacheSet !! j = Some l -> valid l <> 0) ->
  cacheVisit cacheSet t E time c
  = Some (<[k := CacheLine 1 t time]> cacheSet,
          Counters (hits c) (int (misses c + 1)) (evictions c)).
Proof.
  intros HE Hnone Hl0 Hv0 Hlast. unfold cacheVisit.
  destruct (find_line_spec cacheSet t (Z.to_nat E) 0 (-1) ltac:(lia)) as (r & Hr & Hspec).
  rewrite Hr. cbn [mbind option_bind]. pose proof (lookup_lt_Some _ _ _ Hl0) as Hk.
  destruct r as [k' | v'].
  - destruct Hspec as (_ & (l' & Hl' & Hv' & Ht') & _).
    destruct (Hnone k' l' Hl'); contradiction.
  - destruct Hspec as (_ & [[-> Hall] | (k' & l' & -> & Hk' & Hl' & Hv' & Hafter)]).
    + exfalso. apply (Hall k l0 ltac:(lia) Hl0). exact Hv0.
    + assert (k' = k) as ->.
      { destruct (Nat.lt_trichotomy k' k) as [Hlt | [Heq | Hgt]]; [| exact Heq |].
        - exfalso. apply (Hafter k l0 ltac:(lia) Hl0). exact Hv0.
        - exfalso. apply (Hlast k' l' Hgt Hl'). exact Hv'. }
      destruct (Z.eqb_spec (Z.of_nat k) (-1)); [lia |]. cbn [negb].
      rewrite (store_spec cacheSet k l' _ Hl'). reflexivity.
Qed.

Lemma cacheVisit_fills_vacant_witness :
  cacheVisit [CacheLine 1 7 3; CacheLine 0 0 0; CacheLine 0 9 9] 5 3 4 (Counters 0 1 0)
  = Some (<[2%nat := CacheLine 1 5 4]> [CacheLine 1 7 3; CacheLine 0 0 0; CacheLine 0 9 9],
          Counters 0 (int (1 + 1)) 0).
Proof.
  apply (cacheVisit_fills_vacant _ 5 3 4 (Counters 0 1 0) 2 (CacheLine 0 9 9)).
  - reflexivity.
  - intros [| [| [| j]]] l H; simpl in H; try discriminate; injection H as <-; simpl; lia.
  - reflexivity.
  - reflexivity.
  - intros [| [| [| j]]] l Hj H; simpl in H; try discriminate; lia.
Defined.

(** X25.  A visit of a full set that does not hold the tag is a miss with
    an eviction: both counts go up by one, and the first of the lines whose
    time of last use is the least takes the tag and the time; nothing else
    changes.  (The times must not all be [INT_MAX]: then no line is chosen
    and the store goes to index -1.) *)
Theorem cacheVisit_evicts_lru (cacheSet : list cacheLine) (t E time : Z) (c : counters)
        (k : nat) (l0 : cacheLine) :
  Z.of_nat (length cacheSet) = E ->
  (forall j l, cacheSet !! j = Some l -> valid l <> 0 /\ tag l <> t) ->
  cacheSet !! k = Some l0 -> lastUsedTime l0 < INT_MAX ->
  (forall j l, cacheSet !! j = Some l -> lastUsedTime l0 <= lastUsedTime l) ->
  (forall j l, (j < k)%nat -> cacheSet !! j = Some l -> lastUsedTime l0 < lastUsedTime l) ->
  cacheVisit cacheSet t E time c
  = Some (<[k := CacheLine (valid l0) t time]> cacheSet,
          Counters (hits c) (int (misses c + 1)) (int (evictions c + 1))).
Proof.
  intros HE Hfull Hl0 Hmax Hmin Hfirst. unfold cacheVisit.
  destruct (find_line_spec cacheSet t (Z.to_nat E) 0 (-1) ltac:(lia)) as (r & Hr & Hspec).
  rewrite Hr. cbn [mbind option_bind]. pose proof (lookup_lt_Some _ _ _ Hl0) as Hk.
  destruct r as [k' | v'].
  - destruct Hspec as (_ & (l' & Hl' & Hv' & Ht') & _).
    destruct (Hfull k' l' Hl'); contradiction.
  - destruct Hspec as (_ & [[-> Hall] | (k' & l' & -> & Hk' & Hl' & Hv' & _)]).
    2: { destruct (Hfull k' l' Hl'); contradiction. }
    cbn [Z.eqb negb].
    destruct (min_line_spec cacheSet (Z.to_nat E) 0 (-1) INT_MAX ltac:(lia))
      as (mi & mt & Hm & Hle & Hcase).
    rewrite Hm. cbn [mbind option_bind].
    destruct Hcase as [[-> ->] | (k' & l' & -> & Hk' & Hl' & Ht' & Hlt & Hbefore)].
    + pose proof (Hle k l0 ltac:(lia) Hl0). lia.
    + assert (k' = k) as ->.
      { destruct (Nat.lt_trichotomy k' k) as [Hlt' | [Heq | Hgt]]; [| exact Heq |].
        - pose proof (Hfirst k' l' Hlt' Hl'). pose proof (Hle k l0 ltac:(lia) Hl0). lia.
        - pose proof (Hbefore k l0 ltac:(lia) Hl0). pose proof (Hmin k' l' Hl'). lia. }
      assert (l' = l0) as -> by congruence.
      rewrite (store_spec cacheSet k l0 _ Hl0). reflexivity.
Qed.

Lemma cacheVisit_evicts_lru_witness :
  cacheVisit [CacheLine 1 7 3; CacheLine 1 8 1; CacheLine 1 9 1] 5 3 4 (Counters 0 3 0)
  = Some (<[1%nat := CacheLine 1 5 4]> [CacheLine 1 7 3; CacheLine 1 8 1; CacheLine 1 9 1],
          Counters 0 (int (3 + 1)) (int (0 + 1))).
Proof.
  apply (cacheVisit_evicts_lru _ 5 3 4 (Counters 0 3 0) 1 (CacheLine 1 8 1)).
  - reflexivity.
  - intros [| [| [| j]]] l H; simpl in H; try discriminate; injection H as <-; simpl; lia.
  - reflexivity.
  - reflexivity.
  - intros [| [| [| j]]] l H; simpl in H; try discriminate; injection H as <-; simpl; lia.
  - intros [| [| [| j]]] l Hj H; simpl in H; try discriminate; try lia;
      injection H as <-; simpl; lia.
Defined.

(** After a visit the set holds the tag in a valid line. *)
Lemma cacheVisit_holds (cacheSet cacheSet' : list cacheLine) (t E time : Z)
      (c c' : counters) :
  Z.of_nat (length cacheSet) = E ->
  cacheVisit cacheSet t E time c = Some (cacheSet', c') ->
  length cacheSet' = length cacheSet /\
  exists k l, cacheSet' !! k = Some l /\ valid l <> 0 /\ tag l = t.
Proof.
  intros HE. unfold cacheVisit.
  destruct (find_line_spec cacheSet t (Z.to_nat E) 0 (-1) ltac:(lia)) as (r & Hr & Hspec).
  rewrite Hr. cbn [mbind option_bind]. destruct r as [k | v'].
  - destruct Hspec as (Hk & (l & Hl & Hv & Ht) & _).
    rewrite (store_spec cacheSet k l _ Hl). intros [= <- <-].
    split; [apply length_insert |]. exists k. eexists.
    split; [apply list_lookup_insert_eq; eapply lookup_lt_Some; eauto |]. simpl. auto.
  - destruct Hspec as (_ & [[-> Hall] | (k & l & -> & Hk & Hl & Hv & _)]).
    + cbn [Z.eqb negb].
      destruct (min_line_spec cacheSet (Z.to_nat E) 0 (-1) INT_MAX ltac:(lia))
        as (mi & mt & Hm & Hle & Hcase).
      rewrite Hm. cbn [mbind option_bind].
      destruct Hcase as [[-> ->] | (k & l & -> & Hk & Hl & Ht & Hlt & _)].
      * unfold store. cbn [Z.leb Z.compare andb]. discriminate.
      * rewrite (store_spec cacheSet k l _ Hl). intros [= <- <-].
        split; [apply length_insert |]. exists k. eexists.
        split; [apply list_lookup_insert_eq; eapply lookup_lt_Some; eauto |]. simpl.
        split; [apply (Hall k l ltac:(lia) Hl) | reflexivity].
    + destruct (Z.eqb_spec (Z.of_nat k) (-1)); [lia |]. cbn [negb].
      rewrite (store_spec cacheSet k l _ Hl). intros [= <- <-].
      split; [apply length_insert |]. exists k. eexists.
      split; [apply list_lookup_insert_eq; eapply lookup_lt_Some; eauto |]. simpl.
      split; [discriminate | reflexivity].
Qed.

(** A visit that follows a visit of the same set with the same tag hits,
    whatever the time and the counts it starts from. *)
Lemma visit_again (s E b : Z) (st st1 : sim) (address address' time' : Z) (c' : counters) :
  Forall (fun cacheSet => Z.of_nat (length cacheSet) = E) (cache st) ->
  visit s E b st address = Some st1 ->
  set_of s b address' = set_of s b address -> tag_of s b address' = tag_of s b address ->
  exists cacheSet k l,
    cache st1 !! Z.to_nat (set_of s b address) = Some cacheSet /\
    cacheSet !! k = Some l /\ valid l <> 0 /\ tag l = tag_of s b address /\
    visit s E b (Sim (cache st1) time' c') address'
    = Some (Sim (<[Z.to_nat (set_of s b address) :=
                     <[k := CacheLine (valid l) (tag l) time']> cacheSet]> (cache st1))
                time'
                (Counters (int (hits c' + 1)) (misses c') (evictions c'))).
Proof.
  intros Hshape Hvisit Hset Htag. unfold visit in *. rewrite Hset, Htag.
  set (i := set_of s b address) in *. set (t := tag_of s b address) in *.
  destruct ((0 <=? i) && (i <? Z.of_nat (length (cache st)))) eqn:Hin; [| discriminate].
  destruct (cache st !! Z.to_nat i) as [set0 |] eqn:Hset0; [| discriminate].
  cbn [mbind option_bind] in Hvisit.
  destruct (cacheVisit set0 t E (time st) (count st)) as [[set1 c1] |] eqn:Hcv;
    [| discriminate].
  cbn [mbind option_bind] in Hvisit. injection Hvisit as <-. cbn [cache count time].
  assert (Z.of_nat (length set0) = E) as HE.
  { rewrite List.Forall_forall in Hshape. apply Hshape.
    eapply list_elem_of_In, list_elem_of_lookup_2; eauto. }
  destruct (cacheVisit_holds set0 set1 t E (time st) (count st) c1 HE Hcv)
    as (Hlen & m & lm & Hm & Hvm & Htm).
  rewrite length_insert, Hin.
  pose proof (lookup_lt_Some _ _ _ Hset0) as Hi.
  rewrite list_lookup_insert_eq by exact Hi. cbn [mbind option_bind].
  destruct (find_line_spec set1 t (Z.to_nat E) 0 (-1) ltac:(lia)) as (r & Hr & Hspec).
  destruct r as [k | v'].
  - destruct Hspec as (Hk & (l & Hl & Hv & Ht) & Hbefore).
    exists set1, k, l. split; [reflexivity |]. split; [exact Hl |]. split; [exact Hv |].
    split; [exact Ht |].
    rewrite (cacheVisit_hit set1 t E time' c' k l); [| lia | exact Hl | exact Hv | exact Ht |].
    + cbn [mbind option_bind]. rewrite list_insert_insert_eq. reflexivity.
    + intros j l' Hj Hl'. apply (Hbefore j l'); [lia | exact Hl'].
  - destruct Hspec as (Hnone & _). pose proof (lookup_lt_Some _ _ _ Hm).
    destruct (Hnone m lm ltac:(lia) Hm); contradiction.
Qed.

(** What a round of the loop of [main] leaves, for an access. *)
Lemma step_access (s E b : Z) (st st1 : sim) (operation : ascii) (address : Z) :
  operation = "L"%char \/ operation = "S"%char \/ operation = "M"%char ->
  step s E b st operation address = Some st1 ->
  exists st0, visit s E b st address = Some st0 /\ cache st1 = cache st0.
Proof.
  unfold step. intros [-> | [-> | ->]] H; cbn [Ascii.eqb Bool.eqb] in H;
    destruct (visit s E b st address) as [st0 |]; try discriminate;
    cbn [mbind option_bind] in H; injection H as <-; exists st0; split; reflexivity.
Qed.

(** X26.  In [main], a trace line L, S or M that follows a line L, S or M
    for the same set and the same tag hits, whatever the first one did: one
    valid line of that set holds the tag, and the round changes nothing in
    the cache but that line's time of last use, which becomes the current
    time; misses and evictions stay; the time goes up by one; and the hit
    count goes up by one for L and S and by two for M, whose round ends with
    a [++hits] of its own. *)
Theorem revisit_hits (s E b : Z) (st st1 : sim) (operation operation' : ascii)
        (address address' : Z) :
  Forall (fun cacheSet => Z.of_nat (length cacheSet) = E) (cache st) ->
  operation = "L"%char \/ operation = "S"%char \/ operation = "M"%char ->
  operation' = "L"%char \/ operation' = "S"%char \/ operation' = "M"%char ->
  step s E b st operation address = Some st1 ->
  set_of s b address' = set_of s b address -> tag_of s b address' = tag_of s b address ->
  exists cacheSet k l,
    cache st1 !! Z.to_nat (set_of s b address) = Some cacheSet /\
    cacheSet !! k = Some l /\ valid l <> 0 /\ tag l = tag_of s b address /\
    step s E b st1 operation' address'
    = Some (Sim (<[Z.to_nat (set_of s b address) :=
                     <[k := CacheLine (valid l) (tag l) (time st1)]> cacheSet]> (cache st1))
                (int (time st1 + 1))
                (Counters (if Ascii.eqb operation' "M"
                           then int (int (hits (count st1) + 1) + 1)
                           else int (hits (count st1) + 1))
                          (misses (count st1)) (evictions (count st1)))).
Proof.
  intros Hshape Hop Hop' Hstep Hset Htag.
  destruct (step_access s E b st st1 operation address Hop Hstep) as (st0 & Hvisit & Hcache).
  destruct (visit_again s E b st st0 address address' (time st1) (count st1)
                        Hshape Hvisit Hset Htag)
    as (cacheSet & k & l & Hc & Hl & Hv & Ht & Hagain).
  rewrite <- Hcache in Hc, Hagain.
  exists cacheSet, k, l. split; [exact Hc |]. split; [exact Hl |]. split; [exact Hv |].
  split; [exact Ht |].
  assert (Sim (cache st1) (time st1) (count st1) = st1) as Hst1 by (destruct st1; reflexivity).
  rewrite Hst1 in Hagain. unfold step.
  destruct Hop' as [-> | [-> | ->]]; cbn [Ascii.eqb Bool.eqb]; rewrite Hagain;
    reflexivity.
Qed.

Lemma revisit_hits_witness :
  exists cacheSet k l,
    cache (Sim [[CacheLine 0 0 0]; [CacheLine 1 2 0]; [CacheLine 0 0 0]; [CacheLine 0 0 0]]
               1 (Counters 0 1 0))
    !! Z.to_nat (set_of 2 4 144) = Some cacheSet /\
    cacheSet !! k = Some l /\ valid l <> 0 /\ tag l = tag_of 2 4 144 /\
    step 2 1 4
         (Sim [[CacheLine 0 0 0]; [CacheLine 1 2 0]; [CacheLine 0 0 0]; [CacheLine 0 0 0]]
              1 (Counters 0 1 0))
         "M" 152
    = Some (Sim (<[Z.to_nat (set_of 2 4 144) :=
                     <[k := CacheLine (valid l) (tag l)
                                      (time (Sim [[CacheLine 0 0 0]; [CacheLine 1 2 0];
                                                  [CacheLine 0 0 0]; [CacheLine 0 0 0]]
                                                 1 (Counters 0 1 0)))]> cacheSet]>
                   (cache (Sim [[CacheLine 0 0 0]; [CacheLine 1 2 0]; [CacheLine 0 0 0];
                                [CacheLine 0 0 0]] 1 (Counters 0 1 0))))
                (int (time (Sim [[CacheLine 0 0 0]; [CacheLine 1 2 0]; [CacheLine 0 0 0];
                                 [CacheLine 0 0 0]] 1 (Counters 0 1 0)) + 1))
                (Counters
                   (if Ascii.eqb "M" "M"
                    then int (int (hits (count (Sim [[CacheLine 0 0 0]; [CacheLine 1 2 0];
                                                     [CacheLine 0 0 0]; [CacheLine 0 0 0]]
                                                    1 (Counters 0 1 0))) + 1) + 1)
                    else int (hits (count (Sim [[CacheLine 0 0 0]; [CacheLine 1 2 0];
                                                [CacheLine 0 0 0]; [CacheLine 0 0 0]]
                                               1 (Counters 0 1 0))) + 1))
                   (misses (count (Sim [[CacheLine 0 0 0]; [CacheLine 1 2 0];
                                        [CacheLine 0 0 0]; [CacheLine 0 0 0]]
                                       1 (Counters 0 1 0))))
                   (evictions (count (Sim [[CacheLine 0 0 0]; [CacheLine 1 2 0];
                                           [CacheLine 0 0 0]; [CacheLine 0 0 0]]
                                          1 (Counters 0 1 0)))))).
Proof.
  apply (revisit_hits 2 1 4 (Sim (init 2 1 (fun _ _ => (0, 0))) 0 (Counters 0 0 0))
           (Sim [[CacheLine 0 0 0]; [CacheLine 1 2 0]; [CacheLine 0 0 0]; [CacheLine 0 0 0]]
                1 (Counters 0 1 0))
           "L" "M" 144 152).
  - repeat constructor.
  - left. reflexivity.
  - right. right. reflexivity.
  - reflexivity.
  - reflexivity.
  - reflexivity.
Defined.

End CsimVisit.

(** ** Matrix transposition *)
Module TransFacts.
Import Trans.

Lemma tabulate_shaped (rows cols : nat) (f : nat -> nat -> Z) :
  shaped rows cols (tabulate rows cols f).
Proof.
  unfold shaped, tabulate. rewrite length_map, length_seq. split; [reflexivity |].
  apply List.Forall_forall. intros row Hrow. apply in_map_iff in Hrow as (r & <- & _).
  rewrite length_map, length_seq. reflexivity.
Qed.

Lemma get_tabulate (rows cols : nat) (f : nat -> nat -> Z) (r c : nat) :
  (r < rows)%nat -> (c < cols)%nat -> get (tabulate rows cols f) r c = f r c.
Proof.
  intros Hr Hc. unfold get, tabulate.
  rewrite (nth_indep _ [] (map (fun c => f 0%nat c) (seq 0 cols)))
    by (rewrite length_map, length_seq; exact Hr).
  rewrite (map_nth (fun r => map (fun c => f r c) (seq 0 cols)) (seq 0 rows) 0%nat r).
  rewrite seq_nth by exact Hr. simpl.
  rewrite (nth_indep _ 0 (f r 0%nat)) by (rewrite length_map, length_seq; exact Hc).
  rewrite (map_nth (fun c => f r c) (seq 0 cols) 0%nat c).
  rewrite seq_nth by exact Hc. reflexivity.
Qed.

Lemma list_tabulate (l : list Z) : l = map (fun c => nth c l 0) (seq 0 (length l)).
Proof.
  apply (nth_ext _ _ 0 0); [rewrite length_map, length_seq; reflexivity |].
  intros n Hn. rewrite (nth_indep (map _ _) 0 (nth 0 l 0))
    by (rewrite length_map, length_seq; exact Hn).
  rewrite (map_nth (fun c => nth c l 0) (seq 0 (length l)) 0%nat n).
  rewrite seq_nth by exact Hn. reflexivity.
Qed.

(** A matrix is determined by its shape and its entries. *)
Lemma shaped_tabulate (rows cols : nat) (X : matrix) :
  shaped rows cols X -> X = tabulate rows cols (get X).
Proof.
  intros [Hlen Hrows]. unfold tabulate.
  apply (nth_ext _ _ [] []); [rewrite length_map, length_seq; exact Hlen |].
  intros r Hr.
  rewrite (nth_indep (map _ _) [] (map (fun c => get X 0%nat c) (seq 0 cols)))
    by (rewrite length_map, length_seq; lia).
  rewrite (map_nth (fun r => map (fun c => get X r c) (seq 0 cols)) (seq 0 rows) 0%nat r).
  rewrite seq_nth by lia. simpl. unfold get.
  assert (length (nth r X []) = cols) as <-.
  { rewrite List.Forall_forall in Hrows. apply Hrows, nth_In, Hr. }
  apply list_tabulate.
Qed.

Lemma tabulate_ext (rows cols : nat) (f g : nat -> nat -> Z) :
  (forall r c, (r < rows)%nat -> (c < cols)%nat -> f r c = g r c) ->
  tabulate rows cols f = tabulate rows cols g.
Proof.
  intros H. unfold tabulate. apply map_ext_in. intros r Hr. apply in_seq in Hr.
  apply map_ext_in. intros c Hc. apply in_seq in Hc. apply H; lia.
Qed.

Lemma set_shaped (rows cols : nat) (X : matrix) (r c : nat) (v : Z) :
  shaped rows cols X -> shaped rows cols (set X r c v).
Proof.
  intros [Hlen Hrows]. unfold shaped, set, matrix in *. rewrite length_alter. split; [exact Hlen |].
  rewrite Forall_lookup in *. intros i row Hi.
  destruct (decide (i = r)) as [-> | Hne].
  - rewrite list_lookup_alter_eq in Hi. destruct (X !! r) as [row0 |] eqn:E; [| discriminate].
    injection Hi as <-. rewrite length_insert. apply (Hrows r row0 E).
  - rewrite list_lookup_alter_ne in Hi by congruence. apply (Hrows i row Hi).
Qed.

Lemma get_lookup (X : list (list Z)) (r c : nat) (row : list Z) :
  X !! r = Some row -> get X r c = nth c row 0.
Proof. intros H. unfold get. rewrite (nth_lookup_Some _ _ _ _ H). reflexivity. Qed.

(** Reading after a write inside the array. *)
Lemma get_set (rows cols : nat) (X : matrix) (r c r' c' : nat) (v : Z) :
  shaped rows cols X -> (r < rows)%nat -> (c < cols)%nat ->
  get (set X r c v) r' c' = if decide (r' = r /\ c' = c) then v else get X r' c'.
Proof.
  intros [Hlen Hrows] Hr Hc.
  destruct (lookup_lt_is_Some_2 X r ltac:(lia)) as [row Hrow].
  assert (length row = cols) as Hrl
    by (rewrite Forall_lookup in Hrows; apply (Hrows r row Hrow)).
  unfold set, matrix in *. destruct (decide (r' = r)) as [-> | Hne].
  - rewrite (get_lookup _ r c' (<[c := v]> row))
      by (rewrite list_lookup_alter_eq, Hrow; reflexivity).
    rewrite (get_lookup X r c' row Hrow).
    destruct (decide (c' = c)) as [-> | Hnc].
    + rewrite decide_True by auto. apply nth_lookup_Some with (d := 0).
      apply list_lookup_insert_eq. lia.
    + rewrite decide_False by tauto.
      destruct (lt_dec c' (length row)) as [Hlt | Hge].
      * destruct (lookup_lt_is_Some_2 row c' Hlt) as [x Hx].
        rewrite (nth_lookup_Some _ _ _ _ Hx).
        apply nth_lookup_Some. rewrite list_lookup_insert_ne by congruence. exact Hx.
      * rewrite !nth_overflow by (rewrite ?length_insert; lia). reflexivity.
  - rewrite decide_False by tauto. unfold get.
    destruct (lt_dec r' (length X)) as [Hlt | Hge].
    + destruct (lookup_lt_is_Some_2 X r' Hlt) as [row' Hrow'].
      rewrite (nth_lookup_Some _ _ _ _ Hrow').
      rewrite (nth_lookup_Some (alter _ r X) r' [] row'); [reflexivity |].
      rewrite list_lookup_alter_ne by congruence. exact Hrow'.
    + rewrite (nth_overflow (alter _ r X) []) by (rewrite length_alter; lia).
      rewrite (nth_overflow X []) by lia. reflexivity.
Qed.

(** The inner loop of [trans]: column [i] of [B] receives the first [m]
    entries of row [i] of [A]. *)
Lemma trans_row (M N : nat) (A B : matrix) (i m : nat) :
  shaped M N B -> (i < N)%nat -> (m <= M)%nat ->
  let B' := foldl (fun B j => let tmp := get A i j in set B j i tmp) B (seq 0 m) in
  shaped M N B' /\
  forall r c, get B' r c = if decide (c = i /\ (r < m)%nat) then get A i r else get B r c.
Proof.
  intros HB Hi. induction m as [| m IH]; intros Hm; cbv zeta.
  - cbn [seq foldl]. split; [exact HB |]. intros r c.
    destruct (decide _); [lia | reflexivity].
  - rewrite seq_S, foldl_app. cbn [foldl Nat.add].
    destruct (IH ltac:(lia)) as [Hsh Hget]. cbv zeta in Hsh, Hget.
    split; [apply set_shaped, Hsh |].
    intros r c. rewrite (get_set M N _ m i r c _ Hsh ltac:(lia) Hi), Hget.
    destruct (decide (r = m /\ c = i)) as [[-> ->] | Hne].
    + rewrite decide_True by lia. reflexivity.
    + destruct (decide (c = i /\ (r < m)%nat)), (decide (c = i /\ (r < S m)%nat));
        try reflexivity; lia.
Qed.

(** [trans] computes the transpose, whatever the sizes. *)
Lemma trans_spec (M N : nat) (A B : matrix) :
  shaped M N B -> trans M N A B = tabulate M N (fun r c => get A c r).
Proof.
  intros HB.
  assert (forall n, (n <= N)%nat ->
            let B' := foldl (fun B i =>
                               foldl (fun B j => let tmp := get A i j in set B j i tmp)
                                     B (seq 0 M)) B (seq 0 n) in
            shaped M N B' /\
            forall r c, (r < M)%nat ->
                        get B' r c = if decide (c < n)%nat then get A c r else get B r c)
    as Hrows.
  { induction n as [| n IH]; intros Hn; cbv zeta.
    - cbn [seq foldl]. split; [exact HB |]. intros r c _.
      destruct (decide _); [lia | reflexivity].
    - rewrite seq_S, foldl_app. cbn [foldl Nat.add].
      destruct (IH ltac:(lia)) as [Hsh Hget]. cbv zeta in Hsh, Hget.
      destruct (trans_row M N A _ n M Hsh ltac:(lia) (le_n M)) as [Hsh' Hget'].
      cbv zeta in Hsh', Hget'. split; [exact Hsh' |].
      intros r c Hr. rewrite Hget', (Hget r c Hr).
      destruct (decide (c = n /\ (r < M)%nat)) as [[-> _] | Hne].
      + rewrite decide_True by lia. reflexivity.
      + destruct (decide (c < n)%nat), (decide (c < S n)%nat); try reflexivity; lia. }
  destruct (Hrows N (le_n N)) as [Hsh Hget]. cbv zeta in Hsh, Hget.
  unfold trans. rewrite (shaped_tabulate M N _ Hsh). apply tabulate_ext.
  intros r c Hr Hc. rewrite (Hget r c Hr). rewrite decide_True by exact Hc. reflexivity.
Qed.

Section Symbolic.
Variables (a b : N -> N -> Z).

Lemma trans_32x32_symbolic :
  trans_32x32 (tabulate 32 32 (fun r c => a (N.of_nat r) (N.of_nat c)))
              (tabulate 32 32 (fun r c => b (N.of_nat r) (N.of_nat c)))
  = tabulate 32 32 (fun r c => a (N.of_nat c) (N.of_nat r)).
Proof. vm_compute. reflexivity. Qed.

Lemma trans_64x64_symbolic :
  trans_64x64 (tabulate 64 64 (fun r c => a (N.of_nat r) (N.of_nat c)))
              (tabulate 64 64 (fun r c => b (N.of_nat r) (N.of_nat c)))
  = tabulate 64 64 (fun r c => a (N.of_nat c) (N.of_nat r)).
Proof. vm_compute. reflexivity. Qed.

Lemma trans_67x61_symbolic :
  trans_67x61 (tabulate 67 61 (fun r c => a (N.of_nat r) (N.of_nat c)))
              (tabulate 61 67 (fun r c => b (N.of_nat r) (N.of_nat c)))
  = tabulate 61 67 (fun r c => a (N.of_nat c) (N.of_nat r)).
Proof. vm_compute. reflexivity. Qed.

End Symbolic.

Lemma as_symbolic (rows cols : nat) (X : matrix) :
  shaped rows cols X ->
  tabulate rows cols (fun r c => get X (N.to_nat (N.of_nat r)) (N.to_nat (N.of_nat c))) = X.
Proof.
  intros H. symmetry. etransitivity; [apply (shaped_tabulate rows cols X H) |].
  apply tabulate_ext. intros r c _ _. rewrite !Nat2N.id. reflexivity.
Qed.

(** A routine checked on symbolic entries is right on every matrix of that
    shape. *)
Lemma symbolic_all (f : matrix -> matrix -> matrix) (rows cols : nat) :
  (forall a b : N -> N -> Z,
      f (tabulate rows cols (fun r c => a (N.of_nat r) (N.of_nat c)))
        (tabulate cols rows (fun r c => b (N.of_nat r) (N.of_nat c)))
      = tabulate cols rows (fun r c => a (N.of_nat c) (N.of_nat r))) ->
  forall A B, shaped rows cols A -> shaped cols rows B ->
              f A B = tabulate cols rows (fun r c => get A c r).
Proof.
  intros Hsym A B HA HB.
  pose proof (Hsym (fun r c => get A (N.to_nat r) (N.to_nat c))
                   (fun r c => get B (N.to_nat r) (N.to_nat c))) as H.
  cbv beta in H.
  rewrite (as_symbolic rows cols A HA), (as_symbolic cols rows B HB) in H.
  rewrite H. apply tabulate_ext. intros r c _ _. rewrite !Nat2N.id. reflexivity.
Qed.

Lemma submit_spec (M N : nat) (A B : matrix) :
  shaped N M A -> shaped M N B ->
  transpose_submit M N A B = tabulate M N (fun r c => get A c r).
Proof.
  intros HA HB. unfold transpose_submit.
  destruct (Nat.eqb_spec N 32) as [-> | HN32]; [destruct (Nat.eqb_spec M 32) as [-> | HM32] |];
    cbn [andb].
  - exact (symbolic_all trans_32x32 32 32 trans_32x32_symbolic A B HA HB).
  - destruct (Nat.eqb_spec 32 64); [discriminate |]. cbn [andb].
    destruct (Nat.eqb_spec 32 67); [discriminate |]. cbn [andb].
    apply trans_spec, HB.
  - destruct (Nat.eqb_spec N 64) as [-> | HN64];
      [destruct (Nat.eqb_spec M 64) as [-> | HM64] |]; cbn [andb].
    + exact (symbolic_all trans_64x64 64 64 trans_64x64_symbolic A B HA HB).
    + destruct (Nat.eqb_spec 64 67); [discriminate |]. cbn [andb].
      apply trans_spec, HB.
    + destruct (Nat.eqb_spec N 67) as [-> | HN67];
        [destruct (Nat.eqb_spec M 61) as [-> | HM61] |]; cbn [andb].
      * exact (symbolic_all trans_67x61 67 61 trans_67x61_symbolic A B HA HB).
      * apply trans_spec, HB.
      * apply trans_spec, HB.
Qed.

Lemma is_transpose_iff (M N : nat) (A B : matrix) :
  is_transpose M N A B = 1 <->
  forall i j, (i < N)%nat -> (j < M)%nat -> get A i j = get B j i.
Proof.
  unfold is_transpose.
  destruct (forallb _ (seq 0 N)) eqn:E.
  - split; [intros _ | reflexivity]. intros i j Hi Hj.
    rewrite forallb_forall in E. specialize (E i ltac:(apply in_seq; lia)).
    rewrite forallb_forall in E. specialize (E j ltac:(apply in_seq; lia)).
    apply Z.eqb_eq, E.
  - split; [discriminate |]. intros H. exfalso.
    assert (forallb (fun i => forallb (fun j => get A i j =? get B j i) (seq 0 M)) (seq 0 N)
            = true) as E'; [| congruence].
    apply forallb_forall. intros i Hi. apply in_seq in Hi.
    apply forallb_forall. intros j Hj. apply in_seq in Hj.
    apply Z.eqb_eq, H; lia.
Qed.

(** X27.  On an [N] by [M] array [A] and an [M] by [N] array [B] that do not
    overlap, [transpose_submit] leaves in [B] the transpose of [A], for
    every [M] and [N]: the three blocked routines and the plain one alike.
    [B] keeps its shape, its old contents do not matter, and [is_transpose]
    returns 1 on the result. *)
Theorem transpose_submit_transposes (M N : nat) (A B : matrix) :
  shaped N M A -> shaped M N B ->
  shaped M N (transpose_submit M N A B) /\
  (forall i j, (i < N)%nat -> (j < M)%nat ->
               get (transpose_submit M N A B) j i = get A i j) /\
  is_transpose M N A (transpose_submit M N A B) = 1.
Proof.
  intros HA HB. rewrite (submit_spec M N A B HA HB).
  split; [apply tabulate_shaped |]. split.
  - intros i j Hi Hj. rewrite get_tabulate by assumption. reflexivity.
  - apply is_transpose_iff. intros i j Hi Hj. rewrite get_tabulate by assumption.
    reflexivity.
Qed.

Lemma transpose_submit_transposes_witness :
  shaped 3 2 (transpose_submit 3 2 [[1; 2; 3]; [4; 5; 6]] [[0; 0]; [0; 0]; [0; 0]]) /\
  (forall i j, (i < 2)%nat -> (j < 3)%nat ->
               get (transpose_submit 3 2 [[1; 2; 3]; [4; 5; 6]] [[0; 0]; [0; 0]; [0; 0]]) j i
               = get [[1; 2; 3]; [4; 5; 6]] i j) /\
  is_transpose 3 2 [[1; 2; 3]; [4; 5; 6]]
               (transpose_submit 3 2 [[1; 2; 3]; [4; 5; 6]] [[0; 0]; [0; 0]; [0; 0]]) = 1.
Proof.
  apply (transpose_submit_transposes 3 2 [[1; 2; 3]; [4; 5; 6]] [[0; 0]; [0; 0]; [0; 0]]);
    (split; [reflexivity | repeat constructor]).
Defined.

(** X28.  The blocked routines compute what the plain row-wise scan
    computes: on arrays of the right shapes [transpose_submit] and [trans]
    leave the same [B], in the three special sizes too. *)
Theorem transpose_submit_as_trans (M N : nat) (A B : matrix) :
  shaped N M A -> shaped M N B ->
  transpose_submit M N A B = trans M N A B.
Proof.
  intros HA HB. rewrite (submit_spec M N A B HA HB), (trans_spec M N A B HB). reflexivity.
Qed.

Lemma transpose_submit_as_trans_witness :
  transpose_submit 3 2 [[1; 2; 3]; [4; 5; 6]] [[0; 0]; [0; 0]; [0; 0]]
  = trans 3 2 [[1; 2; 3]; [4; 5; 6]] [[0; 0]; [0; 0]; [0; 0]].
Proof.
  apply (transpose_submit_as_trans 3 2 [[1; 2; 3]; [4; 5; 6]] [[0; 0]; [0; 0]; [0; 0]]);
    (split; [reflexivity | repeat constructor]).
Defined.

(** X29.  [is_transpose] returns 1 exactly when every entry [A[i][j]] with
    [i < N] and [j < M] equals [B[j][i]], and 0 in every other case. *)
Theorem is_transpose_checks (M N : nat) (A B : matrix) :
  (is_transpose M N A B = 1 <->
   forall i j, (i < N)%nat -> (j < M)%nat -> get A i j = get B j i) /\
  (is_transpose M N A B = 1 \/ is_transpose M N A B = 0).
Proof.
  split; [apply is_transpose_iff |].
  unfold is_transpose. destruct (forallb _ _); [left | right]; reflexivity.
Qed.

End TransFacts.

(** ** The proxy's cache, one thread at a time *)
Module CacheFacts.
Import Cache.
Import String.StringSyntax.
#[local] Delimit Scope string_scope with string.

Lemma bind_done {A B : Type} (a : A) (f : A -> outcome B) : (x ← Done a; f x) = f a.
Proof. reflexivity. Qed.

Lemma int_id (x : Z) : - 2 ^ 31 <= x < 2 ^ 31 -> Csim.int x = x.
Proof. intros H. unfold Csim.int. rewrite Z.mod_small by lia. lia. Qed.

Lemma line_at (t m : Z) (L : list cache_line_t) (i : nat) (l : cache_line_t) :
  (i < MAX_OBJECT_CNT)%nat -> L !! i = Some l -> line (CacheT t m L) (Z.of_nat i) = Done l.
Proof.
  intros Hi HL. unfold line. cbn [cache_lines].
  destruct (Z.leb_spec 0 (Z.of_nat i)); [| lia].
  destruct (Z.ltb_spec (Z.of_nat i) (Z.of_nat MAX_OBJECT_CNT)); [| lia].
  cbn [andb]. rewrite Nat2Z.id, HL. reflexivity.
Qed.

Lemma on_line_at (t m : Z) (L : list cache_line_t) (i : nat) (l l' : cache_line_t)
      (f : cache_line_t -> outcome cache_line_t) :
  (i < MAX_OBJECT_CNT)%nat -> L !! i = Some l -> f l = Done l' ->
  on_line (CacheT t m L) (Z.of_nat i) f = Done (CacheT t m (<[i := l']> L)).
Proof.
  intros Hi HL Hf. unfold on_line.
  rewrite (line_at t m L i l Hi HL), bind_done, Hf, bind_done.
  unfold set_line. cbn [time mutex_time cache_lines]. rewrite Nat2Z.id. reflexivity.
Qed.

Lemma at_insert (L : list cache_line_t) (i : nat) (l l' : cache_line_t) :
  L !! i = Some l -> <[i := l']> L !! i = Some l'.
Proof. intros H. apply list_lookup_insert_eq. eapply lookup_lt_Some, H. Qed.

Lemma insert_back (L : list cache_line_t) (i : nat) (l l' : cache_line_t) :
  L !! i = Some l -> <[i := l]> (<[i := l']> L) = L.
Proof. intros H. rewrite list_insert_insert_eq. apply list_insert_id, H. Qed.

(** A reader enters a line nobody holds, and leaves it as it was. *)
Lemma reader_in (t m : Z) (L : list cache_line_t) (i : nat) (v lut : Z)
      (u d : String.string) :
  (i < MAX_OBJECT_CNT)%nat -> L !! i = Some (Line v lut 0 1 1 u d) ->
  P_reader (CacheT t m L) (Z.of_nat i)
  = Done (CacheT t m (<[i := Line v lut 1 0 1 u d]> L)).
Proof. intros Hi HL. unfold P_reader. erewrite on_line_at; eauto. Qed.

Lemma reader_out (t m : Z) (L : list cache_line_t) (i : nat) (v lut : Z)
      (u d : String.string) :
  (i < MAX_OBJECT_CNT)%nat -> L !! i = Some (Line v lut 1 0 1 u d) ->
  V_reader (CacheT t m L) (Z.of_nat i)
  = Done (CacheT t m (<[i := Line v lut 0 1 1 u d]> L)).
Proof. intros Hi HL. unfold V_reader. erewrite on_line_at; eauto. Qed.

Lemma writer_in (t m : Z) (L : list cache_line_t) (i : nat) (v lut r mr : Z)
      (u d : String.string) :
  (i < MAX_OBJECT_CNT)%nat -> L !! i = Some (Line v lut r 1 mr u d) ->
  P_writer (CacheT t m L) (Z.of_nat i)
  = Done (CacheT t m (<[i := Line v lut r 0 mr u d]> L)).
Proof. intros Hi HL. unfold P_writer. erewrite on_line_at; eauto. Qed.

Lemma writer_out (t m : Z) (L : list cache_line_t) (i : nat) (v lut r mr : Z)
      (u d : String.string) :
  (i < MAX_OBJECT_CNT)%nat -> L !! i = Some (Line v lut r 0 mr u d) ->
  V_writer (CacheT t m L) (Z.of_nat i)
  = Done (CacheT t m (<[i := Line v lut r 1 mr u d]> L)).
Proof. intros Hi HL. unfold V_writer. erewrite on_line_at; eauto. Qed.

(** One round of the loop of [cache_find] on a line nobody holds. *)
Lemma find_from_step (t : Z) (L : list cache_line_t) (u0 : String.string) (i n : nat)
      (l : cache_line_t) :
  (i < MAX_OBJECT_CNT)%nat -> L !! i = Some l -> calm l ->
  find_from (CacheT t 1 L) u0 i (S n)
  = if negb (valid l =? 0) && String.eqb (uri l) u0
    then Done (Z.of_nat i,
               CacheT t 1 (<[i := Line (valid l) t 0 1 1 (uri l) (content l)]> L))
    else find_from (CacheT t 1 L) u0 (S i) n.
Proof.
  intros Hi HL Hcalm. destruct l as [v lut r a mr u d].
  destruct Hcalm as (Hr & Ha & Hmr). cbn [readcnt mutex_access mutex_readcnt] in *. subst.
  cbn [find_from valid uri content]. cbv zeta.
  rewrite (reader_in _ _ _ _ _ _ _ _ Hi HL), bind_done.
  rewrite (line_at _ _ _ _ _ Hi (at_insert _ _ _ _ HL)), bind_done.
  cbn [valid uri].
  rewrite (reader_out _ _ _ _ _ _ _ _ Hi (at_insert _ _ _ _ HL)), !bind_done.
  rewrite (insert_back _ _ _ _ HL).
  destruct (negb (v =? 0) && String.eqb u u0); [| reflexivity].
  rewrite (writer_in _ _ _ _ _ _ _ _ _ _ Hi HL), bind_done.
  unfold P_time. cbn [mutex_time time cache_lines]. change (P 1) with (Done 0).
  rewrite !bind_done.
  erewrite on_line_at; [| exact Hi | apply (at_insert _ _ _ _ HL) | reflexivity].
  rewrite bind_done. unfold V_time.
  cbn [mutex_time time cache_lines valid readcnt mutex_access mutex_readcnt uri content].
  rewrite list_insert_insert_eq. change (V 0) with 1.
  rewrite (writer_out _ _ _ _ _ _ _ _ _ _ Hi (at_insert _ _ _ _ HL)), bind_done.
  rewrite list_insert_insert_eq. reflexivity.
Qed.

(** One round of the loop of [cache_insert]. *)
Lemma evict_from_step (t m : Z) (L : list cache_line_t) (e mn : Z) (i n : nat)
      (l : cache_line_t) :
  (i < MAX_OBJECT_CNT)%nat -> L !! i = Some l -> calm l ->
  evict_from (CacheT t m L) e mn i (S n)
  = if valid l =? 0 then Done (Z.of_nat i, CacheT t m L)
    else if last_used_time l <? mn
         then evict_from (CacheT t m L) (Z.of_nat i) (last_used_time l) (S i) n
         else evict_from (CacheT t m L) e mn (S i) n.
Proof.
  intros Hi HL Hcalm. destruct l as [v lut r a mr u d].
  destruct Hcalm as (Hr & Ha & Hmr). cbn [readcnt mutex_access mutex_readcnt] in *. subst.
  cbn [evict_from valid last_used_time]. cbv zeta.
  rewrite (reader_in _ _ _ _ _ _ _ _ Hi HL), bind_done.
  rewrite (line_at _ _ _ _ _ Hi (at_insert _ _ _ _ HL)), bind_done.
  cbn [valid last_used_time].
  rewrite (reader_out _ _ _ _ _ _ _ _ Hi (at_insert _ _ _ _ HL)).
  rewrite (insert_back _ _ _ _ HL).
  destruct (v =? 0); [reflexivity |].
  destruct (lut <? mn); rewrite bind_done; reflexivity.
Qed.

Section Quiet.
Variables (t : Z) (L : list cache_line_t).
Hypothesis Hlen : length L = MAX_OBJECT_CNT.
Hypothesis Hcalm : Forall calm L.

Lemma quiet_line (i : nat) :
  (i < MAX_OBJECT_CNT)%nat -> exists l, L !! i = Some l /\ calm l.
Proof.
  intros Hi. destruct (lookup_lt_is_Some_2 L i ltac:(lia)) as [l Hl].
  exists l. split; [exact Hl |]. rewrite Forall_lookup in Hcalm. apply (Hcalm i l Hl).
Qed.

(** A miss leaves the cache as it found it, and no valid line holds the
    uri. *)
Lemma find_from_none (u0 : String.string) (n i : nat) (c' : cache_t) :
  (i + n <= MAX_OBJECT_CNT)%nat ->
  find_from (CacheT t 1 L) u0 i n = Done (-1, c') ->
  c' = CacheT t 1 L /\
  forall j l, (i <= j < i + n)%nat -> L !! j = Some l -> valid l = 0 \/ uri l <> u0.
Proof.
  revert i. induction n as [| n IH]; intros i Hin H.
  - injection H as <-. split; [reflexivity |]. intros j l Hj. lia.
  - destruct (quiet_line i ltac:(lia)) as (l & Hl & Hc).
    rewrite (find_from_step t L u0 i n l ltac:(lia) Hl Hc) in H.
    destruct (negb (valid l =? 0) && String.eqb (uri l) u0) eqn:E.
    + injection H as H _. lia.
    + destruct (IH (S i) ltac:(lia) H) as [-> Hrest]. split; [reflexivity |].
      intros j l' Hj Hl'. destruct (decide (j = i)) as [-> | Hne].
      * assert (l' = l) as -> by congruence.
        apply andb_false_iff in E as [E | E].
        -- left. apply negb_false_iff, Z.eqb_eq in E. exact E.
        -- right. apply String.eqb_neq, E.
      * apply (Hrest j l' ltac:(lia) Hl').
Qed.

(** The first valid line that holds the uri is the one [cache_find]
    returns, stamped with the time. *)
Lemma find_from_first (u0 : String.string) (n i j : nat) (l : cache_line_t) :
  (i <= j < i + n)%nat -> (i + n <= MAX_OBJECT_CNT)%nat ->
  L !! j = Some l -> valid l <> 0 -> uri l = u0 ->
  (forall k l', (i <= k < j)%nat -> L !! k = Some l' -> valid l' = 0 \/ uri l' <> u0) ->
  find_from (CacheT t 1 L) u0 i n
  = Done (Z.of_nat j, CacheT t 1 (<[j := Line (valid l) t 0 1 1 (uri l) (content l)]> L)).
Proof.
  revert i. induction n as [| n IH]; intros i Hj Hin Hl Hv Hu Hbefore; [lia |].
  destruct (quiet_line i ltac:(lia)) as (li & Hli & Hc).
  rewrite (find_from_step t L u0 i n li ltac:(lia) Hli Hc).
  destruct (decide (i = j)) as [-> | Hne].
  - assert (li = l) as -> by congruence.
    apply Z.eqb_neq in Hv. rewrite Hv, Hu, String.eqb_refl. reflexivity.
  - destruct (Hbefore i li ltac:(lia) Hli) as [E | E].
    + rewrite E. cbn [Z.eqb negb andb]. apply IH; auto; try lia.
      intros k l' Hk. apply Hbefore. lia.
    + apply String.eqb_neq in E. rewrite E, andb_false_r. apply IH; auto; try lia.
      intros k l' Hk. apply Hbefore. lia.
Qed.

(** The line [cache_insert] picks: a line of the array, unless every line it
    saw is valid and as recent as the bound it started from. *)
Lemma evict_from_spec (m : Z) (n i : nat) (e mn : Z) :
  (i + n <= MAX_OBJECT_CNT)%nat ->
  exists e',
    evict_from (CacheT t m L) e mn i n = Done (e', CacheT t m L) /\
    ((e' = e /\
      forall j l, (i <= j < i + n)%nat -> L !! j = Some l -> mn <= last_used_time l) \/
     exists j, e' = Z.of_nat j /\ (i <= j < i + n)%nat).
Proof.
  revert i e mn. induction n as [| n IH]; intros i e mn Hin.
  - exists e. split; [reflexivity |]. left. split; [reflexivity |]. intros j l Hj. lia.
  - destruct (quiet_line i ltac:(lia)) as (l & Hl & Hc).
    rewrite (evict_from_step t m L e mn i n l ltac:(lia) Hl Hc).
    destruct (valid l =? 0).
    { exists (Z.of_nat i). split; [reflexivity |]. right. exists i. split; [reflexivity | lia]. }
    destruct (Z.ltb_spec (last_used_time l) mn) as [Hlt | Hge].
    + destruct (IH (S i) (Z.of_nat i) (last_used_time l) ltac:(lia))
        as (e' & He' & [[-> _] | (j & -> & Hj)]).
      * exists (Z.of_nat i). split; [exact He' |]. right. exists i. split; [reflexivity | lia].
      * exists (Z.of_nat j). split; [exact He' |]. right. exists j. split; [reflexivity | lia].
    + destruct (IH (S i) e mn ltac:(lia)) as (e' & He' & [[-> Hall] | (j & -> & Hj)]).
      * exists e. split; [exact He' |]. left. split; [reflexivity |].
        intros j l' Hj Hl'. destruct (decide (j = i)) as [-> | Hne].
        -- assert (l' = l) as -> by congruence. exact Hge.
        -- apply (Hall j l' ltac:(lia) Hl').
      * exists (Z.of_nat j). split; [exact He' |]. right. exists j. split; [reflexivity | lia].
Qed.

End Quiet.

(** What [cache_insert] does to a cache nobody holds, given the line its
    loop picks. *)
Lemma cache_insert_at (MAXLINE t : Z) (L : list cache_line_t) (u d : String.string)
      (j : nat) :
  length L = MAX_OBJECT_CNT -> Forall calm L -> (j < MAX_OBJECT_CNT)%nat ->
  strlen u < MAXLINE -> strlen d < MAX_OBJECT_SIZE ->
  evict_from (CacheT t 1 L) (-1) 2147483647 0 MAX_OBJECT_CNT
  = Done (Z.of_nat j, CacheT t 1 L) ->
  cache_insert MAXLINE (CacheT t 1 L) u d
  = Done (CacheT t 1 (<[j := Line 1 t 0 1 1 u d]> L)).
Proof.
  intros Hlen Hcalm Hj Hu Hd Hev. unfold cache_insert.
  destruct (Z.ltb_spec MAXLINE (strlen u)); [lia |].
  destruct (Z.ltb_spec MAX_OBJECT_SIZE (strlen d)); [lia |]. cbn [orb].
  rewrite Hev, bind_done.
  destruct (quiet_line L Hlen Hcalm j Hj) as (l & Hl & Hc).
  destruct l as [v lut r a mr u1 d1]. destruct Hc as (Hr & Ha & Hmr).
  cbn [readcnt mutex_access mutex_readcnt] in *. subst.
  rewrite (writer_in _ _ _ _ _ _ _ _ _ _ Hj Hl), bind_done.
  erewrite on_line_at; [| exact Hj | apply (at_insert _ _ _ _ Hl) | reflexivity].
  rewrite bind_done, list_insert_insert_eq.
  unfold P_time.
  cbn [mutex_time time cache_lines valid last_used_time readcnt mutex_access
         mutex_readcnt uri content].
  change (P 1) with (Done 0). rewrite !bind_done.
  erewrite on_line_at; [| exact Hj | apply (at_insert _ _ _ _ Hl) | reflexivity].
  rewrite bind_done, list_insert_insert_eq. unfold V_time.
  cbn [mutex_time time cache_lines valid last_used_time readcnt mutex_access
         mutex_readcnt uri content].
  change (V 0) with 1.
  erewrite on_line_at; [| exact Hj | apply (at_insert _ _ _ _ Hl) | reflexivity].
  rewrite bind_done, list_insert_insert_eq.
  cbn [valid last_used_time readcnt mutex_access mutex_readcnt uri content].
  assert (strcpy MAXLINE u = Done u) as Hcu
    by (unfold strcpy; destruct (Z.ltb_spec (strlen u) MAXLINE); [reflexivity | lia]).
  assert (strcpy MAX_OBJECT_SIZE d = Done d) as Hcd
    by (unfold strcpy; destruct (Z.ltb_spec (strlen d) MAX_OBJECT_SIZE);
        [reflexivity | lia]).
  erewrite on_line_at;
    [| exact Hj | apply (at_insert _ _ _ _ Hl) | rewrite Hcu, bind_done; reflexivity].
  rewrite bind_done, list_insert_insert_eq.
  cbn [valid last_used_time readcnt mutex_access mutex_readcnt uri content].
  erewrite on_line_at;
    [| exact Hj | apply (at_insert _ _ _ _ Hl) | rewrite Hcd, bind_done; reflexivity].
  rewrite bind_done, list_insert_insert_eq.
  cbn [valid last_used_time readcnt mutex_access mutex_readcnt uri content].
  rewrite (writer_out _ _ _ _ _ _ _ _ _ _ Hj (at_insert _ _ _ _ Hl)).
  rewrite list_insert_insert_eq. reflexivity.
Qed.

(** X30.  With one thread and nobody holding a line: when [cache_find]
    misses a uri and [cache_insert] then stores it, with the uri shorter
    than [MAXLINE] and the content shorter than [MAX_OBJECT_SIZE], the next
    [cache_find] returns a line that is valid, holds that uri and that
    content and carries the current time.  Every other line is as it was
    before the three calls, and every semaphore is back at 1. *)
Theorem miss_insert_find (MAXLINE : Z) (c c1 : cache_t) (uri0 content0 : String.string) :
  settled c -> 0 <= time c -> time c + 2 <= Csim.INT_MAX ->
  strlen uri0 < MAXLINE -> strlen content0 < MAX_OBJECT_SIZE ->
  cache_find c uri0 = Done (-1, c1) ->
  exists c2 c3 i l,
    cache_insert MAXLINE c1 uri0 content0 = Done c2 /\
    cache_find c2 uri0 = Done (Z.of_nat i, c3) /\
    cache_lines c3 !! i = Some l /\
    valid l = 1 /\ uri l = uri0 /\ content l = content0 /\
    last_used_time l = time c3 /\
    (forall k, k <> i -> cache_lines c3 !! k = cache_lines c !! k) /\
    settled c3.
Proof.
  destruct c as [t m L]. intros (Hlen & Hm & Hcalm & Hlut) Ht0 Ht2 Hu Hd Hfind.
  cbn [time mutex_time cache_lines] in *. subst m. unfold Csim.INT_MAX in Ht2.
  unfold cache_find, P_time, V_time in Hfind. cbn [time mutex_time cache_lines] in Hfind.
  change (P 1) with (Done 0) in Hfind. rewrite !bind_done in Hfind.
  cbn [time mutex_time cache_lines] in Hfind. change (V 0) with 1 in Hfind. rewrite (int_id (t + 1)) in Hfind by lia.
  destruct (find_from_none (t + 1) L Hlen Hcalm uri0 MAX_OBJECT_CNT 0 c1 (le_n _) Hfind)
    as [-> Hmiss].
  destruct (evict_from_spec (t + 1) L Hlen Hcalm 1 MAX_OBJECT_CNT 0 (-1) 2147483647 (le_n _))
    as (e & Hev & [[_ Hall] | (j & -> & Hj)]).
  { exfalso. destruct (quiet_line L Hlen Hcalm 0 ltac:(unfold MAX_OBJECT_CNT; lia))
      as (l & Hl & _).
    pose proof (Hall 0%nat l ltac:(unfold MAX_OBJECT_CNT; lia) Hl) as Hbig.
    rewrite Forall_lookup in Hlut. pose proof (Hlut 0%nat l Hl). lia. }
  assert (j < MAX_OBJECT_CNT)%nat as Hj' by lia.
  pose (l2 := Line 1 (t + 1) 0 1 1 uri0 content0).
  pose (L2 := <[j := l2]> L).
  assert (length L2 = MAX_OBJECT_CNT) as Hlen2 by (unfold L2; rewrite length_insert; exact Hlen).
  assert (calm l2) as Hcalm_l2 by (repeat split).
  assert (Forall calm L2) as Hcalm2 by (apply Forall_insert; assumption).
  assert (L2 !! j = Some l2) as Hl2 by (apply list_lookup_insert_eq; lia).
  exists (CacheT (t + 1) 1 L2),
    (CacheT (t + 2) 1 (<[j := Line 1 (t + 2) 0 1 1 uri0 content0]> L2)),
    j, (Line 1 (t + 2) 0 1 1 uri0 content0).
  split; [apply (cache_insert_at MAXLINE (t + 1) L uri0 content0 j); assumption |].
  split.
  { unfold cache_find, P_time, V_time. cbn [time mutex_time cache_lines].
    change (P 1) with (Done 0). rewrite !bind_done.
    cbn [time mutex_time cache_lines]. change (V 0) with 1.
    rewrite (int_id (t + 1 + 1)) by lia. replace (t + 1 + 1) with (t + 2) by lia.
    apply (find_from_first (t + 2) L2 Hlen2 Hcalm2 uri0 MAX_OBJECT_CNT 0 j l2);
      try (reflexivity || lia || assumption).
    - discriminate.
    - intros k l' Hk Hl'. unfold L2 in Hl'. rewrite list_lookup_insert_ne in Hl' by lia.
      apply (Hmiss k l' ltac:(lia) Hl'). }
  cbn [cache_lines time].
  split; [apply list_lookup_insert_eq; lia |].
  repeat (split; [reflexivity |]).
  split.
  { intros k Hk. unfold L2. rewrite !list_lookup_insert_ne by congruence. reflexivity. }
  unfold settled. cbn [cache_lines time mutex_time].
  split; [rewrite length_insert; exact Hlen2 |]. split; [reflexivity |]. split.
  - apply Forall_insert; [exact Hcalm2 | repeat split].
  - apply Forall_insert; [| cbn; lia]. unfold L2. apply Forall_insert; [| cbn; lia].
    eapply Forall_impl; [exact Hlut |]. intros l' Hl'. cbn beta in *. lia.
Qed.

Lemma miss_insert_find_witness :
  exists c2 c3 i l,
    cache_insert 8192
      (CacheT 1 1 (replicate 10 (Line 0 0 0 1 1 "x"%string "y"%string)))
      "/index.html"%string "<html>"%string = Done c2 /\
    cache_find c2 "/index.html"%string = Done (Z.of_nat i, c3) /\
    cache_lines c3 !! i = Some l /\
    valid l = 1 /\ uri l = "/index.html"%string /\ content l = "<html>"%string /\
    last_used_time l = time c3 /\
    (forall k, k <> i ->
               cache_lines c3 !! k
               = cache_lines (cache_init
                                (CacheT 7 0 (replicate 10 (Line 5 5 5 5 5 "x"%string
                                                                "y"%string)))) !! k) /\
    settled c3.
Proof.
  apply (miss_insert_find 8192
           (cache_init (CacheT 7 0 (replicate 10 (Line 5 5 5 5 5 "x"%string "y"%string))))
           _ "/index.html"%string "<html>"%string).
  - split; [reflexivity |]. split; [reflexivity |].
    split; vm_compute; repeat (apply List.Forall_cons; [repeat split; discriminate |]);
      apply List.Forall_nil.
  - vm_compute. discriminate.
  - vm_compute. discriminate.
  - reflexivity.
  - reflexivity.
  - vm_compute. reflexivity.
Defined.

End CacheFacts.
